(** * Lobster: pipeline engine, continuation tokens and llm_task.invoke

    A shallow embedding of the parts of the Lobster pipeline shell that its
    specification makes claims about:

    - [JS]              the fragment of the JavaScript / Node.js platform the
                        code calls (JSON, UTF-8, base64url, string helpers);
    - [Token]           token.js ([encodeToken], [decodeToken]);
    - [Runtime]         src/runtime.ts, the CLI pipeline runner;
    - [SdkRuntime]      the SDK pipeline runner ([runPipelineInternal]);
    - [Sdk]             the fluent [Lobster] workflow class ([run], [resume]);
    - [ApproveCommand]  src/commands/stdlib/approve.ts;
    - [SdkApprove]      src/sdk/primitives/approve.ts;
    - [LlmTaskInvoke]   src/commands/stdlib/llm_task_invoke.ts;
    - [Exec]            the SDK's exec primitive ([parseCommand], [exec]);
    - [GroupBy]         src/commands/stdlib/group_by.ts;
    - [State]           the SDK's state primitives ([stateGet], [stateSet]);
    - [Diff]            src/sdk/primitives/diff.ts ([diffLast]).

    Asynchronous code is sequential here: every [await] is a bind of the
    state-and-exception monad [M] over the [World]. *)

From Stdlib Require Import ZArith List String Ascii Bool Lia Decimal.
From Stdlib Require DecimalFacts DecimalPos DecimalN.
From Stdlib Require Import Permutation.
Import ListNotations.
Local Open Scope Z_scope.

(* ===================================================================== *)
(** * Part I: the platform                                                 *)
(* ===================================================================== *)

Module JS.

(** A JavaScript string is a sequence of UTF-16 code units; a [Buffer] is a
    sequence of bytes.  Both are lists of integers, in range when they are
    [units_ok] / [bytes_ok]. *)
Definition jsstring := list Z.
Definition bytes := list Z.

Definition unit_ok (c : Z) : Prop := 0 <= c < 65536.
Definition units_ok (s : jsstring) : Prop := Forall unit_ok s.
Definition byte_ok (b : Z) : Prop := 0 <= b < 256.
Definition bytes_ok (bs : bytes) : Prop := Forall byte_ok bs.

(** String literals of the source, written as Rocq strings. *)
Definition lit (s : string) : jsstring :=
  map (fun a => Z.of_nat (nat_of_ascii a)) (list_ascii_of_string s).

Fixpoint str_eqb (a b : jsstring) : bool :=
  match a, b with
  | [], [] => true
  | x :: a', y :: b' => (x =? y) && str_eqb a' b'
  | _, _ => false
  end.

(** ** Exceptions and results *)

Inductive ErrorKind := KError | KSyntaxError | KTypeError.

(** A thrown value: an [Error] object with its constructor, its message and
    the [code] property Node sets on system errors (['ENOENT'], ...).  The
    message of a SyntaxError is the engine's own text, which differs from
    one version of V8 to the next and is not spelled here: the
    [err_message] of [syntax_error] is empty, and reading the message of a
    SyntaxError ([message_of]) is not followed. *)
Record exn := mkExn {
  err_kind : ErrorKind;
  err_message : jsstring;
  err_code : option jsstring
}.

(** [new Error(msg)] *)
Definition newError (msg : jsstring) : exn := mkExn KError msg None.

(** The SyntaxError that [JSON.parse] throws. *)
Definition syntax_error : exn := mkExn KSyntaxError [] None.

(** What evaluating an expression, or awaiting a promise, comes to: a value,
    a thrown exception (a rejected promise), or a promise that never
    settles.  [Unmodelled] marks the executions this embedding does not
    follow (JavaScript's coercions of values of an unexpected type); like
    [Pending] it is no exception, so no [catch] sees it, and every
    theorem below is about executions that end otherwise. *)
Inductive Outcome (A : Type) :=
| Return (a : A)
| Throw (e : exn)
| Pending
| Unmodelled.
Arguments Return {A} a.
Arguments Throw {A} e.
Arguments Pending {A}.
Arguments Unmodelled {A}.

Definition obind {A B} (o : Outcome A) (k : A -> Outcome B) : Outcome B :=
  match o with
  | Return a => k a
  | Throw e => Throw e
  | Pending => Pending
  | Unmodelled => Unmodelled
  end.

(** [err.message] *)
Definition message_of (err : exn) : Outcome jsstring :=
  match err_kind err with
  | KSyntaxError => Unmodelled
  | _ => Return (err_message err)
  end.

(** [try { o } catch (err) { h err }] for pure code *)
Definition otry {A} (o : Outcome A) (h : exn -> Outcome A) : Outcome A :=
  match o with
  | Throw e => h e
  | other => other
  end.

(** ** JSON values

    A number of JavaScript is an IEEE 754 double.  [JNum n] is the double
    that is the integer [n], for [n] of absolute value at most 2^53, the
    range in which every integer is a double.  [JDec m e] is any other
    finite double, held as the decimal [m * 10^e] that
    [Number.prototype.toString] prints for it: the shortest one that reads
    back as that double ([m] is not divisible by 10; see [shortest] and
    [json_ok]).  [JInf] is an infinity, which [JSON.parse] gives for a
    numeral beyond the doubles and [JSON.stringify] writes as [null].
    Negative zero is not told from zero, and there is no [NaN].  An object
    is the list of its own properties in enumeration order. *)
Unset Elimination Schemes.
Inductive json :=
| JNull
| JBool (b : bool)
| JNum (n : Z)
| JDec (m e : Z)
| JInf (neg : bool)
| JStr (s : jsstring)
| JArr (l : list json)
| JObj (l : list (jsstring * json)).
Set Elimination Schemes.

(** A property read [o.k]: [None] is [undefined]. *)
Fixpoint assoc (k : jsstring) (l : list (jsstring * json)) : option json :=
  match l with
  | [] => None
  | (k', v) :: l' => if str_eqb k k' then Some v else assoc k l'
  end.

Definition get (k : jsstring) (v : json) : option json :=
  match v with
  | JObj l => assoc k l
  | _ => None
  end.

(** [v?.k] on a value that may be [undefined] *)
Definition oget (k : jsstring) (v : option json) : option json :=
  match v with
  | Some j => get k j
  | None => None
  end.

(** [a ?? b]: [b] when [a] is [undefined] or [null] *)
Definition nullish (a : option json) : bool :=
  match a with
  | None | Some JNull => true
  | _ => false
  end.

Definition coalesce (a : option json) (b : option json) : option json :=
  if nullish a then b else a.

(** [Boolean(v)] / the truthiness test of [if (v)] and [!v] *)
Definition truthy (v : option json) : bool :=
  match v with
  | None | Some JNull => false
  | Some (JBool b) => b
  | Some (JNum n) => negb (n =? 0)
  | Some (JDec _ _) | Some (JInf _) => true
  | Some (JStr s) => match s with [] => false | _ => true end
  | Some (JArr _) | Some (JObj _) => true
  end.

(** *** Decimal numerals *)

Fixpoint uint_chars (d : Decimal.uint) : jsstring :=
  match d with
  | Nil => []
  | D0 d => 48 :: uint_chars d
  | D1 d => 49 :: uint_chars d
  | D2 d => 50 :: uint_chars d
  | D3 d => 51 :: uint_chars d
  | D4 d => 52 :: uint_chars d
  | D5 d => 53 :: uint_chars d
  | D6 d => 54 :: uint_chars d
  | D7 d => 55 :: uint_chars d
  | D8 d => 56 :: uint_chars d
  | D9 d => 57 :: uint_chars d
  end.

Definition is_digit (c : Z) : bool := (48 <=? c) && (c <=? 57).

(** The digit [c] in front of the numeral [d]. *)
Definition push_digit (c : Z) (d : Decimal.uint) : Decimal.uint :=
  if c =? 48 then D0 d else if c =? 49 then D1 d else if c =? 50 then D2 d
  else if c =? 51 then D3 d else if c =? 52 then D4 d else if c =? 53 then D5 d
  else if c =? 54 then D6 d else if c =? 55 then D7 d else if c =? 56 then D8 d
  else D9 d.

(** The longest prefix of digits, as a numeral, and what follows it. *)
Fixpoint take_digits (s : jsstring) : Decimal.uint * jsstring :=
  match s with
  | c :: s' =>
      if is_digit c then
        let (d, rest) := take_digits s' in (push_digit c d, rest)
      else (Nil, s)
  | [] => (Nil, [])
  end.

Definition nat_chars (n : N) : jsstring := uint_chars (N.to_uint n).

(** [Number.prototype.toString] on an integer *)
Definition int_chars (z : Z) : jsstring :=
  match z with
  | Z0 => [48]
  | Zpos p => nat_chars (Npos p)
  | Zneg p => 45 :: nat_chars (Npos p)
  end.

(** [Number.prototype.toString] on the double whose shortest decimal is
    [m * 10^e] (Number::toString, radix 10).  With [k] the number of digits
    of [m] and [n = e + k] the place of the decimal point:
    - [k <= n <= 21]: the digits, then [n - k] zeros;
    - [0 < n <= 21]: the first [n] digits, a point, the other digits;
    - [-6 < n <= 0]: [0.], then [-n] zeros, then the digits;
    - otherwise the first digit, a point and the other digits if there are
      any, [e], the sign of [n - 1] and its digits. *)
Definition dec_chars (m e : Z) : jsstring :=
  let digits := nat_chars (Z.to_N (Z.abs m)) in
  let k := Z.of_nat (List.length digits) in
  let n := e + k in
  (if m <? 0 then [45] else []) ++
  if (k <=? n) && (n <=? 21) then
    digits ++ repeat 48 (Z.to_nat (n - k))
  else if (0 <? n) && (n <=? 21) then
    firstn (Z.to_nat n) digits ++ 46 :: skipn (Z.to_nat n) digits
  else if (-6 <? n) && (n <=? 0) then
    48 :: 46 :: repeat 48 (Z.to_nat (- n)) ++ digits
  else
    let x := n - 1 in
    match digits with
    | [] => []
    | [d] => [d]
    | d :: more => d :: 46 :: more
    end ++ 101 :: (if x <? 0 then 45 else 43) :: nat_chars (Z.to_N (Z.abs x)).

(** *** Doubles

    The double nearest to a positive decimal [m * 10^e], ties going to the
    even significand: zero, [M * 2^E] with [-1074 <= E] (and [M] at least
    2^52 unless [E = -1074]), or an infinity. *)
Inductive rounded :=
| RZero
| RFinite (M E : Z)
| RInfinity.

Definition round_half_even (num den : Z) : Z :=
  let q := num / den in
  let r := num mod den in
  if (den <? 2 * r) || ((2 * r =? den) && Z.odd q) then q + 1 else q.

(** [num / (den * 2^E)], rounded down and rounded to nearest. *)
Definition scaled_floor (num den E : Z) : Z :=
  if 0 <=? E then num / (den * 2 ^ E) else (num * 2 ^ (- E)) / den.

Definition scaled_round (num den E : Z) : Z :=
  if 0 <=? E then round_half_even num (den * 2 ^ E)
  else round_half_even (num * 2 ^ (- E)) den.

Definition decimal_digits (m : Z) : Z :=
  Z.of_nat (List.length (nat_chars (Z.to_N m))).

Definition nearest_double (m e : Z) : rounded :=
  let d := decimal_digits m in
  if 310 <=? e + d then RInfinity          (* 10^309 <= m * 10^e *)
  else if e + d <=? -324 then RZero        (* m * 10^e < 10^-324 *)
  else
    let num := if 0 <=? e then m * 10 ^ e else m in
    let den := if 0 <=? e then 1 else 10 ^ (- e) in
    let E0 := Z.log2 num - Z.log2 den - 52 in
    let E1 := if scaled_floor num den E0 <? 2 ^ 52 then E0 - 1 else E0 in
    let E := Z.max E1 (-1074) in
    let M := scaled_round num den E in
    if M =? 0 then RZero
    else if 1024 <=? Z.log2 M + E then RInfinity
    else if M =? 2 ^ 53 then RFinite (2 ^ 52) (E + 1)
    else RFinite M E.

Definition rounds_to (m e M E : Z) : bool :=
  match nearest_double m e with
  | RFinite M' E' => (M' =? M) && (E' =? E)
  | _ => false
  end.

(** Trailing zeros of the digits go to the exponent. *)
Fixpoint strip_zeros (fuel : nat) (m e : Z) : Z * Z :=
  match fuel with
  | O => (m, e)
  | S f =>
      if (m mod 10 =? 0) && negb (m =? 0) then strip_zeros f (m / 10) (e + 1)
      else (m, e)
  end.

Definition strip (m e : Z) : Z * Z :=
  strip_zeros (S (Z.to_nat (Z.log2 m))) m e.

(** The digits [s] and the exponent [t] that Number::toString takes for
    the double [M * 2^E]: [s * 10^t] reads back as the double, [s] has as
    few digits as can be, and of two such [s] the one nearer to the double
    (the even one if they are as near).  The search goes down from an
    exponent [t] above the double, so that the first [s] found has the
    fewest digits and does not end in a zero; 17 digits are always
    enough. *)
Fixpoint shortest_from (fuel : nat) (M E t : Z) : Z * Z :=
  match fuel with
  | O => (0, 0)
  | S f =>
      let num := (if 0 <=? E then M * 2 ^ E else M) *
                 (if 0 <=? t then 1 else 10 ^ (- t)) in
      let den := (if 0 <=? E then 1 else 2 ^ (- E)) *
                 (if 0 <=? t then 10 ^ t else 1) in
      let lo := num / den in
      let hi := lo + 1 in
      let r := num mod den in
      let ok_lo := (0 <? lo) && rounds_to lo t M E in
      let ok_hi := rounds_to hi t M E in
      let nearer_hi := (den <? 2 * r) || ((2 * r =? den) && Z.odd lo) in
      if ok_lo && ok_hi then (if nearer_hi then hi else lo, t)
      else if ok_lo then (lo, t)
      else if ok_hi then (hi, t)
      else shortest_from f M E (t - 1)
  end.

Definition shortest (M E : Z) : Z * Z :=
  shortest_from 24 M E (((Z.log2 M + E + 1) * 30103) / 100000 + 2).

(** The decimal [m * 10^e], and the double [M * 2^E], is an integer up to
    2^53. *)
Definition small_decimal (m e : Z) : bool :=
  (0 <=? e) && (e <=? 15) && (m * 10 ^ e <=? 2 ^ 53).

Definition small_integer (M E : Z) : bool :=
  ((0 <=? E) && (E <=? 1) && (M * 2 ^ E <=? 2 ^ 53))
  || ((E <? 0) && (M mod 2 ^ (- E) =? 0)).

(** The number that the decimal [m * 10^e] reads as ([m] positive and not
    divisible by 10), with its sign.  An integer up to 2^53 is a double.
    Any other decimal is rounded to the nearest double; a decimal beyond
    the doubles reads as an infinity. *)
Definition number_of (neg : bool) (m e : Z) : json :=
  let sg := if neg then -1 else 1 in
  if small_decimal m e then JNum (sg * (m * 10 ^ e))
  else
    match nearest_double m e with
    | RZero => JNum 0
    | RInfinity => JInf neg
    | RFinite M E =>
        if small_integer M E then
          JNum (sg * (if 0 <=? E then M * 2 ^ E else M / 2 ^ (- E)))
        else let (s, t) := shortest M E in JDec (sg * s) t
    end.

(** *** JSON.stringify (no replacer, no indentation) *)

Definition hexchar (d : Z) : Z := if d <? 10 then 48 + d else 87 + d.

Definition hex4 (c : Z) : jsstring :=
  [hexchar (c / 4096); hexchar ((c / 256) mod 16);
   hexchar ((c / 16) mod 16); hexchar (c mod 16)].

(** The escape [\uXXXX] *)
Definition uescape (c : Z) : jsstring := 92 :: 117 :: hex4 c.

Definition is_high (c : Z) : bool := (55296 <=? c) && (c <=? 56319).
Definition is_low (c : Z) : bool := (56320 <=? c) && (c <=? 57343).

(** One code unit that is no surrogate, as QuoteJSONString writes it. *)
Definition quote_unit (c : Z) : jsstring :=
  if c =? 8 then [92; 98]
  else if c =? 9 then [92; 116]
  else if c =? 10 then [92; 110]
  else if c =? 12 then [92; 102]
  else if c =? 13 then [92; 114]
  else if c =? 34 then [92; 34]
  else if c =? 92 then [92; 92]
  else if c <? 32 then uescape c
  else [c].

(** QuoteJSONString walks code points: a surrogate pair is copied, a lone
    surrogate is escaped (well-formed JSON.stringify). *)
Fixpoint quote_units (s : jsstring) : jsstring :=
  match s with
  | [] => []
  | c :: rest =>
      if is_high c then
        match rest with
        | d :: rest' =>
            if is_low d then c :: d :: quote_units rest'
            else uescape c ++ quote_units rest
        | [] => uescape c
        end
      else if is_low c then uescape c ++ quote_units rest
      else quote_unit c ++ quote_units rest
  end.

Definition QuoteJSONString (s : jsstring) : jsstring :=
  34 :: quote_units s ++ [34].

Fixpoint JSON_stringify (v : json) : jsstring :=
  match v with
  | JNull => lit "null"
  | JBool true => lit "true"
  | JBool false => lit "false"
  | JNum n => int_chars n
  | JDec m e => dec_chars m e
  | JInf _ => lit "null"
  | JStr s => QuoteJSONString s
  | JArr l =>
      91 :: (fix elements (l : list json) : jsstring :=
               match l with
               | [] => []
               | x :: l' =>
                   JSON_stringify x ++
                   match l' with [] => [] | _ => 44 :: elements l' end
               end) l ++ [93]
  | JObj l =>
      123 :: (fix members (l : list (jsstring * json)) : jsstring :=
                match l with
                | [] => []
                | (k, x) :: l' =>
                    QuoteJSONString k ++ 58 :: JSON_stringify x ++
                    match l' with [] => [] | _ => 44 :: members l' end
                end) l ++ [125]
  end.

(** *** Objects: defining a property

    [CreateDataProperty] as JSON.parse and object literals use it, seen
    through the enumeration order of own string keys: array indices first,
    ascending, then the other keys in creation order.  Defining a key that
    exists replaces its value in place. *)

(** The array index a key denotes: a canonical decimal numeral below
    2^32 - 1. *)
Definition array_index (k : jsstring) : option Z :=
  match k with
  | [] => None
  | c :: k' =>
      let (d, rest) := take_digits k in
      match rest with
      | [] =>
          if (c =? 48) && negb (match k' with [] => true | _ => false end)
          then None
          else
            let n := Z.of_N (N.of_uint d) in
            if n <? 4294967295 then Some n else None
      | _ :: _ => None
      end
  end.

Fixpoint has_key (k : jsstring) (l : list (jsstring * json)) : bool :=
  match l with
  | [] => false
  | (k', _) :: l' => str_eqb k k' || has_key k l'
  end.

Fixpoint obj_replace (k : jsstring) (v : json) (l : list (jsstring * json))
  : list (jsstring * json) :=
  match l with
  | [] => []
  | (k', v') :: l' =>
      if str_eqb k k' then (k', v) :: l' else (k', v') :: obj_replace k v l'
  end.

Fixpoint obj_insert_index (i : Z) (k : jsstring) (v : json)
  (l : list (jsstring * json)) : list (jsstring * json) :=
  match l with
  | [] => [(k, v)]
  | (k', v') :: l' =>
      match array_index k' with
      | Some j =>
          if j <? i then (k', v') :: obj_insert_index i k v l'
          else (k, v) :: l
      | None => (k, v) :: l
      end
  end.

Definition obj_set (k : jsstring) (v : json) (l : list (jsstring * json))
  : list (jsstring * json) :=
  if has_key k l then obj_replace k v l
  else match array_index k with
       | Some i => obj_insert_index i k v l
       | None => l ++ [(k, v)]
       end.

(** The object that defining the entries of [l] one after the other
    builds. *)
Definition obj_of_entries (l : list (jsstring * json)) : list (jsstring * json) :=
  fold_left (fun o kv => obj_set (fst kv) (snd kv) o) l [].

(** *** JSON.parse (no reviver) *)

Definition is_ws (c : Z) : bool :=
  (c =? 9) || (c =? 10) || (c =? 13) || (c =? 32).

Fixpoint skip_ws (s : jsstring) : jsstring :=
  match s with
  | c :: s' => if is_ws c then skip_ws s' else s
  | [] => []
  end.

Definition hexval (c : Z) : option Z :=
  if (48 <=? c) && (c <=? 57) then Some (c - 48)
  else if (97 <=? c) && (c <=? 102) then Some (c - 87)
  else if (65 <=? c) && (c <=? 70) then Some (c - 55)
  else None.

Definition unhex4 (a b c d : Z) : option Z :=
  match hexval a, hexval b, hexval c, hexval d with
  | Some x, Some y, Some z, Some w => Some (((x * 16 + y) * 16 + z) * 16 + w)
  | _, _, _, _ => None
  end.

(** The character a single-character escape stands for. *)
Definition simple_escape (e : Z) : option Z :=
  if e =? 34 then Some 34
  else if e =? 92 then Some 92
  else if e =? 47 then Some 47
  else if e =? 98 then Some 8
  else if e =? 102 then Some 12
  else if e =? 110 then Some 10
  else if e =? 114 then Some 13
  else if e =? 116 then Some 9
  else None.

(** The characters of a string literal after its opening quote, up to and
    with the closing quote. *)
Fixpoint parse_chars (s : jsstring) : option (jsstring * jsstring) :=
  match s with
  | [] => None
  | c :: s' =>
      if c =? 34 then Some ([], s')
      else if c =? 92 then
        match s' with
        | [] => None
        | e :: s'' =>
            if e =? 117 then
              match s'' with
              | h1 :: h2 :: h3 :: h4 :: s3 =>
                  match unhex4 h1 h2 h3 h4 with
                  | Some u =>
                      match parse_chars s3 with
                      | Some (str, rest) => Some (u :: str, rest)
                      | None => None
                      end
                  | None => None
                  end
              | _ => None
              end
            else
              match simple_escape e with
              | Some u =>
                  match parse_chars s'' with
                  | Some (str, rest) => Some (u :: str, rest)
                  | None => None
                  end
              | None => None
              end
        end
      else if c <? 32 then None
      else
        match parse_chars s' with
        | Some (str, rest) => Some (c :: str, rest)
        | None => None
        end
  end.

(** The value of sign, integer digits, fraction digits and exponent: the
    double nearest to the decimal they write. *)
Definition number_value (neg : bool) (int frac : Decimal.uint) (ex : Z) : json :=
  let f := Z.of_nat (Decimal.nb_digits frac) in
  let m := Z.of_N (N.of_uint int) * 10 ^ f + Z.of_N (N.of_uint frac) in
  let e := ex - f in
  if m =? 0 then JNum 0
  else let (m', e') := strip m e in number_of neg m' e'.

(** [int frac? exp?], the numeral after its sign *)
Definition parse_unsigned (neg : bool) (s1 : jsstring) : option (json * jsstring) :=
  let (int, s2) := take_digits s1 in
  match int with
  | Nil => None
  | D0 (D0 _ | D1 _ | D2 _ | D3 _ | D4 _ | D5 _ | D6 _ | D7 _ | D8 _ | D9 _) => None
  | _ =>
      let frac_part :=
        match s2 with
        | c :: s' =>
            if c =? 46 then
              let (fr, s3) := take_digits s' in
              match fr with Nil => None | _ => Some (fr, s3) end
            else Some (Nil, s2)
        | [] => Some (Nil, s2)
        end in
      match frac_part with
      | None => None
      | Some (frac, s3) =>
          let exp_part :=
            match s3 with
            | c :: s' =>
                if (c =? 101) || (c =? 69) then
                  let (eneg, s4) :=
                    match s' with
                    | g :: s'' =>
                        if g =? 45 then (true, s'')
                        else if g =? 43 then (false, s'')
                        else (false, s')
                    | [] => (false, s')
                    end in
                  let (ed, s5) := take_digits s4 in
                  match ed with
                  | Nil => None
                  | _ =>
                      let x := Z.of_N (N.of_uint ed) in
                      Some (if eneg then - x else x, s5)
                  end
                else Some (0, s3)
            | [] => Some (0, s3)
            end in
          match exp_part with
          | None => None
          | Some (ex, rest) => Some (number_value neg int frac ex, rest)
          end
      end
  end.

(** [-? int frac? exp?] *)
Definition parse_number (s : jsstring) : option (json * jsstring) :=
  match s with
  | c :: s' => if c =? 45 then parse_unsigned true s' else parse_unsigned false s
  | [] => None
  end.

(** [s] starts with the literal [l]: what follows it. *)
Fixpoint strip_prefix (l s : jsstring) : option jsstring :=
  match l, s with
  | [], _ => Some s
  | x :: l', y :: s' => if x =? y then strip_prefix l' s' else None
  | _ :: _, [] => None
  end.

Fixpoint parse_value (fuel : nat) (s : jsstring) {struct fuel}
  : option (json * jsstring) :=
  match fuel with
  | O => None
  | S f =>
      match skip_ws s with
      | [] => None
      | c :: s' =>
          if c =? 123 then
            match skip_ws s' with
            | c2 :: s2 =>
                if c2 =? 125 then Some (JObj [], s2)
                else parse_members f [] (c2 :: s2)
            | [] => None
            end
          else if c =? 91 then
            match skip_ws s' with
            | c2 :: s2 =>
                if c2 =? 93 then Some (JArr [], s2)
                else parse_elements f [] (c2 :: s2)
            | [] => None
            end
          else if c =? 34 then
            match parse_chars s' with
            | Some (str, rest) => Some (JStr str, rest)
            | None => None
            end
          else if c =? 116 then
            match strip_prefix (lit "rue") s' with
            | Some rest => Some (JBool true, rest)
            | None => None
            end
          else if c =? 102 then
            match strip_prefix (lit "alse") s' with
            | Some rest => Some (JBool false, rest)
            | None => None
            end
          else if c =? 110 then
            match strip_prefix (lit "ull") s' with
            | Some rest => Some (JNull, rest)
            | None => None
            end
          else parse_number (c :: s')
      end
  end
with parse_elements (fuel : nat) (acc : list json) (s : jsstring) {struct fuel}
  : option (json * jsstring) :=
  match fuel with
  | O => None
  | S f =>
      match parse_value f s with
      | Some (v, rest) =>
          match skip_ws rest with
          | c :: rest' =>
              if c =? 44 then parse_elements f (acc ++ [v]) rest'
              else if c =? 93 then Some (JArr (acc ++ [v]), rest')
              else None
          | [] => None
          end
      | None => None
      end
  end
with parse_members (fuel : nat) (acc : list (jsstring * json)) (s : jsstring)
  {struct fuel} : option (json * jsstring) :=
  match fuel with
  | O => None
  | S f =>
      match skip_ws s with
      | c :: s' =>
          if c =? 34 then
            match parse_chars s' with
            | Some (k, s1) =>
                match skip_ws s1 with
                | c1 :: s2 =>
                    if c1 =? 58 then
                      match parse_value f s2 with
                      | Some (v, rest) =>
                          match skip_ws rest with
                          | c3 :: rest' =>
                              if c3 =? 44 then parse_members f (obj_set k v acc) rest'
                              else if c3 =? 125 then Some (JObj (obj_set k v acc), rest')
                              else None
                          | [] => None
                          end
                      | None => None
                      end
                    else None
                | [] => None
                end
            | None => None
            end
          else None
      | [] => None
      end
  end.

(** [JSON.parse(text)]: one value between optional white space, or a
    SyntaxError.  Every recursive call of the parser has consumed a
    character since the call two levels up, so the fuel never runs out. *)
Definition JSON_parse (text : jsstring) : Outcome json :=
  match parse_value (2 * List.length text + 2) text with
  | Some (v, rest) =>
      match skip_ws rest with
      | [] => Return v
      | _ :: _ => Throw syntax_error
      end
  | None => Throw syntax_error
  end.

(** *** Buffer.from(str, 'utf8') and buf.toString('utf8') *)

(** UTF-16 to UTF-8; a lone surrogate becomes U+FFFD (EF BF BD). *)
Fixpoint utf8_encode (s : jsstring) : bytes :=
  match s with
  | [] => []
  | c :: rest =>
      if c <? 128 then c :: utf8_encode rest
      else if c <? 2048 then
        (192 + c / 64) :: (128 + c mod 64) :: utf8_encode rest
      else if is_high c then
        match rest with
        | d :: rest' =>
            if is_low d then
              let cp := 65536 + (c - 55296) * 1024 + (d - 56320) in
              (240 + cp / 262144) :: (128 + (cp / 4096) mod 64) ::
              (128 + (cp / 64) mod 64) :: (128 + cp mod 64) :: utf8_encode rest'
            else 239 :: 191 :: 189 :: utf8_encode rest
        | [] => [239; 191; 189]
        end
      else if is_low c then 239 :: 191 :: 189 :: utf8_encode rest
      else
        (224 + c / 4096) :: (128 + (c / 64) mod 64) :: (128 + c mod 64) ::
        utf8_encode rest
  end.

Definition is_cont (b : Z) : bool := (128 <=? b) && (b <=? 191).

(** The second byte a three-byte lead allows (no overlong form, no
    surrogate). *)
Definition second3 (b b1 : Z) : bool :=
  if b =? 224 then (160 <=? b1) && (b1 <=? 191)
  else if b =? 237 then (128 <=? b1) && (b1 <=? 159)
  else is_cont b1.

(** The second byte a four-byte lead allows (U+10000 .. U+10FFFF). *)
Definition second4 (b b1 : Z) : bool :=
  if b =? 240 then (144 <=? b1) && (b1 <=? 191)
  else if b =? 244 then (128 <=? b1) && (b1 <=? 143)
  else is_cont b1.

(** UTF-8 to UTF-16, never failing: every maximal ill-formed prefix becomes
    one U+FFFD. *)
Fixpoint utf8_decode (bs : bytes) : jsstring :=
  match bs with
  | [] => []
  | b :: r =>
      if b <? 128 then b :: utf8_decode r
      else if (194 <=? b) && (b <=? 223) then
        match r with
        | b1 :: r1 =>
            if is_cont b1 then ((b - 192) * 64 + (b1 - 128)) :: utf8_decode r1
            else 65533 :: utf8_decode r
        | [] => [65533]
        end
      else if (224 <=? b) && (b <=? 239) then
        match r with
        | b1 :: r1 =>
            if second3 b b1 then
              match r1 with
              | b2 :: r2 =>
                  if is_cont b2 then
                    ((b - 224) * 4096 + (b1 - 128) * 64 + (b2 - 128)) :: utf8_decode r2
                  else 65533 :: utf8_decode r1
              | [] => [65533]
              end
            else 65533 :: utf8_decode r
        | [] => [65533]
        end
      else if (240 <=? b) && (b <=? 244) then
        match r with
        | b1 :: r1 =>
            if second4 b b1 then
              match r1 with
              | b2 :: r2 =>
                  if is_cont b2 then
                    match r2 with
                    | b3 :: r3 =>
                        if is_cont b3 then
                          let cp := (b - 240) * 262144 + (b1 - 128) * 4096
                                    + (b2 - 128) * 64 + (b3 - 128) in
                          (55296 + (cp - 65536) / 1024) ::
                          (56320 + (cp - 65536) mod 1024) :: utf8_decode r3
                        else 65533 :: utf8_decode r2
                    | [] => [65533]
                    end
                  else 65533 :: utf8_decode r1
              | [] => [65533]
              end
            else 65533 :: utf8_decode r
        | [] => [65533]
        end
      else 65533 :: utf8_decode r
  end.

(** *** buf.toString('base64url') and Buffer.from(str, 'base64url') *)

Definition b64char (x : Z) : Z :=
  if x <? 26 then 65 + x
  else if x <? 52 then 71 + x
  else if x <? 62 then x - 4
  else if x =? 62 then 45
  else 95.

(** URL-safe alphabet, no padding. *)
Fixpoint base64url_encode (bs : bytes) : jsstring :=
  match bs with
  | [] => []
  | [a] => [b64char (a / 4); b64char ((a mod 4) * 16)]
  | [a; b] =>
      [b64char (a / 4); b64char ((a mod 4) * 16 + b / 16);
       b64char ((b mod 16) * 4)]
  | a :: b :: c :: r =>
      b64char (a / 4) :: b64char ((a mod 4) * 16 + b / 16) ::
      b64char ((b mod 16) * 4 + c / 64) :: b64char (c mod 64) ::
      base64url_encode r
  end.

(** Node's decoder takes the standard and the URL-safe alphabet alike.  It
    reads a code unit of the string as a byte: a code unit above 255
    counts by its low byte. *)
Definition unbase64 (unit : Z) : option Z :=
  let c := unit mod 256 in
  if (65 <=? c) && (c <=? 90) then Some (c - 65)
  else if (97 <=? c) && (c <=? 122) then Some (c - 71)
  else if (48 <=? c) && (c <=? 57) then Some (c + 4)
  else if (c =? 45) || (c =? 43) then Some 62
  else if (c =? 95) || (c =? 47) then Some 63
  else None.

(** It never fails: characters outside the alphabet are skipped and an [=]
    ends the input. *)
Fixpoint sextets (s : jsstring) : list Z :=
  match s with
  | [] => []
  | c :: s' =>
      if c mod 256 =? 61 then []
      else match unbase64 c with
           | Some x => x :: sextets s'
           | None => sextets s'
           end
  end.

Fixpoint sextets_bytes (l : list Z) : bytes :=
  match l with
  | a :: b :: c :: d :: r =>
      (a * 4 + b / 16) :: ((b mod 16) * 16 + c / 4) :: ((c mod 4) * 64 + d) ::
      sextets_bytes r
  | [a; b; c] => [a * 4 + b / 16; (b mod 16) * 16 + c / 4]
  | [a; b] => [a * 4 + b / 16]
  | _ => []
  end.

Definition base64url_decode (s : jsstring) : bytes := sextets_bytes (sextets s).

(** *** String(v), trim, indexOf *)

(** [String(v)] on a JSON value: an array joins the strings of its
    elements ([null] counting as empty), a plain object is
    ["[object Object]"]. *)
Fixpoint to_String (v : json) : jsstring :=
  match v with
  | JNull => lit "null"
  | JBool true => lit "true"
  | JBool false => lit "false"
  | JNum n => int_chars n
  | JDec m e => dec_chars m e
  | JInf neg => if neg then lit "-Infinity" else lit "Infinity"
  | JStr s => s
  | JArr l =>
      (fix join (l : list json) : jsstring :=
         match l with
         | [] => []
         | x :: l' =>
             match x with JNull => [] | _ => to_String x end ++
             match l' with [] => [] | _ => 44 :: join l' end
         end) l
  | JObj _ => lit "[object Object]"
  end.

(** WhiteSpace and LineTerminator code units, the ones [trim] removes. *)
Definition is_space (c : Z) : bool :=
  ((9 <=? c) && (c <=? 13)) || (c =? 32) || (c =? 160) || (c =? 5760)
  || ((8192 <=? c) && (c <=? 8202)) || (c =? 8232) || (c =? 8233)
  || (c =? 8239) || (c =? 8287) || (c =? 12288) || (c =? 65279).

Fixpoint trim_start (s : jsstring) : jsstring :=
  match s with
  | c :: s' => if is_space c then trim_start s' else s
  | [] => []
  end.

Definition trim (s : jsstring) : jsstring :=
  List.rev (trim_start (List.rev (trim_start s))).

(** [s.indexOf(c)] for a one-character needle; [None] is [-1]. *)
Fixpoint indexOf (c : Z) (s : jsstring) : option nat :=
  match s with
  | [] => None
  | x :: s' =>
      if x =? c then Some O
      else match indexOf c s' with
           | Some i => Some (S i)
           | None => None
           end
  end.

(** *** The JSON values of JavaScript *)

(** Well-formed UTF-16: every surrogate is half of a pair. *)
Fixpoint well_formed (s : jsstring) : bool :=
  match s with
  | [] => true
  | c :: rest =>
      if is_high c then
        match rest with
        | d :: rest' => is_low d && well_formed rest'
        | [] => false
        end
      else negb (is_low c) && well_formed rest
  end.

(** A JSON value of JavaScript: its strings are sequences of code units,
    its numbers are finite doubles (an integer up to 2^53, or another
    double [M * 2^E], given by the digits and the exponent that
    Number::toString takes for it), and the properties of its objects stand
    in the order in which an object enumerates them (so no key occurs
    twice). *)
Fixpoint json_ok (v : json) : Prop :=
  match v with
  | JNull | JBool _ => True
  | JNum n => Z.abs n <= 9007199254740992
  | JDec m e =>
      m <> 0 /\ m mod 10 <> 0 /\ small_decimal (Z.abs m) e = false /\
      exists M E : Z, small_integer M E = false /\ shortest M E = (Z.abs m, e)
  | JInf _ => False
  | JStr s => units_ok s
  | JArr l =>
      (fix all (l : list json) : Prop :=
         match l with
         | [] => True
         | x :: l' => json_ok x /\ all l'
         end) l
  | JObj l =>
      obj_of_entries l = l /\
      (fix all (l : list (jsstring * json)) : Prop :=
         match l with
         | [] => True
         | (k, x) :: l' => units_ok k /\ json_ok x /\ all l'
         end) l
  end.

End JS.

(* ===================================================================== *)
(** * Part II: the program                                                 *)
(* ===================================================================== *)

(** ** token.js *)

Module Token.
Import JS.

(** [[
export function encodeToken(obj) {
  const json = JSON.stringify(obj);
  return Buffer.from(json, 'utf8').toString('base64url');
}
]] *)
Definition encodeToken (obj : json) : jsstring :=
  let json := JSON_stringify obj in
  base64url_encode (utf8_encode json).

(** [[
export function decodeToken(token) {
  try {
    const json = Buffer.from(String(token), 'base64url').toString('utf8');
    return JSON.parse(json);
  } catch (_err) {
    throw new Error('Invalid token');
  }
}
]] *)
Definition decodeToken (token : jsstring) : Outcome json :=
  otry
    (let json := utf8_decode (base64url_decode token) in
     JSON_parse json)
    (fun _err => Throw (newError (lit "Invalid token"))).

End Token.


(** ** The world, promises and streams *)

Module Eff.
Import JS.

(** An environment object ([process.env], [ctx.env]): a property read. *)
Definition Env := jsstring -> option jsstring.

(** What the code can observe or change outside its own variables. *)
Record World := mkWorld {
  w_env : Env;                 (* process.env *)
  w_stdout : list jsstring;    (* what was written to stdout, oldest first *)
  w_stdin : list jsstring;     (* the chunks stdin will emit as 'data' events *)
  w_effects : list json        (* every other effect, in order: requests sent,
                                  files written, processes spawned, ... *)
}.

(** An [async] computation, awaited to its end. *)
Definition M (A : Type) : Type := World -> Outcome A * World.

Definition ret {A} (a : A) : M A := fun w => (Return a, w).

Definition throw {A} (e : exn) : M A := fun w => (Throw e, w).

Definition lift {A} (o : Outcome A) : M A := fun w => (o, w).

Definition bind {A B} (c : M A) (k : A -> M B) : M B :=
  fun w =>
    match c w with
    | (Return a, w') => k a w'
    | (Throw e, w') => (Throw e, w')
    | (Pending, w') => (Pending, w')
    | (Unmodelled, w') => (Unmodelled, w')
    end.

(** [try { c } catch (err) { h err }] *)
Definition try_catch {A} (c : M A) (h : exn -> M A) : M A :=
  fun w =>
    match c w with
    | (Throw e, w') => h e w'
    | other => other
    end.

Declare Scope eff_scope.
Delimit Scope eff_scope with eff.
Notation "x <- c ;; k" := (bind c (fun x => k))
  (at level 61, c at next level, right associativity) : eff_scope.
Notation "c ;;; k" := (bind c (fun _ => k))
  (at level 61, right associativity) : eff_scope.

(** An async iterable, seen by the one thing its consumers here do to it:
    draining it with [for await].  Draining runs whatever the producer
    deferred, and may throw. *)
Definition Stream := M (list json).

(** [async function* emptyStream() {}] *)
Definition emptyStream : Stream := ret [].

(** [async function* asStream(items) { for (const item of items) yield item; }]
    (also [streamOf]) *)
Definition asStream (items : list json) : Stream := ret items.

Record Stdin := mkStdin { isTTY : bool }.

(** The execution context object handed to every stage.  [stdout], [stderr],
    [registry] and [render] are handles; what is done through them lands in
    the [World]. *)
Record Ctx := mkCtx {
  ctx_stdin : option Stdin;
  ctx_env : option Env;
  ctx_mode : jsstring;
  ctx_stateDir : option jsstring
}.

(** What a stage's [run] resolves to: [{ output, halt, rendered }]. *)
Record StageResult := mkStageResult {
  output : option Stream;
  halt : bool;
  rendered : bool
}.

(** [result?.output ?? emptyStream()] *)
Definition output_or_empty (result : option StageResult) : Stream :=
  match result with
  | Some r => match output r with Some s => s | None => emptyStream end
  | None => emptyStream
  end.

(** [result?.halt], [result?.rendered] as conditions *)
Definition halt_of (result : option StageResult) : bool :=
  match result with Some r => halt r | None => false end.

Definition rendered_of (result : option StageResult) : bool :=
  match result with Some r => rendered r | None => false end.

End Eff.

(** ** src/runtime.ts: the CLI runner *)

Module Runtime.
Import JS Eff.
Local Open Scope eff_scope.

(** A parsed pipeline stage [{ name, args }] and a registered command. *)
Record PipelineStage := mkPipelineStage { name : jsstring; args : json }.

Record Command := mkCommand {
  run : Stream -> json -> Ctx -> M (option StageResult)
}.

(** [registry.get] *)
Definition Registry := jsstring -> option Command.

Record HaltedAt := mkHaltedAt { index : Z; stage : PipelineStage }.

(** The variables the loop updates. *)
Record Vars := mkVars {
  v_stream : Stream;
  v_rendered : bool;
  v_halted : bool;
  v_haltedAt : option HaltedAt
}.

Record Result := mkResult {
  items : list json;
  res_rendered : bool;
  halted : bool;
  haltedAt : option HaltedAt
}.

(** [[
  for (let idx = 0; idx < pipeline.length; idx++) {
    const stage = pipeline[idx];
    const command = registry.get(stage.name);
    if (!command) throw new Error(`Unknown command: ${stage.name}`);
    const result = await command.run({ input: stream, args: stage.args, ctx });
    if (result?.rendered) rendered = true;
    if (result?.halt) {
      halted = true; haltedAt = { index: idx, stage };
      stream = result.output ?? emptyStream();
      break;
    }
    stream = result?.output ?? emptyStream();
  }
]]
    [for_stages idx rest vars] is the loop from index [idx] on, [rest]
    being [pipeline.slice(idx)]; [call_stage] is its body up to [result]. *)
Definition call_stage (registry : Registry) (ctx : Ctx) (stage : PipelineStage)
  (stream : Stream) : M (option StageResult) :=
  match registry (name stage) with
  | None => throw (newError (lit "Unknown command: " ++ name stage))
  | Some command => run command stream (args stage) ctx
  end.

Fixpoint for_stages (registry : Registry) (ctx : Ctx) (idx : Z)
  (rest : list PipelineStage) (vars : Vars) : M Vars :=
  match rest with
  | [] => ret vars
  | stage :: rest' =>
      result <- call_stage registry ctx stage (v_stream vars) ;;
      let rendered := if rendered_of result then true else v_rendered vars in
      if halt_of result then
        ret (mkVars (output_or_empty result) rendered true
                    (Some (mkHaltedAt idx stage)))
      else
        for_stages registry ctx (idx + 1) rest'
          (mkVars (output_or_empty result) rendered
                  (v_halted vars) (v_haltedAt vars))
  end.

(** [[
export async function runPipeline({ pipeline, registry, stdin, stdout, stderr,
                                    env, mode = 'human', input }) {
  let stream = input ?? emptyStream();
  let rendered = false; let halted = false; let haltedAt = null;
  const ctx = { stdin, stdout, stderr, env, registry, mode, render: ... };
  for (...) { ... }
  const items = [];
  for await (const item of stream) items.push(item);
  return { items, rendered, halted, haltedAt };
}
]] *)
Definition runPipeline (pipeline : list PipelineStage) (registry : Registry)
  (stdin : option Stdin) (env : option Env) (mode : option jsstring)
  (input : option Stream) : M Result :=
  let stream := match input with Some s => s | None => emptyStream end in
  let ctx := mkCtx stdin env
               (match mode with Some m => m | None => lit "human" end) None in
  vars <- for_stages registry ctx 0 pipeline (mkVars stream false false None) ;;
  items <- v_stream vars ;;
  ret (mkResult items (v_rendered vars) (v_halted vars) (v_haltedAt vars)).

End Runtime.

(** ** The SDK runner ([runPipelineInternal]) *)

Module SdkRuntime.
Import JS Eff.
Local Open Scope eff_scope.

(** What can be handed to [toAsyncIterable]: [null]/[undefined], a JSON
    value, or an iterable object (a generator, an async iterable). *)
Inductive Source :=
| SrcUndefined
| SrcValue (v : json)
| SrcIterable (s : Stream).

(** Iterating a string yields its code points, each as a string. *)
Fixpoint code_points (s : jsstring) : list json :=
  match s with
  | [] => []
  | c :: rest =>
      match rest with
      | d :: rest' =>
          if is_high c && is_low d then JStr [c; d] :: code_points rest'
          else JStr [c] :: code_points rest
      | [] => [JStr [c]]
      end
  end.

(** [[
async function* toAsyncIterable(input) {
  if (input === null || input === undefined) return;
  if (Array.isArray(input)) { for (const item of input) yield item; return; }
  if (typeof input[Symbol.asyncIterator] === 'function') { yield* input; return; }
  if (typeof input[Symbol.iterator] === 'function') { for (...) yield item; return; }
  yield input;
}
]] *)
Definition toAsyncIterable (input : Source) : Stream :=
  match input with
  | SrcUndefined => ret []
  | SrcValue JNull => ret []
  | SrcValue (JArr l) => ret l
  | SrcIterable s => s
  | SrcValue (JStr s) => ret (code_points s)
  | SrcValue v => ret [v]
  end.

(** [[
async function collectItems(iterable) {
  const items = [];
  for await (const item of iterable) items.push(item);
  return items;
}
]] *)
Definition collectItems (iterable : Stream) : M (list json) :=
  items <- iterable ;; ret items.

(** A stage of an SDK pipeline, [typeof stage] and [stage.constructor.name]
    decided: a plain (possibly async) function of the collected items, a
    generator function of the stream (calling it runs none of its body), an
    object with a [run] method, or anything else. *)
Inductive Stage :=
| StageFunction (f : list json -> Ctx -> M Source)
| StageGenerator (g : Stream -> Ctx -> Stream)
| StageObject (run : Stream -> Ctx -> M (option StageResult))
| StageOther.

Record HaltedAt := mkHaltedAt { index : Z; stage : Stage }.

Record Vars := mkVars {
  v_stream : Stream;
  v_halted : bool;
  v_haltedAt : option HaltedAt
}.

(** [PipelineResult] *)
Record PipelineResult := mkPipelineResult {
  items : list json;
  halted : bool;
  haltedAt : option HaltedAt
}.

(** The body of the loop up to [result]:
[[
    if (typeof stage === 'function') {
      if (isGenerator) { result = { output: stage(stream, ctx) }; }
      else {
        const items = await collectItems(stream);
        const output = await stage(items, ctx);
        result = { output: toAsyncIterable(output) };
      }
    } else if (typeof stage?.run === 'function') {
      result = await stage.run({ input: stream, ctx });
    } else {
      throw new Error(`Invalid stage at index ${idx}: must be a function or have run() method`);
    }
]] *)
Definition call_stage (idx : Z) (stage : Stage) (stream : Stream) (ctx : Ctx)
  : M (option StageResult) :=
  match stage with
  | StageGenerator g =>
      ret (Some (mkStageResult (Some (g stream ctx)) false false))
  | StageFunction f =>
      items <- collectItems stream ;;
      output <- f items ctx ;;
      ret (Some (mkStageResult (Some (toAsyncIterable output)) false false))
  | StageObject run => run stream ctx
  | StageOther =>
      throw (newError (lit "Invalid stage at index " ++ int_chars idx ++
                       lit ": must be a function or have run() method"))
  end.

(** [[
  for (let idx = 0; idx < stages.length; idx++) {
    const stage = stages[idx];
    let result; ...
    if (result?.halt) {
      halted = true; haltedAt = { index: idx, stage };
      stream = result.output ?? toAsyncIterable([]);
      break;
    }
    stream = result?.output ?? toAsyncIterable([]);
  }
]] *)
Fixpoint for_stages (ctx : Ctx) (idx : Z) (rest : list Stage) (vars : Vars)
  : M Vars :=
  match rest with
  | [] => ret vars
  | stage :: rest' =>
      result <- call_stage idx stage (v_stream vars) ctx ;;
      if halt_of result then
        ret (mkVars (output_or_empty result) true (Some (mkHaltedAt idx stage)))
      else
        for_stages ctx (idx + 1) rest'
          (mkVars (output_or_empty result) (v_halted vars) (v_haltedAt vars))
  end.

(** [[
export async function runPipelineInternal({ stages, ctx, input = [] }) {
  let stream = toAsyncIterable(input);
  let halted = false; let haltedAt = null;
  for (...) { ... }
  const items = await collectItems(stream);
  return { items, halted, haltedAt };
}
]]
    ([input = []] only replaces [undefined], which [toAsyncIterable] drains
    to nothing as well.) *)
Definition runPipelineInternal (stages : list Stage) (ctx : Ctx) (input : Source)
  : M PipelineResult :=
  let stream := toAsyncIterable input in
  vars <- for_stages ctx 0 stages (mkVars stream false None) ;;
  items <- collectItems (v_stream vars) ;;
  ret (mkPipelineResult items (v_halted vars) (v_haltedAt vars)).

(** The re-export for CLI-style pipelines: every name is resolved before
    anything runs.
[[
  const stages = pipeline.map((stage) => {
    const command = registry.get(stage.name);
    if (!command) throw new Error(`Unknown command: ${stage.name}`);
    return { run: async ({ input, ctx }) => command.run({ input, args: stage.args, ctx }) };
  });
]] *)
Fixpoint resolve (registry : Runtime.Registry)
  (pipeline : list Runtime.PipelineStage) : Outcome (list Stage) :=
  match pipeline with
  | [] => Return []
  | stage :: rest =>
      match registry (Runtime.name stage) with
      | None => Throw (newError (lit "Unknown command: " ++ Runtime.name stage))
      | Some command =>
          obind (resolve registry rest) (fun stages =>
            Return (StageObject (fun input ctx =>
                      Runtime.run command input (Runtime.args stage) ctx)
                    :: stages))
      end
  end.

(** [[
export async function runPipeline({ pipeline, registry, stdin, stdout, stderr,
                                    env, mode = 'human', input }) {
  const stages = pipeline.map(...);
  const ctx = { stdin, stdout, stderr, env, mode };
  return runPipelineInternal({ stages, ctx,
                               input: input ? await collectItems(input) : [] });
}
]] *)
Definition runPipeline (pipeline : list Runtime.PipelineStage)
  (registry : Runtime.Registry) (stdin : option Stdin) (env : option Env)
  (mode : option jsstring) (input : option Stream) : M PipelineResult :=
  stages <- lift (resolve registry pipeline) ;;
  let ctx := mkCtx stdin env
               (match mode with Some m => m | None => lit "human" end) None in
  collected <- match input with
               | Some s => collectItems s
               | None => ret []
               end ;;
  runPipelineInternal stages ctx (SrcValue (JArr collected)).

End SdkRuntime.

(** ** The SDK's approve primitive (src/sdk/primitives/approve.ts) *)

Module SdkApprove.
Import JS Eff SdkRuntime.
Local Open Scope eff_scope.

(** [[
export function approve(options = {}) {
  const prompt = options.prompt ?? 'Approve?';
  const preview = options.preview !== false;
  return {
    type: 'approve', prompt,
    async run({ input, ctx: _ctx }) {
      const items = [];
      for await (const item of input) items.push(item);
      return {
        halt: true,
        output: (async function* () {
          yield { type: 'approval_request', prompt,
                  items: preview ? items : [], itemCount: items.length };
        })(),
      };
    },
  };
}
]] *)
Definition approve_run (prompt : json) (preview : bool)
  (input : Stream) (_ctx : Ctx) : M (option StageResult) :=
  items <- input ;;
  ret (Some (mkStageResult
    (Some (asStream
       [JObj [(lit "type", JStr (lit "approval_request"));
              (lit "prompt", prompt);
              (lit "items", JArr (if preview then items else []));
              (lit "itemCount", JNum (Z.of_nat (List.length items)))]]))
    true false)).

Definition approve (options : json) : Stage :=
  let prompt :=
    match coalesce (get (lit "prompt") options) (Some (JStr (lit "Approve?"))) with
    | Some p => p
    | None => JStr (lit "Approve?")
    end in
  let preview :=
    match get (lit "preview") options with
    | Some (JBool false) => false
    | _ => true
    end in
  StageObject (approve_run prompt preview).

End SdkApprove.

(** ** The Lobster workflow class *)

Module Sdk.
Import JS Eff SdkRuntime.
Local Open Scope eff_scope.

Record Options := mkOptions { env : Env; stateDir : option jsstring }.

(** The private fields [#stages], [#options], [#meta]. *)
Record Lobster := mkLobster {
  stages : list Stage;
  options : Options;
  meta : option json
}.

(** [requiresApproval]: [{ prompt, items, resumeToken }]; [prompt] and
    [items] are whatever the approval request carries, if anything. *)
Record Approval := mkApproval {
  prompt : option json;
  approval_items : option json;
  resumeToken : jsstring
}.

Record ErrorInfo := mkErrorInfo { type : jsstring; message : jsstring }.

(** [LobsterResult] *)
Record LobsterResult := mkLobsterResult {
  ok : bool;
  status : jsstring;
  result_output : list json;
  requiresApproval : option Approval;
  error : option ErrorInfo
}.

(** [[
  constructor(options = {}) {
    this.#options = { env: options.env ?? process.env, stateDir: options.stateDir };
  }
]] *)
Definition constructor (env : option Env) (stateDir : option jsstring) : M Lobster :=
  fun w =>
    (Return (mkLobster []
               (mkOptions (match env with Some e => e | None => w_env w end) stateDir)
               None), w).

(** [[
  pipe(stage) {
    if (typeof stage !== 'function' && typeof stage?.run !== 'function')
      throw new Error('Stage must be a function or have a run() method');
    this.#stages.push(stage);
    return this;
  }
]] *)
Definition pipe (this : Lobster) (stage : Stage) : Outcome Lobster :=
  match stage with
  | StageOther =>
      Throw (newError (lit "Stage must be a function or have a run() method"))
  | _ => Return (mkLobster (stages this ++ [stage]) (options this) (meta this))
  end.

(** A property of an object literal as JSON.stringify sees it: one whose
    value is [undefined] is left out. *)
Definition prop (k : jsstring) (v : option json) : list (jsstring * json) :=
  match v with
  | Some x => [(k, x)]
  | None => []
  end.

(** The object literal both [run] and [resume] hand to [encodeToken]:
[[
  { protocolVersion: 1, v: 1, stageIndex: ..., resumeAtIndex: ...,
    items: approval.items, prompt: approval.prompt }
]] *)
Definition token_object (stageIndex resumeAtIndex : Z) (approval : json) : json :=
  JObj ([(lit "protocolVersion", JNum 1); (lit "v", JNum 1);
         (lit "stageIndex", JNum stageIndex);
         (lit "resumeAtIndex", JNum resumeAtIndex)]
        ++ prop (lit "items") (get (lit "items") approval)
        ++ prop (lit "prompt") (get (lit "prompt") approval)).

(** [result.items[0]?.type === 'approval_request'] *)
Definition is_approval_request (item : json) : bool :=
  match get (lit "type") item with
  | Some (JStr s) => str_eqb s (lit "approval_request")
  | _ => false
  end.

(** [result.halted && result.items.length === 1 &&
     result.items[0]?.type === 'approval_request']: the approval request. *)
Definition approval_halt (result : PipelineResult) : option json :=
  if halted result then
    match items result with
    | [item] => if is_approval_request item then Some item else None
    | _ => None
    end
  else None.

Definition needs_approval (approval : json) (token : jsstring) : LobsterResult :=
  mkLobsterResult true (lit "needs_approval") []
    (Some (mkApproval (get (lit "prompt") approval)
                      (get (lit "items") approval) token))
    None.

Definition completed (result : PipelineResult) : LobsterResult :=
  mkLobsterResult true (lit "ok") (items result) None None.

(** The [catch (err)] branch of [run] and [resume]:
[[
      return { ok: false, status: 'error', output: [], requiresApproval: null,
               error: { type: 'runtime_error', message: err?.message ?? String(err) } };
]] *)
Definition failed (err : exn) : Outcome LobsterResult :=
  obind (message_of err) (fun message =>
    Return (mkLobsterResult false (lit "error") [] None
              (Some (mkErrorInfo (lit "runtime_error") message)))).

Definition sdk_ctx (this : Lobster) : Ctx :=
  mkCtx None (Some (env (options this))) (lit "sdk") (stateDir (options this)).

(** [[
  async run(initialInput = []) {
    const ctx = { env: this.#options.env, stateDir: this.#options.stateDir, mode: 'sdk' };
    try {
      const result = await runPipelineInternal({ stages: this.#stages, ctx, input: initialInput });
      if (result.halted && result.items.length === 1 &&
          result.items[0]?.type === 'approval_request') {
        const approval = result.items[0];
        const resumeToken = encodeToken({
          protocolVersion: 1, v: 1,
          stageIndex: result.haltedAt?.index ?? -1,
          resumeAtIndex: (result.haltedAt?.index ?? -1) + 1,
          items: approval.items, prompt: approval.prompt });
        return { ok: true, status: 'needs_approval', output: [],
                 requiresApproval: { prompt: approval.prompt, items: approval.items, resumeToken } };
      }
      return { ok: true, status: 'ok', output: result.items, requiresApproval: null };
    } catch (err) { ... }
  }
]] *)
Definition run (this : Lobster) (initialInput : Source) : M LobsterResult :=
  let ctx := sdk_ctx this in
  try_catch
    (result <- runPipelineInternal (stages this) ctx initialInput ;;
     match approval_halt result with
     | Some approval =>
         let index := match haltedAt result with
                      | Some h => SdkRuntime.index h
                      | None => -1
                      end in
         let resumeToken :=
           Token.encodeToken (token_object index (index + 1) approval) in
         ret (needs_approval approval resumeToken)
     | None => ret (completed result)
     end)
    (fun err => lift (failed err)).

(** [Array.prototype.slice(start)] *)
Definition slice {A} (l : list A) (start : Z) : list A :=
  let len := Z.of_nat (List.length l) in
  let k := if start <? 0 then Z.max (len + start) 0 else Z.min start len in
  skipn (Z.to_nat k) l.

(** [payload.k]: reading a property of [null] throws a TypeError; any other
    JSON value that is no object has none of the properties read here. *)
Definition member (payload : json) (k : jsstring) : Outcome (option json) :=
  match payload with
  | JNull =>
      Throw (mkExn KTypeError
               (lit "Cannot read properties of null (reading '" ++ k ++ lit "')")
               None)
  | _ => Return (get k payload)
  end.

(** [payload.resumeAtIndex ?? 0] as the number that [slice] and [+] use.
    An integer is itself; for a value of any other type the coercions of
    [slice] and of [+] are not followed. *)
Definition resume_index (v : option json) : Outcome Z :=
  match coalesce v (Some (JNum 0)) with
  | Some (JNum n) => Return n
  | _ => Unmodelled
  end.

Definition cancelled : LobsterResult :=
  mkLobsterResult true (lit "cancelled") [] None None.

(** [[
  async resume(token, { approved }) {
    if (!approved) {
      return { ok: true, status: 'cancelled', output: [], requiresApproval: null };
    }
    const payload = decodeToken(token);
    const resumeIndex = payload.resumeAtIndex ?? 0;
    const resumeItems = payload.items ?? [];
    const remainingStages = this.#stages.slice(resumeIndex);
    const ctx = { ... mode: 'sdk' };
    try {
      const result = await runPipelineInternal({ stages: remainingStages, ctx, input: resumeItems });
      if (result.halted && result.items.length === 1 &&
          result.items[0]?.type === 'approval_request') {
        const approval = result.items[0];
        const resumeToken = encodeToken({
          protocolVersion: 1, v: 1,
          stageIndex: resumeIndex + (result.haltedAt?.index ?? 0),
          resumeAtIndex: resumeIndex + (result.haltedAt?.index ?? 0) + 1,
          items: approval.items, prompt: approval.prompt });
        return { ok: true, status: 'needs_approval', ... };
      }
      return { ok: true, status: 'ok', output: result.items, requiresApproval: null };
    } catch (err) { ... }
  }
]] *)
Definition resume (this : Lobster) (token : jsstring) (approved : bool)
  : M LobsterResult :=
  if negb approved then ret cancelled
  else
    payload <- lift (Token.decodeToken token) ;;
    resumeAtIndex <- lift (member payload (lit "resumeAtIndex")) ;;
    resumeIndex <- lift (resume_index resumeAtIndex) ;;
    payload_items <- lift (member payload (lit "items")) ;;
    let resumeItems :=
      match coalesce payload_items (Some (JArr [])) with
      | Some v => v
      | None => JArr []
      end in
    let remainingStages := slice (stages this) resumeIndex in
    let ctx := sdk_ctx this in
    try_catch
      (result <- runPipelineInternal remainingStages ctx (SrcValue resumeItems) ;;
       match approval_halt result with
       | Some approval =>
           let index := match haltedAt result with
                        | Some h => SdkRuntime.index h
                        | None => 0
                        end in
           let resumeToken :=
             Token.encodeToken
               (token_object (resumeIndex + index) (resumeIndex + index + 1) approval) in
           ret (needs_approval approval resumeToken)
       | None => ret (completed result)
       end)
      (fun err => lift (failed err)).

(** [[
  clone() {
    const cloned = new Lobster(this.#options);
    cloned.#stages = [...this.#stages];
    cloned.#meta = this.#meta ? { ...this.#meta } : null;
    return cloned;
  }
]] *)
Definition clone (this : Lobster) : Lobster :=
  mkLobster (stages this) (options this) (meta this).

End Sdk.

(** ** The approve command (src/commands/stdlib/approve.ts) *)

Module ApproveCommand.
Import JS Eff.
Local Open Scope eff_scope.

(** [[
function isInteractive(stdin) { return Boolean(stdin.isTTY); }
]]
    ([stdin] missing from the context: the property read throws.) *)
Definition isInteractive (stdin : option Stdin) : Outcome bool :=
  match stdin with
  | Some s => Return (isTTY s)
  | None =>
      Throw (mkExn KTypeError
               (lit "Cannot read properties of undefined (reading 'isTTY')") None)
  end.

(** [[
function readLine(stdin) {
  return new Promise((resolve) => {
    let buf = '';
    const onData = (chunk) => {
      buf += chunk.toString('utf8');
      const idx = buf.indexOf('\n');
      if (idx !== -1) { stdin.off('data', onData); resolve(buf.slice(0, idx)); }
    };
    stdin.on('data', onData);
  });
}
]]
    The chunks of [w_stdin] arrive one by one; the promise stays pending
    when no chunk brings a newline. *)
Fixpoint readLine_from (buf : jsstring) (chunks : list jsstring)
  : option (jsstring * list jsstring) :=
  match chunks with
  | [] => None
  | chunk :: later =>
      let buf' := buf ++ chunk in
      match indexOf 10 buf' with
      | Some idx => Some (firstn idx buf', later)
      | None => readLine_from buf' later
      end
  end.

Definition readLine : M jsstring :=
  fun w =>
    match readLine_from [] (w_stdin w) with
    | Some (line, later) =>
        (Return line, mkWorld (w_env w) (w_stdout w) later (w_effects w))
    | None => (Pending, mkWorld (w_env w) (w_stdout w) [] (w_effects w))
    end.

(** [ctx.stdout.write(text)] *)
Definition stdout_write (text : jsstring) : M unit :=
  fun w =>
    (Return tt, mkWorld (w_env w) (w_stdout w ++ [text]) (w_stdin w) (w_effects w)).

(** [/^y(es)?$/i.test(s)] *)
Definition is_yes (s : jsstring) : bool :=
  match s with
  | [y] => (y =? 121) || (y =? 89)
  | [y; e; s'] =>
      ((y =? 121) || (y =? 89)) && ((e =? 101) || (e =? 69))
      && ((s' =? 115) || (s' =? 83))
  | _ => false
  end.

(** The item an emitting approve yields:
    [{ type: 'approval_request', prompt, items }] *)
Definition approval_request (prompt : json) (items : list json) : json :=
  JObj [(lit "type", JStr (lit "approval_request"));
        (lit "prompt", prompt);
        (lit "items", JArr items)].

(** [[
  async run({ input, args, ctx }) {
    const prompt = args.prompt ?? 'Approve?';
    const items = [];
    for await (const item of input) items.push(item);
    const emit = Boolean(args.emit) || ctx.mode === 'tool' || !isInteractive(ctx.stdin);
    if (emit) {
      return { halt: true,
               output: (async function* () {
                 yield { type: 'approval_request', prompt, items };
               })() };
    }
    ctx.stdout.write(`${prompt} [y/N] `);
    const answer = await readLine(ctx.stdin);
    if (!/^y(es)?$/i.test(String(answer).trim())) throw new Error('Not approved');
    return { output: asStream(items) };
  }
]] *)
Definition run (input : Stream) (args : json) (ctx : Ctx)
  : M (option StageResult) :=
  let prompt :=
    match coalesce (get (lit "prompt") args) (Some (JStr (lit "Approve?"))) with
    | Some p => p
    | None => JStr (lit "Approve?")
    end in
  items <- input ;;
  emit <- (if truthy (get (lit "emit") args) then ret true
           else if str_eqb (ctx_mode ctx) (lit "tool") then ret true
           else interactive <- lift (isInteractive (ctx_stdin ctx)) ;;
                ret (negb interactive)) ;;
  if (emit : bool) then
    ret (Some (mkStageResult
                 (Some (asStream [approval_request prompt items])) true false))
  else
    stdout_write (to_String prompt ++ lit " [y/N] ") ;;;
    answer <- readLine ;;
    if negb (is_yes (trim answer)) then throw (newError (lit "Not approved"))
    else ret (Some (mkStageResult (Some (asStream items)) false false)).

Definition approveCommand : Runtime.Command := Runtime.mkCommand run.

End ApproveCommand.

(** ** llm_task.invoke (src/commands/stdlib/llm_task_invoke.ts) *)

Module LlmTaskInvoke.
Import JS Eff.
Local Open Scope eff_scope.

(** An Ajv [ErrorObject], as far as [collectAjvErrors] reads it. *)
Record ErrorObject := mkErrorObject {
  instancePath : jsstring;
  err_text : option jsstring      (* err.message *)
}.

(** A [fetch] response read to its end: [res.ok], [res.status],
    [res.statusText] and [await res.text()]. *)
Record Response := mkResponse {
  res_ok : bool;
  res_status : Z;
  res_statusText : jsstring;
  res_text : jsstring
}.

(** A parsed [URL]: [url_pathname] is the part the code rewrites.
    [url_opaque] says that the URL has an opaque path: what follows its
    scheme does not start with a slash and the scheme is not a special
    one, as in [mailto:a@b] or [data:text/plain,x]. *)
Record URL := mkURL {
  url_origin : jsstring;
  url_pathname : jsstring;
  url_tail : jsstring;            (* search and hash *)
  url_opaque : bool
}.

(** What the module imports and does not define: the state store
    (../../state/store.js), node:crypto, node:fs, node:path, ajv, [fetch],
    [URL] and [Date].  The command is modelled over any implementation of
    them. *)
Class Platform := mkPlatform {
  (* ../../state/store.js *)
  readStateJson : Env -> jsstring -> M json;
  writeStateJson : Env -> jsstring -> json -> M unit;
  stableStringify : json -> jsstring;
  (* createHash('sha256').update(text).digest('hex') *)
  sha256_hex : jsstring -> jsstring;
  (* ajv.compile(schema) for a caller's schema: it may throw; the compiled
     validator answers [None] for valid data and the errors otherwise *)
  ajv_compile : json -> Outcome (json -> option (list ErrorObject));
  (* ajv.errorsText(validatePayload.errors) for a payload that is invalid *)
  payload_errorsText : json -> jsstring;
  (* fetch(endpoint, { method: 'POST', headers, body }) and res.text() *)
  fetch : URL -> list (jsstring * jsstring) -> jsstring -> M Response;
  (* new URL(text): [None] is the TypeError of an invalid URL *)
  parse_URL : jsstring -> option URL;
  (* fsp.readFile(path, 'utf8'), fsp.mkdir(dir, { recursive: true }),
     fsp.writeFile(path, text) *)
  readFile : jsstring -> M jsstring;
  mkdir : jsstring -> M unit;
  writeFile : jsstring -> jsstring -> M unit;
  (* path.join(...parts), process.cwd() *)
  path_join : list jsstring -> jsstring;
  process_cwd : World -> jsstring;
  (* JSON.stringify(value, null, 2) *)
  JSON_stringify_pretty : json -> jsstring;
  (* new Date().toISOString() *)
  now_ISO : M jsstring
}.

Definition DEFAULT_MAX_VALIDATION_RETRIES : Z := 1.
Definition STATE_VERSION : Z := 1.

Inductive Transport := direct | clawd.

(** *** The schemas validated with Ajv

    [payloadSchema] and [responseSchema] use the keywords [type],
    [properties], [required], [additionalProperties], [items] and
    [minLength] only; [conforms] is Ajv's verdict for such schemas. *)
Inductive SchemaType := TObject | TArray | TString | TNumber | TBoolean.

Unset Elimination Schemes.
Inductive Schema :=
| SAny                                              (* {} *)
| SType (t : SchemaType) (minLength : nat)          (* scalars *)
| SArrayOf (items : Schema)
| SObject (properties : list (jsstring * Schema))
          (required : list jsstring)
          (additionalProperties : bool).
Set Elimination Schemes.

(** The [type] keyword.  For Ajv a number is a finite one (its
    [strictNumbers] default). *)
Definition has_type (t : SchemaType) (v : json) : bool :=
  match t, v with
  | TObject, JObj _ => true
  | TArray, JArr _ => true
  | TString, JStr _ => true
  | TNumber, (JNum _ | JDec _ _) => true
  | TBoolean, JBool _ => true
  | _, _ => false
  end.

(** [minLength] counts code points. *)
Definition code_point_length (s : jsstring) : nat :=
  List.length (SdkRuntime.code_points s).

Fixpoint lookup_schema (k : jsstring) (props : list (jsstring * Schema))
  : option Schema :=
  match props with
  | [] => None
  | (k', s) :: props' => if str_eqb k k' then Some s else lookup_schema k props'
  end.

Fixpoint conforms (s : Schema) (v : json) {struct s} : bool :=
  match s with
  | SAny => true
  | SType t n =>
      has_type t v &&
      match v with
      | JStr str => (n <=? code_point_length str)%nat
      | _ => true
      end
  | SArrayOf items =>
      match v with
      | JArr l => forallb (conforms items) l
      | _ => false
      end
  | SObject properties required additionalProperties =>
      match v with
      | JObj l =>
          forallb (fun k => has_key k l) required &&
          (fix members (props : list (jsstring * Schema)) : bool :=
             match props with
             | [] => true
             | (k, ps) :: props' =>
                 match assoc k l with
                 | Some x => conforms ps x
                 | None => true
                 end && members props'
             end) properties &&
          (additionalProperties ||
           forallb (fun kv =>
                      match lookup_schema (fst kv) properties with
                      | Some _ => true
                      | None => false
                      end) l)
      | _ => false
      end
  end.

Definition artifactSchema : Schema :=
  SObject [(lit "kind", SType TString 0); (lit "role", SType TString 0);
           (lit "name", SType TString 0); (lit "mimeType", SType TString 0);
           (lit "text", SType TString 0); (lit "data", SAny);
           (lit "uri", SType TString 0)] [] true.

Definition payloadSchema : Schema :=
  SObject
    [(lit "prompt", SType TString 1);
     (lit "model", SType TString 1);
     (lit "artifacts", SArrayOf artifactSchema);
     (lit "artifactHashes", SArrayOf (SType TString 10));
     (lit "schemaVersion", SType TString 0);
     (lit "metadata", SObject [] [] true);
     (lit "outputSchema", SObject [] [] true);
     (lit "temperature", SType TNumber 0);
     (lit "maxOutputTokens", SType TNumber 0);
     (lit "retryContext",
      SObject [(lit "attempt", SType TNumber 0);
               (lit "validationErrors", SArrayOf (SType TString 0))] [] false)]
    [lit "prompt"; lit "artifacts"; lit "artifactHashes"] false.

Definition responseSchema : Schema :=
  SObject
    [(lit "ok", SType TBoolean 0);
     (lit "result",
      SObject
        [(lit "runId", SType TString 0); (lit "model", SType TString 0);
         (lit "prompt", SType TString 0); (lit "status", SType TString 0);
         (lit "output",
          SObject [(lit "text", SType TString 0); (lit "data", SAny);
                   (lit "format", SType TString 0)] [] true);
         (lit "usage",
          SObject [(lit "inputTokens", SType TNumber 0);
                   (lit "outputTokens", SType TNumber 0);
                   (lit "totalTokens", SType TNumber 0)] [] true);
         (lit "warnings", SArrayOf (SType TString 0));
         (lit "metadata", SObject [] [] true);
         (lit "diagnostics", SObject [] [] true)]
        [lit "output"] true);
     (lit "error", SObject [] [] true)]
    [lit "ok"] true.

Definition validatePayload : json -> bool := conforms payloadSchema.
Definition validateResponseEnvelope : json -> bool := conforms responseSchema.

(** *** Helpers *)

(** A property of [env] as a value. *)
Definition env_get (env : Env) (k : string) : option json :=
  match env (lit k) with
  | Some s => Some (JStr s)
  | None => None
  end.

(** [String(v ?? '').trim()] on a value that may be [undefined] *)
Definition string_or_empty (v : option json) : jsstring :=
  match coalesce v (Some (JStr [])) with
  | Some x => trim (to_String x)
  | None => []
  end.

(** [parts.join(sep)]: [null] elements count as empty. *)
Fixpoint join (sep : jsstring) (l : list json) : jsstring :=
  match l with
  | [] => []
  | x :: l' =>
      match x with JNull => [] | _ => to_String x end ++
      match l' with [] => [] | _ => sep ++ join sep l' end
  end.

(** [[
function extractPrompt(args) {
  if (args.prompt) return String(args.prompt);
  if (Array.isArray(args._) && args._.length) return args._.join(' ');
  return '';
}
]] *)
Definition extractPrompt (args : json) : jsstring :=
  if truthy (get (lit "prompt") args) then
    match get (lit "prompt") args with
    | Some p => to_String p
    | None => []
    end
  else
    match get (lit "_") args with
    | Some (JArr (x :: l)) => join (lit " ") (x :: l)
    | _ => []
    end.

(** [[
function parseJsonArray(raw, label) {
  if (!raw) return [];
  try {
    const parsed = JSON.parse(String(raw));
    if (!Array.isArray(parsed)) throw new Error('must be array');
    return parsed;
  } catch { throw new Error(`${label} must be a JSON array`); }
}
]] *)
Definition parseJsonArray (raw : option json) (label : jsstring)
  : Outcome (list json) :=
  match raw with
  | Some r =>
      if truthy raw then
        otry
          (obind (JSON_parse (to_String r)) (fun parsed =>
             match parsed with
             | JArr l => Return l
             | _ => Throw (newError (lit "must be array"))
             end))
          (fun _ => Throw (newError (label ++ lit " must be a JSON array")))
      else Return []
  | None => Return []
  end.

(** [[
function parseJsonObject(raw, label) {
  if (!raw) return null;
  try {
    const parsed = JSON.parse(String(raw));
    if (!parsed || typeof parsed !== 'object' || Array.isArray(parsed))
      throw new Error('must be an object');
    return parsed;
  } catch { throw new Error(`${label} must be a JSON object`); }
}
]] *)
Definition parseJsonObject (raw : option json) (label : jsstring)
  : Outcome (option json) :=
  match raw with
  | Some r =>
      if truthy raw then
        otry
          (obind (JSON_parse (to_String r)) (fun parsed =>
             match parsed with
             | JObj l => Return (Some (JObj l))
             | _ => Throw (newError (lit "must be an object"))
             end))
          (fun _ => Throw (newError (label ++ lit " must be a JSON object")))
      else Return None
  | None => Return None
  end.

(** [Number(v)] where the model can follow it, as far as its callers, which
    both ask [Number.isFinite] of it, can tell: [Some n] is a finite number
    (an integer or a decimal), [None] is NaN or an infinity.  A string
    counts when it is empty or a numeral of the JSON grammar; another
    string that starts like a numeral ([+], [-], [.], a digit, [Infinity])
    is not followed. *)
Definition string_to_number (s : jsstring) : Outcome (option json) :=
  match trim s with
  | [] => Return (Some (JNum 0))
  | c :: s' =>
      match parse_number (c :: s') with
      | Some (JNum n, []) => Return (Some (JNum n))
      | Some (JDec m e, []) => Return (Some (JDec m e))
      | Some (JInf _, []) => Return None
      | _ =>
          if is_digit c || (c =? 43) || (c =? 45) || (c =? 46) || (c =? 73)
          then Unmodelled
          else Return None
      end
  end.

Definition to_Number (v : option json) : Outcome (option json) :=
  match v with
  | None => Return None
  | Some JNull => Return (Some (JNum 0))
  | Some (JBool b) => Return (Some (JNum (if b then 1 else 0)))
  | Some (JNum n) => Return (Some (JNum n))
  | Some (JDec m e) => Return (Some (JDec m e))
  | Some (JInf _) => Return None
  | Some (JStr s) => string_to_number s
  | Some (JArr l) => string_to_number (to_String (JArr l))
  | Some (JObj _) => Return None
  end.

(** [[
function parseOptionalNumber(value) {
  if (value === undefined || value === null) return null;
  const num = Number(value);
  return Number.isFinite(num) ? num : null;
}
]] *)
Definition parseOptionalNumber (value : option json) : Outcome (option json) :=
  if nullish value then Return None else to_Number value.

(** [s.toLowerCase()], as far as a comparison with the words below can
    tell: the letters A-Z (no other character lowers to a letter of these
    words). *)
Definition toLowerCase (s : jsstring) : jsstring :=
  map (fun c => if (65 <=? c) && (c <=? 90) then c + 32 else c) s.

Definition includes (words : list string) (s : jsstring) : bool :=
  existsb (fun w => str_eqb (lit w) s) words.

(** [[
function flag(value) {
  if (value === undefined || value === null) return false;
  if (typeof value === 'boolean') return value;
  if (typeof value === 'string') {
    const normalized = value.trim().toLowerCase();
    if (['false', '0', 'no'].includes(normalized)) return false;
    if (['true', '1', 'yes'].includes(normalized)) return true;
  }
  return Boolean(value);
}
]] *)
Definition flag (value : option json) : bool :=
  match value with
  | None | Some JNull => false
  | Some (JBool b) => b
  | Some (JStr s) =>
      let normalized := toLowerCase (trim s) in
      if includes ["false"; "0"; "no"]%string normalized then false
      else if includes ["true"; "1"; "yes"]%string normalized then true
      else truthy value
  | _ => truthy value
  end.

(** [[
function normalizeArtifact(raw) {
  if (raw && typeof raw === 'object' && !Array.isArray(raw)) return raw;
  if (typeof raw === 'string') return { kind: 'text', text: raw };
  if (typeof raw === 'number' || typeof raw === 'boolean')
    return { kind: 'text', text: String(raw) };
  return { kind: 'json', data: raw };
}
]] *)
Definition normalizeArtifact (raw : json) : json :=
  match raw with
  | JObj l => JObj l
  | JStr s => JObj [(lit "kind", JStr (lit "text")); (lit "text", JStr s)]
  | JNum _ | JDec _ _ | JInf _ | JBool _ =>
      JObj [(lit "kind", JStr (lit "text")); (lit "text", JStr (to_String raw))]
  | _ => JObj [(lit "kind", JStr (lit "json")); (lit "data", raw)]
  end.

Section WithPlatform.
Context {platform : Platform}.

(** [[
function hashArtifact(artifact) {
  const stable = stableStringify(artifact);
  return createHash('sha256').update(stable).digest('hex');
}
]] *)
Definition hashArtifact (artifact : json) : jsstring :=
  let stable := stableStringify artifact in
  sha256_hex stable.

(** [[
function computeCacheKey({ prompt, model, schemaVersion, artifactHashes, outputSchema }) {
  const payload = {
    prompt,
    model: model || 'clawd-default',
    schemaVersion,
    artifactHashes,
    outputSchema: outputSchema ?? null,
  };
  return createHash('sha256').update(stableStringify(payload)).digest('hex');
}
]] *)
Definition computeCacheKey (prompt model schemaVersion : jsstring)
  (artifactHashes : list jsstring) (outputSchema : option json) : jsstring :=
  let payload :=
    JObj [(lit "prompt", JStr prompt);
          (lit "model", JStr (match model with [] => lit "clawd-default" | _ => model end));
          (lit "schemaVersion", JStr schemaVersion);
          (lit "artifactHashes", JArr (map JStr artifactHashes));
          (lit "outputSchema", match outputSchema with Some s => s | None => JNull end)] in
  sha256_hex (stableStringify payload).

(** *** Arguments and configuration: lines 200-250 of [run] *)

(** The constants [run] computes before it looks anything up. *)
Record Config := mkConfig {
  env : Env;
  transport : Transport;
  baseUrl : jsstring;
  clawdUrl : jsstring;
  prompt : jsstring;
  model : jsstring;
  schemaVersion : jsstring;
  maxOutputTokens : option json;
  temperature : option json;
  metadataObject : option json;
  userOutputSchema : option json;
  maxValidationRetries : Z;
  disableCache : bool;
  forceRefresh : bool;
  stateKey : option jsstring;
  normalizedArtifacts : list json;
  artifactHashes : list jsstring;
  cacheKey : jsstring
}.

(** [[
    const maxValidationRetriesRaw = args['max-validation-retries'] ?? env.LLM_TASK_VALIDATION_RETRIES;
    const maxValidationRetries = userOutputSchema
      ? Math.max(0, Number.isFinite(Number(maxValidationRetriesRaw))
        ? Number(maxValidationRetriesRaw)
        : DEFAULT_MAX_VALIDATION_RETRIES)
      : 0;
]]
    (a bound that is no integer is not followed) *)
Definition max_validation_retries (args : json) (env : Env)
  (userOutputSchema : option json) : Outcome Z :=
  let raw := coalesce (get (lit "max-validation-retries") args)
                      (env_get env "LLM_TASK_VALIDATION_RETRIES") in
  match userOutputSchema with
  | Some _ =>
      obind (to_Number raw) (fun n =>
        match n with
        | Some (JNum z) => Return (Z.max 0 z)
        | Some _ => Unmodelled
        | None => Return (Z.max 0 DEFAULT_MAX_VALIDATION_RETRIES)
        end)
  | None => Return 0
  end.

Definition schema_version (args : json) (env : Env) : jsstring :=
  if truthy (get (lit "schema-version") args) then
    string_or_empty (get (lit "schema-version") args)
  else if truthy (env_get env "LLM_TASK_SCHEMA_VERSION") then
    string_or_empty (env_get env "LLM_TASK_SCHEMA_VERSION")
  else lit "v1".

Definition configure (input : Stream) (args : json) (ctx : Ctx) : M Config :=
  fun w0 =>
  (let env := match ctx_env ctx with Some e => e | None => w_env w0 end in
   let baseUrl := string_or_empty (coalesce (get (lit "url") args) (env_get env "LLM_TASK_URL")) in
   let clawdUrl := string_or_empty (env_get env "CLAWD_URL") in
   let transport :=
     match baseUrl, clawdUrl with
     | _ :: _, _ => direct
     | [], _ :: _ => clawd
     | [], [] => direct
     end in
   match baseUrl, clawdUrl with
   | [], [] =>
       throw (newError (lit "llm_task.invoke requires either LLM_TASK_URL/--url (direct) or CLAWD_URL (Clawdbot)"))
   | _, _ =>
   let prompt := extractPrompt args in
   match prompt with
   | [] => throw (newError (lit "llm_task.invoke requires --prompt or positional text"))
   | _ :: _ =>
   let model := string_or_empty (coalesce (get (lit "model") args) (env_get env "LLM_TASK_MODEL")) in
   match model, transport with
   | [], direct =>
       throw (newError (lit "llm_task.invoke requires --model (or LLM_TASK_MODEL) in direct mode"))
   | _, _ =>
   let schemaVersion := schema_version args env in
   maxOutputTokens <- lift (parseOptionalNumber (get (lit "max-output-tokens") args)) ;;
   temperature <- lift (parseOptionalNumber (get (lit "temperature") args)) ;;
   providedArtifacts <- lift (parseJsonArray (get (lit "artifacts-json") args)
                                (lit "llm_task.invoke --artifacts-json")) ;;
   metadataObject <- lift (parseJsonObject (get (lit "metadata-json") args)
                             (lit "llm_task.invoke --metadata-json")) ;;
   userOutputSchema <- lift (parseJsonObject (get (lit "output-schema") args)
                               (lit "llm_task.invoke --output-schema")) ;;
   maxValidationRetries <- lift (max_validation_retries args env userOutputSchema) ;;
   let disableCache := flag (get (lit "disable-cache") args) in
   let forceRefresh := flag (coalesce (get (lit "refresh") args)
                                      (env_get env "LLM_TASK_FORCE_REFRESH")) in
   let stateKey :=
     match string_or_empty (coalesce (get (lit "state-key") args)
                                     (env_get env "LOBSTER_RUN_STATE_KEY")) with
     | [] => None
     | k => Some k
     end in
   inputArtifacts <- input ;;
   let normalizedArtifacts := map normalizeArtifact (inputArtifacts ++ providedArtifacts) in
   let artifactHashes := map hashArtifact normalizedArtifacts in
   let cacheKey := computeCacheKey prompt model schemaVersion artifactHashes userOutputSchema in
   ret (mkConfig env transport baseUrl clawdUrl prompt model schemaVersion
          maxOutputTokens temperature metadataObject userOutputSchema
          maxValidationRetries disableCache forceRefresh stateKey
          normalizedArtifacts artifactHashes cacheKey)
   end end end) w0.

(** *** Run-state and cache *)

(** [{ ...item }]: the own enumerable properties of a JSON value. *)
Fixpoint index_entries (i : Z) (l : list json) : list (jsstring * json) :=
  match l with
  | [] => []
  | x :: l' => (int_chars i, x) :: index_entries (i + 1) l'
  end.

Definition spread (item : json) : list (jsstring * json) :=
  match item with
  | JObj l => l
  | JArr l => index_entries 0 l
  | JStr s => index_entries 0 (map (fun c => JStr [c]) s)
  | _ => []
  end.

(** [(item) => ({ ...item, source, cached: true })] *)
Definition from_store (source : string) (item : json) : json :=
  JObj (obj_set (lit "cached") (JBool true)
          (obj_set (lit "source") (JStr (lit source)) (spread item))).

(** [[
function pickReusableState(stored, cacheKey) {
  if (!stored || typeof stored !== 'object') return null;
  if (stored.type !== 'llm_task.invoke') return null;
  if (stored.cacheKey !== cacheKey) return null;
  if (!Array.isArray(stored.items)) return null;
  return { items: stored.items };
}
]] *)
Definition pickReusableState (stored : json) (cacheKey : jsstring)
  : option (list json) :=
  match stored with
  | JObj _ | JArr _ =>
      match get (lit "type") stored with
      | Some (JStr t) =>
          if str_eqb t (lit "llm_task.invoke") then
            match get (lit "cacheKey") stored with
            | Some (JStr k) =>
                if str_eqb k cacheKey then
                  match get (lit "items") stored with
                  | Some (JArr items) => Some items
                  | _ => None
                  end
                else None
            | _ => None
            end
          else None
      | _ => None
      end
  | _ => None
  end.

(** [[
function getCacheDir(env) {
  if (env?.LOBSTER_CACHE_DIR) return String(env.LOBSTER_CACHE_DIR);
  return path.join(process.cwd(), '.lobster-cache');
}
]] *)
Definition getCacheDir (env : Env) : M jsstring :=
  fun w =>
    match env (lit "LOBSTER_CACHE_DIR") with
    | Some (c :: d) => (Return (c :: d), w)
    | _ => (Return (path_join [process_cwd w; lit ".lobster-cache"]), w)
    end.

(** [[
async function readCacheEntry(env, key) {
  const filePath = path.join(getCacheDir(env), 'llm_task.invoke', `${key}.json`);
  try {
    const text = await fsp.readFile(filePath, 'utf8');
    return JSON.parse(text);
  } catch (err) {
    if (err?.code === 'ENOENT') return null;
    throw err;
  }
}
]] *)
Definition is_ENOENT (err : exn) : bool :=
  match err_code err with
  | Some c => str_eqb c (lit "ENOENT")
  | None => false
  end.

Definition readCacheEntry (env : Env) (key : jsstring) : M json :=
  dir <- getCacheDir env ;;
  let filePath := path_join [dir; lit "llm_task.invoke"; key ++ lit ".json"] in
  try_catch
    (text <- readFile filePath ;;
     lift (JSON_parse text))
    (fun err => if is_ENOENT err then ret JNull else throw err).

(** [[
async function writeCacheEntry(env, key, items) {
  const dir = path.join(getCacheDir(env), 'llm_task.invoke');
  await fsp.mkdir(dir, { recursive: true });
  const filePath = path.join(dir, `${key}.json`);
  await fsp.writeFile(filePath,
    JSON.stringify({ items, cacheKey: key, storedAt: new Date().toISOString() }, null, 2));
}
]] *)
Definition writeCacheEntry (env : Env) (key : jsstring) (items : list json)
  : M unit :=
  cacheDir <- getCacheDir env ;;
  let dir := path_join [cacheDir; lit "llm_task.invoke"] in
  mkdir dir ;;;
  let filePath := path_join [dir; key ++ lit ".json"] in
  storedAt <- now_ISO ;;
  writeFile filePath
    (JSON_stringify_pretty
       (JObj [(lit "items", JArr items); (lit "cacheKey", JStr key);
              (lit "storedAt", JStr storedAt)])).

(** [[
async function persistOutputs({ env, stateKey, cacheKey, items }) {
  if (!stateKey) return;
  const record = { type: 'llm_task.invoke', version: STATE_VERSION, cacheKey, items,
                   storedAt: new Date().toISOString() };
  await writeStateJson({ env, key: stateKey, value: record });
}
]] *)
Definition persistOutputs (env : Env) (stateKey : option jsstring)
  (cacheKey : jsstring) (items : list json) : M unit :=
  match stateKey with
  | None => ret tt
  | Some key =>
      storedAt <- now_ISO ;;
      let record :=
        JObj [(lit "type", JStr (lit "llm_task.invoke"));
              (lit "version", JNum STATE_VERSION);
              (lit "cacheKey", JStr cacheKey);
              (lit "items", JArr items);
              (lit "storedAt", JStr storedAt)] in
      writeStateJson env key record
  end.

(** *** Transports *)

(** [text.replace(/\/+/g, '/')] *)
Fixpoint collapse_slashes (s : jsstring) : jsstring :=
  match s with
  | [] => []
  | c :: s' =>
      if c =? 47 then
        match s' with
        | d :: _ => if d =? 47 then collapse_slashes s' else c :: collapse_slashes s'
        | [] => [c]
        end
      else c :: collapse_slashes s'
  end.

(** [text.replace(/\/+/, '/')]: the first run of slashes becomes one
    slash. *)
Fixpoint skip_slashes (s : jsstring) : jsstring :=
  match s with
  | [] => []
  | c :: s' => if c =? 47 then skip_slashes s' else s
  end.

Fixpoint collapse_first (s : jsstring) : jsstring :=
  match s with
  | [] => []
  | c :: s' => if c =? 47 then c :: skip_slashes s' else c :: collapse_first s'
  end.

Definition invalid_URL : exn := mkExn KTypeError (lit "Invalid URL") None.

(** [url.pathname = value].  On a URL with an opaque path the setter does
    nothing.  On any other URL it parses [value] as a path; the values
    assigned here are a serialised path, with slashes taken out, followed
    by [/tool/invoke], and such a text parses to itself. *)
Definition set_pathname (url : URL) (value : jsstring) : URL :=
  if url_opaque url then url
  else mkURL (url_origin url) value (url_tail url) false.

(** [[
function buildDirectEndpoint(baseUrl) {
  const base = new URL(baseUrl);
  const cleanBase = base.pathname.endsWith('/') ? base.pathname.slice(0, -1) : base.pathname;
  base.pathname = `${cleanBase}/tool/invoke`.replace(/\/+/, '/');
  base.pathname = base.pathname.replace(/\/+/g, '/');
  return base;
}
]] *)
Definition buildDirectEndpoint (baseUrl : jsstring) : Outcome URL :=
  match parse_URL baseUrl with
  | None => Throw invalid_URL
  | Some base =>
      let cleanBase :=
        match List.rev (url_pathname base) with
        | c :: r => if c =? 47 then List.rev r else url_pathname base
        | [] => url_pathname base
        end in
      let base := set_pathname base
                    (collapse_first (cleanBase ++ lit "/tool/invoke")) in
      let base := set_pathname base (collapse_slashes (url_pathname base)) in
      Return base
  end.

(** [[
function buildClawdEndpoint(clawdUrl) { return new URL('/tools/invoke', clawdUrl); }
]]
    A base with an opaque path resolves no relative URL: [new URL]
    throws. *)
Definition buildClawdEndpoint (clawdUrl : jsstring) : Outcome URL :=
  match parse_URL clawdUrl with
  | None => Throw invalid_URL
  | Some base =>
      if url_opaque base then Throw invalid_URL
      else Return (mkURL (url_origin base) (lit "/tools/invoke") [] false)
  end.

Definition headers (token : jsstring) : list (jsstring * jsstring) :=
  (lit "content-type", lit "application/json") ::
  match token with
  | [] => []
  | _ => [(lit "authorization", lit "Bearer " ++ token)]
  end.

(** [`${res.status} ${res.statusText}: ${text.slice(0, 400)}`] *)
Definition http_failure (res : Response) : exn :=
  newError (int_chars (res_status res) ++ lit " " ++ res_statusText res ++
            lit ": " ++ firstn 400 (res_text res)).

Definition not_JSON : exn := newError (lit "Response was not JSON").

(** [[
async function invokeRemoteDirect({ endpoint, token, payload }) {
  const res = await fetch(endpoint, { method: 'POST', headers: {...}, body: JSON.stringify(payload) });
  const text = await res.text();
  if (!res.ok) throw new Error(`${res.status} ${res.statusText}: ${text.slice(0, 400)}`);
  try {
    return text ? JSON.parse(text) : { ok: true, result: {} };
  } catch { throw new Error('Response was not JSON'); }
}
]] *)
Definition invokeRemoteDirect (endpoint : URL) (token : jsstring) (payload : json)
  : M json :=
  res <- fetch endpoint (headers token) (JSON_stringify payload) ;;
  let text := res_text res in
  if negb (res_ok res) then throw (http_failure res)
  else
    match text with
    | [] => ret (JObj [(lit "ok", JBool true); (lit "result", JObj [])])
    | _ => lift (otry (JSON_parse text) (fun _ => Throw not_JSON))
    end.

(** [x && typeof x === 'object' && !Array.isArray(x) && 'ok' in x] *)
Definition is_envelope (x : option json) : bool :=
  match x with
  | Some (JObj l) => has_key (lit "ok") l
  | _ => false
  end.

(** [`${v ?? fallback}`] *)
Definition message_or (v : option json) (fallback : string) : jsstring :=
  match coalesce v (Some (JStr (lit fallback))) with
  | Some x => to_String x
  | None => lit fallback
  end.

(** [[
async function invokeRemoteViaClawd({ endpoint, token, payload }) {
  const res = await fetch(endpoint, { ..., body: JSON.stringify({ tool: 'llm-task', action: 'invoke', args: payload }) });
  const text = await res.text();
  if (!res.ok) throw new Error(...);
  let parsed;
  try { parsed = text ? JSON.parse(text) : null; } catch { throw new Error('Response was not JSON'); }
  if (parsed && typeof parsed === 'object' && !Array.isArray(parsed) && 'ok' in parsed) {
    if (parsed.ok !== true) {
      const msg = parsed?.error?.message ?? 'Unknown error';
      throw new Error(`clawd tool error: ${msg}`);
    }
    const inner = parsed.result;
    if (inner && typeof inner === 'object' && !Array.isArray(inner) && 'ok' in inner) return inner;
    return { ok: true, result: inner };
  }
  return { ok: true, result: parsed };
}
]] *)
Definition invokeRemoteViaClawd (endpoint : URL) (token : jsstring) (payload : json)
  : M json :=
  res <- fetch endpoint (headers token)
           (JSON_stringify (JObj [(lit "tool", JStr (lit "llm-task"));
                                  (lit "action", JStr (lit "invoke"));
                                  (lit "args", payload)])) ;;
  let text := res_text res in
  if negb (res_ok res) then throw (http_failure res)
  else
    parsed <- match text with
              | [] => ret JNull
              | _ => lift (otry (JSON_parse text) (fun _ => Throw not_JSON))
              end ;;
    if is_envelope (Some parsed) then
      match get (lit "ok") parsed with
      | Some (JBool true) =>
          let inner := get (lit "result") parsed in
          if is_envelope inner then
            ret (match inner with Some x => x | None => JNull end)
          else
            ret (JObj ((lit "ok", JBool true) :: Sdk.prop (lit "result") inner))
      | _ =>
          throw (newError (lit "clawd tool error: " ++
                           message_or (oget (lit "message") (get (lit "error") parsed))
                                      "Unknown error"))
      end
    else ret (JObj [(lit "ok", JBool true); (lit "result", parsed)]).

(** *** The normalized result *)

(** [v ?? null] as a property value *)
Definition or_null (v : option json) : json :=
  match coalesce v (Some JNull) with
  | Some x => x
  | None => JNull
  end.

(** [[
function normalizeResult({ envelope, cacheKey, schemaVersion, artifactHashes, source, attempt }) {
  const result = envelope.result ?? {};
  const output = result.output ?? {};
  const item = {
    kind: 'llm_task.invoke',
    runId: result.runId ?? null, prompt: result.prompt ?? null, model: result.model ?? null,
    schemaVersion,
    status: String(result.status ?? 'completed'),
    cacheKey, artifactHashes,
    output: { format: output.format ?? (output.data ? 'json' : 'text'),
              text: output.text ?? null, data: output.data ?? null },
    usage: result.usage ?? null, metadata: result.metadata ?? null,
    warnings: result.warnings ?? null, diagnostics: result.diagnostics ?? null,
    createdAt: new Date().toISOString(),
    source,
    cached: source !== 'remote' && source !== 'clawd',
    attemptCount: attempt,
  };
  return [item];
}
]] *)
Definition normalizeResult (envelope : json) (cacheKey schemaVersion : jsstring)
  (artifactHashes : list jsstring) (source : jsstring) (attempt : Z)
  : M (list json) :=
  let result := coalesce (get (lit "result") envelope) (Some (JObj [])) in
  let output := coalesce (oget (lit "output") result) (Some (JObj [])) in
  createdAt <- now_ISO ;;
  ret [JObj
    [(lit "kind", JStr (lit "llm_task.invoke"));
     (lit "runId", or_null (oget (lit "runId") result));
     (lit "prompt", or_null (oget (lit "prompt") result));
     (lit "model", or_null (oget (lit "model") result));
     (lit "schemaVersion", JStr schemaVersion);
     (lit "status", JStr (message_or (oget (lit "status") result) "completed"));
     (lit "cacheKey", JStr cacheKey);
     (lit "artifactHashes", JArr (map JStr artifactHashes));
     (lit "output",
      JObj [(lit "format",
             or_null (coalesce (oget (lit "format") output)
                        (Some (JStr (if truthy (oget (lit "data") output)
                                     then lit "json" else lit "text")))));
            (lit "text", or_null (oget (lit "text") output));
            (lit "data", or_null (oget (lit "data") output))]);
     (lit "usage", or_null (oget (lit "usage") result));
     (lit "metadata", or_null (oget (lit "metadata") result));
     (lit "warnings", or_null (oget (lit "warnings") result));
     (lit "diagnostics", or_null (oget (lit "diagnostics") result));
     (lit "createdAt", JStr createdAt);
     (lit "source", JStr source);
     (lit "cached", JBool (negb (str_eqb source (lit "remote")) &&
                           negb (str_eqb source (lit "clawd"))));
     (lit "attemptCount", JNum attempt)]].

(** [[
function collectAjvErrors(errors) {
  if (!errors?.length) return [];
  return errors.map((err) => `${err.instancePath || '/'} ${err.message ?? ''}`.trim());
}
]] *)
Definition collectAjvErrors (errors : list ErrorObject) : list jsstring :=
  map (fun err =>
         trim ((match instancePath err with [] => lit "/" | p => p end) ++ lit " " ++
               (match err_text err with Some m => m | None => [] end)))
      errors.

(** [normalized[0]?.output?.data ?? null] *)
Definition structured_data (normalized : list json) : json :=
  or_null (oget (lit "data") (oget (lit "output") (hd_error normalized))).

(** *** The validated invocation loop: lines 295-354 of [run] *)

(** The payload of an attempt:
[[
      if (attempt > 1) {
        payload.retryContext = { attempt,
          ...(lastValidationErrors.length ? { validationErrors: lastValidationErrors } : null) };
      } else { delete payload.retryContext; }
]] *)
Definition attempt_payload (payload : list (jsstring * json)) (attempt : Z)
  (lastValidationErrors : list jsstring) : list (jsstring * json) :=
  if attempt >? 1 then
    obj_set (lit "retryContext")
      (JObj ((lit "attempt", JNum attempt) ::
             match lastValidationErrors with
             | [] => []
             | _ => [(lit "validationErrors", JArr (map JStr lastValidationErrors))]
             end))
      payload
  else filter (fun kv => negb (str_eqb (fst kv) (lit "retryContext"))) payload.

Definition schema_failure (lastValidationErrors : list jsstring) : exn :=
  newError (lit "llm_task.invoke output failed schema validation: " ++
            join (lit "; ") (map JStr lastValidationErrors)).

(** The success path: persist, cache, return. *)
Definition deliver (cfg : Config) (normalized : list json) : M (option StageResult) :=
  persistOutputs (env cfg) (stateKey cfg) (cacheKey cfg) normalized ;;;
  (if negb (disableCache cfg)
   then writeCacheEntry (env cfg) (cacheKey cfg) normalized
   else ret tt) ;;;
  ret (Some (mkStageResult (Some (asStream normalized)) false false)).

(** One pass through the loop body, from the request to the normalized
    result (lines 300-335), for the number [attempt] of the pass. *)
Definition one_attempt (cfg : Config) (endpoint : URL) (token : jsstring)
  (payload : list (jsstring * json)) (attempt : Z)
  (lastValidationErrors : list jsstring) : M (list json) :=
  let payload := attempt_payload payload attempt lastValidationErrors in
  responseEnvelope <-
    try_catch
      (match transport cfg with
       | direct => invokeRemoteDirect endpoint token (JObj payload)
       | clawd => invokeRemoteViaClawd endpoint token (JObj payload)
       end)
      (fun err => message <- lift (message_of err) ;;
                  throw (newError (lit "llm_task.invoke request failed: " ++
                                   message))) ;;
  if negb (validateResponseEnvelope responseEnvelope) then
    throw (newError (lit "llm_task.invoke received invalid response envelope"))
  else
    match get (lit "ok") responseEnvelope with
    | Some (JBool true) =>
        normalizeResult responseEnvelope (cacheKey cfg)
          (schemaVersion cfg) (artifactHashes cfg)
          (match transport cfg with
           | direct => lit "remote"
           | clawd => lit "clawd"
           end)
          attempt
    | _ =>
        throw (newError (lit "llm_task.invoke remote error: " ++
                         message_or (oget (lit "message")
                                       (get (lit "error") responseEnvelope))
                                    "llm-task returned an error"))
    end.

(** [while (true) { attempt++; ... }] with [attempt] and
    [lastValidationErrors] as they stand when an iteration begins.
[[
      if (!validator) { persist; cache; return { output: streamOf(normalized) }; }
      const structured = normalized[0]?.output?.data ?? null;
      if (validator(structured)) { persist; cache; return { output: streamOf(normalized) }; }
      lastValidationErrors = collectAjvErrors(validator.errors);
      if (attempt > maxValidationRetries + 1) {
        throw new Error(`llm_task.invoke output failed schema validation: ${lastValidationErrors.join('; ')}`);
      }
]]
    The loop leaves at the latest when [attempt] passes
    [maxValidationRetries + 1]; [fuel] counts the iterations still
    possible and [invoke] starts with enough of it. *)
Fixpoint invoke_loop (fuel : nat) (cfg : Config) (endpoint : URL)
  (token : jsstring) (validator : option (json -> option (list ErrorObject)))
  (payload : list (jsstring * json)) (attempt : Z)
  (lastValidationErrors : list jsstring) : M (option StageResult) :=
  match fuel with
  | O => lift Unmodelled
  | S fuel' =>
      let attempt := attempt + 1 in
      normalized <- one_attempt cfg endpoint token payload attempt
                      lastValidationErrors ;;
      match validator with
      | None => deliver cfg normalized
      | Some validate =>
          let structured := structured_data normalized in
          match validate structured with
          | None => deliver cfg normalized
          | Some errors =>
              let lastValidationErrors := collectAjvErrors errors in
              if attempt >? maxValidationRetries cfg + 1 then
                throw (schema_failure lastValidationErrors)
              else
                invoke_loop fuel' cfg endpoint token validator payload
                            attempt lastValidationErrors
          end
      end
  end.

(** *** [run], from the look-ups on *)

(** [cache.items.map(...)] on whatever JSON the cache file held *)
Definition cache_items (cache : json) : Outcome (list json) :=
  match get (lit "items") cache with
  | Some (JArr items) => Return items
  | None =>
      Throw (mkExn KTypeError (lit "Cannot read properties of undefined (reading 'map')") None)
  | Some JNull =>
      Throw (mkExn KTypeError (lit "Cannot read properties of null (reading 'map')") None)
  | Some _ => Throw (mkExn KTypeError (lit "cache.items.map is not a function") None)
  end.

(** Lines 271-354: build and check the payload, pick the endpoint, compile
    the caller's schema, loop. *)
Definition invoke (args : json) (cfg : Config) : M (option StageResult) :=
  let payload :=
    [(lit "prompt", JStr (prompt cfg))] ++
    match model cfg with [] => [] | m => [(lit "model", JStr m)] end ++
    [(lit "artifacts", JArr (normalizedArtifacts cfg));
     (lit "artifactHashes", JArr (map JStr (artifactHashes cfg)))] ++
    Sdk.prop (lit "metadata") (metadataObject cfg) ++
    Sdk.prop (lit "outputSchema") (userOutputSchema cfg) ++
    match schemaVersion cfg with [] => [] | v => [(lit "schemaVersion", JStr v)] end ++
    Sdk.prop (lit "maxOutputTokens") (maxOutputTokens cfg) ++
    Sdk.prop (lit "temperature") (temperature cfg) in
  if negb (validatePayload (JObj payload)) then
    throw (newError (lit "llm_task.invoke payload invalid: " ++
                     payload_errorsText (JObj payload)))
  else
    endpoint <- lift (match transport cfg with
                      | direct => buildDirectEndpoint (baseUrl cfg)
                      | clawd => buildClawdEndpoint (clawdUrl cfg)
                      end) ;;
    let token :=
      string_or_empty
        (coalesce (get (lit "token") args)
           (match transport cfg with
            | direct => env_get (env cfg) "LLM_TASK_TOKEN"
            | clawd => env_get (env cfg) "CLAWD_TOKEN"
            end)) in
    validator <- lift (match userOutputSchema cfg with
                       | Some schema => obind (ajv_compile schema) (fun v => Return (Some v))
                       | None => Return None
                       end) ;;
    invoke_loop (Z.to_nat (maxValidationRetries cfg + 2)) cfg endpoint token
                validator payload 0 [].

(** Lines 262-269, then [invoke]:
[[
    if (!disableCache && !forceRefresh) {
      const cache = await readCacheEntry(env, cacheKey);
      if (cache) return { output: streamOf(cache.items.map((item) => ({ ...item, source: 'cache', cached: true }))) };
    }
]] *)
Definition after_run_state (args : json) (cfg : Config) : M (option StageResult) :=
  if negb (disableCache cfg) && negb (forceRefresh cfg) then
    cache <- readCacheEntry (env cfg) (cacheKey cfg) ;;
    if truthy (Some cache) then
      items <- lift (cache_items cache) ;;
      ret (Some (mkStageResult
                   (Some (asStream (map (from_store "cache") items))) false false))
    else invoke args cfg
  else invoke args cfg.

(** Lines 252-260, then the rest:
[[
    if (stateKey && !forceRefresh) {
      const stored = await readStateJson({ env, key: stateKey }).catch(() => null);
      const reused = pickReusableState(stored, cacheKey);
      if (reused) return { output: streamOf(reused.items.map((item) => ({ ...item, source: 'run_state', cached: true }))) };
    }
]] *)
Definition lookup_and_invoke (args : json) (cfg : Config) : M (option StageResult) :=
  match stateKey cfg with
  | Some key =>
      if negb (forceRefresh cfg) then
        stored <- try_catch (readStateJson (env cfg) key) (fun _ => ret JNull) ;;
        match pickReusableState stored (cacheKey cfg) with
        | Some items =>
            ret (Some (mkStageResult
                         (Some (asStream (map (from_store "run_state") items)))
                         false false))
        | None => after_run_state args cfg
        end
      else after_run_state args cfg
  | None => after_run_state args cfg
  end.

(** [llmTaskInvokeCommand.run({ input, args, ctx })] *)
Definition run (input : Stream) (args : json) (ctx : Ctx) : M (option StageResult) :=
  cfg <- configure input args ctx ;;
  lookup_and_invoke args cfg.

Definition llmTaskInvokeCommand : Runtime.Command := Runtime.mkCommand run.

End WithPlatform.

End LlmTaskInvoke.

(** ** The SDK's exec primitive (src/sdk/primitives/exec.ts) *)

Module Exec.
Import JS Eff SdkRuntime.
Local Open Scope eff_scope.

(** [[
function parseCommand(cmdString) {
  const tokens = []; let current = ''; let quote = null;
  for (let i = 0; i < cmdString.length; i++) {
    const ch = cmdString[i];
    if (quote) {
      if (ch === '\\' && cmdString[i + 1]) { current += cmdString[i + 1]; i++; continue; }
      if (ch === quote) { quote = null; continue; }
      current += ch; continue;
    }
    if (ch is a double quote or a single quote) { quote = ch; continue; }
    if (ch === ' ' || ch === '\t') {
      if (current.length > 0) { tokens.push(current); current = ''; }
      continue;
    }
    current += ch;
  }
  if (current.length > 0) tokens.push(current);
  const [command, ...args] = tokens;
  return { command, args };
}
]]
    [scan quote current tokens rest] is the loop with [rest] still to
    read (34 and 39 are the two quote characters, 92 the backslash, 32 and
    9 the space and the tab). *)
Fixpoint scan (quote : option Z) (current : jsstring) (tokens : list jsstring)
  (rest : jsstring) : list jsstring :=
  match rest with
  | [] =>
      match current with
      | [] => tokens
      | _ => tokens ++ [current]
      end
  | ch :: rest' =>
      match quote with
      | Some q =>
          match (ch =? 92), rest' with
          | true, next :: rest'' => scan quote (current ++ [next]) tokens rest''
          | _, _ =>
              if ch =? q then scan None current tokens rest'
              else scan quote (current ++ [ch]) tokens rest'
          end
      | None =>
          if (ch =? 34) || (ch =? 39) then scan (Some ch) current tokens rest'
          else if (ch =? 32) || (ch =? 9) then
            match current with
            | [] => scan None [] tokens rest'
            | _ => scan None [] (tokens ++ [current]) rest'
            end
          else scan None (current ++ [ch]) tokens rest'
      end
  end.

(** [{ command, args }]; [command] is [undefined] when there is no token. *)
Definition parseCommand (cmdString : jsstring) : option jsstring * list jsstring :=
  match scan None [] [] cmdString with
  | [] => (None, [])
  | command :: args => (Some command, args)
  end.

(** How a spawned child ends: the ['close'] event with its exit code and
    what it wrote, or the ['error'] event. *)
Inductive ChildEnd :=
| Closed (code : Z) (stdout stderr : jsstring)
| Failed (message : jsstring).

(** [spawn(command, argv, { env, cwd, stdio, shell: false })], up to the
    event that settles the promise of [runProcess]. *)
Class Spawner := mkSpawner {
  spawn : jsstring -> list jsstring -> Env -> jsstring -> M ChildEnd
}.

Section WithSpawner.
Context {spawner : Spawner}.

(** [[
function runProcess(command, argv, { env, cwd }) {
  return new Promise((resolve, reject) => {
    const child = spawn(command, argv, { env, cwd, stdio: [...], shell: false });
    ...
    child.on('error', (err) => reject(new Error(`Failed to execute ${command}: ${err.message}`)));
    child.on('close', (code) => {
      if (code === 0) resolve({ stdout, stderr });
      else reject(new Error(`${command} exited with code ${code}: ${stderr.trim() || stdout.trim()}`));
    });
  });
}
]]
    A [command] that is [undefined] is not followed. *)
Definition runProcess (command : option jsstring) (argv : list jsstring)
  (env : Env) (cwd : jsstring) : M (jsstring * jsstring) :=
  match command with
  | None => lift Unmodelled
  | Some command =>
      child <- spawn command argv env cwd ;;
      match child with
      | Failed message =>
          throw (newError (lit "Failed to execute " ++ command ++ lit ": " ++ message))
      | Closed code stdout stderr =>
          if code =? 0 then ret (stdout, stderr)
          else
            throw (newError (command ++ lit " exited with code " ++ int_chars code ++
                             lit ": " ++
                             match trim stderr with
                             | [] => trim stdout
                             | e => e
                             end))
      end
  end.

(** [[
export function exec(cmdString, options = {}) {
  const parseJson = options.json !== false;
  const useShell = options.shell === true;
  const cwd = options.cwd ?? process.cwd();
  return {
    type: 'exec', command: cmdString,
    async run({ input, ctx }) {
      for await (const _item of input) {}
      const env = ctx.env ?? process.env;
      let stdout;
      if (useShell) {
        const result = await runProcess('/bin/sh', ['-c', cmdString], { env, cwd });
        stdout = result.stdout;
      } else {
        const { command, args } = parseCommand(cmdString);
        const result = await runProcess(command, args, { env, cwd });
        stdout = result.stdout;
      }
      let output;
      if (parseJson) {
        try { output = JSON.parse(stdout.trim() || '[]'); }
        catch { throw new Error(`exec output is not valid JSON: ${stdout.slice(0, 100)}`); }
      } else { output = stdout; }
      const items = Array.isArray(output) ? output : [output];
      return { output: (async function* () { for (const item of items) yield item; })() };
    },
  };
}
]]
    [cwd] is [options.cwd ?? process.cwd()], read when the stage is made. *)
Definition exec_run (cmdString : jsstring) (parseJson useShell : bool)
  (cwd : jsstring) (input : Stream) (ctx : Ctx) : M (option StageResult) :=
  input ;;;
  env <- (fun w => (Return (match ctx_env ctx with Some e => e | None => w_env w end), w)) ;;
  result <- (if useShell
             then runProcess (Some (lit "/bin/sh")) [lit "-c"; cmdString] env cwd
             else let (command, args) := parseCommand cmdString in
                  runProcess command args env cwd) ;;
  let stdout := fst result in
  output <- (if parseJson then
               lift (otry (JSON_parse (match trim stdout with
                                       | [] => lit "[]"
                                       | t => t
                                       end))
                       (fun _ => Throw (newError (lit "exec output is not valid JSON: " ++
                                                  firstn 100 stdout))))
             else ret (JStr stdout)) ;;
  let items := match output with JArr l => l | _ => [output] end in
  ret (Some (mkStageResult (Some (asStream items)) false false)).

Definition exec (cmdString : jsstring) (options : json) (cwd : jsstring) : Stage :=
  let parseJson := match get (lit "json") options with
                   | Some (JBool false) => false
                   | _ => true
                   end in
  let useShell := match get (lit "shell") options with
                  | Some (JBool true) => true
                  | _ => false
                  end in
  StageObject (exec_run cmdString parseJson useShell cwd).

(** [[
export function shell(cmdString, options = {}) {
  return exec(cmdString, { ...options, shell: true });
}
]] *)
Definition shell (cmdString : jsstring) (options : json) (cwd : jsstring) : Stage :=
  exec cmdString
    (JObj (obj_set (lit "shell") (JBool true)
             (match options with JObj l => l | _ => [] end))) cwd.

End WithSpawner.

End Exec.

(** ** The groupBy command (src/commands/stdlib/group_by.ts) *)

Module GroupBy.
Import JS Eff.
Local Open Scope eff_scope.

(** [path.split('.')]: the pieces between the dots (46), empty ones
    included. *)
Fixpoint split_dots (current : jsstring) (s : jsstring) : list jsstring :=
  match s with
  | [] => [current]
  | c :: s' =>
      if c =? 46 then current :: split_dots [] s'
      else split_dots (current ++ [c]) s'
  end.

(** The names [Object.prototype] answers to. *)
Definition inherited : list string :=
  ["constructor"; "__defineGetter__"; "__defineSetter__"; "hasOwnProperty";
   "__lookupGetter__"; "__lookupSetter__"; "isPrototypeOf";
   "propertyIsEnumerable"; "toString"; "valueOf"; "__proto__";
   "toLocaleString"]%string.

(** [cur[p]] for a [cur] that is neither [null] nor [undefined].  An own
    property of an object is its value, and a name the object does not
    have is [undefined] unless [Object.prototype] has it; the elements of
    an array are read by index.  What a read finds on a prototype, or on a
    string, a number or a boolean, is not followed. *)
Definition read (cur : json) (p : jsstring) : Outcome (option json) :=
  match cur with
  | JObj l =>
      match assoc p l with
      | Some v => Return (Some v)
      | None =>
          if existsb (fun name => str_eqb (lit name) p) inherited
          then Unmodelled
          else Return None
      end
  | JArr l =>
      match array_index p with
      | Some i => Return (nth_error l (Z.to_nat i))
      | None => Unmodelled
      end
  | _ => Unmodelled
  end.

(** [[
function getByPath(obj, path) {
  const parts = path.split('.').filter(Boolean);
  let cur = obj;
  for (const p of parts) {
    if (cur == null) return undefined;
    cur = cur[p];
  }
  return cur;
}
]] *)
Fixpoint walk (cur : option json) (parts : list jsstring) : Outcome (option json) :=
  match parts with
  | [] => Return cur
  | p :: parts' =>
      match cur with
      | None | Some JNull => Return None
      | Some v => obind (read v p) (fun next => walk next parts')
      end
  end.

(** [path.split('.').filter(Boolean)] *)
Definition parts_of (path : jsstring) : list jsstring :=
  filter (fun p => match p with [] => false | _ => true end) (split_dots [] path).

Definition getByPath (obj : json) (path : jsstring) : Outcome (option json) :=
  let parts := parts_of path in
  walk (Some obj) parts.

(** An entry of [groups]: the key [k] it is stored under
    ([JSON.stringify(keyVal)], which is [undefined] for [undefined]) and
    its value [{ key, items }]. *)
Record Group := mkGroup {
  g_k : option jsstring;
  g_key : option json;
  g_items : list json
}.

Definition same_k (a b : option jsstring) : bool :=
  match a, b with
  | None, None => true
  | Some x, Some y => str_eqb x y
  | _, _ => false
  end.

(** [groups.has(k)] *)
Fixpoint has (k : option jsstring) (groups : list Group) : bool :=
  match groups with
  | [] => false
  | g :: rest => same_k k (g_k g) || has k rest
  end.

(** [groups.get(k)] *)
Fixpoint lookup (k : option jsstring) (groups : list Group) : option Group :=
  match groups with
  | [] => None
  | g :: rest => if same_k k (g_k g) then Some g else lookup k rest
  end.

(** [groups.get(k).items.push(item)] *)
Fixpoint push_item (k : option jsstring) (item : json) (groups : list Group)
  : list Group :=
  match groups with
  | [] => []
  | g :: rest =>
      if same_k k (g_k g)
      then mkGroup (g_k g) (g_key g) (g_items g ++ [item]) :: rest
      else g :: push_item k item rest
  end.

(** [[
    for await (const item of input) {
      const keyVal = getByPath(item, keyPath);
      const k = JSON.stringify(keyVal);
      if (!groups.has(k)) { groups.set(k, { key: keyVal, items: [] }); order.push(k); }
      groups.get(k).items.push(item);
    }
]]
    with [groups] and [order] as they stand before an item. *)
Fixpoint collect (keyPath : jsstring) (items : list json)
  (groups : list Group) (order : list (option jsstring))
  : Outcome (list Group * list (option jsstring)) :=
  match items with
  | [] => Return (groups, order)
  | item :: items' =>
      obind (getByPath item keyPath) (fun keyVal =>
        let k := option_map JSON_stringify keyVal in
        let (groups1, order1) :=
          if negb (has k groups)
          then (groups ++ [mkGroup k keyVal []], order ++ [k])
          else (groups, order) in
        collect keyPath items' (push_item k item groups1) order1)
  end.

(** [{ key: g.key, items: g.items, count: g.items.length }]; a [key] that
    is [undefined] is left out, as [JSON.stringify] leaves it out. *)
Definition group_item (g : Group) : json :=
  JObj (Sdk.prop (lit "key") (g_key g) ++
        [(lit "items", JArr (g_items g));
         (lit "count", JNum (Z.of_nat (List.length (g_items g))))]).

(** [for (const k of order) { const g = groups.get(k); yield {...}; }] *)
Fixpoint emit (groups : list Group) (order : list (option jsstring)) : list json :=
  match order with
  | [] => []
  | k :: order' =>
      match lookup k groups with
      | Some g => group_item g :: emit groups order'
      | None => emit groups order'
      end
  end.

(** [[
  async run({ input, args }) {
    const keyPath = String(args.key ?? '').trim();
    if (!keyPath) throw new Error('groupBy requires --key');
    const groups = new Map(); const order = [];
    for await (const item of input) { ... }
    return { output: (async function* () { for (const k of order) ... })() };
  }
]] *)
Definition run (input : Stream) (args : json) (_ctx : Ctx) : M (option StageResult) :=
  let keyPath := LlmTaskInvoke.string_or_empty (get (lit "key") args) in
  match keyPath with
  | [] => throw (newError (lit "groupBy requires --key"))
  | _ =>
      items <- input ;;
      result <- lift (collect keyPath items [] []) ;;
      let (groups, order) := (result : list Group * list (option jsstring)) in
      ret (Some (mkStageResult (Some (asStream (emit groups order))) false false))
  end.

Definition groupByCommand : Runtime.Command := Runtime.mkCommand run.

End GroupBy.

(** ** The SDK's state primitives (src/sdk/primitives/state.ts) *)

Module State.
Import JS Eff SdkRuntime.
Local Open Scope eff_scope.

(** What the state and diff primitives take from Node. *)
Class Files := mkFiles {
  (* fsp.readFile(path, 'utf8'), fsp.mkdir(dir, { recursive: true }),
     fsp.writeFile(path, text, 'utf8') *)
  readFile : jsstring -> M jsstring;
  mkdir : jsstring -> M unit;
  writeFile : jsstring -> jsstring -> M unit;
  (* path.join(...parts), os.homedir() *)
  path_join : list jsstring -> jsstring;
  homedir : World -> jsstring;
  (* JSON.stringify(value, null, 2) *)
  JSON_stringify_pretty : json -> jsstring
}.

(** The characters of the class [[a-z0-9._-]]. *)
Definition allowed (c : Z) : bool :=
  ((97 <=? c) && (c <=? 122)) || ((48 <=? c) && (c <=? 57))
  || (c =? 46) || (c =? 95) || (c =? 45).

Definition underscore (c : Z) : bool := c =? 95.

(** [s.replace(/C+/g, '_')] for a class [C] of characters: every maximal
    run of characters of the class becomes one underscore.  [inside] says
    that the character before was of the class. *)
Fixpoint replace_runs (in_class : Z -> bool) (inside : bool) (s : jsstring)
  : jsstring :=
  match s with
  | [] => []
  | c :: s' =>
      if in_class c
      then if inside then replace_runs in_class true s'
           else 95 :: replace_runs in_class true s'
      else c :: replace_runs in_class false s'
  end.

(** [s.replace(/^_+/, '')] *)
Fixpoint drop_underscores (s : jsstring) : jsstring :=
  match s with
  | c :: s' => if underscore c then drop_underscores s' else s
  | [] => []
  end.

(** [s.replace(/^_+|_+$/g, '')] *)
Definition strip_underscores (s : jsstring) : jsstring :=
  List.rev (drop_underscores (List.rev (drop_underscores s))).

(** [c.toLowerCase()] for a character below 128. *)
Definition lower (c : Z) : Z :=
  if (65 <=? c) && (c <=? 90) then c + 32 else c.

(** [[
  const safe = String(key)
    .toLowerCase()
    .replace(/[^a-z0-9._-]+/g, '_')
    .replace(/_+/g, '_')
    .replace(/^_+|_+$/g, '');
]]
    for a key of characters below 128; the lower case of the others is
    not followed. *)
Definition safe (key : jsstring) : Outcome jsstring :=
  if forallb (fun c => (0 <=? c) && (c <? 128)) key then
    Return (strip_underscores
              (replace_runs underscore false
                 (replace_runs (fun c => negb (allowed c)) false
                    (map lower key))))
  else Unmodelled.

Section WithFiles.
Context {files : Files}.

(** [[
function getStateDir(ctx) {
  return (
    ctx?.stateDir ||
    (ctx?.env?.LOBSTER_STATE_DIR && String(ctx.env.LOBSTER_STATE_DIR).trim()) ||
    path.join(os.homedir(), '.lobster', 'state')
  );
}
]] *)
Definition getStateDir (ctx : Ctx) : M jsstring :=
  fun w =>
    let fallback := path_join [homedir w; lit ".lobster"; lit "state"] in
    match ctx_stateDir ctx with
    | Some (c :: d) => (Return (c :: d), w)
    | _ =>
        match ctx_env ctx with
        | Some env =>
            match env (lit "LOBSTER_STATE_DIR") with
            | Some (c :: d) =>
                match trim (c :: d) with
                | [] => (Return fallback, w)
                | dir => (Return dir, w)
                end
            | _ => (Return fallback, w)
            end
        | None => (Return fallback, w)
        end
    end.

(** [[
function keyToPath(stateDir, key) {
  const safe = ...;
  if (!safe) throw new Error('state key is empty/invalid');
  return path.join(stateDir, `${safe}.json`);
}
]] *)
Definition keyToPath (stateDir : jsstring) (key : jsstring) : Outcome jsstring :=
  obind (safe key) (fun safe =>
    match safe with
    | [] => Throw (newError (lit "state key is empty/invalid"))
    | _ => Return (path_join [stateDir; safe ++ lit ".json"])
    end).

(** [[
      let value = null;
      try {
        const text = await fsp.readFile(filePath, 'utf8');
        value = JSON.parse(text);
      } catch (err) {
        if (err?.code !== 'ENOENT') throw err;
      }
]] *)
Definition read_value (filePath : jsstring) : M json :=
  try_catch
    (text <- readFile filePath ;;
     lift (JSON_parse text))
    (fun err => if negb (LlmTaskInvoke.is_ENOENT err) then throw err else ret JNull).

(** [[
export function stateGet(key) {
  if (!key) throw new Error('stateGet requires a key');
  return {
    type: 'state.get', key,
    async run({ input, ctx }) {
      for await (const _item of input) { }
      const stateDir = getStateDir(ctx);
      const filePath = keyToPath(stateDir, key);
      let value = null;
      try { ... } catch (err) { ... }
      return { output: (async function* () { yield value; })() };
    },
  };
}
]] *)
Definition stateGet_run (key : jsstring) (input : Stream) (ctx : Ctx)
  : M (option StageResult) :=
  input ;;;
  stateDir <- getStateDir ctx ;;
  filePath <- lift (keyToPath stateDir key) ;;
  value <- read_value filePath ;;
  ret (Some (mkStageResult (Some (asStream [value])) false false)).

Definition stateGet (key : jsstring) : Outcome Stage :=
  match key with
  | [] => Throw (newError (lit "stateGet requires a key"))
  | _ => Return (StageObject (stateGet_run key))
  end.

(** [[
export function stateSet(key) {
  if (!key) throw new Error('stateSet requires a key');
  return {
    type: 'state.set', key,
    async run({ input, ctx }) {
      const items = [];
      for await (const item of input) items.push(item);
      const value = items.length === 1 ? items[0] : items;
      const stateDir = getStateDir(ctx);
      const filePath = keyToPath(stateDir, key);
      await fsp.mkdir(stateDir, { recursive: true });
      await fsp.writeFile(filePath, JSON.stringify(value, null, 2) + '\n', 'utf8');
      return { output: (async function* () { yield value; })() };
    },
  };
}
]] *)
Definition one_or_all (items : list json) : json :=
  match items with
  | [item] => item
  | _ => JArr items
  end.

Definition store_value (stateDir filePath : jsstring) (value : json) : M unit :=
  mkdir stateDir ;;;
  writeFile filePath (JSON_stringify_pretty value ++ [10]).

Definition stateSet_run (key : jsstring) (input : Stream) (ctx : Ctx)
  : M (option StageResult) :=
  items <- input ;;
  let value := one_or_all items in
  stateDir <- getStateDir ctx ;;
  filePath <- lift (keyToPath stateDir key) ;;
  store_value stateDir filePath value ;;;
  ret (Some (mkStageResult (Some (asStream [value])) false false)).

Definition stateSet (key : jsstring) : Outcome Stage :=
  match key with
  | [] => Throw (newError (lit "stateSet requires a key"))
  | _ => Return (StageObject (stateSet_run key))
  end.

(** [[
export async function readState(key, ctx = {}) {
  const stateDir = getStateDir(ctx);
  const filePath = keyToPath(stateDir, key);
  try {
    const text = await fsp.readFile(filePath, 'utf8');
    return JSON.parse(text);
  } catch (err) {
    if (err?.code === 'ENOENT') return null;
    throw err;
  }
}
]] *)
Definition readState (key : jsstring) (ctx : Ctx) : M json :=
  stateDir <- getStateDir ctx ;;
  filePath <- lift (keyToPath stateDir key) ;;
  try_catch
    (text <- readFile filePath ;;
     lift (JSON_parse text))
    (fun err => if LlmTaskInvoke.is_ENOENT err then ret JNull else throw err).

(** [[
export async function writeState(key, value, ctx = {}) {
  const stateDir = getStateDir(ctx);
  const filePath = keyToPath(stateDir, key);
  await fsp.mkdir(stateDir, { recursive: true });
  await fsp.writeFile(filePath, JSON.stringify(value, null, 2) + '\n', 'utf8');
}
]] *)
Definition writeState (key : jsstring) (value : json) (ctx : Ctx) : M unit :=
  stateDir <- getStateDir ctx ;;
  filePath <- lift (keyToPath stateDir key) ;;
  store_value stateDir filePath value.

End WithFiles.

End State.

(** ** The SDK's diff primitive (src/sdk/primitives/diff.ts)

    The file repeats [getStateDir] and [keyToPath] of state.ts word for
    word; the model uses the ones of [State]. *)

Module Diff.
Import JS Eff SdkRuntime State.
Local Open Scope eff_scope.

(** The order of [Array.prototype.sort] without a comparator on strings:
    by code units, a prefix first. *)
Fixpoint str_leb (a b : jsstring) : bool :=
  match a, b with
  | [], _ => true
  | _ :: _, [] => false
  | x :: a', y :: b' =>
      if x <? y then true else if y <? x then false else str_leb a' b'
  end.

Fixpoint insert_key (k : jsstring) (sorted : list jsstring) : list jsstring :=
  match sorted with
  | [] => [k]
  | x :: rest => if str_leb k x then k :: sorted else x :: insert_key k rest
  end.

(** [keys.sort()] *)
Definition sort (keys : list jsstring) : list jsstring :=
  fold_right insert_key [] keys.

(** [Object.fromEntries(Object.keys(v).sort().map((k) => [k, v[k]]))] *)
Definition sort_object (l : list (jsstring * json)) : list (jsstring * json) :=
  obj_of_entries
    (flat_map (fun k => match assoc k l with
                        | Some x => [(k, x)]
                        | None => []
                        end)
              (sort (map fst l))).

(** [[
function stableStringify(value) {
  return JSON.stringify(value, (_k, v) => {
    if (v && typeof v === 'object' && !Array.isArray(v)) {
      return Object.fromEntries(Object.keys(v).sort().map((k) => [k, v[k]]));
    }
    return v;
  });
}
]]
    [replaced v] is the value that is written: the replacer has been
    applied to [v] and, one level after the other, to what it holds. *)
Fixpoint replaced (v : json) : json :=
  match v with
  | JArr l => JArr (map replaced l)
  | JObj l => JObj (sort_object (map (fun kv => (fst kv, replaced (snd kv))) l))
  | _ => v
  end.

Definition stableStringify (value : json) : jsstring :=
  JSON_stringify (replaced value).

Section WithFiles.
Context {files : Files}.

(** [[
    async run({ input, ctx }) {
      const items = [];
      for await (const item of input) items.push(item);
      const value = items.length === 1 ? items[0] : items;
      const stateDir = getStateDir(ctx);
      const filePath = keyToPath(stateDir, key);
      let before = null;
      try {
        const text = await fsp.readFile(filePath, 'utf8');
        before = JSON.parse(text);
      } catch (err) {
        if (err?.code !== 'ENOENT') throw err;
      }
      const changed = stableStringify(before) !== stableStringify(value);
      await fsp.mkdir(stateDir, { recursive: true });
      await fsp.writeFile(filePath, JSON.stringify(value, null, 2) + '\n', 'utf8');
      const result = { kind: 'diff.last', key, changed, before, after: value };
      if (changesOnly && !changed) {
        return { output: (async function* () {
          yield { kind: 'diff.last', key, changed: false, suppressed: true };
        })() };
      }
      return { output: (async function* () { yield result; })() };
    }
]] *)
Definition diffLast_run (key : jsstring) (changesOnly : bool)
  (input : Stream) (ctx : Ctx) : M (option StageResult) :=
  items <- input ;;
  let value := one_or_all items in
  stateDir <- getStateDir ctx ;;
  filePath <- lift (keyToPath stateDir key) ;;
  before <- read_value filePath ;;
  let changed := negb (str_eqb (stableStringify before) (stableStringify value)) in
  store_value stateDir filePath value ;;;
  let result := JObj [(lit "kind", JStr (lit "diff.last")); (lit "key", JStr key);
                      (lit "changed", JBool changed); (lit "before", before);
                      (lit "after", value)] in
  if changesOnly && negb changed then
    ret (Some (mkStageResult
                 (Some (asStream [JObj [(lit "kind", JStr (lit "diff.last"));
                                        (lit "key", JStr key);
                                        (lit "changed", JBool false);
                                        (lit "suppressed", JBool true)]]))
                 false false))
  else
    ret (Some (mkStageResult (Some (asStream [result])) false false)).

(** [[
export function diffLast(key, options = {}) {
  if (!key) throw new Error('diffLast requires a key');
  const changesOnly = options.changesOnly === true;
  return { type: 'diff.last', key, async run({ input, ctx }) { ... } };
}
]] *)
Definition diffLast (key : jsstring) (options : json) : Outcome Stage :=
  match key with
  | [] => Throw (newError (lit "diffLast requires a key"))
  | _ =>
      let changesOnly := match get (lit "changesOnly") options with
                         | Some (JBool true) => true
                         | _ => false
                         end in
      Return (StageObject (diffLast_run key changesOnly))
  end.

(** [[
export async function diffAndStoreValue(key, value, ctx = {}) {
  const stateDir = getStateDir(ctx);
  const filePath = keyToPath(stateDir, key);
  let before = null;
  try { ... } catch (err) { if (err?.code !== 'ENOENT') throw err; }
  const changed = stableStringify(before) !== stableStringify(value);
  await fsp.mkdir(stateDir, { recursive: true });
  await fsp.writeFile(filePath, JSON.stringify(value, null, 2) + '\n', 'utf8');
  return { before, after: value, changed };
}
]] *)
Definition diffAndStoreValue (key : jsstring) (value : json) (ctx : Ctx) : M json :=
  stateDir <- getStateDir ctx ;;
  filePath <- lift (keyToPath stateDir key) ;;
  before <- read_value filePath ;;
  let changed := negb (str_eqb (stableStringify before) (stableStringify value)) in
  store_value stateDir filePath value ;;;
  ret (JObj [(lit "before", before); (lit "after", value);
             (lit "changed", JBool changed)]).

End WithFiles.

End Diff.

(* ===================================================================== *)
(** * Worked examples                                                      *)
(* ===================================================================== *)

(** Concrete stages, workflows and a small platform, on which the
    properties below are instantiated. *)
Module Examples.
Import JS Eff SdkRuntime.
Local Open Scope eff_scope.

Definition no_env : Env := fun _ => None.

Definition w0 : World := mkWorld no_env [] [] [].

(** A world identical to [w] but for one more recorded effect. *)
Definition record (e : json) (w : World) : World :=
  mkWorld (w_env w) (w_stdout w) (w_stdin w) (w_effects w ++ [e]).

(** [() => [{ x: 1 }]] *)
Definition source : Stage :=
  StageFunction (fun _ _ => ret (SrcValue (JArr [JObj [(lit "x", JNum 1)]]))).

(** [approve({ prompt: 'first?' })], [approve({ prompt: 'second?' })] *)
Definition first_gate : Stage :=
  SdkApprove.approve (JObj [(lit "prompt", JStr (lit "first?"))]).

Definition second_gate : Stage :=
  SdkApprove.approve (JObj [(lit "prompt", JStr (lit "second?"))]).

(** [async function* (input) { for await (const item of input) yield item.x ?? null; }] *)
Definition pick_x : Stage :=
  StageGenerator (fun input _ =>
    items <- input ;;
    ret (map (fun item => match get (lit "x") item with
                          | Some v => v
                          | None => JNull
                          end) items)).

(** A stage object whose [run] sends something out and passes its input on. *)
Definition launch : Stage :=
  StageObject (fun input _ =>
    fun w => (Return (Some (mkStageResult (Some input) false false)),
              record (JStr (lit "launched")) w)).



Definition sdk_options : Sdk.Options := Sdk.mkOptions no_env None.

(** [new Lobster().pipe(source).pipe(approve(first)).pipe(approve(second)).pipe(pick_x)] *)
Definition workflow : Sdk.Lobster :=
  Sdk.mkLobster [source; first_gate; second_gate; pick_x] sdk_options None.

(** The token of the first halt of [workflow], and what it decodes to. *)
Definition first_token : jsstring :=
  Eval vm_compute in
    match fst (Sdk.run workflow SrcUndefined w0) with
    | Return res =>
        match Sdk.requiresApproval res with
        | Some ap => Sdk.resumeToken ap
        | None => []
        end
    | _ => []
    end.

Definition first_payload : json :=
  Eval vm_compute in
    match Token.decodeToken first_token with
    | Return p => p
    | _ => JNull
    end.

(** A halt descriptor whose items hold numbers that are no small
    integers: 0.25, 1e-7, 1e+21 and -1234.5. *)
Definition priced_payload : json :=
  JObj [(lit "protocolVersion", JNum 1); (lit "v", JNum 1);
        (lit "stageIndex", JNum 1); (lit "resumeAtIndex", JNum 2);
        (lit "items", JArr [JObj [(lit "price", JDec 25 (-2));
                                  (lit "rate", JDec 1 (-7));
                                  (lit "volume", JDec 1 21);
                                  (lit "balance", JDec (-12345) (-1))]]);
        (lit "prompt", JStr (lit "first?"))].

(** The double nearest to a decimal. *)
Definition double_of (m e : Z) : Z * Z :=
  match nearest_double m e with
  | RFinite M E => (M, E)
  | _ => (0, 0)
  end.

Definition first_approval : Sdk.Approval :=
  Sdk.mkApproval (Some (JStr (lit "first?"))) (Some (JArr [JObj [(lit "x", JNum 1)]]))
    first_token.

(** The token of the second halt, reached by resuming from the first. *)
Definition second_token : jsstring :=
  Eval vm_compute in
    match fst (Sdk.resume workflow first_token true w0) with
    | Return res =>
        match Sdk.requiresApproval res with
        | Some ap => Sdk.resumeToken ap
        | None => []
        end
    | _ => []
    end.

Definition second_approval : Sdk.Approval :=
  Sdk.mkApproval (Some (JStr (lit "second?"))) (Some (JArr [JObj [(lit "x", JNum 1)]]))
    second_token.

(** The CLI commands of the same kind. *)
Definition emit_one : Runtime.Command :=
  Runtime.mkCommand (fun _ _ _ => ret (Some (mkStageResult
    (Some (asStream [JObj [(lit "a", JNum 1)]])) false false))).

Definition failing : Runtime.Command :=
  Runtime.mkCommand (fun _ _ _ => throw (newError (lit "exit 1"))).

(** A command whose output throws when it is read. *)
Definition failing_late : Runtime.Command :=
  Runtime.mkCommand (fun _ _ _ => ret (Some (mkStageResult
    (Some (throw (newError (lit "exit 1")))) false false))).

Definition registry : Runtime.Registry :=
  fun name =>
    if str_eqb name (lit "emit") then Some emit_one
    else if str_eqb name (lit "approve") then Some ApproveCommand.approveCommand
    else if str_eqb name (lit "fail") then Some failing
    else if str_eqb name (lit "late") then Some failing_late
    else None.

Definition cli_emit : Runtime.PipelineStage :=
  Runtime.mkPipelineStage (lit "emit") (JObj []).

Definition cli_approve : Runtime.PipelineStage :=
  Runtime.mkPipelineStage (lit "approve") (JObj [(lit "prompt", JStr (lit "send?"))]).

Definition cli_fail : Runtime.PipelineStage :=
  Runtime.mkPipelineStage (lit "fail") (JObj []).


(** *** A small platform for llm_task.invoke

    The store and the files live in [w_effects]; the remote answers the
    [n]-th request with [responses n]. *)
Import LlmTaskInvoke.

Definition effect (op : string) (k : jsstring) (v : json) : json :=
  JObj [(lit "op", JStr (lit op)); (lit "key", JStr k); (lit "value", v)].

(** The value the last [op] on [k] recorded. *)
Fixpoint last_effect (op : string) (k : jsstring) (log : list json) : option json :=
  match log with
  | [] => None
  | e :: log' =>
      match last_effect op k log' with
      | Some v => Some v
      | None =>
          match get (lit "op") e, get (lit "key") e with
          | Some (JStr o), Some (JStr k') =>
              if str_eqb o (lit op) && str_eqb k' k then get (lit "value") e else None
          | _, _ => None
          end
      end
  end.

Definition count_effects (op : string) (log : list json) : nat :=
  List.length (filter (fun e => match get (lit "op") e with
                                | Some (JStr o) => str_eqb o (lit op)
                                | _ => false
                                end) log).

(** A stand-in for the digest: 16 hexadecimal digits of a polynomial
    checksum. *)
Definition checksum (s : jsstring) : jsstring :=
  let h := fold_left (fun acc c => (acc * 31 + c + 7) mod 18446744073709551616) s 0 in
  hex4 (h / 281474976710656) ++ hex4 ((h / 4294967296) mod 65536) ++
  hex4 ((h / 65536) mod 65536) ++ hex4 (h mod 65536).

(** A validator that knows the keyword [required]. *)
Definition required_keys (schema : json) (data : json) : option (list ErrorObject) :=
  match get (lit "required") schema with
  | Some (JArr keys) =>
      match filter (fun k => match k, data with
                             | JStr name, JObj l => negb (has_key name l)
                             | _, _ => true
                             end) keys with
      | [] => None
      | missing =>
          Some (map (fun k => mkErrorObject []
                       (Some (lit "must have required property '" ++ to_String k ++ lit "'")))
                    missing)
      end
  | _ => None
  end.

Definition enoent : exn :=
  mkExn KError (lit "ENOENT: no such file or directory") (Some (lit "ENOENT")).

Definition example_platform (responses : nat -> Response) : Platform :=
  mkPlatform
    (fun _ key w =>
       match last_effect "writeState" key (w_effects w) with
       | Some v => (Return v, w)
       | None => (Return JNull, w)
       end)
    (fun _ key value w => (Return tt, record (effect "writeState" key value) w))
    JSON_stringify
    checksum
    (fun schema => Return (required_keys schema))
    (fun _ => lit "data is invalid")
    (fun endpoint _ body w =>
       (Return (responses (count_effects "fetch" (w_effects w))),
        record (effect "fetch" (url_origin endpoint ++ url_pathname endpoint) (JStr body)) w))
    (fun text => Some (mkURL text [] [] false))
    (fun path w =>
       match last_effect "writeFile" path (w_effects w) with
       | Some (JStr text) => (Return text, w)
       | _ => (Throw enoent, w)
       end)
    (fun dir w => (Return tt, record (effect "mkdir" dir JNull) w))
    (fun path text w => (Return tt, record (effect "writeFile" path (JStr text)) w))
    (fun parts => join (lit "/") (map JStr parts))
    (fun _ => lit "/work")
    JSON_stringify
    (ret (lit "2026-01-01T00:00:00.000Z")).

(** A 200 response whose body is the JSON text of [body]. *)
Definition ok_response (body : json) : Response :=
  mkResponse true 200 (lit "OK") (JSON_stringify body).

(** [{ ok: true, result: { runId, output: { data } } }] *)
Definition envelope (runId : string) (data : json) : json :=
  JObj [(lit "ok", JBool true);
        (lit "result", JObj [(lit "runId", JStr (lit runId));
                             (lit "output", JObj [(lit "data", data)])])].

(** A remote whose first answer lacks the [decision] the schema requires
    and whose later answers have it. *)
Definition second_time_right (n : nat) : Response :=
  match n with
  | O => ok_response (envelope "attempt_1" (JObj [(lit "foo", JStr (lit "bar"))]))
  | _ => ok_response (envelope "attempt_2" (JObj [(lit "decision", JStr (lit "send"))]))
  end.

Definition decision_platform : Platform := example_platform second_time_right.

(** [{ type: 'object', required: ['decision'] }] *)
Definition decision_schema : json :=
  JObj [(lit "type", JStr (lit "object"));
        (lit "required", JArr [JStr (lit "decision")])].

(** [llm_task.invoke --url http://llm --model m --prompt Decide
     --output-schema '{...}' --max-validation-retries 0] *)
Definition decide_args : list (jsstring * json) :=
  [(lit "_", JArr []);
   (lit "url", JStr (lit "http://llm"));
   (lit "model", JStr (lit "m"));
   (lit "prompt", JStr (lit "Decide"));
   (lit "output-schema", JStr (JSON_stringify decision_schema));
   (lit "max-validation-retries", JNum 0)].

Definition tool_ctx : Ctx := mkCtx (Some (mkStdin false)) (Some no_env) (lit "tool") None.

(** What [run] has computed when it reaches the loop. *)
Definition decide_cfg : Config :=
  Eval vm_compute in
    match fst (@configure decision_platform emptyStream (JObj decide_args) tool_ctx w0) with
    | Return cfg => cfg
    | _ => mkConfig no_env direct [] [] [] [] [] None None None None 0 false false None [] [] []
    end.

Definition decide_payload : list (jsstring * json) :=
  [(lit "prompt", JStr (lit "Decide"));
   (lit "model", JStr (lit "m"));
   (lit "artifacts", JArr []);
   (lit "artifactHashes", JArr []);
   (lit "outputSchema", decision_schema);
   (lit "schemaVersion", JStr (lit "v1"))].

Definition decide_endpoint : URL := mkURL (lit "http://llm") (lit "/tool/invoke") [] false.

(** A remote that always answers the same, and a call that names a run. *)
Definition steady (n : nat) : Response :=
  ok_response (envelope "state_run" (JObj [(lit "ok", JBool true)])).

Definition steady_platform : Platform := example_platform steady.

(** [llm_task.invoke --url http://llm --model claude --prompt 'Do thing'
     --state-key run123], with some metadata. *)
Definition keyed_base : list (jsstring * json) :=
  [(lit "_", JArr []);
   (lit "url", JStr (lit "http://llm"));
   (lit "model", JStr (lit "claude"));
   (lit "prompt", JStr (lit "Do thing"));
   (lit "state-key", JStr (lit "run123"))].

Definition keyed_args (metadata : json) : json :=
  JObj (obj_set (lit "metadata-json") metadata keyed_base).

Definition metadata_ab : json :=
  JStr (JSON_stringify (JObj [(lit "a", JNum 1); (lit "b", JNum 2)])).

Definition metadata_ba : json :=
  JStr (JSON_stringify (JObj [(lit "b", JNum 2); (lit "a", JNum 1)])).

Definition foo_bar : Stream := asStream [JObj [(lit "foo", JStr (lit "bar"))]].

(** The world after a first call has stored its result. *)
Definition after_first_call : World :=
  Eval vm_compute in
    snd (@run steady_platform foo_bar (keyed_args metadata_ab) tool_ctx w0).

Definition keyed_cfg (metadata : json) : Config :=
  match fst (@configure steady_platform foo_bar (keyed_args metadata) tool_ctx after_first_call) with
  | Return cfg => cfg
  | _ => mkConfig no_env direct [] [] [] [] [] None None None None 0 false false None [] [] []
  end.

Definition stored_record : json :=
  Eval vm_compute in
    match fst (@readStateJson steady_platform no_env (lit "run123") after_first_call) with
    | Return v => v
    | _ => JNull
    end.

Definition stored_items : list json :=
  Eval vm_compute in
    match get (lit "items") stored_record with
    | Some (JArr items) => items
    | _ => []
    end.

(** The first pass of the loop of [decide_args], and the second. *)
Definition first_answer : list json * World :=
  Eval vm_compute in
    match @one_attempt decision_platform decide_cfg decide_endpoint [] decide_payload 1 [] w0 with
    | (Return normalized, w) => (normalized, w)
    | (_, w) => ([], w)
    end.

Definition first_errors : list jsstring :=
  [lit "/ must have required property 'decision'"].

Definition second_answer : list json * World :=
  Eval vm_compute in
    match @one_attempt decision_platform decide_cfg decide_endpoint [] decide_payload 2
            first_errors (snd first_answer) with
    | (Return normalized, w) => (normalized, w)
    | (_, w) => ([], w)
    end.

End Examples.

(* ===================================================================== *)
(** * Vocabulary of the properties                                         *)
(* ===================================================================== *)

Import JS Eff.
Local Open Scope eff_scope.

(** In a run of [stages] on [input] from world [w], the stage [s] at index
    [i] is the one that halted: the stages before it ran without a halt,
    it answered with [halt], and [rest] are the stages after it. *)
Definition stage_halts_at (stages : list SdkRuntime.Stage) (ctx : Ctx)
  (input : SdkRuntime.Source) (w : World) (i : Z) (s : SdkRuntime.Stage)
  (rest : list SdkRuntime.Stage) : Prop :=
  exists pre varsP w1 r w2,
    stages = pre ++ s :: rest /\
    i = Z.of_nat (List.length pre) /\
    SdkRuntime.for_stages ctx 0 pre
      (SdkRuntime.mkVars (SdkRuntime.toAsyncIterable input) false None) w
      = (Return varsP, w1) /\
    SdkRuntime.v_halted varsP = false /\
    SdkRuntime.call_stage i s (SdkRuntime.v_stream varsP) ctx w1 = (Return r, w2) /\
    halt_of r = true.

Module Attempts.
Import LlmTaskInvoke.

Section Loop.
Context {platform : Platform}.
Variables (cfg : Config) (endpoint : URL) (token : jsstring)
          (validate : json -> option (list ErrorObject))
          (payload : list (jsstring * json)).

(** [rejected n a errs w a' errs' w']: starting after attempt [a] with the
    validation errors [errs] in world [w], the next [n] attempts each get a
    result from the transport that the caller's schema rejects; they end
    with attempt [a'], its errors [errs'] and the world [w']. *)
Inductive rejected : nat -> Z -> list jsstring -> World ->
                     Z -> list jsstring -> World -> Prop :=
| rejected_none (a : Z) (errs : list jsstring) (w : World) :
    rejected O a errs w a errs w
| rejected_next (n : nat) (a : Z) (errs : list jsstring) (w : World)
    (normalized : list json) (errors : list ErrorObject) (w1 : World)
    (a' : Z) (errs' : list jsstring) (w' : World) :
    one_attempt cfg endpoint token payload (a + 1) errs w = (Return normalized, w1) ->
    validate (structured_data normalized) = Some errors ->
    rejected n (a + 1) (collectAjvErrors errors) w1 a' errs' w' ->
    rejected (S n) a errs w a' errs' w'.

End Loop.
End Attempts.

(** The shapes of JSON text that the proofs of the codec speak of. *)
Module Shapes.

(** What may follow a numeral without being read as part of it. *)
Definition ends_number (rest : jsstring) : Prop :=
  match rest with
  | [] => True
  | c :: _ => is_digit c = false /\ c <> 46 /\ c <> 101 /\ c <> 69
  end.

(** The result of reading a string whose first unit is [c]. *)
Definition after (c : Z) (r : option (jsstring * jsstring)) : option (jsstring * jsstring) :=
  match r with
  | Some (str, rest) => Some (c :: str, rest)
  | None => None
  end.

(** The text of the elements of an array and of the members of an object. *)
Fixpoint elements (l : list json) : jsstring :=
  match l with
  | [] => []
  | x :: l' => JSON_stringify x ++ match l' with [] => [] | _ => 44 :: elements l' end
  end.

Fixpoint members (l : list (jsstring * json)) : jsstring :=
  match l with
  | [] => []
  | (k, x) :: l' =>
      QuoteJSONString k ++ 58 :: JSON_stringify x ++
      match l' with [] => [] | _ => 44 :: members l' end
  end.

(** The fuel that reading a value back takes. *)
Fixpoint size (v : json) : nat :=
  match v with
  | JArr l =>
      S ((fix sizes (l : list json) : nat :=
            match l with [] => O | x :: l' => S (size x + sizes l') end) l)
  | JObj l =>
      S ((fix sizes (l : list (jsstring * json)) : nat :=
            match l with [] => O | (_, x) :: l' => S (size x + sizes l') end) l)
  | _ => 1%nat
  end.

Fixpoint sizes (l : list json) : nat :=
  match l with [] => O | x :: l' => S (size x + sizes l') end.

Fixpoint member_sizes (l : list (jsstring * json)) : nat :=
  match l with [] => O | (_, x) :: l' => S (size x + member_sizes l') end.

(** What may follow a value inside an array or an object, or at the end. *)
Definition ends_value (rest : jsstring) : Prop :=
  match rest with
  | [] => True
  | c :: _ => c = 44 \/ c = 93 \/ c = 125
  end.

(** The first character of a value's text starts a value: it is no white
    space and closes nothing. *)
Definition starts_value (s : jsstring) : Prop :=
  match s with
  | [] => False
  | c :: _ => is_ws c = false /\ c <> 93 /\ c <> 125
  end.

(** What the induction gives for a value: its text is read back. *)
Definition reads_back (x : json) : Prop :=
  json_ok x ->
  forall (fuel : nat) (rest : jsstring),
    (size x <= fuel)%nat -> ends_value rest ->
    parse_value fuel (JSON_stringify x ++ rest) = Some (x, rest).

(** Text in range and well formed, so that UTF-8 carries it unchanged. *)
Definition clean (s : jsstring) : Prop := units_ok s /\ well_formed s = true.

Definition ascii (s : jsstring) : Prop := Forall (fun c => 0 <= c < 128) s.

End Shapes.

(* ===================================================================== *)
(** * Further worked examples and vocabulary                             *)
(* ===================================================================== *)

Module Cases.

(** A workflow with one gate: a source, the gate, and [pick_x] after it. *)
Definition short_workflow : Sdk.Lobster :=
  Sdk.mkLobster [Examples.source; Examples.first_gate; Examples.pick_x]
    Examples.sdk_options None.

(** The approval request of that gate. *)
Definition first_request : json :=
  JObj [(lit "type", JStr (lit "approval_request"));
        (lit "prompt", JStr (lit "first?"));
        (lit "items", JArr [JObj [(lit "x", JNum 1)]]);
        (lit "itemCount", JNum 1)].

(** A command that records that it ran. *)
Definition noting : Runtime.Command :=
  Runtime.mkCommand (fun input _ _ =>
    fun w => (Return (Some (mkStageResult (Some input) false false)),
              Examples.record (JStr (lit "ran")) w)).

Definition noting_registry : Runtime.Registry :=
  fun name => if str_eqb name (lit "note") then Some noting else None.

Definition note_stage : Runtime.PipelineStage :=
  Runtime.mkPipelineStage (lit "note") (JObj []).

Definition typo_stage : Runtime.PipelineStage :=
  Runtime.mkPipelineStage (lit "nope") (JObj []).

(** A terminal, and worlds in which the user is about to type. *)
Definition terminal_ctx : Ctx :=
  mkCtx (Some (mkStdin true)) (Some Examples.no_env) (lit "human") None.

(** A line feed. *)
Definition LF : jsstring := [10].

Definition typing (chunks : list jsstring) : World :=
  mkWorld Examples.no_env [] chunks [].

(** [llm_task.invoke --url http://llm --model claude --prompt 'Do thing'
     --state-key run123 --disable-cache] *)
Definition uncached_args : json :=
  JObj (Examples.keyed_base ++ [(lit "disable-cache", JBool true)]).

Definition uncached_cfg : LlmTaskInvoke.Config :=
  Eval vm_compute in
    match fst (@LlmTaskInvoke.configure Examples.steady_platform Examples.foo_bar
                 uncached_args Examples.tool_ctx Examples.w0) with
    | Return cfg => cfg
    | _ => Examples.decide_cfg
    end.

Definition after_uncached_call : World :=
  Eval vm_compute in
    snd (@LlmTaskInvoke.run Examples.steady_platform Examples.foo_bar
           uncached_args Examples.tool_ctx Examples.w0).

Definition uncached_items : list json :=
  Eval vm_compute in
    match fst (@LlmTaskInvoke.run Examples.steady_platform Examples.foo_bar
                 uncached_args Examples.tool_ctx Examples.w0) with
    | Return (Some r) =>
        match output r with
        | Some out => match fst (out Examples.w0) with Return l => l | _ => [] end
        | None => []
        end
    | _ => []
    end.

(** [llm_task.invoke --url http://llm --model claude --prompt 'Do thing'] *)
Definition plain_args : json :=
  JObj [(lit "_", JArr []);
        (lit "url", JStr (lit "http://llm"));
        (lit "model", JStr (lit "claude"));
        (lit "prompt", JStr (lit "Do thing"))].

Definition plain_cfg : LlmTaskInvoke.Config :=
  Eval vm_compute in
    match fst (@LlmTaskInvoke.configure Examples.steady_platform Examples.foo_bar
                 plain_args Examples.tool_ctx Examples.w0) with
    | Return cfg => cfg
    | _ => Examples.decide_cfg
    end.

Definition after_plain_call : World :=
  Eval vm_compute in
    snd (@LlmTaskInvoke.run Examples.steady_platform Examples.foo_bar
           plain_args Examples.tool_ctx Examples.w0).

Definition cache_path : jsstring :=
  Eval vm_compute in
    lit "/work/.lobster-cache/llm_task.invoke/" ++ LlmTaskInvoke.cacheKey plain_cfg
    ++ lit ".json".

Definition cache_text : jsstring :=
  Eval vm_compute in
    match Examples.last_effect "writeFile" cache_path (w_effects after_plain_call) with
    | Some (JStr text) => text
    | _ => []
    end.

Definition cache_file : json :=
  Eval vm_compute in
    match JSON_parse cache_text with
    | Return v => v
    | _ => JNull
    end.

Definition cached_items : list json :=
  Eval vm_compute in
    match get (lit "items") cache_file with
    | Some (JArr items) => items
    | _ => []
    end.

(** A world in which the cache file is torn. *)
Definition torn_cache : World :=
  Examples.record (Examples.effect "writeFile" cache_path (JStr (lit "{ items: ")))
    Examples.w0.

(** A remote that is down, and one that refuses. *)
Definition down (n : nat) : LlmTaskInvoke.Response :=
  LlmTaskInvoke.mkResponse false 503 (lit "Service Unavailable") (lit "try later").

Definition refusing (n : nat) : LlmTaskInvoke.Response :=
  Examples.ok_response
    (JObj [(lit "ok", JBool false);
           (lit "error", JObj [(lit "message", JStr (lit "quota exceeded"))])]).

(** An input item that claims to be an artifact but has a number for its
    kind, and what [configure] makes of the call with it. *)
Definition odd_artifact : json := JObj [(lit "kind", JNum 5)].

Definition odd_cfg : LlmTaskInvoke.Config :=
  Eval vm_compute in
    match fst (@LlmTaskInvoke.configure Examples.decision_platform
                 (asStream [odd_artifact]) (JObj Examples.decide_args)
                 Examples.tool_ctx Examples.w0) with
    | Return cfg => cfg
    | _ => Examples.decide_cfg
    end.

(** A platform whose [URL] reads a text that starts with [mailto:] as a URL
    with an opaque path, and every other text as [http://llm/v1/api/?x=1].
    *)
Definition pathful_platform : LlmTaskInvoke.Platform :=
  let p := Examples.steady_platform in
  LlmTaskInvoke.mkPlatform
    (@LlmTaskInvoke.readStateJson p) (@LlmTaskInvoke.writeStateJson p)
    (@LlmTaskInvoke.stableStringify p) (@LlmTaskInvoke.sha256_hex p)
    (@LlmTaskInvoke.ajv_compile p) (@LlmTaskInvoke.payload_errorsText p)
    (@LlmTaskInvoke.fetch p)
    (fun text =>
       if str_eqb (firstn 7 text) (lit "mailto:")
       then Some (LlmTaskInvoke.mkURL (lit "null") (skipn 7 text) [] true)
       else Some (LlmTaskInvoke.mkURL (lit "http://llm") (lit "/v1/api/") (lit "?x=1")
                    false))
    (@LlmTaskInvoke.readFile p) (@LlmTaskInvoke.mkdir p) (@LlmTaskInvoke.writeFile p)
    (@LlmTaskInvoke.path_join p) (@LlmTaskInvoke.process_cwd p)
    (@LlmTaskInvoke.JSON_stringify_pretty p) (@LlmTaskInvoke.now_ISO p).

(** A spawner whose child ends as told, and notes what was spawned. *)
Definition scripted_spawner (child : Exec.ChildEnd) : Exec.Spawner :=
  Exec.mkSpawner (fun command argv _ cwd w =>
    (Return child,
     Examples.record
       (Examples.effect "spawn" command (JArr (map JStr argv))) w)).

Definition one_pr : json := JObj [(lit "title", JStr (lit "Fix")); (lit "n", JNum 7)].

Definition spawned_gh : World :=
  Examples.record
    (Examples.effect "spawn" (lit "gh") (JArr [JStr (lit "pr"); JStr (lit "view")]))
    Examples.w0.

End Cases.

Module ReuseVocabulary.

(** The properties that an object spread [{ ...item }] copies: the
    properties of an object, the elements of an array and the code units
    of a string under their indices, and nothing of any other value. *)
Definition copied (item : json) (k : jsstring) (v : json) : Prop :=
  match item with
  | JObj l => assoc k l = Some v
  | JArr xs => exists i : nat, k = int_chars (Z.of_nat i) /\ nth_error xs i = Some v
  | JStr s =>
      exists (i : nat) (c : Z),
        k = int_chars (Z.of_nat i) /\ nth_error s i = Some c /\ v = JStr [c]
  | _ => False
  end.

(** [out] is the stored [item] as a call that reuses it yields it: an
    object with [source] and [cached: true] whose other properties are
    exactly the ones copied from [item]. *)
Definition read_back (source : string) (item out : json) : Prop :=
  (exists fields : list (jsstring * json), out = JObj fields)
  /\ get (lit "source") out = Some (JStr (lit source))
  /\ get (lit "cached") out = Some (JBool true)
  /\ forall (k : jsstring) (v : json),
       k <> lit "source" -> k <> lit "cached" ->
       (get k out = Some v <-> copied item k v).

End ReuseVocabulary.

Module PayloadVocabulary.
Import LlmTaskInvoke.

(** The payload [run] builds before it validates it (lines 271-283):
[[
    const payload = { prompt, ...(model ? { model } : null),
                      artifacts: normalizedArtifacts, artifactHashes };
    if (metadataObject) payload.metadata = metadataObject;
    if (userOutputSchema) payload.outputSchema = userOutputSchema;
    if (schemaVersion) payload.schemaVersion = schemaVersion;
    if (Number.isFinite(maxOutputTokens ?? NaN)) payload.maxOutputTokens = Number(maxOutputTokens);
    if (Number.isFinite(temperature ?? NaN)) payload.temperature = Number(temperature);
]] *)
Definition payload_of (cfg : Config) : list (jsstring * json) :=
  [(lit "prompt", JStr (prompt cfg))] ++
  match model cfg with [] => [] | m => [(lit "model", JStr m)] end ++
  [(lit "artifacts", JArr (normalizedArtifacts cfg));
   (lit "artifactHashes", JArr (map JStr (artifactHashes cfg)))] ++
  Sdk.prop (lit "metadata") (metadataObject cfg) ++
  Sdk.prop (lit "outputSchema") (userOutputSchema cfg) ++
  match schemaVersion cfg with [] => [] | v => [(lit "schemaVersion", JStr v)] end ++
  Sdk.prop (lit "maxOutputTokens") (maxOutputTokens cfg) ++
  Sdk.prop (lit "temperature") (temperature cfg).

(** What [configure] leaves in an optional field. *)
Definition object_or_none (v : option json) : Prop :=
  match v with
  | None => True
  | Some (JObj _) => True
  | Some _ => False
  end.

Definition number_or_none (v : option json) : Prop :=
  match v with
  | None => True
  | Some (JNum _) | Some (JDec _ _) => True
  | Some _ => False
  end.

End PayloadVocabulary.

Module EndpointVocabulary.

Definition starts_with_slash (s : jsstring) : bool :=
  match s with
  | c :: _ => c =? 47
  | [] => false
  end.

(** Two slashes in a row somewhere in the text. *)
Fixpoint double_slash (s : jsstring) : bool :=
  match s with
  | [] => false
  | c :: s' => ((c =? 47) && starts_with_slash s') || double_slash s'
  end.

End EndpointVocabulary.

Module ExecVocabulary.

(** A character that neither separates nor quotes. *)
Definition plain (c : Z) : Prop := c <> 34 /\ c <> 39 /\ c <> 32 /\ c <> 9.

(** [words.join(' ')] *)
Fixpoint spaced (words : list jsstring) : jsstring :=
  match words with
  | [] => []
  | [w] => w
  | w :: rest => w ++ 32 :: spaced rest
  end.

End ExecVocabulary.

Module GroupVocabulary.
Import GroupBy.

(** The keys of a sequence in the order in which they first appear. *)
Definition add_first (seen : list (option jsstring)) (k : option jsstring)
  : list (option jsstring) :=
  if existsb (same_k k) seen then seen else seen ++ [k].

Definition firsts (ks : list (option jsstring)) : list (option jsstring) :=
  fold_left add_first ks [].

(** The items of a keyed sequence that have the key [k], in their order. *)
Definition with_key (k : option jsstring) (keyed : list (json * option json))
  : list (json * option json) :=
  filter (fun p => same_k (option_map JSON_stringify (snd p)) k) keyed.

(** What the groups hold after the items [keyed] have been read. *)
Definition holds (keyed : list (json * option json)) (groups : list Group) : Prop :=
  map g_k groups = firsts (map (fun p => option_map JSON_stringify (snd p)) keyed)
  /\ NoDup (map g_k groups)
  /\ Forall (fun g =>
               g_items g = map fst (with_key (g_k g) keyed)
               /\ g_key g = match with_key (g_k g) keyed with
                            | p :: _ => snd p
                            | [] => None
                            end
               /\ with_key (g_k g) keyed <> []) groups.

(** One yielded object: the group of the key text [k]. *)
Definition group_of (keyed : list (json * option json)) (k : option jsstring)
  : json :=
  let members := with_key k keyed in
  JObj (match members with
        | (_, Some keyVal) :: _ => [(lit "key", keyVal)]
        | _ => []
        end ++
        [(lit "items", JArr (map fst members));
         (lit "count", JNum (Z.of_nat (List.length members)))]).

(** What [groupBy] is to yield for the items [keyed], each with its key
    value: the groups of the key texts in the order of their first
    appearance. *)
Definition grouped (keyed : list (json * option json)) : list json :=
  map (group_of keyed)
      (firsts (map (fun p => option_map JSON_stringify (snd p)) keyed)).

(** The [count] of a yielded object. *)
Definition count_of (group : json) : nat :=
  match get (lit "count") group with
  | Some (JNum n) => Z.to_nat n
  | _ => O
  end.

(** A piece of a path: not empty, and without a dot. *)
Definition plain_name (k : jsstring) : Prop :=
  k <> [] /\ Forall (fun c => c <> 46) k.

(** No piece of the path names anything: the path is made of dots. *)
Definition names_nothing (q : jsstring) : bool :=
  match parts_of q with
  | [] => true
  | _ => false
  end.

End GroupVocabulary.

Module GroupExamples.
Import GroupBy.

(** The input of the repository's groupBy test. *)
Definition mails : list json :=
  [JObj [(lit "from", JStr (lit "a")); (lit "id", JNum 1)];
   JObj [(lit "from", JStr (lit "b")); (lit "id", JNum 2)];
   JObj [(lit "from", JStr (lit "a")); (lit "id", JNum 3)]].

Definition by_from : json := JObj [(lit "key", JStr (lit "from"))].

Definition senders : list (option json) :=
  [Some (JStr (lit "a")); Some (JStr (lit "b")); Some (JStr (lit "a"))].

(** [{ user: { id: 'u1' }, tags: ['x', 'y'], n: null }] *)
Definition user_record : json :=
  JObj [(lit "user", JObj [(lit "id", JStr (lit "u1"))]);
        (lit "tags", JArr [JStr (lit "x"); JStr (lit "y")]);
        (lit "n", JNull)].

End GroupExamples.

Module StateVocabulary.
Import State.

(** No two underscores in a row; with [after] set, no underscore at the
    front either. *)
Fixpoint tidy (after : bool) (s : jsstring) : bool :=
  match s with
  | [] => true
  | c :: s' => if underscore c then negb after && tidy true s' else tidy false s'
  end.

Definition starts_with_underscore (s : jsstring) : bool :=
  match s with
  | c :: _ => underscore c
  | [] => false
  end.

(** A file name as [keyToPath] makes them: characters of the class only,
    no underscore at either end and no two in a row. *)
Definition clean_name (s : jsstring) : Prop :=
  Forall (fun c => allowed c = true) s
  /\ starts_with_underscore s = false
  /\ starts_with_underscore (List.rev s) = false
  /\ tidy false s = true.

(** A letter, a digit, a dot or a hyphen. *)
Definition name_character (c : Z) : bool :=
  allowed (lower c) && negb (underscore c).

Definition ascii_only (s : jsstring) : Prop := Forall (fun c => 0 <= c < 128) s.

End StateVocabulary.

Module StateExamples.
Import State.

(** A file system kept in [w_effects], with a home directory and the
    compact form standing in for the indented one. *)
Definition example_files : Files :=
  mkFiles
    (fun path w =>
       match Examples.last_effect "writeFile" path (w_effects w) with
       | Some (JStr text) => (Return text, w)
       | _ => (Throw Examples.enoent, w)
       end)
    (fun dir w => (Return tt, Examples.record (Examples.effect "mkdir" dir JNull) w))
    (fun path text w =>
       (Return tt, Examples.record (Examples.effect "writeFile" path (JStr text)) w))
    (fun parts => LlmTaskInvoke.join (lit "/") (map JStr parts))
    (fun _ => lit "/home/user")
    JSON_stringify.

(** A context whose environment names the state directory. *)
Definition state_ctx : Ctx :=
  mkCtx (Some (mkStdin false))
        (Some (fun name => if str_eqb name (lit "LOBSTER_STATE_DIR")
                           then Some (lit " /tmp/state ") else None))
        (lit "tool") None.

Definition one_item : list json := [JObj [(lit "a", JNum 1)]].

(** The world after [state.set] of [one_item] under ["Demo Key"]. *)
Definition after_set : World :=
  Eval vm_compute in
    snd (@stateSet_run example_files (lit "Demo Key") (asStream one_item)
           state_ctx Examples.w0).

(** A world whose file for the key ["torn"] holds half a JSON text. *)
Definition torn_world : World :=
  Examples.record
    (Examples.effect "writeFile" (lit "/tmp/state/torn.json") (JStr (lit "{")))
    Examples.w0.

End StateExamples.

Module DiffVocabulary.
Import Diff.

(** The entries of an object with their values as [stableStringify]
    writes them. *)
Definition written (l : list (jsstring * json)) : list (jsstring * json) :=
  map (fun kv => (fst kv, replaced (snd kv))) l.

(** [{ kind: 'diff.last', key, changed, before, after }] *)
Definition diff_result (key : jsstring) (changed : bool) (before after : json) : json :=
  JObj [(lit "kind", JStr (lit "diff.last")); (lit "key", JStr key);
        (lit "changed", JBool changed); (lit "before", before);
        (lit "after", after)].

(** [{ kind: 'diff.last', key, changed: false, suppressed: true }] *)
Definition suppressed (key : jsstring) : json :=
  JObj [(lit "kind", JStr (lit "diff.last")); (lit "key", JStr key);
        (lit "changed", JBool false); (lit "suppressed", JBool true)].

End DiffVocabulary.

Module DiffExamples.
Import State Diff.

(** [{ state: 'open', checks: { lint: 'ok', test: 'ok' } }] and the same
    with the keys in another order, at both levels. *)
Definition stored_pr : list (jsstring * json) :=
  [(lit "state", JStr (lit "open"));
   (lit "checks", JObj [(lit "lint", JStr (lit "ok")); (lit "test", JStr (lit "ok"))])].

Definition fresh_pr : list (jsstring * json) :=
  [(lit "checks", JObj [(lit "test", JStr (lit "ok")); (lit "lint", JStr (lit "ok"))]);
   (lit "state", JStr (lit "open"))].

(** A world whose file for the key ["pr"] holds [stored_pr]. *)
Definition pr_world : World :=
  Examples.record
    (Examples.effect "writeFile" (lit "/tmp/state/pr.json")
       (JStr (JSON_stringify (JObj stored_pr) ++ [10])))
    Examples.w0.

Definition after_diff : World :=
  Eval vm_compute in
    snd (@diffLast_run StateExamples.example_files (lit "pr") false
           (asStream [JObj fresh_pr]) StateExamples.state_ctx pr_world).

Definition after_first_diff : World :=
  Eval vm_compute in
    snd (@diffLast_run StateExamples.example_files (lit "pr") false
           (asStream [JObj fresh_pr]) StateExamples.state_ctx Examples.w0).

End DiffExamples.

(* ===================================================================== *)
(** * Part III: properties                                                 *)
(* ===================================================================== *)

Arguments Token.encodeToken : simpl never.
Arguments Token.decodeToken : simpl never.
Arguments JSON_stringify : simpl never.
Arguments JSON_parse : simpl never.
Arguments number_of : simpl never.
Arguments nearest_double : simpl never.
Arguments shortest : simpl never.
Arguments small_decimal : simpl never.
Arguments small_integer : simpl never.
Arguments strip : simpl never.

(** ** The monad *)

Lemma bind_Return {A B} (c : M A) (k : A -> M B) (w w' : World) (a : A) :
  c w = (Return a, w') -> bind c k w = k a w'.
Proof. intros H. unfold bind. rewrite H. reflexivity. Qed.

Lemma bind_Throw {A B} (c : M A) (k : A -> M B) (w w' : World) (e : exn) :
  c w = (Throw e, w') -> bind c k w = (Throw e, w').
Proof. intros H. unfold bind. rewrite H. reflexivity. Qed.

Lemma bind_inv_Return {A B} (c : M A) (k : A -> M B) (w w2 : World) (b : B) :
  bind c k w = (Return b, w2) ->
  exists a w1, c w = (Return a, w1) /\ k a w1 = (Return b, w2).
Proof.
  unfold bind. destruct (c w) as [[a | e | | ] w1]; intros H;
    try discriminate.
  exists a, w1. split; [reflexivity | exact H].
Qed.

Lemma try_catch_Return {A} (c : M A) (h : exn -> M A) (w w' : World) (a : A) :
  c w = (Return a, w') -> try_catch c h w = (Return a, w').
Proof. intros H. unfold try_catch. rewrite H. reflexivity. Qed.

Lemma try_catch_Throw {A} (c : M A) (h : exn -> M A) (w w' : World) (e : exn) :
  c w = (Throw e, w') -> try_catch c h w = h e w'.
Proof. intros H. unfold try_catch. rewrite H. reflexivity. Qed.

Lemma str_eqb_refl (s : jsstring) : str_eqb s s = true.
Proof.
  induction s as [| c s IH]; simpl; [reflexivity |].
  rewrite Z.eqb_refl. exact IH.
Qed.

Lemma str_eqb_eq (a b : jsstring) : str_eqb a b = true <-> a = b.
Proof.
  split.
  - revert b. induction a as [| x a IH]; intros [| y b] H; simpl in H;
      try discriminate; [reflexivity |].
    apply andb_true_iff in H. destruct H as [Hxy Hab].
    apply Z.eqb_eq in Hxy. f_equal; [exact Hxy | apply IH; exact Hab].
  - intros ->. apply str_eqb_refl.
Qed.

(** ** The SDK runner: how the loop splits at a stage *)

Module SdkFacts.
Import SdkRuntime.

(** A prefix that runs to its end without a halt leaves the loop where the
    rest of the stages takes over. *)
Lemma for_stages_app (ctx : Ctx) (pre rest : list Stage) :
  forall (idx : Z) (vars varsP : Vars) (w w1 : World),
    for_stages ctx idx pre vars w = (Return varsP, w1) ->
    v_halted vars = false ->
    v_halted varsP = false ->
    for_stages ctx idx (pre ++ rest) vars w
    = for_stages ctx (idx + Z.of_nat (List.length pre)) rest varsP w1.
Proof.
  induction pre as [| s pre IH]; intros idx vars varsP w w1 Hrun Hv Hp.
  - simpl in Hrun. inversion Hrun; subst. simpl. rewrite Z.add_0_r. reflexivity.
  - simpl in Hrun. rewrite <- app_comm_cons. cbn [for_stages].
    apply bind_inv_Return in Hrun. destruct Hrun as (r & w' & Hcall & Hk).
    rewrite (bind_Return _ _ _ _ _ Hcall).
    destruct (halt_of r).
    + inversion Hk; subst. simpl in Hp. discriminate.
    + rewrite (IH _ _ _ _ _ Hk Hv Hp). f_equal.
      simpl List.length. rewrite Nat2Z.inj_succ. lia.
Qed.

(** While no stage has halted, the two halt variables keep their value. *)
Lemma for_stages_no_halt (ctx : Ctx) (stages : list Stage) :
  forall (idx : Z) (vars varsP : Vars) (w w1 : World),
    for_stages ctx idx stages vars w = (Return varsP, w1) ->
    v_halted vars = false ->
    v_halted varsP = false ->
    v_haltedAt varsP = v_haltedAt vars.
Proof.
  induction stages as [| s stages IH]; intros idx vars varsP w w1 Hrun Hv Hp.
  - simpl in Hrun. inversion Hrun; subst. reflexivity.
  - simpl in Hrun.
    apply bind_inv_Return in Hrun. destruct Hrun as (r & w' & Hcall & Hk).
    destruct (halt_of r).
    + inversion Hk; subst. simpl in Hp. discriminate.
    + apply (IH _ _ _ _ _ Hk Hv Hp).
Qed.

(** A loop that ends halted stopped at one stage: the stages before it ran
    without a halt and it answered with [halt]. *)
Lemma for_stages_halted (ctx : Ctx) (stages : list Stage) :
  forall (idx : Z) (vars v : Vars) (w w2 : World),
    for_stages ctx idx stages vars w = (Return v, w2) ->
    v_halted vars = false ->
    v_halted v = true ->
    exists pre s suf varsP w1 r,
      stages = pre ++ s :: suf /\
      for_stages ctx idx pre vars w = (Return varsP, w1) /\
      v_halted varsP = false /\
      call_stage (idx + Z.of_nat (List.length pre)) s (v_stream varsP) ctx w1
        = (Return r, w2) /\
      halt_of r = true /\
      v = mkVars (output_or_empty r) true
            (Some (mkHaltedAt (idx + Z.of_nat (List.length pre)) s)).
Proof.
  induction stages as [| s stages IH]; intros idx vars v w w2 Hrun Hv Hh.
  - simpl in Hrun. inversion Hrun; subst. congruence.
  - simpl in Hrun.
    apply bind_inv_Return in Hrun. destruct Hrun as (r & w' & Hcall & Hk).
    destruct (halt_of r) eqn:Hr.
    + inversion Hk; subst.
      exists [], s, stages, vars, w, r. simpl. rewrite Z.add_0_r.
      repeat split; auto.
    + destruct (IH _ _ _ _ _ Hk Hv Hh)
        as (pre & s' & suf & varsP & w1 & r' & Heq & Hpre & HP & Hc & Hr' & Hvv).
      exists (s :: pre), s', suf, varsP, w1, r'.
      assert (Hidx : idx + Z.of_nat (List.length (s :: pre))
                     = idx + 1 + Z.of_nat (List.length pre)).
      { simpl List.length. rewrite Nat2Z.inj_succ. lia. }
      rewrite Hidx.
      repeat split; auto.
      * simpl. rewrite Heq. reflexivity.
      * cbn [for_stages]. rewrite (bind_Return _ _ _ _ _ Hcall). rewrite Hr.
        exact Hpre.
Qed.

End SdkFacts.

(** ** The CLI runner: the same facts *)

Module CliFacts.
Import Runtime.

Lemma cli_for_stages_app (registry : Registry) (ctx : Ctx)
  (pre rest : list PipelineStage) :
  forall (idx : Z) (vars varsP : Vars) (w w1 : World),
    for_stages registry ctx idx pre vars w = (Return varsP, w1) ->
    v_halted vars = false ->
    v_halted varsP = false ->
    for_stages registry ctx idx (pre ++ rest) vars w
    = for_stages registry ctx (idx + Z.of_nat (List.length pre)) rest varsP w1.
Proof.
  induction pre as [| s pre IH]; intros idx vars varsP w w1 Hrun Hv Hp.
  - simpl in Hrun. inversion Hrun; subst. simpl. rewrite Z.add_0_r. reflexivity.
  - simpl in Hrun. rewrite <- app_comm_cons. cbn [for_stages].
    apply bind_inv_Return in Hrun. destruct Hrun as (r & w' & Hcall & Hk).
    rewrite (bind_Return _ _ _ _ _ Hcall).
    destruct (halt_of r).
    + inversion Hk; subst. simpl in Hp. discriminate.
    + rewrite (IH _ _ _ _ _ Hk Hv Hp). f_equal.
      simpl List.length. rewrite Nat2Z.inj_succ. lia.
Qed.

Lemma cli_for_stages_no_halt (registry : Registry) (ctx : Ctx)
  (stages : list PipelineStage) :
  forall (idx : Z) (vars varsP : Vars) (w w1 : World),
    for_stages registry ctx idx stages vars w = (Return varsP, w1) ->
    v_halted vars = false ->
    v_halted varsP = false ->
    v_haltedAt varsP = v_haltedAt vars.
Proof.
  induction stages as [| s stages IH]; intros idx vars varsP w w1 Hrun Hv Hp.
  - simpl in Hrun. inversion Hrun; subst. reflexivity.
  - simpl in Hrun.
    apply bind_inv_Return in Hrun. destruct Hrun as (r & w' & Hcall & Hk).
    destruct (halt_of r).
    + inversion Hk; subst. simpl in Hp. discriminate.
    + apply (IH _ _ _ _ _ Hk Hv Hp).
Qed.

End CliFacts.

(** ** The [catch] branch of the SDK *)


Lemma failed_returns (err : exn) (w w' : World) (res : Sdk.LobsterResult) :
  lift (Sdk.failed err) w = (Return res, w') ->
  w' = w /\
  exists message : jsstring,
    res = Sdk.mkLobsterResult false (lit "error") [] None
            (Some (Sdk.mkErrorInfo (lit "runtime_error") message)).
Proof.
  unfold lift, Sdk.failed, obind, message_of.
  destruct (err_kind err); intros H; inversion H; subst;
    (split; [reflexivity | eexists; reflexivity]).
Qed.

(** ** C2: halting short-circuits the pipeline *)

(** C2.  In both runners: when the stages before stage [s] have run without
    a halt and [s] answers with [halt], the run returns [halted = true],
    [haltedAt = { index: i, stage: s }] (with [i] the position of [s]) and
    the items of the output of [s], whatever stages follow: none of them
    is run.  When no stage halts, the run returns [halted = false],
    [haltedAt = null] and the items of the output of the last stage. *)
Theorem C2_halt_short_circuits :
  (* SDK runner, a stage halts *)
  (forall (ctx : Ctx) (input : SdkRuntime.Source)
          (pre suf : list SdkRuntime.Stage) (s : SdkRuntime.Stage)
          (varsP : SdkRuntime.Vars) (r : option StageResult)
          (items : list json) (w w1 w2 w3 : World),
      SdkRuntime.for_stages ctx 0 pre
        (SdkRuntime.mkVars (SdkRuntime.toAsyncIterable input) false None) w
        = (Return varsP, w1) ->
      SdkRuntime.v_halted varsP = false ->
      SdkRuntime.call_stage (Z.of_nat (List.length pre)) s
        (SdkRuntime.v_stream varsP) ctx w1 = (Return r, w2) ->
      halt_of r = true ->
      output_or_empty r w2 = (Return items, w3) ->
      SdkRuntime.runPipelineInternal (pre ++ s :: suf) ctx input w
      = (Return (SdkRuntime.mkPipelineResult items true
                   (Some (SdkRuntime.mkHaltedAt (Z.of_nat (List.length pre)) s))),
         w3))
  /\
  (* SDK runner, no stage halts *)
  (forall (ctx : Ctx) (input : SdkRuntime.Source)
          (pre : list SdkRuntime.Stage) (last : SdkRuntime.Stage)
          (varsP : SdkRuntime.Vars) (r : option StageResult)
          (items : list json) (w w1 w2 w3 : World),
      SdkRuntime.for_stages ctx 0 pre
        (SdkRuntime.mkVars (SdkRuntime.toAsyncIterable input) false None) w
        = (Return varsP, w1) ->
      SdkRuntime.v_halted varsP = false ->
      SdkRuntime.call_stage (Z.of_nat (List.length pre)) last
        (SdkRuntime.v_stream varsP) ctx w1 = (Return r, w2) ->
      halt_of r = false ->
      output_or_empty r w2 = (Return items, w3) ->
      SdkRuntime.runPipelineInternal (pre ++ [last]) ctx input w
      = (Return (SdkRuntime.mkPipelineResult items false None), w3))
  /\
  (* CLI runner, a stage halts *)
  (forall (registry : Runtime.Registry) (stdin : option Stdin)
          (env : option Env) (mode : jsstring) (input : Stream)
          (pre suf : list Runtime.PipelineStage) (s : Runtime.PipelineStage)
          (varsP : Runtime.Vars) (r : option StageResult)
          (items : list json) (w w1 w2 w3 : World),
      let ctx := mkCtx stdin env mode None in
      Runtime.for_stages registry ctx 0 pre
        (Runtime.mkVars input false false None) w = (Return varsP, w1) ->
      Runtime.v_halted varsP = false ->
      Runtime.call_stage registry ctx s (Runtime.v_stream varsP) w1
        = (Return r, w2) ->
      halt_of r = true ->
      output_or_empty r w2 = (Return items, w3) ->
      Runtime.runPipeline (pre ++ s :: suf) registry stdin env (Some mode)
        (Some input) w
      = (Return (Runtime.mkResult items
                   (if rendered_of r then true else Runtime.v_rendered varsP)
                   true
                   (Some (Runtime.mkHaltedAt (Z.of_nat (List.length pre)) s))),
         w3))
  /\
  (* CLI runner, no stage halts *)
  (forall (registry : Runtime.Registry) (stdin : option Stdin)
          (env : option Env) (mode : jsstring) (input : Stream)
          (pre : list Runtime.PipelineStage) (last : Runtime.PipelineStage)
          (varsP : Runtime.Vars) (r : option StageResult)
          (items : list json) (w w1 w2 w3 : World),
      let ctx := mkCtx stdin env mode None in
      Runtime.for_stages registry ctx 0 pre
        (Runtime.mkVars input false false None) w = (Return varsP, w1) ->
      Runtime.v_halted varsP = false ->
      Runtime.call_stage registry ctx last (Runtime.v_stream varsP) w1
        = (Return r, w2) ->
      halt_of r = false ->
      output_or_empty r w2 = (Return items, w3) ->
      Runtime.runPipeline (pre ++ [last]) registry stdin env (Some mode)
        (Some input) w
      = (Return (Runtime.mkResult items
                   (if rendered_of r then true else Runtime.v_rendered varsP)
                   false None),
         w3)).
Proof.
  repeat split.
  - intros ctx input pre suf s varsP r items w w1 w2 w3 Hpre HP Hcall Hhalt Hout.
    unfold SdkRuntime.runPipelineInternal.
    unfold bind at 1.
    rewrite (SdkFacts.for_stages_app ctx pre (s :: suf) _ _ _ _ _ Hpre eq_refl HP).
    cbn [SdkRuntime.for_stages]. rewrite Z.add_0_l.
    rewrite (bind_Return _ _ _ _ _ Hcall). rewrite Hhalt.
    unfold ret at 1. cbn [SdkRuntime.v_stream SdkRuntime.v_halted SdkRuntime.v_haltedAt].
    unfold SdkRuntime.collectItems.
    rewrite (bind_Return _ _ _ _ _ (bind_Return _ _ _ _ _ Hout)).
    reflexivity.
  - intros ctx input pre last varsP r items w w1 w2 w3 Hpre HP Hcall Hhalt Hout.
    pose proof (SdkFacts.for_stages_no_halt ctx pre _ _ _ _ _ Hpre eq_refl HP) as Hat.
    unfold SdkRuntime.runPipelineInternal.
    unfold bind at 1.
    rewrite (SdkFacts.for_stages_app ctx pre [last] _ _ _ _ _ Hpre eq_refl HP).
    cbn [SdkRuntime.for_stages]. rewrite Z.add_0_l.
    rewrite (bind_Return _ _ _ _ _ Hcall). rewrite Hhalt.
    unfold ret at 1. cbn [SdkRuntime.v_stream SdkRuntime.v_halted SdkRuntime.v_haltedAt].
    unfold SdkRuntime.collectItems.
    rewrite (bind_Return _ _ _ _ _ (bind_Return _ _ _ _ _ Hout)).
    rewrite HP, Hat. reflexivity.
  - intros registry stdin env mode input pre suf s varsP r items w w1 w2 w3 ctx
      Hpre HP Hcall Hhalt Hout.
    unfold Runtime.runPipeline. fold ctx.
    unfold bind at 1.
    rewrite (CliFacts.cli_for_stages_app registry ctx pre (s :: suf) _ _ _ _ _ Hpre eq_refl HP).
    cbn [Runtime.for_stages]. rewrite Z.add_0_l.
    rewrite (bind_Return _ _ _ _ _ Hcall). rewrite Hhalt.
    unfold ret at 1.
    cbn [Runtime.v_stream Runtime.v_halted Runtime.v_haltedAt Runtime.v_rendered].
    rewrite (bind_Return _ _ _ _ _ Hout).
    reflexivity.
  - intros registry stdin env mode input pre last varsP r items w w1 w2 w3 ctx
      Hpre HP Hcall Hhalt Hout.
    pose proof (CliFacts.cli_for_stages_no_halt registry ctx pre _ _ _ _ _ Hpre eq_refl HP) as Hat.
    unfold Runtime.runPipeline. fold ctx.
    unfold bind at 1.
    rewrite (CliFacts.cli_for_stages_app registry ctx pre [last] _ _ _ _ _ Hpre eq_refl HP).
    cbn [Runtime.for_stages]. rewrite Z.add_0_l.
    rewrite (bind_Return _ _ _ _ _ Hcall). rewrite Hhalt.
    unfold ret at 1.
    cbn [Runtime.v_stream Runtime.v_halted Runtime.v_haltedAt Runtime.v_rendered].
    rewrite (bind_Return _ _ _ _ _ Hout).
    rewrite HP, Hat. reflexivity.
Qed.

(** ** C8: a stage that raises *)





(** ** C9: a declined resume *)

(** C9.  [resume] with [approved = false] returns the cancelled result
    [{ ok: true, status: 'cancelled', output: [], requiresApproval: null }]
    for every workflow, token (decodable or not) and world, and leaves the
    world as it was: no stage runs and the token is not read.  A second
    call with the same arguments returns the same. *)
Theorem C9_declined_resume_is_cancelled (this : Sdk.Lobster) (token : jsstring)
  (w : World) :
  let first := Sdk.resume this token false w in
  first = (Return (Sdk.mkLobsterResult true (lit "cancelled") [] None None), w)
  /\ Sdk.resume this token false (snd first) = first.
Proof.
  intros first. subst first.
  unfold Sdk.resume. cbn [negb].
  split; reflexivity.
Qed.

(** ** C10: the approve command in its emitting modes *)

(** C10 (amended).  The approve command of the CLI: whenever [args.emit] is
    truthy, or [ctx.mode] is ['tool'], or stdin is not a TTY, it drains its
    input and answers [halt: true] with an output of exactly one item,
    [{ type: 'approval_request', prompt, items }], whose [items] are the
    drained input items in their order ([prompt] being [args.prompt ??
    'Approve?']); nothing is written or read, and the input items are not
    passed through.  The SDK's [approve] has no modes: in every context it
    drains its input and answers [halt: true] with exactly one item,
    [{ type: 'approval_request', prompt, items, itemCount }], where
    [itemCount] is the number of drained items and [items] holds them in
    their order unless [options.preview] is [false], and is empty then. *)
Theorem C10_approve_emits_and_halts :
  (forall (input : Stream) (args : json) (ctx : Ctx) (items : list json)
          (w w' : World),
      truthy (get (lit "emit") args) = true
      \/ ctx_mode ctx = lit "tool"
      \/ ctx_stdin ctx = Some (mkStdin false) ->
      input w = (Return items, w') ->
      let prompt :=
        match get (lit "prompt") args with
        | None | Some JNull => JStr (lit "Approve?")
        | Some p => p
        end in
      exists out : Stream,
        ApproveCommand.run input args ctx w
        = (Return (Some (mkStageResult (Some out) true false)), w')
        /\ forall w2 : World,
             out w2
             = (Return [JObj [(lit "type", JStr (lit "approval_request"));
                              (lit "prompt", prompt);
                              (lit "items", JArr items)]], w2))
  /\
  (forall (options : json) (idx : Z) (input : Stream) (ctx : Ctx)
          (items : list json) (w w' : World),
      input w = (Return items, w') ->
      let prompt :=
        match get (lit "prompt") options with
        | None | Some JNull => JStr (lit "Approve?")
        | Some p => p
        end in
      let shown :=
        match get (lit "preview") options with
        | Some (JBool false) => []
        | _ => items
        end in
      exists out : Stream,
        SdkRuntime.call_stage idx (SdkApprove.approve options) input ctx w
        = (Return (Some (mkStageResult (Some out) true false)), w')
        /\ forall w2 : World,
             out w2
             = (Return [JObj [(lit "type", JStr (lit "approval_request"));
                              (lit "prompt", prompt);
                              (lit "items", JArr shown);
                              (lit "itemCount",
                               JNum (Z.of_nat (List.length items)))]], w2)).
Proof.
  split.
  - intros input args ctx items w w' Hmode Hin prompt.
    exists (asStream [ApproveCommand.approval_request prompt items]).
    split; [| intros w2; reflexivity].
    unfold ApproveCommand.run.
    rewrite (bind_Return _ _ _ _ _ Hin).
    assert (Hp : match coalesce (get (lit "prompt") args)
                         (Some (JStr (lit "Approve?"))) with
                 | Some p => p
                 | None => JStr (lit "Approve?")
                 end = prompt).
    { subst prompt. unfold coalesce, nullish.
      destruct (get (lit "prompt") args) as [[]|]; reflexivity. }
    rewrite Hp.
    destruct (truthy (get (lit "emit") args)) eqn:Hemit.
    + reflexivity.
    + destruct (str_eqb (ctx_mode ctx) (lit "tool")) eqn:Htool.
      * reflexivity.
      * destruct Hmode as [Hm | [Hm | Hm]].
        -- discriminate.
        -- rewrite Hm, str_eqb_refl in Htool. discriminate.
        -- rewrite Hm. reflexivity.
  - intros options idx input ctx items w w' Hin prompt shown.
    unfold SdkApprove.approve. cbn [SdkRuntime.call_stage].
    unfold SdkApprove.approve_run. rewrite (bind_Return _ _ _ _ _ Hin).
    eexists. split; [reflexivity |].
    intros w2. unfold asStream, ret. subst prompt shown.
    destruct (get (lit "prompt") options) as [[] |];
      destruct (get (lit "preview") options) as [[| [] | | | | | |] |]; reflexivity.
Qed.

(** ** C3: the indices in a continuation token *)

Lemma runPipelineInternal_halted (stages : list SdkRuntime.Stage) (ctx : Ctx)
  (input : SdkRuntime.Source) (w w' : World) (result : SdkRuntime.PipelineResult) :
  SdkRuntime.runPipelineInternal stages ctx input w = (Return result, w') ->
  SdkRuntime.halted result = true ->
  exists i s rest,
    SdkRuntime.haltedAt result = Some (SdkRuntime.mkHaltedAt i s) /\
    stage_halts_at stages ctx input w i s rest.
Proof.
  intros Hrun Hh.
  unfold SdkRuntime.runPipelineInternal in Hrun.
  apply bind_inv_Return in Hrun. destruct Hrun as (v & w1 & Hloop & Hk).
  apply bind_inv_Return in Hk. destruct Hk as (items & w2 & _ & Hret).
  unfold ret in Hret. inversion Hret; subst. clear Hret.
  cbn [SdkRuntime.halted] in Hh. cbn [SdkRuntime.haltedAt].
  destruct (SdkFacts.for_stages_halted ctx stages _ _ _ _ _ Hloop eq_refl Hh)
    as (pre & s & suf & varsP & w0 & r & Heq & Hpre & HP & Hcall & Hr & Hv).
  rewrite Z.add_0_l in Hcall, Hv.
  exists (Z.of_nat (List.length pre)), s, suf. split.
  - rewrite Hv. reflexivity.
  - exists pre, varsP, w0, r, w1. repeat split; assumption.
Qed.

Lemma approval_halt_halted (result : SdkRuntime.PipelineResult) (approval : json) :
  Sdk.approval_halt result = Some approval -> SdkRuntime.halted result = true.
Proof.
  unfold Sdk.approval_halt. destruct (SdkRuntime.halted result); [reflexivity | discriminate].
Qed.

Lemma slice_after (A : Type) (pre rest : list A) (s : A) :
  Sdk.slice (pre ++ s :: rest) (Z.of_nat (List.length pre) + 1) = rest.
Proof.
  unfold Sdk.slice.
  destruct (Z.ltb_spec (Z.of_nat (List.length pre) + 1) 0) as [H | H]; [lia |].
  rewrite length_app. simpl List.length.
  replace (Z.to_nat (Z.min (Z.of_nat (List.length pre) + 1)
                           (Z.of_nat (List.length pre + S (List.length rest)))))
    with (S (List.length pre)) by lia.
  replace (pre ++ s :: rest) with ((pre ++ [s]) ++ rest)
    by (rewrite <- app_assoc; reflexivity).
  rewrite skipn_app.
  replace (S (List.length pre)) with (List.length (pre ++ [s]))
    by (rewrite length_app; simpl; lia).
  rewrite skipn_all, Nat.sub_diag. reflexivity.
Qed.

(** The stages a non-negative resume index leaves are a suffix of the
    stage list. *)
Lemma slice_suffix (A : Type) (l : list A) (r : Z) (x : A) (suffix : list A) :
  0 <= r ->
  Sdk.slice l r = x :: suffix ->
  l = firstn (Z.to_nat r) l ++ x :: suffix /\ List.length (firstn (Z.to_nat r) l) = Z.to_nat r.
Proof.
  intros Hr Hs. unfold Sdk.slice in Hs.
  destruct (Z.ltb_spec r 0) as [H | _]; [lia |].
  destruct (Z.le_gt_cases r (Z.of_nat (List.length l))) as [Hle | Hgt].
  - rewrite Z.min_l in Hs by exact Hle.
    split.
    + rewrite <- Hs. symmetry. apply firstn_skipn.
    + apply firstn_length_le. lia.
  - rewrite Z.min_r in Hs by lia. rewrite Nat2Z.id, skipn_all in Hs. discriminate.
Qed.

(** C3.  A token that [run] produces on a halt encodes an object whose
    [stageIndex] is the index [i] of the stage that halted and whose
    [resumeAtIndex] is [i + 1]; the stages from [resumeAtIndex] on are the
    ones after the halting stage.  A token that [resume] produces, resumed
    from a token whose [resumeAtIndex] is [r >= 0], carries
    [stageIndex = r + j] and [resumeAtIndex = r + j + 1], where [j] is the
    index of the halting stage among the remaining stages
    [stages.slice(r)]: [r + j] is the index of that stage in the full
    stage list, and the stages from [r + j + 1] on are the ones after it. *)
Theorem C3_token_indices :
  (forall (this : Sdk.Lobster) (input : SdkRuntime.Source) (w w' : World)
          (res : Sdk.LobsterResult) (ap : Sdk.Approval),
      Sdk.run this input w = (Return res, w') ->
      Sdk.requiresApproval res = Some ap ->
      exists (d : json) (i : Z) (s : SdkRuntime.Stage) (rest : list SdkRuntime.Stage),
        Sdk.resumeToken ap = Token.encodeToken d /\
        get (lit "stageIndex") d = Some (JNum i) /\
        get (lit "resumeAtIndex") d = Some (JNum (i + 1)) /\
        stage_halts_at (Sdk.stages this) (Sdk.sdk_ctx this) input w i s rest /\
        nth_error (Sdk.stages this) (Z.to_nat i) = Some s /\
        Sdk.slice (Sdk.stages this) (i + 1) = rest)
  /\
  (forall (this : Sdk.Lobster) (token : jsstring) (payload : json) (r : Z)
          (w w' : World) (res : Sdk.LobsterResult) (ap : Sdk.Approval),
      Token.decodeToken token = Return payload ->
      Sdk.resume_index (get (lit "resumeAtIndex") payload) = Return r ->
      0 <= r ->
      Sdk.resume this token true w = (Return res, w') ->
      Sdk.requiresApproval res = Some ap ->
      exists (d : json) (j : Z) (s : SdkRuntime.Stage) (rest : list SdkRuntime.Stage)
             (resumeItems : json),
        Sdk.resumeToken ap = Token.encodeToken d /\
        get (lit "stageIndex") d = Some (JNum (r + j)) /\
        get (lit "resumeAtIndex") d = Some (JNum (r + j + 1)) /\
        stage_halts_at (Sdk.slice (Sdk.stages this) r) (Sdk.sdk_ctx this)
          (SdkRuntime.SrcValue resumeItems) w j s rest /\
        nth_error (Sdk.stages this) (Z.to_nat (r + j)) = Some s /\
        Sdk.slice (Sdk.stages this) (r + j + 1) = rest).
Proof.
  split.
  - intros this input w w' res ap Hrun Hap.
    unfold Sdk.run, try_catch in Hrun.
    destruct (bind (SdkRuntime.runPipelineInternal (Sdk.stages this) (Sdk.sdk_ctx this) input) _ w)
      as [[res0 | e | | ] w0] eqn:Hin; try discriminate.
    2:{ apply failed_returns in Hrun. destruct Hrun as (_ & message & ->).
        discriminate. }
    inversion Hrun; subst res0 w0. clear Hrun.
    apply bind_inv_Return in Hin. destruct Hin as (result & w1 & Hpipe & Hk).
    destruct (Sdk.approval_halt result) as [approval |] eqn:Hah.
    2:{ inversion Hk; subst. discriminate. }
    inversion Hk; subst res w1. clear Hk.
    unfold Sdk.needs_approval in Hap. cbn [Sdk.requiresApproval] in Hap.
    inversion Hap; subst ap. clear Hap. cbn [Sdk.resumeToken].
    destruct (runPipelineInternal_halted _ _ _ _ _ _ Hpipe (approval_halt_halted _ _ Hah))
      as (i & s & rest & Hat & Hhalts).
    rewrite Hat. cbn [SdkRuntime.index].
    exists (Sdk.token_object i (i + 1) approval), i, s, rest.
    split; [reflexivity |]. split; [reflexivity |]. split; [reflexivity |].
    split; [exact Hhalts |].
    destruct Hhalts as (pre & varsP & w1 & r & w2 & Heq & Hi & _).
    rewrite Heq, Hi. split.
    + rewrite Nat2Z.id. rewrite nth_error_app2 by lia.
      rewrite Nat.sub_diag. reflexivity.
    + apply slice_after.
  - intros this token payload r w w' res ap Hdec Hidx Hr Hrun Hap.
    unfold Sdk.resume in Hrun. cbn [negb] in Hrun.
    unfold bind at 1 in Hrun. unfold lift at 1 in Hrun. rewrite Hdec in Hrun.
    assert (Hnn : payload <> JNull).
    { intros ->. unfold bind, lift in Hrun. simpl in Hrun. discriminate. }
    assert (Hm : forall k, Sdk.member payload k = Return (get k payload)).
    { intros k. destruct payload; try reflexivity. congruence. }
    unfold bind at 1 in Hrun. unfold lift at 1 in Hrun. rewrite Hm in Hrun.
    unfold bind at 1 in Hrun. unfold lift at 1 in Hrun. rewrite Hidx in Hrun.
    unfold bind at 1 in Hrun. unfold lift at 1 in Hrun. rewrite Hm in Hrun.
    set (resumeItems := match coalesce (get (lit "items") payload) (Some (JArr [])) with
                        | Some v => v
                        | None => JArr []
                        end) in Hrun.
    unfold try_catch in Hrun.
    destruct (bind (SdkRuntime.runPipelineInternal (Sdk.slice (Sdk.stages this) r)
                      (Sdk.sdk_ctx this) (SdkRuntime.SrcValue resumeItems)) _ w)
      as [[res0 | e | | ] w0] eqn:Hin; try discriminate.
    2:{ apply failed_returns in Hrun. destruct Hrun as (_ & message & ->).
        discriminate. }
    inversion Hrun; subst res0 w0. clear Hrun.
    apply bind_inv_Return in Hin. destruct Hin as (result & w1 & Hpipe & Hk).
    destruct (Sdk.approval_halt result) as [approval |] eqn:Hah.
    2:{ inversion Hk; subst. discriminate. }
    inversion Hk; subst res w1. clear Hk.
    unfold Sdk.needs_approval in Hap. cbn [Sdk.requiresApproval] in Hap.
    inversion Hap; subst ap. clear Hap. cbn [Sdk.resumeToken].
    destruct (runPipelineInternal_halted _ _ _ _ _ _ Hpipe (approval_halt_halted _ _ Hah))
      as (j & s & rest & Hat & Hhalts).
    rewrite Hat. cbn [SdkRuntime.index].
    exists (Sdk.token_object (r + j) (r + j + 1) approval), j, s, rest, resumeItems.
    split; [reflexivity |]. split; [reflexivity |]. split; [reflexivity |].
    split; [exact Hhalts |].
    destruct Hhalts as (pre & varsP & w1 & r0 & w2 & Heq & Hj & _).
    assert (Hsuffix : exists x suffix, Sdk.slice (Sdk.stages this) r = x :: suffix
                                       /\ x :: suffix = pre ++ s :: rest).
    { rewrite Heq. destruct pre; simpl; eauto. }
    destruct Hsuffix as (x & suffix & Hsl & Hxs).
    destruct (slice_suffix _ _ _ _ _ Hr Hsl) as [Hall Hlen].
    rewrite Hxs in Hall.
    set (before := firstn (Z.to_nat r) (Sdk.stages this)) in *.
    assert (Hfull : Sdk.stages this = (before ++ pre) ++ s :: rest).
    { rewrite <- app_assoc. exact Hall. }
    assert (Hn : Z.of_nat (List.length (before ++ pre)) = r + j).
    { rewrite length_app, Hlen, Hj. lia. }
    split.
    + rewrite <- Hn, Nat2Z.id. rewrite Hfull.
      rewrite nth_error_app2 by lia. rewrite Nat.sub_diag. reflexivity.
    + rewrite <- Hn. rewrite Hfull. apply slice_after.
Qed.

(** ** Objects: reading after [obj_set] *)

Lemma str_eqb_neq (a b : jsstring) : str_eqb a b = false <-> a <> b.
Proof.
  split.
  - intros H Heq. apply str_eqb_eq in Heq. congruence.
  - intros H. destruct (str_eqb a b) eqn:E; [| reflexivity].
    apply str_eqb_eq in E. contradiction.
Qed.

Lemma str_eqb_sym (a b : jsstring) : str_eqb a b = str_eqb b a.
Proof.
  destruct (str_eqb a b) eqn:E1; destruct (str_eqb b a) eqn:E2; try reflexivity.
  - apply str_eqb_eq in E1. subst. rewrite str_eqb_refl in E2. discriminate.
  - apply str_eqb_eq in E2. subst. rewrite str_eqb_refl in E1. discriminate.
Qed.

Lemma has_key_assoc (k : jsstring) (l : list (jsstring * json)) :
  has_key k l = false <-> assoc k l = None.
Proof.
  induction l as [| [k' v'] l IH]; simpl; [tauto |].
  destruct (str_eqb k k'); simpl; [split; discriminate | exact IH].
Qed.

Lemma assoc_obj_replace_same (k : jsstring) (v : json) (l : list (jsstring * json)) :
  has_key k l = true -> assoc k (obj_replace k v l) = Some v.
Proof.
  induction l as [| [k' v'] l IH]; simpl; [discriminate |].
  destruct (str_eqb k k') eqn:E; simpl; rewrite E; [reflexivity | exact IH].
Qed.

Lemma assoc_obj_replace_other (k k' : jsstring) (v : json) (l : list (jsstring * json)) :
  k' <> k -> assoc k' (obj_replace k v l) = assoc k' l.
Proof.
  intros Hne. induction l as [| [k0 v0] l IH]; simpl; [reflexivity |].
  destruct (str_eqb k k0) eqn:E; simpl.
  - destruct (str_eqb k' k0) eqn:E'; [| reflexivity].
    apply str_eqb_eq in E, E'. congruence.
  - rewrite IH. reflexivity.
Qed.

Lemma assoc_insert_index_same (i : Z) (k : jsstring) (v : json)
  (l : list (jsstring * json)) :
  has_key k l = false -> assoc k (obj_insert_index i k v l) = Some v.
Proof.
  induction l as [| [k' v'] l IH]; simpl; intros H.
  - rewrite str_eqb_refl. reflexivity.
  - apply orb_false_iff in H. destruct H as [E H].
    destruct (array_index k') as [j |]; [destruct (j <? i) |]; simpl;
      rewrite ?E, ?str_eqb_refl; auto.
Qed.

Lemma assoc_insert_index_other (i : Z) (k k' : jsstring) (v : json)
  (l : list (jsstring * json)) :
  k' <> k -> assoc k' (obj_insert_index i k v l) = assoc k' l.
Proof.
  intros Hne. apply str_eqb_neq in Hne.
  induction l as [| [k0 v0] l IH]; simpl.
  - rewrite Hne. reflexivity.
  - destruct (array_index k0) as [j |]; [destruct (j <? i) |]; simpl;
      rewrite ?Hne, ?IH; reflexivity.
Qed.

Lemma assoc_app (k : jsstring) (l1 l2 : list (jsstring * json)) :
  assoc k (l1 ++ l2) = match assoc k l1 with Some v => Some v | None => assoc k l2 end.
Proof.
  induction l1 as [| [k' v'] l1 IH]; simpl; [reflexivity |].
  destruct (str_eqb k k'); [reflexivity | exact IH].
Qed.

Lemma assoc_obj_set_same (k : jsstring) (v : json) (l : list (jsstring * json)) :
  assoc k (obj_set k v l) = Some v.
Proof.
  unfold obj_set. destruct (has_key k l) eqn:H.
  - apply assoc_obj_replace_same. exact H.
  - destruct (array_index k).
    + apply assoc_insert_index_same. exact H.
    + rewrite assoc_app. apply has_key_assoc in H. rewrite H. simpl.
      rewrite str_eqb_refl. reflexivity.
Qed.

Lemma assoc_obj_set_other (k k' : jsstring) (v : json) (l : list (jsstring * json)) :
  k' <> k -> assoc k' (obj_set k v l) = assoc k' l.
Proof.
  intros Hne. unfold obj_set. destruct (has_key k l).
  - apply assoc_obj_replace_other. exact Hne.
  - destruct (array_index k).
    + apply assoc_insert_index_other. exact Hne.
    + rewrite assoc_app. destruct (assoc k' l); [reflexivity |].
      simpl. apply str_eqb_neq in Hne. rewrite Hne. reflexivity.
Qed.

(** ** llm_task.invoke *)

Module LlmFacts.
Import LlmTaskInvoke.

(** An item read back from a store carries the store's name as [source]
    and [cached: true]; its other properties are the stored ones. *)
Lemma from_store_fields (source : string) (item : json) :
  get (lit "source") (from_store source item) = Some (JStr (lit source))
  /\ get (lit "cached") (from_store source item) = Some (JBool true)
  /\ forall k, k <> lit "source" -> k <> lit "cached" ->
       get k (from_store source item) = assoc k (spread item).
Proof.
  unfold from_store. cbn [get]. repeat split.
  - rewrite assoc_obj_set_other by (intros H; vm_compute in H; discriminate H).
    apply assoc_obj_set_same.
  - apply assoc_obj_set_same.
  - intros k Hs Hc. rewrite !assoc_obj_set_other by assumption. reflexivity.
Qed.

Lemma pickReusableState_match (stored : json) (key : jsstring) (items : list json) :
  get (lit "type") stored = Some (JStr (lit "llm_task.invoke")) ->
  get (lit "cacheKey") stored = Some (JStr key) ->
  get (lit "items") stored = Some (JArr items) ->
  pickReusableState stored key = Some items.
Proof.
  intros Ht Hk Hi. unfold pickReusableState.
  destruct stored; try discriminate.
  rewrite Ht. rewrite str_eqb_refl. rewrite Hk, str_eqb_refl, Hi. reflexivity.
Qed.

Lemma pickReusableState_mismatch (stored : json) (key : jsstring) :
  get (lit "cacheKey") stored <> Some (JStr key) ->
  pickReusableState stored key = None.
Proof.
  intros Hk. unfold pickReusableState.
  destruct stored; try reflexivity.
  destruct (get (lit "type") (JObj l)) as [[]|]; try reflexivity.
  destruct (str_eqb s (lit "llm_task.invoke")); [| reflexivity].
  destruct (get (lit "cacheKey") (JObj l)) as [[]|]; try reflexivity.
  destruct (str_eqb s0 key) eqn:E; [| reflexivity].
  apply str_eqb_eq in E. subst. contradiction.
Qed.

End LlmFacts.

(** ** C7: what the cache key depends on *)

Module ConfigureFacts.
Import LlmTaskInvoke.

Ltac configure_step H :=
  match type of H with
  | bind (lift ?o) _ _ = _ =>
      unfold bind at 1 in H; unfold lift at 1 in H;
      let E := fresh "E" in destruct o eqn:E; try discriminate H
  | bind _ _ _ = (Return _, _) =>
      let a := fresh "a" in let w := fresh "w" in let E := fresh "E" in
      apply bind_inv_Return in H; destruct H as (a & w & E & H)
  | throw _ _ = _ => discriminate H
  | (match ?x with _ => _ end) _ = _ =>
      let E := fresh "E" in destruct x eqn:E
  end.

(** What [configure] returns, read off its arguments. *)
Lemma configure_inv (platform : Platform) (input : Stream) (args : json) (ctx : Ctx)
  (cfg : Config) (w w' : World) :
  configure input args ctx w = (Return cfg, w') ->
  let env0 := match ctx_env ctx with Some e => e | None => w_env w end in
  prompt cfg = extractPrompt args
  /\ model cfg = string_or_empty (coalesce (get (lit "model") args)
                                           (env_get env0 "LLM_TASK_MODEL"))
  /\ schemaVersion cfg = schema_version args env0
  /\ parseJsonObject (get (lit "output-schema") args) (lit "llm_task.invoke --output-schema")
     = Return (userOutputSchema cfg)
  /\ (exists inputArtifacts providedArtifacts,
        input w = (Return inputArtifacts, w')
        /\ parseJsonArray (get (lit "artifacts-json") args)
             (lit "llm_task.invoke --artifacts-json") = Return providedArtifacts
        /\ artifactHashes cfg
           = map hashArtifact (map normalizeArtifact (inputArtifacts ++ providedArtifacts)))
  /\ cacheKey cfg = computeCacheKey (prompt cfg) (model cfg) (schemaVersion cfg)
                      (artifactHashes cfg) (userOutputSchema cfg).
Proof.
  intros H env0. unfold configure in H. cbv beta zeta in H. fold env0 in H.
  repeat configure_step H;
    unfold ret in H; inversion H; subst; clear H;
    cbn [prompt model schemaVersion userOutputSchema artifactHashes cacheKey];
    (repeat split; try reflexivity; try congruence;
     try (eexists; eexists; repeat split; first [eassumption | reflexivity])).
Qed.

End ConfigureFacts.

(** C7.  The cache key that [run] derives is a function of the prompt, the
    model, the schema version, the artifact hashes and the output schema:
    two calls that agree on these five derive the same key, whatever else
    they differ in.  In particular two calls that differ only in their
    [metadata-json] argument (other metadata, or the same metadata with
    its keys in another order) derive the same key. *)
Theorem C7_cache_key_determinism (platform : LlmTaskInvoke.Platform) :
  (forall (input1 input2 : Stream) (args1 args2 : json) (ctx1 ctx2 : Ctx)
          (cfg1 cfg2 : LlmTaskInvoke.Config) (w1 w1' w2 w2' : World),
      LlmTaskInvoke.configure input1 args1 ctx1 w1 = (Return cfg1, w1') ->
      LlmTaskInvoke.configure input2 args2 ctx2 w2 = (Return cfg2, w2') ->
      LlmTaskInvoke.prompt cfg1 = LlmTaskInvoke.prompt cfg2 ->
      LlmTaskInvoke.model cfg1 = LlmTaskInvoke.model cfg2 ->
      LlmTaskInvoke.schemaVersion cfg1 = LlmTaskInvoke.schemaVersion cfg2 ->
      LlmTaskInvoke.artifactHashes cfg1 = LlmTaskInvoke.artifactHashes cfg2 ->
      LlmTaskInvoke.userOutputSchema cfg1 = LlmTaskInvoke.userOutputSchema cfg2 ->
      LlmTaskInvoke.cacheKey cfg1 = LlmTaskInvoke.cacheKey cfg2)
  /\
  (forall (input : Stream) (args : list (jsstring * json)) (metadata1 metadata2 : json)
          (ctx : Ctx) (cfg1 cfg2 : LlmTaskInvoke.Config) (w w1 w2 : World),
      LlmTaskInvoke.configure input
        (JObj (obj_set (lit "metadata-json") metadata1 args)) ctx w = (Return cfg1, w1) ->
      LlmTaskInvoke.configure input
        (JObj (obj_set (lit "metadata-json") metadata2 args)) ctx w = (Return cfg2, w2) ->
      LlmTaskInvoke.cacheKey cfg1 = LlmTaskInvoke.cacheKey cfg2).
Proof.
  assert (Hkey : forall (cfg1 cfg2 : LlmTaskInvoke.Config),
             LlmTaskInvoke.cacheKey cfg1
             = LlmTaskInvoke.computeCacheKey (LlmTaskInvoke.prompt cfg1)
                 (LlmTaskInvoke.model cfg1) (LlmTaskInvoke.schemaVersion cfg1)
                 (LlmTaskInvoke.artifactHashes cfg1) (LlmTaskInvoke.userOutputSchema cfg1) ->
             LlmTaskInvoke.cacheKey cfg2
             = LlmTaskInvoke.computeCacheKey (LlmTaskInvoke.prompt cfg2)
                 (LlmTaskInvoke.model cfg2) (LlmTaskInvoke.schemaVersion cfg2)
                 (LlmTaskInvoke.artifactHashes cfg2) (LlmTaskInvoke.userOutputSchema cfg2) ->
             LlmTaskInvoke.prompt cfg1 = LlmTaskInvoke.prompt cfg2 ->
             LlmTaskInvoke.model cfg1 = LlmTaskInvoke.model cfg2 ->
             LlmTaskInvoke.schemaVersion cfg1 = LlmTaskInvoke.schemaVersion cfg2 ->
             LlmTaskInvoke.artifactHashes cfg1 = LlmTaskInvoke.artifactHashes cfg2 ->
             LlmTaskInvoke.userOutputSchema cfg1 = LlmTaskInvoke.userOutputSchema cfg2 ->
             LlmTaskInvoke.cacheKey cfg1 = LlmTaskInvoke.cacheKey cfg2).
  { intros cfg1 cfg2 K1 K2 Hp Hm Hs Ha Ho. rewrite K1, K2, Hp, Hm, Hs, Ha, Ho.
    reflexivity. }
  split.
  - intros input1 input2 args1 args2 ctx1 ctx2 cfg1 cfg2 w1 w1' w2 w2' H1 H2.
    apply ConfigureFacts.configure_inv in H1, H2.
    destruct H1 as (_ & _ & _ & _ & _ & K1). destruct H2 as (_ & _ & _ & _ & _ & K2).
    apply Hkey; assumption.
  - intros input args metadata1 metadata2 ctx cfg1 cfg2 w w1 w2 H1 H2.
    apply ConfigureFacts.configure_inv in H1, H2.
    destruct H1 as (P1 & M1 & S1 & O1 & (ia1 & pa1 & I1 & A1 & AH1) & K1).
    destruct H2 as (P2 & M2 & S2 & O2 & (ia2 & pa2 & I2 & A2 & AH2) & K2).
    assert (Hget : forall (k : jsstring) (m : json),
               k <> lit "metadata-json" ->
               get k (JObj (obj_set (lit "metadata-json") m args)) = get k (JObj args)).
    { intros k m Hk. cbn [get]. apply assoc_obj_set_other. exact Hk. }
    unfold LlmTaskInvoke.extractPrompt in P1, P2.
    unfold LlmTaskInvoke.schema_version in S1, S2.
    assert (Hother : forall k : string,
               str_eqb (lit k) (lit "metadata-json") = false ->
               forall m, get (lit k) (JObj (obj_set (lit "metadata-json") m args))
                         = get (lit k) (JObj args)).
    { intros k Hk m. apply Hget. apply str_eqb_neq. exact Hk. }
    rewrite !(Hother "prompt"%string eq_refl), !(Hother "_"%string eq_refl) in P1, P2.
    rewrite !(Hother "model"%string eq_refl) in M1, M2.
    rewrite !(Hother "schema-version"%string eq_refl) in S1, S2.
    rewrite !(Hother "output-schema"%string eq_refl) in O1, O2.
    rewrite !(Hother "artifacts-json"%string eq_refl) in A1, A2.
    rewrite I1 in I2. inversion I2; subst ia2 w2. clear I2.
    rewrite A1 in A2. inversion A2; subst pa2. clear A2.
    rewrite O1 in O2. inversion O2 as [Ho]. clear O2.
    apply Hkey; try assumption; congruence.
Qed.

(** ** C6: how many attempts the validation loop makes *)

Module RetryFacts.
Import LlmTaskInvoke.

Section Loop.
Context {platform : Platform}.
Variables (cfg : Config) (endpoint : URL) (token : jsstring)
          (validate : json -> option (list ErrorObject))
          (payload : list (jsstring * json)).

Lemma rejected_count (n : nat) (a : Z) (errs : list jsstring) (w : World)
  (a' : Z) (errs' : list jsstring) (w' : World) :
  Attempts.rejected cfg endpoint token validate payload n a errs w a' errs' w' ->
  a' = a + Z.of_nat n.
Proof.
  induction 1 as [| n a errs w normalized errors w1 a' errs' w' _ _ _ IH].
  - lia.
  - rewrite IH. lia.
Qed.

(** Rejected attempts up to number [maxValidationRetries + 1] are retried. *)
Lemma loop_retries (n : nat) (a : Z) (errs : list jsstring) (w : World)
  (a' : Z) (errs' : list jsstring) (w' : World) (fuel : nat) :
  Attempts.rejected cfg endpoint token validate payload n a errs w a' errs' w' ->
  a' <= maxValidationRetries cfg + 1 ->
  invoke_loop (n + fuel) cfg endpoint token (Some validate) payload a errs w
  = invoke_loop fuel cfg endpoint token (Some validate) payload a' errs' w'.
Proof.
  induction 1 as [| n a errs w normalized errors w1 a' errs' w' Hone Hval Hrest IH];
    intros Hle.
  - reflexivity.
  - pose proof (rejected_count _ _ _ _ _ _ _ Hrest) as Hcount.
    cbn [Nat.add invoke_loop].
    rewrite (bind_Return _ _ _ _ _ Hone). rewrite Hval.
    destruct (Z.gtb_spec (a + 1) (maxValidationRetries cfg + 1)) as [Hgt | _]; [lia |].
    apply IH. exact Hle.
Qed.

(** The attempt the schema accepts is delivered. *)
Lemma loop_accepts (fuel : nat) (a : Z) (errs : list jsstring) (w w' : World)
  (normalized : list json) :
  one_attempt cfg endpoint token payload (a + 1) errs w = (Return normalized, w') ->
  validate (structured_data normalized) = None ->
  invoke_loop (S fuel) cfg endpoint token (Some validate) payload a errs w
  = deliver cfg normalized w'.
Proof.
  intros Hone Hval. cbn [invoke_loop].
  rewrite (bind_Return _ _ _ _ _ Hone). rewrite Hval. reflexivity.
Qed.

(** A rejected attempt beyond number [maxValidationRetries + 1] ends the
    call. *)
Lemma loop_gives_up (fuel : nat) (a : Z) (errs : list jsstring) (w w' : World)
  (normalized : list json) (errors : list ErrorObject) :
  one_attempt cfg endpoint token payload (a + 1) errs w = (Return normalized, w') ->
  validate (structured_data normalized) = Some errors ->
  a + 1 > maxValidationRetries cfg + 1 ->
  invoke_loop (S fuel) cfg endpoint token (Some validate) payload a errs w
  = (Throw (schema_failure (collectAjvErrors errors)), w').
Proof.
  intros Hone Hval Hgt. cbn [invoke_loop].
  rewrite (bind_Return _ _ _ _ _ Hone). rewrite Hval.
  destruct (Z.gtb_spec (a + 1) (maxValidationRetries cfg + 1)) as [_ | Hle]; [| lia].
  reflexivity.
Qed.

(** The normalized result of an attempt is one item that carries the
    number of the attempt. *)
Lemma one_attempt_attemptCount (attempt : Z) (errs : list jsstring) (w w' : World)
  (normalized : list json) :
  one_attempt cfg endpoint token payload attempt errs w = (Return normalized, w') ->
  exists item, normalized = [item]
               /\ get (lit "attemptCount") item = Some (JNum attempt).
Proof.
  unfold one_attempt. intros H.
  apply bind_inv_Return in H. destruct H as (envelope & w1 & _ & H).
  destruct (negb (validateResponseEnvelope envelope)); [discriminate H |].
  destruct (get (lit "ok") envelope) as [[ | [] | | | | | | ] |]; try discriminate H.
  unfold normalizeResult in H.
  apply bind_inv_Return in H. destruct H as (createdAt & w2 & _ & H).
  unfold ret in H. inversion H; subst. clear H.
  eexists. split; [reflexivity |]. reflexivity.
Qed.

End Loop.
End RetryFacts.

(** C6, as the code has it.  Let the transport's structured result fail
    the caller's schema on the first [N] attempts ([N >= 1]).  The loop
    makes attempt [N + 1] whenever [N <= maxValidationRetries + 1]: if that
    attempt satisfies the schema the call succeeds and its item reports
    [attemptCount = N + 1] -- with [max-validation-retries = N] and with
    [max-validation-retries = N - 1] alike.  The call fails with the
    schema-validation error, carrying the errors of the last attempt, only
    when attempt number [maxValidationRetries + 2] is rejected. *)
Theorem C6_retry_bound_allows_one_more_attempt (platform : LlmTaskInvoke.Platform)
  (cfg : LlmTaskInvoke.Config) (endpoint : LlmTaskInvoke.URL) (token : jsstring)
  (validate : json -> option (list LlmTaskInvoke.ErrorObject))
  (payload : list (jsstring * json)) (N : nat)
  (errsN : list jsstring) (w wN w' : World) (normalized : list json) :
  (1 <= N)%nat ->
  Attempts.rejected cfg endpoint token validate payload
    N 0 [] w (Z.of_nat N) errsN wN ->
  LlmTaskInvoke.one_attempt cfg endpoint token payload (Z.of_nat N + 1) errsN wN
    = (Return normalized, w') ->
  (* accepted on attempt N + 1, with N - 1 retries allowed (or more) *)
  (validate (LlmTaskInvoke.structured_data normalized) = None ->
   Z.of_nat N - 1 <= LlmTaskInvoke.maxValidationRetries cfg ->
   LlmTaskInvoke.invoke_loop
     (Z.to_nat (LlmTaskInvoke.maxValidationRetries cfg + 2))
     cfg endpoint token (Some validate) payload 0 [] w
   = LlmTaskInvoke.deliver cfg normalized w'
   /\ exists item, normalized = [item]
                   /\ get (lit "attemptCount") item = Some (JNum (Z.of_nat N + 1)))
  /\
  (* rejected on attempt N + 1 = maxValidationRetries + 2 *)
  (forall errors,
     validate (LlmTaskInvoke.structured_data normalized) = Some errors ->
     LlmTaskInvoke.maxValidationRetries cfg = Z.of_nat N - 1 ->
     LlmTaskInvoke.invoke_loop
       (Z.to_nat (LlmTaskInvoke.maxValidationRetries cfg + 2))
       cfg endpoint token (Some validate) payload 0 [] w
     = (Throw (LlmTaskInvoke.schema_failure (LlmTaskInvoke.collectAjvErrors errors)), w')).
Proof.
  intros HN Hrej Hone. split.
  - intros Hval Hmax. split.
    + replace (Z.to_nat (LlmTaskInvoke.maxValidationRetries cfg + 2))
        with (N + S (Z.to_nat (LlmTaskInvoke.maxValidationRetries cfg + 1) - N))%nat by lia.
      rewrite (RetryFacts.loop_retries _ _ _ _ _ _ _ _ _ _ _ _ _ Hrej) by lia.
      eapply RetryFacts.loop_accepts; eassumption.
    + eapply RetryFacts.one_attempt_attemptCount. exact Hone.
  - intros errors Hval Hmax.
    replace (Z.to_nat (LlmTaskInvoke.maxValidationRetries cfg + 2)) with (N + 1)%nat by lia.
    rewrite (RetryFacts.loop_retries _ _ _ _ _ _ _ _ _ _ _ _ _ Hrej) by lia.
    eapply RetryFacts.loop_gives_up; [eassumption | eassumption | lia].
Qed.

(** ** The codec: base64url *)

Module CodecFacts.

Lemma b64char_is_a_byte (x : Z) :
  0 <= x < 64 -> b64char x mod 256 = b64char x.
Proof.
  intros Hx. apply Z.mod_small. unfold b64char.
  destruct (Z.ltb_spec x 26); [lia |].
  destruct (Z.ltb_spec x 52); [lia |].
  destruct (Z.ltb_spec x 62); [lia |].
  destruct (Z.eqb_spec x 62); lia.
Qed.

Lemma unbase64_b64char (x : Z) :
  0 <= x < 64 -> unbase64 (b64char x) = Some x /\ b64char x <> 61.
Proof.
  intros Hx. unfold unbase64. cbv zeta. rewrite (b64char_is_a_byte x Hx).
  unfold b64char.
  destruct (Z.ltb_spec x 26).
  { replace ((65 <=? 65 + x) && (65 + x <=? 90)) with true by lia.
    split; [f_equal; lia | lia]. }
  destruct (Z.ltb_spec x 52).
  { replace ((65 <=? 71 + x) && (71 + x <=? 90)) with false by lia.
    replace ((97 <=? 71 + x) && (71 + x <=? 122)) with true by lia.
    split; [f_equal; lia | lia]. }
  destruct (Z.ltb_spec x 62).
  { replace ((65 <=? x - 4) && (x - 4 <=? 90)) with false by lia.
    replace ((97 <=? x - 4) && (x - 4 <=? 122)) with false by lia.
    replace ((48 <=? x - 4) && (x - 4 <=? 57)) with true by lia.
    split; [f_equal; lia | lia]. }
  destruct (Z.eqb_spec x 62).
  { subst. split; [reflexivity | discriminate]. }
  assert (x = 63) by lia. subst. split; [reflexivity | discriminate].
Qed.

Lemma sextets_b64char (x : Z) (s : jsstring) :
  0 <= x < 64 -> sextets (b64char x :: s) = x :: sextets s.
Proof.
  intros Hx. destruct (unbase64_b64char x Hx) as [Hu Hne].
  cbn [sextets]. rewrite Hu, (b64char_is_a_byte x Hx).
  destruct (Z.eqb_spec (b64char x) 61); [contradiction | reflexivity].
Qed.

(** Induction three elements at a time. *)
Lemma list_ind3 (A : Type) (P : list A -> Prop) :
  P [] -> (forall a, P [a]) -> (forall a b, P [a; b]) ->
  (forall a b c r, P r -> P (a :: b :: c :: r)) ->
  forall l, P l.
Proof.
  intros H0 H1 H2 H3 l.
  assert (H : P l /\ (forall a, P (a :: l)) /\ (forall a b, P (a :: b :: l))).
  { induction l as [| x l (IHa & IHb & IHc)].
    - auto.
    - repeat split; auto. }
  apply H.
Qed.

Lemma base64url_roundtrip (bs : bytes) :
  bytes_ok bs -> base64url_decode (base64url_encode bs) = bs.
Proof.
  unfold base64url_decode, bytes_ok.
  induction bs as [| a | a b | a b c r IH] using list_ind3; intros Hok.
  - reflexivity.
  - inversion Hok as [| ? ? Ha _]; subst. unfold byte_ok in Ha.
    cbn [base64url_encode].
    rewrite !sextets_b64char by (Z.div_mod_to_equations; lia).
    cbn [sextets sextets_bytes]. f_equal. Z.div_mod_to_equations; lia.
  - inversion Hok as [| ? ? Ha Hr]; subst. inversion Hr as [| ? ? Hb _]; subst.
    unfold byte_ok in Ha, Hb.
    cbn [base64url_encode].
    rewrite !sextets_b64char by (Z.div_mod_to_equations; lia).
    cbn [sextets sextets_bytes].
    f_equal; [| f_equal]; Z.div_mod_to_equations; lia.
  - inversion Hok as [| ? ? Ha Hr]; subst. inversion Hr as [| ? ? Hb Hr2]; subst.
    inversion Hr2 as [| ? ? Hc Hr3]; subst.
    unfold byte_ok in Ha, Hb, Hc.
    cbn [base64url_encode].
    rewrite !sextets_b64char by (Z.div_mod_to_equations; lia).
    cbn [sextets_bytes]. rewrite (IH Hr3).
    f_equal; [| f_equal; [| f_equal]]; Z.div_mod_to_equations; lia.
Qed.

End CodecFacts.

(** ** The codec: UTF-8 *)

Module Utf8Facts.

(** Decide the next test of the goal by arithmetic. *)
Ltac settle :=
  match goal with
  | |- context [if ?t then _ else _] =>
      first [ replace t with true by (Z.div_mod_to_equations; lia)
            | replace t with false by (Z.div_mod_to_equations; lia) ]
  end.

Lemma utf8_roundtrip_bounded (n : nat) :
  forall s : jsstring,
    (List.length s <= n)%nat -> units_ok s -> well_formed s = true ->
    utf8_decode (utf8_encode s) = s.
Proof.
  induction n as [| n IH]; intros s Hlen Hok Hwf.
  - destruct s; [reflexivity | simpl in Hlen; lia].
  - destruct s as [| c rest]; [reflexivity |].
    inversion Hok as [| ? ? Hc Hrest]; subst. unfold unit_ok in Hc.
    simpl List.length in Hlen.
    cbn [well_formed] in Hwf. cbn [utf8_encode].
    destruct (is_high c) eqn:Hhigh.
    + (* a surrogate pair *)
      destruct rest as [| d rest']; [discriminate Hwf |].
      apply andb_true_iff in Hwf. destruct Hwf as [Hlow Hwf].
      inversion Hrest as [| ? ? Hd Hrest']; subst. unfold unit_ok in Hd.
      rewrite Hlow. unfold is_high in Hhigh. unfold is_low in Hlow.
      assert (Hcr : 55296 <= c <= 56319) by lia.
      assert (Hdr : 56320 <= d <= 57343) by lia.
      do 2 settle.
      set (cp := 65536 + (c - 55296) * 1024 + (d - 56320)).
      assert (Hcp : 65536 <= cp <= 1114111) by (subst cp; lia).
      cbn [utf8_decode]. unfold second4, is_cont.
      settle. settle. settle.
      destruct (Z.eqb_spec (240 + cp / 262144) 240) as [E0 | E0];
        [| destruct (Z.eqb_spec (240 + cp / 262144) 244) as [E4 | E4]];
        repeat settle;
        (f_equal; [Z.div_mod_to_equations; lia |
                   f_equal; [Z.div_mod_to_equations; lia |]]);
        apply IH; try assumption; simpl in Hlen; lia.
    + apply andb_true_iff in Hwf. destruct Hwf as [Hlow Hwf].
      apply negb_true_iff in Hlow.
      unfold is_high in Hhigh. unfold is_low in Hlow. rewrite ?Hlow.
      assert (Hns : c < 55296 \/ 57343 < c) by lia.
      destruct (Z.ltb_spec c 128) as [H1 | H1].
      * cbn [utf8_decode]. settle. f_equal. apply IH; try assumption; lia.
      * destruct (Z.ltb_spec c 2048) as [H2 | H2].
        -- cbn [utf8_decode]. unfold is_cont. settle. settle. settle.
           f_equal; [Z.div_mod_to_equations; lia |].
           apply IH; try assumption; lia.
        -- unfold is_low. rewrite Hlow.
           cbn [utf8_decode]. unfold second3, is_cont. settle. settle. settle.
           destruct (Z.eqb_spec (224 + c / 4096) 224) as [E0 | E0];
             [| destruct (Z.eqb_spec (224 + c / 4096) 237) as [E4 | E4]];
             repeat settle;
             (f_equal; [Z.div_mod_to_equations; lia |]);
             apply IH; try assumption; lia.
Qed.

Lemma utf8_roundtrip (s : jsstring) :
  units_ok s -> well_formed s = true -> utf8_decode (utf8_encode s) = s.
Proof. apply (utf8_roundtrip_bounded (List.length s)). lia. Qed.

End Utf8Facts.

Lemma utf8_encode_bytes_bounded (n : nat) :
  forall s : jsstring,
    (List.length s <= n)%nat -> units_ok s -> bytes_ok (utf8_encode s).
Proof.
  unfold bytes_ok, byte_ok.
  induction n as [| n IH]; intros s Hlen Hok.
  - destruct s; [constructor | simpl in Hlen; lia].
  - destruct s as [| c rest]; [constructor |].
    inversion Hok as [| ? ? Hc Hrest]; subst. unfold unit_ok in Hc.
    simpl List.length in Hlen. cbn [utf8_encode].
    destruct (Z.ltb_spec c 128); [constructor; [lia | apply IH; [lia | assumption]] |].
    destruct (Z.ltb_spec c 2048).
    { repeat constructor; try (Z.div_mod_to_equations; lia).
      apply IH; [lia | assumption]. }
    destruct (is_high c) eqn:Hhigh.
    + destruct rest as [| d rest']; [repeat constructor; lia |].
      inversion Hrest as [| ? ? Hd Hrest']; subst. unfold unit_ok in Hd.
      destruct (is_low d) eqn:Hlow.
      * unfold is_high in Hhigh. unfold is_low in Hlow.
        repeat constructor; try (Z.div_mod_to_equations; lia).
        apply IH; [simpl in Hlen; lia | assumption].
      * repeat constructor; try lia. apply IH; [lia | assumption].
    + destruct (is_low c).
      * repeat constructor; try lia. apply IH; [lia | assumption].
      * repeat constructor; try (Z.div_mod_to_equations; lia).
        apply IH; [lia | assumption].
Qed.

Lemma utf8_encode_bytes (s : jsstring) : units_ok s -> bytes_ok (utf8_encode s).
Proof. apply (utf8_encode_bytes_bounded (List.length s)). lia. Qed.

(** ** The codec: JSON numbers *)

Module NumberFacts.
Import Shapes.

Lemma take_digits_uint_chars (d : Decimal.uint) (rest : jsstring) :
  ends_number rest -> take_digits (uint_chars d ++ rest) = (d, rest).
Proof.
  intros Hrest.
  induction d; cbn [uint_chars List.app];
    [| cbn [take_digits]; rewrite IHd; reflexivity ..].
  destruct rest as [| c rest]; [reflexivity |].
  cbn [take_digits]. destruct Hrest as [Hd _]. rewrite Hd. reflexivity.
Qed.

Lemma to_uint_head (p : positive) (d : Decimal.uint) : Pos.to_uint p <> D0 d.
Proof.
  intros H.
  pose proof (DecimalN.Unsigned.to_of (Pos.to_uint p)) as Hn.
  change (N.of_uint (Pos.to_uint p)) with (Pos.of_uint (Pos.to_uint p)) in Hn.
  rewrite DecimalPos.Unsigned.of_to in Hn.
  change (N.to_uint (Npos p)) with (Pos.to_uint p) in Hn.
  rewrite H in Hn. unfold Decimal.unorm in Hn.
  destruct (Decimal.nzhead (D0 d)) eqn:Hz.
  - apply (DecimalPos.Unsigned.to_uint_nonzero p). rewrite H. exact Hn.
  - apply (DecimalFacts.nzhead_nonzero (D0 d) d). rewrite Hz. symmetry. exact Hn.
  - inversion Hn. - inversion Hn. - inversion Hn. - inversion Hn.
  - inversion Hn. - inversion Hn. - inversion Hn. - inversion Hn.
  - inversion Hn.
Qed.

(** *** Strings of digits and the numerals they are read as *)

Definition digits_only (s : jsstring) : Prop :=
  Forall (fun c => is_digit c = true) s.

Definition no_digit_first (s : jsstring) : Prop :=
  match s with
  | [] => True
  | c :: _ => is_digit c = false
  end.

Definition to_uint (s : jsstring) : Decimal.uint := fst (take_digits s).

(** The number a string of digits writes. *)
Fixpoint value (s : jsstring) : Z :=
  match s with
  | [] => 0
  | c :: s' => (c - 48) * 10 ^ Z.of_nat (List.length s') + value s'
  end.

Lemma of_uint_acc_value (l : Decimal.uint) :
  forall acc : positive,
    Z.pos (Pos.of_uint_acc l acc)
    = Z.pos acc * 10 ^ Z.of_nat (Decimal.nb_digits l) + Z.of_N (Pos.of_uint l).
Proof.
  induction l; intros acc;
    cbn [Pos.of_uint_acc Decimal.nb_digits Pos.of_uint].
  - cbn. lia.
  - rewrite IHl, Nat2Z.inj_succ, Z.pow_succ_r by lia.
    rewrite Pos2Z.inj_mul. ring.
  - rewrite IHl, Nat2Z.inj_succ, Z.pow_succ_r by lia. cbn [Z.of_N].
    rewrite (IHl 1%positive), Pos2Z.inj_add, Pos2Z.inj_mul. ring.
  - rewrite IHl, Nat2Z.inj_succ, Z.pow_succ_r by lia. cbn [Z.of_N].
    rewrite (IHl 2%positive), Pos2Z.inj_add, Pos2Z.inj_mul. ring.
  - rewrite IHl, Nat2Z.inj_succ, Z.pow_succ_r by lia. cbn [Z.of_N].
    rewrite (IHl 3%positive), Pos2Z.inj_add, Pos2Z.inj_mul. ring.
  - rewrite IHl, Nat2Z.inj_succ, Z.pow_succ_r by lia. cbn [Z.of_N].
    rewrite (IHl 4%positive), Pos2Z.inj_add, Pos2Z.inj_mul. ring.
  - rewrite IHl, Nat2Z.inj_succ, Z.pow_succ_r by lia. cbn [Z.of_N].
    rewrite (IHl 5%positive), Pos2Z.inj_add, Pos2Z.inj_mul. ring.
  - rewrite IHl, Nat2Z.inj_succ, Z.pow_succ_r by lia. cbn [Z.of_N].
    rewrite (IHl 6%positive), Pos2Z.inj_add, Pos2Z.inj_mul. ring.
  - rewrite IHl, Nat2Z.inj_succ, Z.pow_succ_r by lia. cbn [Z.of_N].
    rewrite (IHl 7%positive), Pos2Z.inj_add, Pos2Z.inj_mul. ring.
  - rewrite IHl, Nat2Z.inj_succ, Z.pow_succ_r by lia. cbn [Z.of_N].
    rewrite (IHl 8%positive), Pos2Z.inj_add, Pos2Z.inj_mul. ring.
  - rewrite IHl, Nat2Z.inj_succ, Z.pow_succ_r by lia. cbn [Z.of_N].
    rewrite (IHl 9%positive), Pos2Z.inj_add, Pos2Z.inj_mul. ring.
Qed.

Lemma of_uint_push (c : Z) (d : Decimal.uint) :
  is_digit c = true ->
  Z.of_N (N.of_uint (push_digit c d))
  = (c - 48) * 10 ^ Z.of_nat (Decimal.nb_digits d) + Z.of_N (N.of_uint d).
Proof.
  intros Hc. unfold is_digit in Hc.
  assert (H : c = 48 \/ c = 49 \/ c = 50 \/ c = 51 \/ c = 52 \/ c = 53 \/ c = 54
              \/ c = 55 \/ c = 56 \/ c = 57) by lia.
  unfold N.of_uint.
  destruct H as [-> | [-> | [-> | [-> | [-> | [-> | [-> | [-> | [-> | ->]]]]]]]]];
    cbn [push_digit Z.eqb Pos.eqb Pos.of_uint Z.of_N];
    rewrite ?of_uint_acc_value; cbn [Z.sub Z.add Z.opp Z.pos_sub Pos.pred_double
                                      Z.succ_double Z.pred_double Z.double]; lia.
Qed.

Lemma nb_digits_push (c : Z) (d : Decimal.uint) :
  Decimal.nb_digits (push_digit c d) = S (Decimal.nb_digits d).
Proof.
  unfold push_digit.
  repeat match goal with |- context [if ?b then _ else _] => destruct b end;
    reflexivity.
Qed.

Lemma uint_chars_push (c : Z) (d : Decimal.uint) :
  is_digit c = true -> uint_chars (push_digit c d) = c :: uint_chars d.
Proof.
  intros Hc. unfold is_digit in Hc. unfold push_digit.
  repeat match goal with
         | |- context [if ?x =? ?y then _ else _] => destruct (Z.eqb_spec x y)
         end; cbn [uint_chars]; f_equal; lia.
Qed.

Lemma push_digit_nonnil (c : Z) (d : Decimal.uint) : push_digit c d <> Nil.
Proof.
  unfold push_digit.
  repeat match goal with |- context [if ?b then _ else _] => destruct b end;
    discriminate.
Qed.

Lemma push_digit_head (c : Z) (d d' : Decimal.uint) :
  is_digit c = true -> push_digit c d = D0 d' -> c = 48 /\ d' = d.
Proof.
  intros Hc. unfold is_digit in Hc. unfold push_digit.
  repeat match goal with
         | |- context [if ?x =? ?y then _ else _] => destruct (Z.eqb_spec x y)
         end; intros H; inversion H; subst; split; reflexivity.
Qed.

Lemma to_uint_cons (c : Z) (s : jsstring) :
  is_digit c = true -> to_uint (c :: s) = push_digit c (to_uint s).
Proof.
  intros Hc. unfold to_uint. cbn [take_digits]. rewrite Hc.
  destruct (take_digits s). reflexivity.
Qed.

Lemma to_uint_facts (s : jsstring) :
  digits_only s ->
  Z.of_N (N.of_uint (to_uint s)) = value s
  /\ Decimal.nb_digits (to_uint s) = List.length s
  /\ uint_chars (to_uint s) = s.
Proof.
  induction 1 as [| c s Hc Hs (IHv & IHn & IHc)]; [repeat split |].
  rewrite (to_uint_cons c s Hc).
  rewrite (of_uint_push c _ Hc), nb_digits_push, (uint_chars_push c _ Hc).
  rewrite IHv, IHn, IHc. cbn [value List.length]. repeat split.
Qed.

Lemma take_digits_app (a b : jsstring) :
  digits_only a -> no_digit_first b -> take_digits (a ++ b) = (to_uint a, b).
Proof.
  intros Ha Hb. induction Ha as [| c a Hc Ha IH].
  - destruct b as [| c b]; [reflexivity |].
    cbn [List.app take_digits]. cbn in Hb. rewrite Hb. reflexivity.
  - rewrite (to_uint_cons c a Hc). cbn [List.app take_digits]. rewrite Hc, IH.
    reflexivity.
Qed.

Lemma digits_uint_chars (d : Decimal.uint) : digits_only (uint_chars d).
Proof. induction d; cbn [uint_chars]; constructor; auto. Qed.

Lemma to_uint_uint_chars (d : Decimal.uint) : to_uint (uint_chars d) = d.
Proof.
  unfold to_uint.
  pose proof (take_digits_uint_chars d [] I) as H. rewrite app_nil_r in H.
  rewrite H. reflexivity.
Qed.

Lemma value_uint_chars (d : Decimal.uint) :
  value (uint_chars d) = Z.of_N (N.of_uint d).
Proof.
  destruct (to_uint_facts _ (digits_uint_chars d)) as (Hv & _ & _).
  rewrite to_uint_uint_chars in Hv. symmetry. exact Hv.
Qed.

Lemma value_nat_chars (n : N) : value (nat_chars n) = Z.of_N n.
Proof.
  unfold nat_chars. rewrite value_uint_chars, DecimalN.Unsigned.of_to.
  reflexivity.
Qed.

Lemma digits_app (a b : jsstring) :
  digits_only a -> digits_only b -> digits_only (a ++ b).
Proof. intros Ha Hb. apply Forall_app. split; assumption. Qed.

Lemma digits_repeat (n : nat) : digits_only (repeat 48 n).
Proof. induction n; cbn [repeat]; constructor; auto. Qed.

Lemma value_app (a b : jsstring) :
  value (a ++ b) = value a * 10 ^ Z.of_nat (List.length b) + value b.
Proof.
  induction a as [| c a IH]; [cbn [value List.app]; lia |].
  cbn [List.app value]. rewrite IH, length_app, Nat2Z.inj_add.
  rewrite Z.pow_add_r by lia. ring.
Qed.

Lemma value_zeros (n : nat) : value (repeat 48 n) = 0.
Proof. induction n; cbn [repeat value]; lia. Qed.

(** *** Reading a numeral *)

Definition fraction_text (fp : jsstring) : jsstring :=
  match fp with
  | [] => []
  | _ => 46 :: fp
  end.

Definition exponent_text (x : option Z) : jsstring :=
  match x with
  | None => []
  | Some x => 101 :: (if x <? 0 then 45 else 43) :: nat_chars (Z.to_N (Z.abs x))
  end.

Lemma uint_nonnil {A} (d : Decimal.uint) (a b : A) :
  d <> Nil ->
  match d with
  | Nil => a
  | _ => b
  end = b.
Proof. destruct d; congruence. Qed.

Lemma to_uint_nonnil (s : jsstring) :
  digits_only s -> s <> [] -> to_uint s <> Nil.
Proof.
  intros Hs Hne. destruct Hs as [| c s Hc Hs]; [congruence |].
  rewrite (to_uint_cons c s Hc). apply push_digit_nonnil.
Qed.

Lemma N_to_uint_nonnil (n : N) : N.to_uint n <> Nil.
Proof.
  destruct n; [discriminate |]. apply DecimalPos.Unsigned.to_uint_nonnil.
Qed.

Lemma exponent_read (x : option Z) (rest : jsstring) :
  ends_number rest ->
  match exponent_text x ++ rest with
  | c :: s' =>
      if (c =? 101) || (c =? 69) then
        let (eneg, s4) :=
          match s' with
          | g :: s'' =>
              if g =? 45 then (true, s'')
              else if g =? 43 then (false, s'')
              else (false, s')
          | [] => (false, s')
          end in
        let (ed, s5) := take_digits s4 in
        match ed with
        | Nil => None
        | _ =>
            let x := Z.of_N (N.of_uint ed) in
            Some (if eneg then - x else x, s5)
        end
      else Some (0, exponent_text x ++ rest)
  | [] => Some (0, exponent_text x ++ rest)
  end = Some (match x with Some x => x | None => 0 end, rest).
Proof.
  intros Hrest. destruct x as [x |]; cbn [exponent_text List.app].
  - cbn [Z.eqb Pos.eqb orb].
    assert (Hd : take_digits (nat_chars (Z.to_N (Z.abs x)) ++ rest)
                 = (N.to_uint (Z.to_N (Z.abs x)), rest))
      by (apply take_digits_uint_chars; exact Hrest).
    assert (Hv : Z.of_N (N.of_uint (N.to_uint (Z.to_N (Z.abs x)))) = Z.abs x).
    { rewrite DecimalN.Unsigned.of_to. lia. }
    destruct (Z.ltb_spec x 0); cbn [Z.eqb Pos.eqb]; rewrite Hd;
      rewrite (uint_nonnil _ _ _ (N_to_uint_nonnil _)); cbv zeta; rewrite Hv;
      do 2 f_equal; lia.
  - destruct rest as [| c rest]; [reflexivity |].
    destruct Hrest as (_ & _ & H101 & H69).
    apply Z.eqb_neq in H101, H69. rewrite H101, H69. reflexivity.
Qed.

Lemma exponent_first (x : option Z) (rest : jsstring) :
  ends_number rest ->
  no_digit_first (exponent_text x ++ rest)
  /\ forall c r, exponent_text x ++ rest = c :: r -> c <> 46.
Proof.
  intros Hrest. destruct x as [x |]; cbn [exponent_text List.app].
  - split; [reflexivity |]. intros c r H. inversion H. discriminate.
  - destruct rest as [| c rest]; [split; [exact I | discriminate] |].
    destruct Hrest as (Hd & H46 & _). split; [exact Hd |].
    intros c' r H. inversion H; subst. exact H46.
Qed.

(** The integer digits [ip], the fraction digits [fp] if there are any and
    the exponent [x] if there is one are read as the number they write. *)
Lemma parse_unsigned_numeral (neg : bool) (ip fp : jsstring) (x : option Z)
  (rest : jsstring) :
  digits_only ip -> ip <> [] ->
  (forall r, ip = 48 :: r -> r = []) ->
  digits_only fp -> ends_number rest ->
  parse_unsigned neg (ip ++ fraction_text fp ++ exponent_text x ++ rest)
  = Some (number_value neg (to_uint ip) (to_uint fp)
            (match x with Some x => x | None => 0 end), rest).
Proof.
  intros Hip Hne Hzero Hfp Hrest.
  destruct (exponent_first x rest Hrest) as [Hxd Hx46].
  pose proof (exponent_read x rest Hrest) as Hexp.
  unfold parse_unsigned.
  rewrite take_digits_app;
    [| exact Hip
     | destruct fp; [exact Hxd | reflexivity]].
  assert (Hk :
    match
      match fraction_text fp ++ exponent_text x ++ rest with
      | [] => Some (Nil, fraction_text fp ++ exponent_text x ++ rest)
      | c :: s' =>
          if c =? 46
          then let (fr, s3) := take_digits s' in
               match fr with Nil => None | _ => Some (fr, s3) end
          else Some (Nil, fraction_text fp ++ exponent_text x ++ rest)
      end
    with
    | Some (frac, s3) =>
        match
          match s3 with
          | [] => Some (0, s3)
          | c :: s' =>
              if (c =? 101) || (c =? 69)
              then
                let (eneg, s4) :=
                  match s' with
                  | [] => (false, s')
                  | g :: s'' =>
                      if g =? 45 then (true, s'')
                      else if g =? 43 then (false, s'') else (false, s')
                  end in
                let (ed, s5) := take_digits s4 in
                match ed with
                | Nil => None
                | _ => Some (if eneg then - Z.of_N (N.of_uint ed)
                             else Z.of_N (N.of_uint ed), s5)
                end
              else Some (0, s3)
          end
        with
        | Some (ex, rest0) => Some (number_value neg (to_uint ip) frac ex, rest0)
        | None => None
        end
    | None => None
    end = Some (number_value neg (to_uint ip) (to_uint fp)
                  (match x with Some x => x | None => 0 end), rest)).
  { destruct fp as [| c0 fp'].
    - cbn [fraction_text List.app].
      change (to_uint []) with Nil.
      destruct (exponent_text x ++ rest) as [| c r] eqn:E.
      + cbv beta iota in Hexp |- *. inversion Hexp. reflexivity.
      + pose proof (Hx46 c r eq_refl) as H46. apply Z.eqb_neq in H46.
        rewrite H46. cbv beta iota zeta in Hexp |- *. rewrite Hexp. reflexivity.
    - cbn [fraction_text List.app]. cbn [Z.eqb Pos.eqb].
      change (c0 :: fp' ++ exponent_text x ++ rest)
        with ((c0 :: fp') ++ exponent_text x ++ rest).
      rewrite (take_digits_app _ _ Hfp Hxd).
      rewrite (uint_nonnil _ _ _ (to_uint_nonnil _ Hfp ltac:(discriminate))).
      cbv beta iota zeta in Hexp |- *. rewrite Hexp. reflexivity. }
  pose proof (to_uint_nonnil ip Hip Hne) as Hnn.
  destruct Hip as [| c ip' Hc Hip']; [congruence |].
  rewrite (to_uint_cons c ip' Hc) in *.
  destruct (push_digit c (to_uint ip')) as [| d' | | | | | | | | | ] eqn:Ed;
    try exact Hk; [congruence |].
  destruct (push_digit_head c _ d' Hc Ed) as [-> ->].
  rewrite (Hzero ip' eq_refl) in *. exact Hk.
Qed.

(** *** The value of a numeral *)

Lemma strip_zeros_power (j : nat) :
  forall (fuel : nat) (s e : Z),
    0 < s -> s mod 10 <> 0 -> (j <= fuel)%nat ->
    strip_zeros fuel (s * 10 ^ Z.of_nat j) e = (s, e + Z.of_nat j).
Proof.
  induction j as [| j IH]; intros fuel s e Hs Hmod Hfuel.
  - rewrite Z.mul_1_r, Z.add_0_r.
    destruct fuel as [| f]; [reflexivity |].
    cbn [strip_zeros]. apply Z.eqb_neq in Hmod. rewrite Hmod. reflexivity.
  - destruct fuel as [| f]; [lia |].
    cbn [strip_zeros]. rewrite Nat2Z.inj_succ, Z.pow_succ_r by lia.
    assert (Hp : 0 < 10 ^ Z.of_nat j) by (apply Z.pow_pos_nonneg; lia).
    replace (s * (10 * 10 ^ Z.of_nat j)) with ((s * 10 ^ Z.of_nat j) * 10) by ring.
    rewrite Z.mod_mul by lia. rewrite Z.div_mul by lia.
    assert (Hnz : (s * 10 ^ Z.of_nat j * 10 =? 0) = false) by (apply Z.eqb_neq; nia).
    rewrite Hnz. cbn [Z.eqb andb negb].
    rewrite IH by (try assumption; lia). f_equal. lia.
Qed.

Lemma strip_power (s : Z) (j : nat) (e : Z) :
  0 < s -> s mod 10 <> 0 ->
  strip (s * 10 ^ Z.of_nat j) e = (s, e + Z.of_nat j).
Proof.
  intros Hs Hmod. unfold strip. apply strip_zeros_power; try assumption.
  assert (Hp : 2 ^ Z.of_nat j <= s * 10 ^ Z.of_nat j).
  { assert (2 ^ Z.of_nat j <= 10 ^ Z.of_nat j)
      by (apply Z.pow_le_mono_l; lia).
    assert (0 < 10 ^ Z.of_nat j) by (apply Z.pow_pos_nonneg; lia).
    nia. }
  apply Z.log2_le_mono in Hp. rewrite Z.log2_pow2 in Hp by lia. lia.
Qed.

Lemma number_value_numeral (neg : bool) (ip fp : jsstring) (ex s t : Z) (j : nat) :
  digits_only ip -> digits_only fp -> 0 < s -> s mod 10 <> 0 ->
  value (ip ++ fp) = s * 10 ^ Z.of_nat j ->
  ex - Z.of_nat (List.length fp) + Z.of_nat j = t ->
  number_value neg (to_uint ip) (to_uint fp) ex = number_of neg s t.
Proof.
  intros Hip Hfp Hs Hmod Hv Ht.
  destruct (to_uint_facts ip Hip) as (Hvi & _ & _).
  destruct (to_uint_facts fp Hfp) as (Hvf & Hnf & _).
  unfold number_value. cbv zeta. rewrite Hvi, Hvf, Hnf, <- value_app, Hv.
  assert (Hp : 0 < 10 ^ Z.of_nat j) by (apply Z.pow_pos_nonneg; lia).
  assert (Hnz : (s * 10 ^ Z.of_nat j =? 0) = false) by (apply Z.eqb_neq; nia).
  rewrite Hnz, (strip_power s j _ Hs Hmod).
  f_equal. lia.
Qed.


Lemma strip_zeros_value (fuel : nat) :
  forall m e m' e' : Z,
    0 < m -> strip_zeros fuel m e = (m', e') ->
    0 < m' /\ e <= e' /\ m = m' * 10 ^ (e' - e).
Proof.
  induction fuel as [| f IH]; intros m e m' e' Hm H; cbn [strip_zeros] in H.
  - inversion H; subst. rewrite Z.sub_diag. cbn. lia.
  - destruct ((m mod 10 =? 0) && negb (m =? 0)) eqn:Hz.
    + apply andb_true_iff in Hz. destruct Hz as [Hz _]. apply Z.eqb_eq in Hz.
      assert (Hdiv : m = 10 * (m / 10)) by (Z.div_mod_to_equations; lia).
      destruct (IH (m / 10) (e + 1) m' e' ltac:(lia) H) as (Hp & He & Hv).
      repeat split; [exact Hp | lia |].
      replace (e' - e) with (Z.succ (e' - (e + 1))) by lia.
      rewrite Z.pow_succ_r by lia. lia.
    + inversion H; subst. rewrite Z.sub_diag. cbn. lia.
Qed.

(** An integer that is a double reads as itself. *)
Lemma number_value_int (neg : bool) (a : Z) :
  0 <= a <= 2 ^ 53 ->
  number_value neg (to_uint (nat_chars (Z.to_N a))) Nil 0
  = JNum ((if neg then -1 else 1) * a).
Proof.
  intros Ha. unfold number_value. cbv zeta.
  destruct (to_uint_facts _ (digits_uint_chars (N.to_uint (Z.to_N a))))
    as (Hv & _ & _).
  fold (nat_chars (Z.to_N a)) in Hv.
  rewrite Hv, value_nat_chars, Z2N.id by lia.
  cbn [Decimal.nb_digits Z.of_nat N.of_uint Pos.of_uint Z.of_N].
  rewrite Z.pow_0_r, Z.mul_1_r, Z.add_0_r, Z.sub_0_r.
  destruct (Z.eqb_spec a 0) as [-> | Hnz]; [f_equal; lia |].
  destruct (strip a 0) as [m' e'] eqn:Hs. unfold strip in Hs.
  destruct (strip_zeros_value _ a 0 m' e' ltac:(lia) Hs) as (Hp & He & Hval).
  rewrite Z.sub_0_r in Hval.
  assert (Hpow : 0 < 10 ^ e') by (apply Z.pow_pos_nonneg; lia).
  assert (He15 : e' <= 15).
  { destruct (Z.le_gt_cases e' 15) as [H | H]; [exact H | exfalso].
    assert (10 ^ 16 <= 10 ^ e') by (apply Z.pow_le_mono_r; lia).
    assert (2 ^ 53 < 10 ^ 16) by reflexivity.
    nia. }
  unfold number_of, small_decimal. cbv zeta.
  replace (0 <=? e') with true by lia.
  replace (e' <=? 15) with true by lia.
  replace (m' * 10 ^ e' <=? 2 ^ 53) with true by lia.
  cbn [andb]. rewrite <- Hval. reflexivity.
Qed.

Lemma nat_chars_head (a : Z) :
  0 < a ->
  exists c r, nat_chars (Z.to_N a) = c :: r /\ is_digit c = true /\ c <> 48.
Proof.
  intros Ha. unfold nat_chars.
  destruct (Z.to_N a) as [| p] eqn:E; [lia |].
  change (N.to_uint (Npos p)) with (Pos.to_uint p).
  pose proof (DecimalPos.Unsigned.to_uint_nonnil p) as Hnn.
  pose proof (to_uint_head p) as Hhead.
  destruct (Pos.to_uint p) as [| d | d | d | d | d | d | d | d | d | d];
    [congruence | exfalso; apply (Hhead d); reflexivity | ..];
    cbn [uint_chars]; eexists; eexists;
    (split; [reflexivity | split; [reflexivity | discriminate]]).
Qed.

Lemma parse_number_int (z : Z) (rest : jsstring) :
  Z.abs z <= 2 ^ 53 -> ends_number rest ->
  parse_number (int_chars z ++ rest) = Some (JNum z, rest).
Proof.
  intros Hz Hrest.
  assert (Hread : forall (neg : bool) (a : Z),
             0 <= a <= 2 ^ 53 ->
             parse_unsigned neg (nat_chars (Z.to_N a) ++ rest)
             = Some (JNum ((if neg then -1 else 1) * a), rest)).
  { intros neg a Ha.
    pose proof (parse_unsigned_numeral neg (nat_chars (Z.to_N a)) [] None rest) as H.
    cbn [fraction_text exponent_text List.app] in H.
    change (to_uint []) with Nil in H.
    rewrite H; [rewrite (number_value_int neg a Ha); reflexivity | ..].
    - apply digits_uint_chars.
    - unfold nat_chars. destruct (N.to_uint (Z.to_N a)) eqn:E;
        try discriminate. exfalso. exact (N_to_uint_nonnil _ E).
    - intros r Hr.
      destruct (Z.eq_dec a 0) as [-> | Hnz]; [inversion Hr; reflexivity |].
      destruct (nat_chars_head a ltac:(lia)) as (c & r' & Hc & _ & H48).
      rewrite Hc in Hr. inversion Hr. congruence.
    - constructor.
    - exact Hrest. }
  destruct z as [| p | p].
  - exact (Hread false 0 ltac:(cbn; lia)).
  - pose proof (Hread false (Zpos p) ltac:(lia)) as H.
    change (Z.to_N (Zpos p)) with (Npos p) in H.
    destruct (nat_chars_head (Zpos p) ltac:(lia)) as (c & r & Hc & Hd & _).
    change (Z.to_N (Zpos p)) with (Npos p) in Hc.
    cbn [int_chars]. rewrite Hc in *. cbn [List.app parse_number] in *.
    unfold is_digit in Hd. replace (c =? 45) with false by lia.
    exact H.
  - pose proof (Hread true (Zpos p) ltac:(lia)) as H.
    change (Z.to_N (Zpos p)) with (Npos p) in H.
    cbn [int_chars List.app parse_number]. cbn [Z.eqb Pos.eqb].
    exact H.
Qed.

(** What Number::toString writes for the shortest decimal [m * 10^e] is read
    as the double nearest to that decimal. *)
Lemma parse_number_dec (m e : Z) (rest : jsstring) :
  m <> 0 -> m mod 10 <> 0 -> ends_number rest ->
  parse_number (dec_chars m e ++ rest)
  = Some (number_of (m <? 0) (Z.abs m) e, rest).
Proof.
  intros Hm Hmod Hrest.
  assert (Ha : 0 < Z.abs m) by lia.
  assert (Hamod : Z.abs m mod 10 <> 0) by (Z.div_mod_to_equations; lia).
  destruct (nat_chars_head (Z.abs m) Ha) as (c & r & Hchars & Hc & Hc48).
  pose proof (digits_uint_chars (N.to_uint (Z.to_N (Z.abs m)))) as Hdigits.
  fold (nat_chars (Z.to_N (Z.abs m))) in Hdigits.
  pose proof (value_nat_chars (Z.to_N (Z.abs m))) as Hvalue.
  rewrite Z2N.id in Hvalue by lia.
  (* the sign *)
  assert (Hsign : forall body : jsstring,
             (exists c' r', body = c' :: r' /\ is_digit c' = true) ->
             parse_number (((if m <? 0 then [45] else []) ++ body) ++ rest)
             = parse_unsigned (m <? 0) (body ++ rest)).
  { intros body (c' & r' & -> & Hc').
    destruct (m <? 0); [reflexivity |].
    cbn [List.app parse_number]. unfold is_digit in Hc'.
    replace (c' =? 45) with false by lia. reflexivity. }
  (* how a numeral in three parts is read *)
  assert (Hparts : forall (ip fp : jsstring) (x : option Z) (j : nat),
             digits_only ip -> ip <> [] -> (forall r', ip = 48 :: r' -> r' = []) ->
             digits_only fp ->
             value (ip ++ fp) = Z.abs m * 10 ^ Z.of_nat j ->
             match x with Some x => x | None => 0 end
               - Z.of_nat (List.length fp) + Z.of_nat j = e ->
             parse_unsigned (m <? 0)
               ((ip ++ fraction_text fp ++ exponent_text x) ++ rest)
             = Some (number_of (m <? 0) (Z.abs m) e, rest)).
  { intros ip fp x j Hip Hne Hzero Hfp Hv He.
    rewrite <- !app_assoc.
    rewrite (parse_unsigned_numeral _ ip fp x rest Hip Hne Hzero Hfp Hrest).
    rewrite (number_value_numeral _ ip fp _ (Z.abs m) e j Hip Hfp Ha Hamod Hv He).
    reflexivity. }
  unfold dec_chars.
  set (chars := nat_chars (Z.to_N (Z.abs m))) in *.
  set (k := Z.of_nat (List.length chars)).
  assert (Hk : 0 < k) by (subst k; rewrite Hchars; cbn [List.length]; lia).
  destruct ((k <=? e + k) && (e + k <=? 21)) eqn:C1.
  { (* the digits and zeros *)
    rewrite Hsign by (exists c, (r ++ repeat 48 (Z.to_nat (e + k - k)));
                      rewrite Hchars; split; [reflexivity | exact Hc]).
    replace (e + k - k) with e by lia.
    pose proof (Hparts (chars ++ repeat 48 (Z.to_nat e)) [] None (Z.to_nat e)) as H.
    cbn [fraction_text exponent_text] in H. rewrite !app_nil_r in H.
    apply H.
    - apply digits_app; [exact Hdigits | apply digits_repeat].
    - rewrite Hchars. discriminate.
    - rewrite Hchars. intros r' Hr. inversion Hr. congruence.
    - constructor.
    - rewrite value_app, value_zeros, repeat_length, Hvalue. lia.
    - cbn [List.length]. lia. }
  destruct ((0 <? e + k) && (e + k <=? 21)) eqn:C2.
  { (* a point inside the digits *)
    assert (Hn : 0 < e + k < k) by lia.
    set (n := Z.to_nat (e + k)).
    assert (Hlen : (0 < n < List.length chars)%nat) by (subst n k; lia).
    assert (En : Z.of_nat n = e + k) by (subst n; lia).
    clearbody n.
    pose proof (firstn_skipn n chars) as Hsplit.
    assert (Hboth : digits_only (firstn n chars) /\ digits_only (skipn n chars)).
    { apply Forall_app. rewrite Hsplit. exact Hdigits. }
    destruct Hboth as [Hfirst Hskip].
    assert (Hfp : skipn n chars <> []).
    { intros E. apply (f_equal (@List.length Z)) in E.
      rewrite length_skipn in E. cbn in E. lia. }
    assert (Hhead : exists t, firstn n chars = c :: t).
    { rewrite Hchars. destruct n as [| n']; [lia |].
      cbn [firstn]. eauto. }
    destruct Hhead as [t Ht].
    rewrite Hsign by (exists c, (t ++ 46 :: skipn n chars);
                      rewrite Ht; split; [reflexivity | exact Hc]).
    pose proof (Hparts (firstn n chars) (skipn n chars) None O) as H.
    cbn [exponent_text] in H. rewrite app_nil_r in H.
    assert (Hft : fraction_text (skipn n chars) = 46 :: skipn n chars)
      by (destruct (skipn n chars); [congruence | reflexivity]).
    rewrite Hft in H. apply H.
    - exact Hfirst.
    - rewrite Ht. discriminate.
    - rewrite Ht. intros r' Hr. inversion Hr. congruence.
    - exact Hskip.
    - rewrite Hsplit, Hvalue. cbn. lia.
    - rewrite length_skipn. subst k. lia. }
  destruct ((-6 <? e + k) && (e + k <=? 0)) eqn:C3.
  { (* zeros in front of the digits *)
    rewrite Hsign by (exists 48, (46 :: repeat 48 (Z.to_nat (- (e + k))) ++ chars);
                      split; reflexivity).
    pose proof (Hparts [48] (repeat 48 (Z.to_nat (- (e + k))) ++ chars) None O) as H.
    cbn [exponent_text] in H. rewrite app_nil_r in H.
    assert (Hft : fraction_text (repeat 48 (Z.to_nat (- (e + k))) ++ chars)
                  = 46 :: repeat 48 (Z.to_nat (- (e + k))) ++ chars).
    { destruct (repeat 48 (Z.to_nat (- (e + k))) ++ chars) eqn:E; [| reflexivity].
      apply app_eq_nil in E. destruct E as [_ E]. rewrite Hchars in E. discriminate. }
    rewrite Hft in H. apply H.
    - repeat constructor.
    - discriminate.
    - intros r' Hr. inversion Hr. reflexivity.
    - apply digits_app; [apply digits_repeat | exact Hdigits].
    - rewrite !value_app, value_zeros, Hvalue. cbn [value List.length]. lia.
    - rewrite length_app, repeat_length. subst k. lia. }
  (* the exponent form *)
  assert (Hbody : match chars with
                  | [] => []
                  | [d] => [d]
                  | d :: (_ :: _) as more => d :: 46 :: more
                  end = [c] ++ fraction_text r).
  { rewrite Hchars. destruct r; reflexivity. }
  cbv zeta. rewrite Hbody.
  change (101 :: (if e + k - 1 <? 0 then 45 else 43)
          :: nat_chars (Z.to_N (Z.abs (e + k - 1))))
    with (exponent_text (Some (e + k - 1))).
  rewrite Hsign by (exists c, (fraction_text r ++ exponent_text (Some (e + k - 1)));
                    split; [reflexivity | exact Hc]).
  rewrite <- (app_assoc [c] (fraction_text r)).
  apply (Hparts [c] r (Some (e + k - 1)) O).
  - repeat constructor. exact Hc.
  - discriminate.
  - intros r' Hr. inversion Hr. congruence.
  - rewrite Hchars in Hdigits. inversion Hdigits. assumption.
  - change ([c] ++ r) with (c :: r). rewrite <- Hchars, Hvalue. cbn. lia.
  - subst k. rewrite Hchars. cbn [List.length]. lia.
Qed.

(** The digits that Number::toString takes for a double read back as the
    double. *)
Lemma shortest_from_rounds (fuel : nat) :
  forall M E t s t' : Z,
    shortest_from fuel M E t = (s, t') -> s <> 0 -> rounds_to s t' M E = true.
Proof.
  induction fuel as [| f IH]; intros M E t s t' H Hs; cbn [shortest_from] in H.
  - inversion H; subst. congruence.
  - cbv zeta in H.
    match type of H with
    | context [(0 <? ?lo) && rounds_to ?lo t M E] =>
        destruct ((0 <? lo) && rounds_to lo t M E) eqn:Hlo;
        [apply andb_true_iff in Hlo; destruct Hlo as [_ Hlo] |]
    end;
    match type of H with
    | context [rounds_to (?lo + 1) t M E] =>
        destruct (rounds_to (lo + 1) t M E) eqn:Hhi
    end;
    cbn [andb] in H.
    + match type of H with
      | (if ?b then _ else _, _) = _ => destruct b
      end; inversion H; subst; assumption.
    + inversion H; subst; assumption.
    + inversion H; subst; assumption.
    + exact (IH _ _ _ _ _ H Hs).
Qed.

Lemma rounds_to_nearest (m e M E : Z) :
  rounds_to m e M E = true -> nearest_double m e = RFinite M E.
Proof.
  unfold rounds_to. destruct (nearest_double m e) as [| M' E' |]; try discriminate.
  intros H. apply andb_true_iff in H. destruct H as [HM HE].
  apply Z.eqb_eq in HM, HE. subst. reflexivity.
Qed.

Lemma double_reads_back (m e : Z) :
  json_ok (JDec m e) -> number_of (m <? 0) (Z.abs m) e = JDec m e.
Proof.
  intros (Hm & _ & Hsmall & M & E & Hint & Hshort).
  unfold number_of. rewrite Hsmall.
  rewrite (rounds_to_nearest (Z.abs m) e M E).
  - rewrite Hint, Hshort. f_equal. destruct (Z.ltb_spec m 0); lia.
  - unfold shortest in Hshort.
    apply (shortest_from_rounds _ _ _ _ _ _ Hshort). lia.
Qed.

(** The text of a number starts with a digit or a minus sign, is not
    empty, and is made of ASCII characters. *)
Lemma nat_chars_digit (n : N) :
  exists c r, nat_chars n = c :: r /\ is_digit c = true.
Proof.
  pose proof (digits_uint_chars (N.to_uint n)) as Hd.
  pose proof (N_to_uint_nonnil n) as Hnn.
  unfold nat_chars. destruct (N.to_uint n) eqn:E; try congruence;
    cbn [uint_chars] in *; inversion Hd; subst; eauto.
Qed.

Lemma dec_chars_head (m e : Z) :
  exists c r, dec_chars m e = c :: r /\ (is_digit c = true \/ c = 45).
Proof.
  unfold dec_chars.
  destruct (nat_chars_digit (Z.to_N (Z.abs m))) as (c & r & Hchars & Hc).
  rewrite Hchars.
  destruct (m <? 0); [eexists; eexists; split; [reflexivity | right; reflexivity] |].
  cbn [List.app]. set (k := Z.of_nat (List.length (c :: r))).
  destruct ((k <=? e + k) && (e + k <=? 21)).
  { eexists; eexists; split; [reflexivity | left; exact Hc]. }
  destruct ((0 <? e + k) && (e + k <=? 21)) eqn:C2.
  { destruct (Z.to_nat (e + k)) eqn:En; [lia |].
    cbn [firstn List.app]. eexists; eexists; split; [reflexivity | left; exact Hc]. }
  destruct ((-6 <? e + k) && (e + k <=? 0)).
  { eexists; eexists; split; [reflexivity | left; reflexivity]. }
  destruct r; cbn [List.app];
    eexists; eexists; (split; [reflexivity | left; exact Hc]).
Qed.

Lemma ascii_digits (s : jsstring) :
  digits_only s -> Forall (fun c => 0 <= c < 128) s.
Proof.
  intros H. eapply Forall_impl; [| exact H].
  intros c Hc. cbv beta in Hc. unfold is_digit in Hc. lia.
Qed.

Lemma ascii_dec_chars (m e : Z) : Forall (fun c => 0 <= c < 128) (dec_chars m e).
Proof.
  unfold dec_chars.
  pose proof (ascii_digits _ (digits_uint_chars (N.to_uint (Z.to_N (Z.abs m)))))
    as Hdigits.
  fold (nat_chars (Z.to_N (Z.abs m))) in Hdigits.
  set (chars := nat_chars (Z.to_N (Z.abs m))) in *.
  set (k := Z.of_nat (List.length chars)).
  assert (Hzeros : forall n, Forall (fun c => 0 <= c < 128) (repeat 48 n)).
  { intros n. apply ascii_digits, digits_repeat. }
  apply Forall_app. split; [destruct (m <? 0); repeat constructor; lia |].
  destruct ((k <=? e + k) && (e + k <=? 21)).
  { apply Forall_app. split; [exact Hdigits | apply Hzeros]. }
  destruct ((0 <? e + k) && (e + k <=? 21)).
  { rewrite <- (firstn_skipn (Z.to_nat (e + k)) chars) in Hdigits.
    apply Forall_app in Hdigits. destruct Hdigits as [H1 H2].
    apply Forall_app. split; [exact H1 |]. constructor; [lia | exact H2]. }
  destruct ((-6 <? e + k) && (e + k <=? 0)).
  { constructor; [lia |]. constructor; [lia |].
    apply Forall_app. split; [apply Hzeros | exact Hdigits]. }
  apply Forall_app. split.
  - destruct chars as [| d [| d' more]]; [constructor | exact Hdigits |].
    inversion Hdigits; subst. constructor; [assumption |].
    constructor; [lia | assumption].
  - constructor; [lia |]. constructor; [destruct (_ <? 0); lia |].
    apply ascii_digits, digits_uint_chars.
Qed.

End NumberFacts.

(** ** The codec: JSON strings *)

Module StringFacts.
Import Shapes.

Lemma hexval_hexchar (d : Z) : 0 <= d < 16 -> hexval (hexchar d) = Some d.
Proof.
  intros Hd. unfold hexchar, hexval.
  destruct (Z.ltb_spec d 10).
  - replace ((48 <=? 48 + d) && (48 + d <=? 57)) with true by lia. f_equal. lia.
  - replace ((48 <=? 87 + d) && (87 + d <=? 57)) with false by lia.
    replace ((97 <=? 87 + d) && (87 + d <=? 102)) with true by lia. f_equal. lia.
Qed.

Lemma unhex4_hex4 (c : Z) :
  0 <= c < 65536 ->
  unhex4 (hexchar (c / 4096)) (hexchar ((c / 256) mod 16))
         (hexchar ((c / 16) mod 16)) (hexchar (c mod 16)) = Some c.
Proof.
  intros Hc. unfold unhex4.
  rewrite !hexval_hexchar by (Z.div_mod_to_equations; lia).
  f_equal. Z.div_mod_to_equations; lia.
Qed.

Lemma parse_chars_uescape (c : Z) (tail : jsstring) :
  0 <= c < 65536 ->
  parse_chars (uescape c ++ tail) = after c (parse_chars tail).
Proof.
  intros Hc.
  change (parse_chars (uescape c ++ tail))
    with (match unhex4 (hexchar (c / 4096)) (hexchar ((c / 256) mod 16))
                       (hexchar ((c / 16) mod 16)) (hexchar (c mod 16)) with
          | Some u => after u (parse_chars tail)
          | None => None
          end).
  rewrite (unhex4_hex4 c Hc). reflexivity.
Qed.

Lemma parse_chars_literal (c : Z) (tail : jsstring) :
  32 <= c -> c <> 34 -> c <> 92 ->
  parse_chars (c :: tail) = after c (parse_chars tail).
Proof.
  intros H32 H34 H92. cbn [parse_chars].
  apply Z.eqb_neq in H34, H92. rewrite H34, H92.
  destruct (Z.ltb_spec c 32); [lia | reflexivity].
Qed.

Lemma parse_chars_quote_unit (c : Z) (tail : jsstring) :
  0 <= c < 65536 ->
  parse_chars (quote_unit c ++ tail) = after c (parse_chars tail).
Proof.
  intros Hc. unfold quote_unit.
  destruct (Z.eqb_spec c 8); [subst; reflexivity |].
  destruct (Z.eqb_spec c 9); [subst; reflexivity |].
  destruct (Z.eqb_spec c 10); [subst; reflexivity |].
  destruct (Z.eqb_spec c 12); [subst; reflexivity |].
  destruct (Z.eqb_spec c 13); [subst; reflexivity |].
  destruct (Z.eqb_spec c 34); [subst; reflexivity |].
  destruct (Z.eqb_spec c 92); [subst; reflexivity |].
  destruct (Z.ltb_spec c 32).
  - apply parse_chars_uescape. exact Hc.
  - apply parse_chars_literal; assumption.
Qed.

Lemma parse_chars_quote_bounded (n : nat) (rest : jsstring) :
  forall s : jsstring,
    (List.length s <= n)%nat -> units_ok s ->
    parse_chars (quote_units s ++ 34 :: rest) = Some (s, rest).
Proof.
  induction n as [| n IH]; intros s Hlen Hok.
  - destruct s; [reflexivity | simpl in Hlen; lia].
  - destruct s as [| c s']; [reflexivity |].
    inversion Hok as [| ? ? Hc Hs']; subst. unfold unit_ok in Hc.
    simpl List.length in Hlen.
    cbn [quote_units].
    destruct (is_high c) eqn:Hhigh.
    + destruct s' as [| d s''].
      * rewrite parse_chars_uescape by exact Hc. reflexivity.
      * inversion Hs' as [| ? ? Hd Hs'']; subst. unfold unit_ok in Hd.
        destruct (is_low d) eqn:Hlow.
        -- unfold is_high in Hhigh. unfold is_low in Hlow.
           rewrite <- !app_comm_cons.
           rewrite parse_chars_literal by lia.
           rewrite parse_chars_literal by lia.
           rewrite IH; [reflexivity | simpl in Hlen; lia | assumption].
        -- rewrite <- app_assoc.
           rewrite parse_chars_uescape by exact Hc.
           rewrite IH; [reflexivity | lia | assumption].
    + destruct (is_low c).
      * rewrite <- app_assoc.
        rewrite parse_chars_uescape by exact Hc.
        rewrite IH; [reflexivity | lia | assumption].
      * rewrite <- app_assoc.
        rewrite parse_chars_quote_unit by exact Hc.
        rewrite IH; [reflexivity | lia | assumption].
Qed.

Lemma parse_chars_quote (s rest : jsstring) :
  units_ok s -> parse_chars (quote_units s ++ 34 :: rest) = Some (s, rest).
Proof. apply (parse_chars_quote_bounded (List.length s)). lia. Qed.

End StringFacts.

(** ** The codec: JSON values *)

Module JsonFacts.
Import Shapes.
Import NumberFacts StringFacts.

(** Induction on JSON values, through arrays and objects. *)
Lemma json_induction (P : json -> Prop) :
  P JNull -> (forall b, P (JBool b)) -> (forall n, P (JNum n)) ->
  (forall m e, P (JDec m e)) -> (forall neg, P (JInf neg)) ->
  (forall s, P (JStr s)) ->
  (forall l, Forall P l -> P (JArr l)) ->
  (forall l, Forall (fun kv => P (snd kv)) l -> P (JObj l)) ->
  forall v, P v.
Proof.
  intros Hnull Hbool Hnum Hdec Hinf Hstr Harr Hobj.
  fix IH 1. intros [| b | n | m e | neg | s | l | l].
  - exact Hnull.
  - apply Hbool.
  - apply Hnum.
  - apply Hdec.
  - apply Hinf.
  - apply Hstr.
  - apply Harr. induction l as [| x l IHl]; constructor; [apply IH | exact IHl].
  - apply Hobj. induction l as [| [k x] l IHl]; constructor; [apply IH | exact IHl].
Qed.

Lemma stringify_arr (l : list json) :
  JSON_stringify (JArr l) = 91 :: elements l ++ [93].
Proof. reflexivity. Qed.

Lemma stringify_obj (l : list (jsstring * json)) :
  JSON_stringify (JObj l) = 123 :: members l ++ [125].
Proof. reflexivity. Qed.

Lemma size_arr (l : list json) : size (JArr l) = S (sizes l).
Proof. reflexivity. Qed.

Lemma size_obj (l : list (jsstring * json)) : size (JObj l) = S (member_sizes l).
Proof. reflexivity. Qed.

Lemma json_ok_arr (l : list json) : json_ok (JArr l) <-> Forall json_ok l.
Proof.
  induction l as [| x l IH].
  - split; [constructor | intros _; exact I].
  - change (json_ok (JArr (x :: l))) with (json_ok x /\ json_ok (JArr l)).
    rewrite IH. split.
    + intros [Hx Hl]. constructor; assumption.
    + intros H. inversion H; subst. split; assumption.
Qed.

Lemma json_ok_members (l : list (jsstring * json)) :
  (fix all (l : list (jsstring * json)) : Prop :=
     match l with
     | [] => True
     | (k, x) :: l' => units_ok k /\ json_ok x /\ all l'
     end) l
  <-> Forall (fun kv => units_ok (fst kv) /\ json_ok (snd kv)) l.
Proof.
  induction l as [| [k x] l IH].
  - split; [constructor | intros _; exact I].
  - rewrite IH. split.
    + intros (Hk & Hx & Hl). constructor; [split |]; assumption.
    + intros H. inversion H as [| ? ? [Hk Hx] Hl]; subst. repeat split; assumption.
Qed.

Lemma json_ok_obj (l : list (jsstring * json)) :
  json_ok (JObj l)
  <-> obj_of_entries l = l
      /\ Forall (fun kv => units_ok (fst kv) /\ json_ok (snd kv)) l.
Proof.
  change (json_ok (JObj l))
    with (obj_of_entries l = l /\
          (fix all (l : list (jsstring * json)) : Prop :=
             match l with
             | [] => True
             | (k, x) :: l' => units_ok k /\ json_ok x /\ all l'
             end) l).
  rewrite json_ok_members. reflexivity.
Qed.

Lemma ends_value_number (rest : jsstring) : ends_value rest -> ends_number rest.
Proof.
  destruct rest as [| c rest]; [trivial |].
  intros [-> | [-> | ->]]; repeat split; discriminate.
Qed.

Lemma starts_value_digits (p : positive) (rest : jsstring) :
  starts_value (uint_chars (Pos.to_uint p) ++ rest).
Proof.
  pose proof (DecimalPos.Unsigned.to_uint_nonnil p) as Hnn.
  destruct (Pos.to_uint p); try congruence;
    cbn [uint_chars List.app starts_value]; repeat split; discriminate.
Qed.

Lemma starts_value_stringify (v : json) (rest : jsstring) :
  json_ok v -> starts_value (JSON_stringify v ++ rest).
Proof.
  destruct v as [| [] | [| p | p] | m e | neg | s | l | l]; intros Hok;
    try (cbn [JSON_stringify lit List.app starts_value map list_ascii_of_string];
         cbn; repeat split; discriminate).
  - apply starts_value_digits.
  - destruct Hok as (Hm & _).
    destruct (dec_chars_head m e) as (c & r & Hc & Hd).
    change (JSON_stringify (JDec m e)) with (dec_chars m e). rewrite Hc.
    cbn [List.app starts_value]. unfold is_ws, is_digit in *.
    repeat split; lia.
Qed.

Lemma skip_ws_start (s : jsstring) : starts_value s -> skip_ws s = s.
Proof.
  destruct s as [| c s]; [contradiction |].
  intros [Hws _]. cbn [skip_ws]. rewrite Hws. reflexivity.
Qed.

Lemma parse_value_open_arr (f : nat) (s : jsstring) :
  parse_value (S f) (91 :: s)
  = match skip_ws s with
    | c2 :: s2 => if c2 =? 93 then Some (JArr [], s2) else parse_elements f [] (c2 :: s2)
    | [] => None
    end.
Proof. reflexivity. Qed.

Lemma parse_value_open_obj (f : nat) (s : jsstring) :
  parse_value (S f) (123 :: s)
  = match skip_ws s with
    | c2 :: s2 => if c2 =? 125 then Some (JObj [], s2) else parse_members f [] (c2 :: s2)
    | [] => None
    end.
Proof. reflexivity. Qed.

Lemma parse_value_quote (f : nat) (s : jsstring) :
  parse_value (S f) (34 :: s)
  = match parse_chars s with
    | Some (str, rest) => Some (JStr str, rest)
    | None => None
    end.
Proof. reflexivity. Qed.

Lemma parse_value_numeral (f : nat) (c : Z) (s : jsstring) :
  is_digit c = true \/ c = 45 ->
  parse_value (S f) (c :: s) = parse_number (c :: s).
Proof.
  intros Hc. cbn [parse_value skip_ws].
  assert (Hr : (48 <= c <= 57) \/ c = 45) by (unfold is_digit in Hc; lia).
  unfold is_ws.
  replace ((c =? 9) || (c =? 10) || (c =? 13) || (c =? 32)) with false by lia.
  replace (c =? 123) with false by lia. replace (c =? 91) with false by lia.
  replace (c =? 34) with false by lia. replace (c =? 116) with false by lia.
  replace (c =? 102) with false by lia. replace (c =? 110) with false by lia.
  reflexivity.
Qed.

Lemma parse_value_int (f : nat) (z : Z) (rest : jsstring) :
  Z.abs z <= 2 ^ 53 -> ends_number rest ->
  parse_value (S f) (int_chars z ++ rest) = Some (JNum z, rest).
Proof.
  intros Hz Hrest. rewrite <- (parse_number_int z rest Hz Hrest).
  destruct z as [| p | p].
  - apply parse_value_numeral. left. reflexivity.
  - unfold int_chars, nat_chars. change (N.to_uint (Npos p)) with (Pos.to_uint p).
    pose proof (DecimalPos.Unsigned.to_uint_nonnil p) as Hnn.
    destruct (Pos.to_uint p); try congruence; cbn [uint_chars List.app];
      apply parse_value_numeral; left; reflexivity.
  - apply parse_value_numeral. right. reflexivity.
Qed.

Lemma parse_value_dec (f : nat) (m e : Z) (rest : jsstring) :
  json_ok (JDec m e) -> ends_number rest ->
  parse_value (S f) (dec_chars m e ++ rest) = Some (JDec m e, rest).
Proof.
  intros Hok Hrest.
  pose proof (double_reads_back m e Hok) as Hread.
  destruct Hok as (Hm & Hmod & _).
  rewrite <- Hread. rewrite <- (parse_number_dec m e rest Hm Hmod Hrest).
  destruct (dec_chars_head m e) as (c & r & Hc & Hd).
  rewrite Hc. cbn [List.app]. apply parse_value_numeral. exact Hd.
Qed.

Lemma parse_elements_stringify (rest : jsstring) (l : list json) :
  l <> [] -> Forall reads_back l -> Forall json_ok l ->
  forall (acc : list json) (fuel : nat),
    (sizes l <= fuel)%nat ->
    parse_elements fuel acc (elements l ++ 93 :: rest) = Some (JArr (acc ++ l), rest).
Proof.
  induction l as [| x l IH]; intros Hne Hback Hok acc fuel Hfuel; [congruence |].
  inversion Hback as [| ? ? Hx Hl]; subst. inversion Hok as [| ? ? Hokx Hokl]; subst.
  cbn [sizes] in Hfuel. destruct fuel as [| f]; [lia |].
  cbn [parse_elements].
  destruct l as [| y l'].
  - cbn [elements]. rewrite app_nil_r.
    rewrite (Hx Hokx f (93 :: rest)); [| lia | right; left; reflexivity].
    reflexivity.
  - change (elements (x :: y :: l'))
      with (JSON_stringify x ++ 44 :: elements (y :: l')).
    rewrite <- app_assoc, <- app_comm_cons.
    rewrite (Hx Hokx f (44 :: elements (y :: l') ++ 93 :: rest));
      [| lia | left; reflexivity].
    change (skip_ws (44 :: elements (y :: l') ++ 93 :: rest))
      with (44 :: elements (y :: l') ++ 93 :: rest).
    cbv iota. change (44 =? 44) with true. cbv iota.
    rewrite (IH ltac:(discriminate) Hl Hokl (acc ++ [x]) f ltac:(lia)).
    rewrite <- app_assoc. reflexivity.
Qed.

Lemma parse_members_stringify (rest : jsstring) (l : list (jsstring * json)) :
  l <> [] ->
  Forall (fun kv => reads_back (snd kv)) l ->
  Forall (fun kv => units_ok (fst kv) /\ json_ok (snd kv)) l ->
  forall (acc : list (jsstring * json)) (fuel : nat),
    (member_sizes l <= fuel)%nat ->
    parse_members fuel acc (members l ++ 125 :: rest)
    = Some (JObj (fold_left (fun o kv => obj_set (fst kv) (snd kv) o) l acc), rest).
Proof.
  induction l as [| [k x] l IH]; intros Hne Hback Hok acc fuel Hfuel; [congruence |].
  inversion Hback as [| ? ? Hx Hl]; subst.
  inversion Hok as [| ? ? [Hokk Hokx] Hokl]; subst.
  cbn [fst snd] in *.
  cbn [member_sizes] in Hfuel. destruct fuel as [| f]; [lia |].
  assert (Hkey : forall tail,
             parse_members (S f) acc (QuoteJSONString k ++ 58 :: tail)
             = match parse_value f tail with
               | Some (v, rest0) =>
                   match skip_ws rest0 with
                   | c3 :: rest' =>
                       if c3 =? 44 then parse_members f (obj_set k v acc) rest'
                       else if c3 =? 125 then Some (JObj (obj_set k v acc), rest')
                       else None
                   | [] => None
                   end
               | None => None
               end).
  { intros tail. unfold QuoteJSONString.
    rewrite <- app_comm_cons, <- app_assoc.
    cbn [parse_members skip_ws]. change (is_ws 34) with false. cbv iota.
    change (34 =? 34) with true. cbv iota.
    change ([34] ++ 58 :: tail) with (34 :: 58 :: tail).
    rewrite (parse_chars_quote k (58 :: tail) Hokk).
    reflexivity. }
  destruct l as [| [k' y] l'].
  - cbn [members]. rewrite app_nil_r. rewrite <- app_assoc, <- app_comm_cons.
    rewrite Hkey.
    rewrite (Hx Hokx f (125 :: rest)); [| lia | right; right; reflexivity].
    reflexivity.
  - change (members ((k, x) :: (k', y) :: l'))
      with (QuoteJSONString k ++ 58 :: JSON_stringify x ++ 44 :: members ((k', y) :: l')).
    rewrite <- app_assoc, <- app_comm_cons, <- app_assoc, <- app_comm_cons.
    rewrite Hkey.
    rewrite (Hx Hokx f (44 :: members ((k', y) :: l') ++ 125 :: rest));
      [| lia | left; reflexivity].
    change (skip_ws (44 :: members ((k', y) :: l') ++ 125 :: rest))
      with (44 :: members ((k', y) :: l') ++ 125 :: rest).
    cbv iota. change (44 =? 44) with true. cbv iota.
    rewrite (IH ltac:(discriminate) Hl Hokl (obj_set k x acc) f ltac:(lia)).
    reflexivity.
Qed.

Lemma head_of_start (s : jsstring) :
  starts_value s -> exists c2 s2, s = c2 :: s2 /\ c2 <> 93 /\ c2 <> 125.
Proof.
  destruct s as [| c s]; [contradiction |]. intros (_ & H1 & H2). eauto.
Qed.

(** The text of a value, followed by what may follow a value, is read back
    as the value. *)
Lemma parse_stringify (v : json) : reads_back v.
Proof.
  induction v as [| b | n | m e | neg | s | l IH | l IH] using json_induction;
    intros Hok fuel rest Hfuel Hrest;
    (destruct fuel as [| f]; [cbn in Hfuel; lia |]).
  - reflexivity.
  - destruct b; reflexivity.
  - apply parse_value_int; [exact Hok | apply ends_value_number; exact Hrest].
  - apply parse_value_dec; [exact Hok | apply ends_value_number; exact Hrest].
  - contradiction.
  - change (JSON_stringify (JStr s) ++ rest)
      with (34 :: (quote_units s ++ [34]) ++ rest).
    rewrite parse_value_quote. rewrite <- app_assoc.
    change ([34] ++ rest) with (34 :: rest).
    rewrite (parse_chars_quote s rest Hok). reflexivity.
  - rewrite stringify_arr. rewrite <- app_comm_cons, <- app_assoc.
    change ([93] ++ rest) with (93 :: rest).
    rewrite parse_value_open_arr.
    rewrite size_arr in Hfuel.
    apply json_ok_arr in Hok.
    destruct l as [| x l'].
    + reflexivity.
    + assert (Hstart : starts_value (elements (x :: l') ++ 93 :: rest)).
      { cbn [elements]. rewrite <- app_assoc. apply starts_value_stringify.
        inversion Hok; assumption. }
      rewrite (skip_ws_start _ Hstart).
      destruct (head_of_start _ Hstart) as (c2 & s2 & E & H93 & _).
      rewrite E. apply Z.eqb_neq in H93. rewrite H93. rewrite <- E.
      apply (parse_elements_stringify rest (x :: l') ltac:(discriminate) IH Hok []).
      lia.
  - rewrite stringify_obj. rewrite <- app_comm_cons, <- app_assoc.
    change ([125] ++ rest) with (125 :: rest).
    rewrite parse_value_open_obj.
    rewrite size_obj in Hfuel.
    apply json_ok_obj in Hok. destruct Hok as [Hcanon Hok].
    destruct l as [| [k x] l'].
    + reflexivity.
    + assert (Hstart : starts_value (members ((k, x) :: l') ++ 125 :: rest)).
      { cbn [members]. unfold QuoteJSONString. cbn. repeat split; discriminate. }
      rewrite (skip_ws_start _ Hstart).
      destruct (head_of_start _ Hstart) as (c2 & s2 & E & _ & H125).
      rewrite E. apply Z.eqb_neq in H125. rewrite H125. rewrite <- E.
      rewrite (parse_members_stringify rest ((k, x) :: l') ltac:(discriminate) IH Hok []);
        [| lia].
      unfold obj_of_entries in Hcanon. rewrite Hcanon. reflexivity.
Qed.

End JsonFacts.

(** ** The codec: the text JSON.stringify writes *)

Module TextFacts.
Import Shapes.
Import JsonFacts.

Lemma well_formed_app_bounded (n : nat) (b : jsstring) :
  well_formed b = true ->
  forall a, (List.length a <= n)%nat -> well_formed a = true ->
            well_formed (a ++ b) = true.
Proof.
  intros Hb. induction n as [| n IH]; intros a Hlen Ha.
  - destruct a; [exact Hb | simpl in Hlen; lia].
  - destruct a as [| c a]; [exact Hb |].
    simpl List.length in Hlen.
    cbn [well_formed List.app] in *.
    destruct (is_high c).
    + destruct a as [| d a]; [discriminate |].
      cbn [List.app]. apply andb_true_iff in Ha. destruct Ha as [Hd Ha].
      rewrite Hd. cbn [andb]. apply IH; [simpl in Hlen; lia | exact Ha].
    + apply andb_true_iff in Ha. destruct Ha as [Hc Ha].
      rewrite Hc. cbn [andb]. apply IH; [lia | exact Ha].
Qed.

Lemma clean_app (a b : jsstring) : clean a -> clean b -> clean (a ++ b).
Proof.
  intros [Ha1 Ha2] [Hb1 Hb2]. split.
  - apply Forall_app. split; assumption.
  - apply (well_formed_app_bounded (List.length a)); auto.
Qed.

Lemma clean_ascii (s : jsstring) : ascii s -> clean s.
Proof.
  induction 1 as [| c s Hc _ [IH1 IH2]]; [split; [constructor | reflexivity] |].
  split.
  - constructor; [unfold unit_ok; lia | exact IH1].
  - cbn [well_formed]. unfold is_high, is_low.
    replace ((55296 <=? c) && (c <=? 56319)) with false by lia.
    replace ((56320 <=? c) && (c <=? 57343)) with false by lia.
    exact IH2.
Qed.

Lemma clean_cons (c : Z) (s : jsstring) : 0 <= c < 128 -> clean s -> clean (c :: s).
Proof.
  intros Hc Hs. change (c :: s) with ([c] ++ s).
  apply clean_app; [apply clean_ascii; repeat constructor; lia | exact Hs].
Qed.

Lemma ascii_uint_chars (d : Decimal.uint) : ascii (uint_chars d).
Proof. induction d; cbn [uint_chars]; constructor; try lia; assumption. Qed.

Lemma ascii_int_chars (z : Z) : ascii (int_chars z).
Proof.
  destruct z; cbn [int_chars]; unfold nat_chars.
  - repeat constructor; lia.
  - apply ascii_uint_chars.
  - constructor; [lia | apply ascii_uint_chars].
Qed.

Lemma ascii_hexchar (d : Z) : 0 <= d < 16 -> 0 <= hexchar d < 128.
Proof. intros Hd. unfold hexchar. destruct (d <? 10); lia. Qed.

Lemma ascii_uescape (c : Z) : 0 <= c < 65536 -> ascii (uescape c).
Proof.
  intros Hc. unfold uescape, hex4.
  repeat constructor; try lia; apply ascii_hexchar; Z.div_mod_to_equations; lia.
Qed.

Lemma clean_quote_unit (c : Z) :
  0 <= c < 65536 -> is_high c = false -> is_low c = false -> clean (quote_unit c).
Proof.
  intros Hc Hh Hl. unfold quote_unit.
  repeat match goal with
         | |- context [if ?t then _ else _] =>
             destruct t; [apply clean_ascii; repeat constructor; lia |]
         end.
  destruct (c <? 32).
  - apply clean_ascii, ascii_uescape. exact Hc.
  - split.
    + constructor; [exact Hc | constructor].
    + cbn [well_formed]. rewrite Hh, Hl. reflexivity.
Qed.

Lemma clean_quote_units_bounded (n : nat) :
  forall s, (List.length s <= n)%nat -> units_ok s -> clean (quote_units s).
Proof.
  induction n as [| n IH]; intros s Hlen Hok.
  - destruct s; [split; [constructor | reflexivity] | simpl in Hlen; lia].
  - destruct s as [| c s']; [split; [constructor | reflexivity] |].
    inversion Hok as [| ? ? Hc Hs']; subst. unfold unit_ok in Hc.
    simpl List.length in Hlen. cbn [quote_units].
    destruct (is_high c) eqn:Hhigh.
    + destruct s' as [| d s''].
      * apply clean_ascii, ascii_uescape. exact Hc.
      * inversion Hs' as [| ? ? Hd Hs'']; subst.
        destruct (is_low d) eqn:Hlow.
        -- destruct (IH s'' ltac:(simpl in Hlen; lia) Hs'') as [I1 I2].
           split.
           ++ repeat (constructor; [assumption |]). exact I1.
           ++ cbn [well_formed]. rewrite Hhigh, Hlow. exact I2.
        -- apply clean_app; [apply clean_ascii, ascii_uescape; exact Hc |].
           apply IH; [lia | assumption].
    + destruct (is_low c) eqn:Hlow.
      * apply clean_app; [apply clean_ascii, ascii_uescape; exact Hc |].
        apply IH; [lia | assumption].
      * apply clean_app; [apply clean_quote_unit; assumption |].
        apply IH; [lia | assumption].
Qed.

Lemma clean_quote (s : jsstring) : units_ok s -> clean (QuoteJSONString s).
Proof.
  intros Hok. unfold QuoteJSONString.
  apply clean_cons; [lia |].
  apply clean_app.
  - apply (clean_quote_units_bounded (List.length s)); [lia | exact Hok].
  - apply clean_ascii. repeat constructor; lia.
Qed.

Lemma clean_elements (l : list json) :
  Forall (fun x => clean (JSON_stringify x)) l -> clean (elements l).
Proof.
  induction 1 as [| x l Hx Hl IH]; [split; [constructor | reflexivity] |].
  cbn [elements]. apply clean_app; [exact Hx |].
  destruct l; [split; [constructor | reflexivity] |].
  apply clean_cons; [lia | exact IH].
Qed.

Lemma clean_members (l : list (jsstring * json)) :
  Forall (fun kv => units_ok (fst kv) /\ clean (JSON_stringify (snd kv))) l ->
  clean (members l).
Proof.
  induction 1 as [| [k x] l [Hk Hx] Hl IH]; [split; [constructor | reflexivity] |].
  cbn [members fst snd] in *.
  apply clean_app; [apply clean_quote; exact Hk |].
  apply clean_cons; [lia |].
  apply clean_app; [exact Hx |].
  destruct l; [split; [constructor | reflexivity] |].
  apply clean_cons; [lia | exact IH].
Qed.

(** JSON.stringify writes well-formed text. *)
Lemma clean_stringify (v : json) : json_ok v -> clean (JSON_stringify v).
Proof.
  induction v as [| b | n | m e | neg | s | l IH | l IH] using json_induction; intros Hok.
  - apply clean_ascii. repeat constructor; lia.
  - destruct b; apply clean_ascii; repeat constructor; lia.
  - apply clean_ascii, ascii_int_chars.
  - apply clean_ascii, NumberFacts.ascii_dec_chars.
  - contradiction.
  - apply clean_quote. exact Hok.
  - rewrite stringify_arr. apply json_ok_arr in Hok.
    apply clean_cons; [lia |].
    apply clean_app; [| apply clean_ascii; repeat constructor; lia].
    apply clean_elements.
    rewrite Forall_forall in *. intros x Hx. apply IH; [exact Hx | apply Hok; exact Hx].
  - rewrite stringify_obj. apply json_ok_obj in Hok. destruct Hok as [_ Hok].
    apply clean_cons; [lia |].
    apply clean_app; [| apply clean_ascii; repeat constructor; lia].
    apply clean_members.
    rewrite Forall_forall in *. intros kv Hkv. destruct (Hok kv Hkv) as [Hk Hx].
    split; [exact Hk | apply IH; assumption].
Qed.

(** The fuel of [JSON_parse] is enough for the text of a value. *)
Lemma length_int_chars (z : Z) : (1 <= List.length (int_chars z))%nat.
Proof.
  destruct z as [| p | p]; cbn [int_chars List.length]; try lia.
  unfold nat_chars. change (N.to_uint (Npos p)) with (Pos.to_uint p).
  pose proof (DecimalPos.Unsigned.to_uint_nonnil p) as Hnn.
  destruct (Pos.to_uint p); try congruence; cbn [uint_chars List.length]; lia.
Qed.

Lemma sizes_le (l : list json) :
  Forall (fun x => (size x <= 2 * List.length (JSON_stringify x))%nat) l ->
  (sizes l <= 2 * List.length (elements l) + 1)%nat.
Proof.
  induction 1 as [| x l Hx Hl IH]; [cbn; lia |].
  cbn [sizes elements]. rewrite length_app.
  destruct l; [cbn [sizes List.length] in *; lia |].
  cbn [List.length]. lia.
Qed.

Lemma member_sizes_le (l : list (jsstring * json)) :
  Forall (fun kv => (size (snd kv) <= 2 * List.length (JSON_stringify (snd kv)))%nat) l ->
  (member_sizes l <= 2 * List.length (members l) + 1)%nat.
Proof.
  induction 1 as [| [k x] l Hx Hl IH]; [cbn; lia |].
  cbn [member_sizes members snd] in *. rewrite length_app. cbn [List.length].
  rewrite length_app.
  destruct l; [cbn [member_sizes List.length] in *; lia |].
  cbn [List.length]. lia.
Qed.

Lemma size_le (v : json) :
  json_ok v -> (size v <= 2 * List.length (JSON_stringify v))%nat.
Proof.
  induction v as [| b | n | m e | neg | s | l IH | l IH] using json_induction; intros Hok.
  - vm_compute. lia.
  - destruct b; vm_compute; lia.
  - pose proof (length_int_chars n). cbn [size]. change (JSON_stringify (JNum n)) with (int_chars n). lia.
  - destruct Hok as (Hm & _).
    destruct (NumberFacts.dec_chars_head m e) as (c & r & Hc & _).
    cbn [size]. change (JSON_stringify (JDec m e)) with (dec_chars m e).
    rewrite Hc. cbn [List.length]. lia.
  - contradiction.
  - cbn [size]. change (JSON_stringify (JStr s)) with (34 :: quote_units s ++ [34]).
    cbn [List.length]. lia.
  - rewrite size_arr, stringify_arr. apply json_ok_arr in Hok.
    cbn [List.length]. rewrite length_app. cbn [List.length].
    assert (H : (sizes l <= 2 * List.length (elements l) + 1)%nat).
    { apply sizes_le. rewrite Forall_forall in *.
      intros x Hx. apply IH; [exact Hx | apply Hok; exact Hx]. }
    lia.
  - rewrite size_obj, stringify_obj. apply json_ok_obj in Hok. destruct Hok as [_ Hok].
    cbn [List.length]. rewrite length_app. cbn [List.length].
    assert (H : (member_sizes l <= 2 * List.length (members l) + 1)%nat).
    { apply member_sizes_le. rewrite Forall_forall in *.
      intros kv Hkv. apply IH; [exact Hkv | apply (Hok kv Hkv)]. }
    lia.
Qed.

(** [JSON.parse(JSON.stringify(v))] is [v]. *)
Lemma JSON_roundtrip (v : json) : json_ok v -> JSON_parse (JSON_stringify v) = Return v.
Proof.
  intros Hok. unfold JSON_parse.
  pose proof (size_le v Hok) as Hsize.
  pose proof (parse_stringify v Hok (2 * List.length (JSON_stringify v) + 2)%nat []
                ltac:(lia) I) as Hparse.
  rewrite app_nil_r in Hparse. rewrite Hparse. reflexivity.
Qed.

End TextFacts.

(** ** What a call yields of a stored item *)

Module ReadBackFacts.
Import LlmTaskInvoke ReuseVocabulary NumberFacts.

Lemma value_int_chars (a : Z) : 0 <= a -> value (int_chars a) = a.
Proof.
  intros Ha. destruct a as [| p | p]; [reflexivity | | lia].
  cbn [int_chars]. rewrite value_nat_chars. reflexivity.
Qed.

Lemma int_chars_inj (a b : Z) :
  0 <= a -> 0 <= b -> int_chars a = int_chars b -> a = b.
Proof.
  intros Ha Hb H. rewrite <- (value_int_chars a Ha), <- (value_int_chars b Hb), H.
  reflexivity.
Qed.

(** The entries of an array under their indices. *)
Lemma assoc_index_entries (xs : list json) :
  forall (i0 : Z) (k : jsstring) (v : json),
    0 <= i0 ->
    (assoc k (index_entries i0 xs) = Some v
     <-> exists i : nat, k = int_chars (i0 + Z.of_nat i) /\ nth_error xs i = Some v).
Proof.
  induction xs as [| x xs IH]; intros i0 k v Hi0.
  - cbn [index_entries assoc]. split; [discriminate |].
    intros (i & _ & H). destruct i; discriminate.
  - cbn [index_entries assoc].
    destruct (str_eqb k (int_chars i0)) eqn:E.
    + apply str_eqb_eq in E. subst k. split.
      * intros H. inversion H; subst. exists O. split; [f_equal; lia | reflexivity].
      * intros (i & Hk & Hn).
        apply int_chars_inj in Hk; [| lia | lia].
        assert (i = O) by lia. subst i. exact Hn.
    + rewrite (IH (i0 + 1) k v ltac:(lia)). split.
      * intros (i & Hk & Hn). exists (S i). split; [| exact Hn].
        rewrite Hk. f_equal. lia.
      * intros (i & Hk & Hn). destruct i as [| i].
        -- rewrite Z.add_0_r in Hk. subst k. rewrite str_eqb_refl in E. discriminate.
        -- exists i. split; [| exact Hn]. rewrite Hk. f_equal. lia.
Qed.

(** What the spread of a value holds is what [copied] says. *)
Lemma spread_copied (item : json) (k : jsstring) (v : json) :
  assoc k (spread item) = Some v <-> copied item k v.
Proof.
  destruct item as [| b | n | m e | neg | s | xs | l]; cbn [spread copied assoc];
    try (split; [discriminate | contradiction]).
  - rewrite (assoc_index_entries _ 0 k v ltac:(lia)). split.
    + intros (i & Hk & Hn). rewrite nth_error_map in Hn.
      destruct (nth_error s i) as [c |] eqn:Ec; [| discriminate].
      inversion Hn; subst. exists i, c. repeat split. exact Ec.
    + intros (i & c & Hk & Hn & Hv). exists i. split; [exact Hk |].
      rewrite nth_error_map, Hn, Hv. reflexivity.
  - rewrite (assoc_index_entries _ 0 k v ltac:(lia)). reflexivity.
  - reflexivity.
Qed.

Lemma from_store_read_back (source : string) (item : json) :
  read_back source item (from_store source item).
Proof.
  destruct (LlmFacts.from_store_fields source item) as (Hsource & Hcached & Hother).
  unfold read_back. split; [eexists; reflexivity |].
  split; [exact Hsource |]. split; [exact Hcached |].
  intros k v Hs Hc. rewrite (Hother k Hs Hc). apply spread_copied.
Qed.

Lemma map_from_store_read_back (source : string) (items : list json) :
  Forall2 (read_back source) items (map (from_store source) items).
Proof.
  induction items as [| item items IH]; cbn [map]; constructor;
    [apply from_store_read_back | exact IH].
Qed.

End ReadBackFacts.

(** ** C5: a run-state record is reused exactly when its cache key matches *)

Import ReuseVocabulary.

(** C5.  Take a call whose arguments pass the checks of [run] up to the
    derivation of the cache key ([configure]), with a state key and
    without refresh, and let [stored] be what the run-state store holds
    under that key.  If [stored] has [type: 'llm_task.invoke'], the freshly
    derived [cacheKey] and an [items] array, the call returns one item for
    each of those items, in their order: an object with
    [source: 'run_state'] and [cached: true] whose other properties are
    exactly those of the stored item.  It returns in the world the read of
    the store left: nothing is fetched, and nothing is written.  If the
    [cacheKey] of [stored] is not the derived one, the stored record is
    dropped: the call goes on with the cache look-up and the invocation as
    it would without it. *)
Theorem C5_run_state_reuse (platform : LlmTaskInvoke.Platform)
  (input : Stream) (args : json) (ctx : Ctx)
  (cfg : LlmTaskInvoke.Config) (key : jsstring) (stored : json)
  (w w1 w2 : World) :
  LlmTaskInvoke.configure input args ctx w = (Return cfg, w1) ->
  LlmTaskInvoke.stateKey cfg = Some key ->
  LlmTaskInvoke.forceRefresh cfg = false ->
  LlmTaskInvoke.readStateJson (LlmTaskInvoke.env cfg) key w1 = (Return stored, w2) ->
  (forall items : list json,
      get (lit "type") stored = Some (JStr (lit "llm_task.invoke")) ->
      get (lit "cacheKey") stored = Some (JStr (LlmTaskInvoke.cacheKey cfg)) ->
      get (lit "items") stored = Some (JArr items) ->
      exists reused : list json,
        LlmTaskInvoke.run input args ctx w
        = (Return (Some (mkStageResult (Some (asStream reused)) false false)), w2)
        /\ Forall2 (read_back "run_state") items reused)
  /\
  (get (lit "cacheKey") stored <> Some (JStr (LlmTaskInvoke.cacheKey cfg)) ->
   LlmTaskInvoke.run input args ctx w = LlmTaskInvoke.after_run_state args cfg w2).
Proof.
  intros Hcfg Hkey Hrefresh Hread.
  assert (Hrun : LlmTaskInvoke.run input args ctx w
                 = match LlmTaskInvoke.pickReusableState stored (LlmTaskInvoke.cacheKey cfg) with
                   | Some items =>
                       (Return (Some (mkStageResult
                          (Some (asStream (map (LlmTaskInvoke.from_store "run_state") items)))
                          false false)), w2)
                   | None => LlmTaskInvoke.after_run_state args cfg w2
                   end).
  { unfold LlmTaskInvoke.run. rewrite (bind_Return _ _ _ _ _ Hcfg).
    unfold LlmTaskInvoke.lookup_and_invoke. rewrite Hkey, Hrefresh. cbn [negb].
    rewrite (bind_Return _ _ _ w2 stored).
    - destruct (LlmTaskInvoke.pickReusableState stored (LlmTaskInvoke.cacheKey cfg));
        reflexivity.
    - apply try_catch_Return. exact Hread. }
  split.
  - intros items Ht Hk Hi.
    exists (map (LlmTaskInvoke.from_store "run_state") items). split.
    + rewrite Hrun, (LlmFacts.pickReusableState_match _ _ _ Ht Hk Hi). reflexivity.
    + apply ReadBackFacts.map_from_store_read_back.
  - intros Hk. rewrite Hrun, (LlmFacts.pickReusableState_mismatch _ _ Hk). reflexivity.
Qed.

(** ** C1: the round trip *)

(** C1.  For every JSON value [d] of JavaScript ([json_ok]: [null], the
    booleans, the finite numbers, integers and fractions alike, strings of
    any code units, arrays and objects; halt descriptors among them),
    decoding the token that encodes [d] returns [d]:
    [decodeToken(encodeToken(d))] throws nothing and loses nothing. *)
Theorem C1_token_round_trip (d : json) :
  json_ok d -> Token.decodeToken (Token.encodeToken d) = Return d.
Proof.
  intros Hok. unfold Token.decodeToken, Token.encodeToken.
  destruct (TextFacts.clean_stringify d Hok) as [Hunits Hwf].
  rewrite CodecFacts.base64url_roundtrip by (apply utf8_encode_bytes; exact Hunits).
  rewrite Utf8Facts.utf8_roundtrip by assumption.
  rewrite (TextFacts.JSON_roundtrip d Hok). reflexivity.
Qed.

(** ** C4: what decodeToken rejects *)

(** C4 (amended).  For every string, [decodeToken] ends in one of two ways.
    Either [JSON.parse] reads a value from the text that the base64url
    decoding and the UTF-8 decoding of the token give, and [decodeToken]
    returns that whole value; or [JSON.parse] throws, and [decodeToken]
    throws [Error('Invalid token')] in place of the parser's exception.
    Nothing else leaves [decodeToken].  The value is not inspected: no
    version field is asked for. *)
Theorem C4_decode_is_all_or_nothing (token : jsstring) :
  let text := utf8_decode (base64url_decode token) in
  (exists v : json,
      JSON_parse text = Return v /\ Token.decodeToken token = Return v)
  \/ (exists e : exn,
        JSON_parse text = Throw e
        /\ Token.decodeToken token = Throw (newError (lit "Invalid token"))).
Proof.
  intros text. unfold Token.decodeToken. fold text.
  assert (Htotal : (exists v, JSON_parse text = Return v)
                   \/ (exists e, JSON_parse text = Throw e)).
  { unfold JSON_parse.
    destruct (parse_value _ _) as [[v rest] |]; [| right; eexists; reflexivity].
    destruct (skip_ws rest); [left | right]; eexists; reflexivity. }
  destruct Htotal as [[v Hv] | [e He]]; [left; exists v | right; exists e].
  - rewrite Hv. split; reflexivity.
  - rewrite He. split; reflexivity.
Qed.

(* ===================================================================== *)
(** * Part IV: the properties on the worked examples                      *)
(* ===================================================================== *)

Ltac exact_values :=
  repeat match goal with
         | |- _ /\ _ => split
         | |- True => exact I
         | |- Forall _ [] => constructor
         | |- Forall _ (_ :: _) => constructor
         | |- unit_ok _ => unfold unit_ok; lia
         | |- _ = _ => reflexivity
         | |- _ <= _ => lia
         end.

(** Shows that a decimal is the one a double is written as. *)
Ltac a_double m e :=
  exists (fst (Examples.double_of m e)), (snd (Examples.double_of m e));
  split; vm_compute; reflexivity.

(** C1 on the halt descriptor of the first gate of [Examples.workflow], and
    on a halt descriptor whose items hold fractions, a number beyond 2^53
    and a negative one: 0.25, 1e-7, 1e+21 and -1234.5. *)
Lemma C1_round_trip_of_first_payload :
  (json_ok Examples.first_payload
   /\ Token.decodeToken (Token.encodeToken Examples.first_payload)
      = Return Examples.first_payload)
  /\
  (json_ok Examples.priced_payload
   /\ Token.decodeToken (Token.encodeToken Examples.priced_payload)
      = Return Examples.priced_payload).
Proof.
  assert (Hok : json_ok Examples.first_payload).
  { cbv [Examples.first_payload json_ok units_ok]. exact_values. }
  assert (Hpriced : json_ok Examples.priced_payload).
  { cbv [Examples.priced_payload json_ok units_ok].
    repeat match goal with
           | |- _ /\ _ => split
           | |- True => exact I
           | |- Forall _ [] => constructor
           | |- Forall _ (_ :: _) => constructor
           | |- Forall _ (lit ?x) =>
               let v := eval vm_compute in (lit x) in change (lit x) with v
           | |- unit_ok _ => unfold unit_ok; lia
           | |- exists M E : Z, _ /\ shortest M E = (Z.abs ?m, ?e) =>
               a_double (Z.abs m) e
           | |- _ mod _ <> _ => vm_compute; discriminate
           | |- _ <> _ => discriminate
           | |- _ = _ => vm_compute; reflexivity
           | |- _ <= _ => lia
           end. }
  split.
  - split; [exact Hok | exact (C1_token_round_trip _ Hok)].
  - split; [exact Hpriced | exact (C1_token_round_trip _ Hpriced)].
Defined.

(** C2 on three-stage pipelines: the gate in the middle halts the run
    before [launch] (nothing is recorded in the world) and before the
    failing CLI command; without a gate the last stage's output is the
    result. *)
Lemma C2_gate_stops_the_launch :
  let ctx := Sdk.sdk_ctx Examples.workflow in
  SdkRuntime.runPipelineInternal [Examples.source; Examples.first_gate; Examples.launch]
    ctx SdkRuntime.SrcUndefined Examples.w0
  = (Return (SdkRuntime.mkPipelineResult
               [JObj [(lit "type", JStr (lit "approval_request"));
                      (lit "prompt", JStr (lit "first?"));
                      (lit "items", JArr [JObj [(lit "x", JNum 1)]]);
                      (lit "itemCount", JNum 1)]]
               true (Some (SdkRuntime.mkHaltedAt 1 Examples.first_gate))),
     Examples.w0)
  /\ SdkRuntime.runPipelineInternal [Examples.source; Examples.launch]
       ctx SdkRuntime.SrcUndefined Examples.w0
     = (Return (SdkRuntime.mkPipelineResult [JObj [(lit "x", JNum 1)]] false None),
        Examples.record (JStr (lit "launched")) Examples.w0)
  /\ Runtime.runPipeline [Examples.cli_emit; Examples.cli_approve; Examples.cli_fail]
       Examples.registry (Some (mkStdin false)) (Some Examples.no_env)
       (Some (lit "tool")) (Some emptyStream) Examples.w0
     = (Return (Runtime.mkResult
                  [JObj [(lit "type", JStr (lit "approval_request"));
                         (lit "prompt", JStr (lit "send?"));
                         (lit "items", JArr [JObj [(lit "a", JNum 1)]])]]
                  false true (Some (Runtime.mkHaltedAt 1 Examples.cli_approve))),
        Examples.w0)
  /\ Runtime.runPipeline [Examples.cli_emit; Examples.cli_emit]
       Examples.registry (Some (mkStdin false)) (Some Examples.no_env)
       (Some (lit "tool")) (Some emptyStream) Examples.w0
     = (Return (Runtime.mkResult [JObj [(lit "a", JNum 1)]] false false None),
        Examples.w0).
Proof.
  intros ctx.
  destruct C2_halt_short_circuits as (sdk_halt & sdk_through & cli_halt & cli_through).
  split; [| split; [| split]].
  - eapply (sdk_halt ctx SdkRuntime.SrcUndefined [Examples.source] [Examples.launch]
              Examples.first_gate); reflexivity.
  - eapply (sdk_through ctx SdkRuntime.SrcUndefined [Examples.source] Examples.launch);
      reflexivity.
  - etransitivity;
      [ eapply (cli_halt Examples.registry (Some (mkStdin false)) (Some Examples.no_env)
                  (lit "tool") emptyStream [Examples.cli_emit] [Examples.cli_fail]
                  Examples.cli_approve); reflexivity
      | reflexivity ].
  - etransitivity;
      [ eapply (cli_through Examples.registry (Some (mkStdin false)) (Some Examples.no_env)
                  (lit "tool") emptyStream [Examples.cli_emit] Examples.cli_emit); reflexivity
      | reflexivity ].
Defined.

(** C3 on [Examples.workflow], whose gates are stages 1 and 2: the token of
    [run] and the token of the [resume] that halts again. *)
Lemma C3_tokens_of_the_two_gates :
  (Sdk.run Examples.workflow SdkRuntime.SrcUndefined Examples.w0
   = (Return (Sdk.mkLobsterResult true (lit "needs_approval") [] (Some Examples.first_approval) None), Examples.w0)
   /\ exists (d : json) (i : Z) (s : SdkRuntime.Stage) (rest : list SdkRuntime.Stage),
        Examples.first_token = Token.encodeToken d /\
        get (lit "stageIndex") d = Some (JNum i) /\
        get (lit "resumeAtIndex") d = Some (JNum (i + 1)) /\
        stage_halts_at (Sdk.stages Examples.workflow) (Sdk.sdk_ctx Examples.workflow)
          SdkRuntime.SrcUndefined Examples.w0 i s rest /\
        nth_error (Sdk.stages Examples.workflow) (Z.to_nat i) = Some s /\
        Sdk.slice (Sdk.stages Examples.workflow) (i + 1) = rest)
  /\
  (Sdk.resume Examples.workflow Examples.first_token true Examples.w0
   = (Return (Sdk.mkLobsterResult true (lit "needs_approval") [] (Some Examples.second_approval) None), Examples.w0)
   /\ exists (d : json) (j : Z) (s : SdkRuntime.Stage) (rest : list SdkRuntime.Stage)
             (resumeItems : json),
        Examples.second_token = Token.encodeToken d /\
        get (lit "stageIndex") d = Some (JNum (2 + j)) /\
        get (lit "resumeAtIndex") d = Some (JNum (2 + j + 1)) /\
        stage_halts_at (Sdk.slice (Sdk.stages Examples.workflow) 2)
          (Sdk.sdk_ctx Examples.workflow) (SdkRuntime.SrcValue resumeItems)
          Examples.w0 j s rest /\
        nth_error (Sdk.stages Examples.workflow) (Z.to_nat (2 + j)) = Some s /\
        Sdk.slice (Sdk.stages Examples.workflow) (2 + j + 1) = rest).
Proof.
  assert (Hrun : Sdk.run Examples.workflow SdkRuntime.SrcUndefined Examples.w0
                 = (Return (Sdk.mkLobsterResult true (lit "needs_approval") [] (Some Examples.first_approval) None), Examples.w0))
    by (vm_compute; reflexivity).
  assert (Hresume : Sdk.resume Examples.workflow Examples.first_token true Examples.w0
                    = (Return (Sdk.mkLobsterResult true (lit "needs_approval") [] (Some Examples.second_approval) None), Examples.w0))
    by (vm_compute; reflexivity).
  split; (split; [assumption |]).
  - exact (proj1 C3_token_indices Examples.workflow SdkRuntime.SrcUndefined
             Examples.w0 Examples.w0 _ Examples.first_approval Hrun eq_refl).
  - refine (proj2 C3_token_indices Examples.workflow Examples.first_token
              Examples.first_payload 2 Examples.w0 Examples.w0 _ Examples.second_approval
              _ _ _ Hresume eq_refl).
    + vm_compute; reflexivity.
    + reflexivity.
    + lia.
Defined.

(** The token [e30] is the encoding of [{}]: it decodes, though the value
    has neither [v] nor [protocolVersion].  And the token [MTI] of the
    value [12], cut to [MT], decodes to the value [1]. *)
Lemma C4_unversioned_token_decodes :
  Token.decodeToken (lit "e30") = Return (JObj [])
  /\ get (lit "v") (JObj []) = None
  /\ get (lit "protocolVersion") (JObj []) = None
  /\ Token.encodeToken (JNum 12) = lit "MTI"
  /\ Token.decodeToken (lit "MT") = Return (JNum 1).
Proof.
  repeat split; vm_compute; reflexivity.
Qed.

(** C5 on a second call under the state key [run123]: the first call
    fetched once and stored its item; the second returns one item, the
    stored one with [source: 'run_state'] and [cached: true], and leaves
    the world as it was. *)
Lemma C5_second_call_reads_the_run_state :
  (exists reused : list json,
     @LlmTaskInvoke.run Examples.steady_platform Examples.foo_bar
       (Examples.keyed_args Examples.metadata_ab) Examples.tool_ctx
       Examples.after_first_call
     = (Return (Some (mkStageResult (Some (asStream reused)) false false)),
        Examples.after_first_call)
     /\ Forall2 (read_back "run_state") Examples.stored_items reused
     /\ exists item : json,
          reused = [item]
          /\ get (lit "source") item = Some (JStr (lit "run_state"))
          /\ get (lit "cached") item = Some (JBool true)
          /\ get (lit "runId") item = Some (JStr (lit "state_run"))
          /\ get (lit "output") item
             = Some (JObj [(lit "format", JStr (lit "json")); (lit "text", JNull);
                           (lit "data", JObj [(lit "ok", JBool true)])])
          /\ get (lit "attemptCount") item = Some (JNum 1))
  /\ Examples.count_effects "fetch" (w_effects Examples.after_first_call) = 1%nat
  /\ get (lit "cacheKey") Examples.stored_record
     = Some (JStr (LlmTaskInvoke.cacheKey (Examples.keyed_cfg Examples.metadata_ab))).
Proof.
  assert (Hkey : get (lit "cacheKey") Examples.stored_record
                 = Some (JStr (LlmTaskInvoke.cacheKey (Examples.keyed_cfg Examples.metadata_ab))))
    by (vm_compute; reflexivity).
  split; [| split; [reflexivity | exact Hkey]].
  destruct (proj1 (C5_run_state_reuse Examples.steady_platform Examples.foo_bar
                     (Examples.keyed_args Examples.metadata_ab) Examples.tool_ctx
                     (Examples.keyed_cfg Examples.metadata_ab) (lit "run123")
                     Examples.stored_record
                     Examples.after_first_call Examples.after_first_call
                     Examples.after_first_call
                     ltac:(vm_compute; reflexivity) ltac:(vm_compute; reflexivity)
                     ltac:(vm_compute; reflexivity) ltac:(vm_compute; reflexivity))
             Examples.stored_items ltac:(vm_compute; reflexivity) Hkey
             ltac:(vm_compute; reflexivity))
    as (reused & Hrun & Hall).
  exists reused. split; [exact Hrun |]. split; [exact Hall |].
  unfold Examples.stored_items in Hall.
  inversion Hall as [| stored item rest_s rest Hitem Hrest]; subst.
  inversion Hrest; subst.
  destruct Hitem as (_ & Hsource & Hcached & Hother).
  exists item. split; [reflexivity |].
  split; [exact Hsource |]. split; [exact Hcached |].
  repeat split;
    (apply Hother; [discriminate | discriminate | reflexivity]).
Defined.

(** C6 with [--max-validation-retries 0] against a remote whose first
    answer fails the schema and whose second satisfies it: the loop makes
    the second attempt and the call returns its item, with
    [attemptCount = 2]. *)
Lemma C6_no_retry_allowed_and_one_made :
  LlmTaskInvoke.maxValidationRetries Examples.decide_cfg = 0
  /\ (@LlmTaskInvoke.invoke_loop Examples.decision_platform 2 Examples.decide_cfg
        Examples.decide_endpoint []
        (Some (Examples.required_keys Examples.decision_schema))
        Examples.decide_payload 0 [] Examples.w0
      = @LlmTaskInvoke.deliver Examples.decision_platform Examples.decide_cfg
          (fst Examples.second_answer) (snd Examples.second_answer)
      /\ exists item, fst Examples.second_answer = [item]
                      /\ get (lit "attemptCount") item = Some (JNum 2))
  /\ @LlmTaskInvoke.run Examples.decision_platform emptyStream
       (JObj Examples.decide_args) Examples.tool_ctx Examples.w0
     = @LlmTaskInvoke.deliver Examples.decision_platform Examples.decide_cfg
         (fst Examples.second_answer) (snd Examples.second_answer)
  /\ fst (@LlmTaskInvoke.run Examples.decision_platform emptyStream
            (JObj Examples.decide_args) Examples.tool_ctx Examples.w0)
     = Return (Some (mkStageResult (Some (asStream (fst Examples.second_answer)))
                       false false))
  /\ Examples.count_effects "fetch"
       (w_effects (snd (@LlmTaskInvoke.run Examples.decision_platform emptyStream
                          (JObj Examples.decide_args) Examples.tool_ctx Examples.w0)))
     = 2%nat.
Proof.
  split; [reflexivity | split; [| repeat split; vm_compute; reflexivity]].
  assert (Hrej : @Attempts.rejected Examples.decision_platform Examples.decide_cfg
                   Examples.decide_endpoint []
                   (Examples.required_keys Examples.decision_schema)
                   Examples.decide_payload 1 0 [] Examples.w0
                   (Z.of_nat 1) Examples.first_errors (snd Examples.first_answer)).
  { eapply Attempts.rejected_next with (normalized := fst Examples.first_answer).
    - vm_compute; reflexivity.
    - vm_compute; reflexivity.
    - apply Attempts.rejected_none. }
  refine (proj1 (C6_retry_bound_allows_one_more_attempt Examples.decision_platform
                   Examples.decide_cfg Examples.decide_endpoint []
                   (Examples.required_keys Examples.decision_schema)
                   Examples.decide_payload 1 Examples.first_errors Examples.w0
                   (snd Examples.first_answer) (snd Examples.second_answer) (fst Examples.second_answer)
                   _ Hrej _) _ _).
  - lia.
  - vm_compute; reflexivity.
  - vm_compute; reflexivity.
  - vm_compute. discriminate.
Defined.

(** C7 on two calls whose metadata is [{a: 1, b: 2}] and [{b: 2, a: 1}]. *)
Lemma C7_metadata_does_not_reach_the_key :
  LlmTaskInvoke.cacheKey (Examples.keyed_cfg Examples.metadata_ab)
  = LlmTaskInvoke.cacheKey (Examples.keyed_cfg Examples.metadata_ba)
  /\ LlmTaskInvoke.metadataObject (Examples.keyed_cfg Examples.metadata_ab)
     = Some (JObj [(lit "a", JNum 1); (lit "b", JNum 2)])
  /\ LlmTaskInvoke.metadataObject (Examples.keyed_cfg Examples.metadata_ba)
     = Some (JObj [(lit "b", JNum 2); (lit "a", JNum 1)]).
Proof.
  split; [| split; vm_compute; reflexivity].
  eapply (proj2 (C7_cache_key_determinism Examples.steady_platform) Examples.foo_bar
            Examples.keyed_base Examples.metadata_ab Examples.metadata_ba Examples.tool_ctx
            _ _ Examples.after_first_call Examples.after_first_call
            Examples.after_first_call);
    vm_compute; reflexivity.
Defined.



(** C10 on the approve command in tool mode with two items and with
    [--emit] on a terminal with no items, and on the SDK's [approve] with
    a prompt and two items. *)
Lemma C10_gate_in_tool_mode_and_with_emit :
  (exists out : Stream,
     ApproveCommand.run (asStream [JObj [(lit "a", JNum 1)]; JObj [(lit "a", JNum 2)]])
       (JObj [(lit "prompt", JStr (lit "send?"))]) Examples.tool_ctx Examples.w0
     = (Return (Some (mkStageResult (Some out) true false)), Examples.w0)
     /\ forall w2 : World,
          out w2
          = (Return [JObj [(lit "type", JStr (lit "approval_request"));
                           (lit "prompt", JStr (lit "send?"));
                           (lit "items", JArr [JObj [(lit "a", JNum 1)];
                                               JObj [(lit "a", JNum 2)]])]], w2))
  /\
  (exists out : Stream,
     ApproveCommand.run emptyStream (JObj [(lit "emit", JBool true)])
       (mkCtx (Some (mkStdin true)) (Some Examples.no_env) (lit "human") None) Examples.w0
     = (Return (Some (mkStageResult (Some out) true false)), Examples.w0)
     /\ forall w2 : World,
          out w2
          = (Return [JObj [(lit "type", JStr (lit "approval_request"));
                           (lit "prompt", JStr (lit "Approve?"));
                           (lit "items", JArr [])]], w2))
  /\
  (exists out : Stream,
     SdkRuntime.call_stage 1
       (SdkApprove.approve (JObj [(lit "prompt", JStr (lit "send?"))]))
       (asStream [JObj [(lit "a", JNum 1)]; JObj [(lit "a", JNum 2)]])
       (Sdk.sdk_ctx Examples.workflow) Examples.w0
     = (Return (Some (mkStageResult (Some out) true false)), Examples.w0)
     /\ forall w2 : World,
          out w2
          = (Return [JObj [(lit "type", JStr (lit "approval_request"));
                           (lit "prompt", JStr (lit "send?"));
                           (lit "items", JArr [JObj [(lit "a", JNum 1)];
                                               JObj [(lit "a", JNum 2)]]);
                           (lit "itemCount", JNum 2)]], w2)).
Proof.
  destruct C10_approve_emits_and_halts as [command primitive].
  split; [| split].
  - apply (command
             (asStream [JObj [(lit "a", JNum 1)]; JObj [(lit "a", JNum 2)]])
             (JObj [(lit "prompt", JStr (lit "send?"))]) Examples.tool_ctx
             [JObj [(lit "a", JNum 1)]; JObj [(lit "a", JNum 2)]] Examples.w0 Examples.w0).
    + right. left. reflexivity.
    + reflexivity.
  - apply (command emptyStream (JObj [(lit "emit", JBool true)])
             (mkCtx (Some (mkStdin true)) (Some Examples.no_env) (lit "human") None)
             [] Examples.w0 Examples.w0).
    + left. reflexivity.
    + reflexivity.
  - apply (primitive (JObj [(lit "prompt", JStr (lit "send?"))]) 1
             (asStream [JObj [(lit "a", JNum 1)]; JObj [(lit "a", JNum 2)]])
             (Sdk.sdk_ctx Examples.workflow)
             [JObj [(lit "a", JNum 1)]; JObj [(lit "a", JNum 2)]]
             Examples.w0 Examples.w0).
    reflexivity.
Defined.

(** The SDK's [approve({ preview: false })] in tool mode on two items: the
    one item it emits has four properties, [itemCount] among them, and its
    [items] is empty although two items were drained. *)
Lemma C10_sdk_gate_hides_the_items :
  ctx_mode Examples.tool_ctx = lit "tool"
  /\ exists out : Stream,
       SdkRuntime.call_stage 0
         (SdkApprove.approve (JObj [(lit "preview", JBool false)]))
         (asStream [JObj [(lit "a", JNum 1)]; JObj [(lit "a", JNum 2)]])
         Examples.tool_ctx Examples.w0
       = (Return (Some (mkStageResult (Some out) true false)), Examples.w0)
       /\ out Examples.w0
          = (Return [JObj [(lit "type", JStr (lit "approval_request"));
                           (lit "prompt", JStr (lit "Approve?"));
                           (lit "items", JArr []);
                           (lit "itemCount", JNum 2)]], Examples.w0).
Proof.
  split; [reflexivity |].
  eexists. split; reflexivity.
Qed.

(* ===================================================================== *)
(** * Part V: further properties                                         *)
(* ===================================================================== *)

Import Cases.

(** The round trip of the codec, for every JSON value of JavaScript. *)
Lemma decode_encode (d : json) :
  json_ok d -> Token.decodeToken (Token.encodeToken d) = Return d.
Proof.
  intros Hok. unfold Token.decodeToken, Token.encodeToken.
  destruct (TextFacts.clean_stringify d Hok) as [Hunits Hwf].
  rewrite CodecFacts.base64url_roundtrip by (apply utf8_encode_bytes; exact Hunits).
  rewrite Utf8Facts.utf8_roundtrip by assumption.
  rewrite (TextFacts.JSON_roundtrip d Hok). reflexivity.
Qed.

Lemma units_ok_lit (s : string) : units_ok (lit s).
Proof.
  unfold lit, units_ok. apply Forall_forall. intros c Hc.
  apply in_map_iff in Hc. destruct Hc as (a & <- & _).
  pose proof (nat_ascii_bounded a). unfold unit_ok. lia.
Qed.

(** The object that [run] and [resume] encode is one the codec carries. *)
Lemma token_object_ok (i r : Z) (approval : json) :
  Z.abs i <= 9007199254740992 -> Z.abs r <= 9007199254740992 ->
  (forall v, get (lit "items") approval = Some v -> json_ok v) ->
  (forall v, get (lit "prompt") approval = Some v -> json_ok v) ->
  json_ok (Sdk.token_object i r approval).
Proof.
  intros Hi Hr Hitems Hprompt. unfold Sdk.token_object.
  destruct (get (lit "items") approval) as [vi |] eqn:Ei;
    destruct (get (lit "prompt") approval) as [vp |] eqn:Ep;
    cbn [Sdk.prop List.app json_ok];
    (split; [reflexivity |]);
    repeat (split; [first [apply units_ok_lit | assumption | cbn; lia
                          | apply Hitems; reflexivity | apply Hprompt; reflexivity] |]);
    exact I.
Qed.

(** The run of a pipeline whose stage [s] halts, as the SDK runner returns
    it. *)
Lemma sdk_halt_result (ctx : Ctx) (input : SdkRuntime.Source)
  (pre suf : list SdkRuntime.Stage) (s : SdkRuntime.Stage)
  (varsP : SdkRuntime.Vars) (r : option StageResult)
  (items : list json) (w w1 w2 w3 : World) :
  SdkRuntime.for_stages ctx 0 pre
    (SdkRuntime.mkVars (SdkRuntime.toAsyncIterable input) false None) w
    = (Return varsP, w1) ->
  SdkRuntime.v_halted varsP = false ->
  SdkRuntime.call_stage (Z.of_nat (List.length pre)) s
    (SdkRuntime.v_stream varsP) ctx w1 = (Return r, w2) ->
  halt_of r = true ->
  output_or_empty r w2 = (Return items, w3) ->
  SdkRuntime.runPipelineInternal (pre ++ s :: suf) ctx input w
  = (Return (SdkRuntime.mkPipelineResult items true
               (Some (SdkRuntime.mkHaltedAt (Z.of_nat (List.length pre)) s))),
     w3).
Proof.
  intros Hpre HP Hcall Hhalt Hout.
  unfold SdkRuntime.runPipelineInternal.
  unfold bind at 1.
  rewrite (SdkFacts.for_stages_app ctx pre (s :: suf) _ _ _ _ _ Hpre eq_refl HP).
  cbn [SdkRuntime.for_stages]. rewrite Z.add_0_l.
  rewrite (bind_Return _ _ _ _ _ Hcall). rewrite Hhalt.
  unfold ret at 1. cbn [SdkRuntime.v_stream SdkRuntime.v_halted SdkRuntime.v_haltedAt].
  unfold SdkRuntime.collectItems.
  rewrite (bind_Return _ _ _ _ _ (bind_Return _ _ _ _ _ Hout)).
  reflexivity.
Qed.

(** X1.  Take a workflow of fewer than 2^32 stages (the stages are held in
    an array).  When the stages before stage [s] have run without a halt
    and [s] halts with one approval request whose prompt and items, if it
    has them, are JSON values of JavaScript ([json_ok]: the token carries
    them as JSON text), [run] returns [needs_approval] with a token, and
    [resume] with that token and [approved = true] runs the stages after
    [s] on the items of the request: when they end without another
    approval halt, [resume] returns [ok] with their output.  No stage up
    to [s] runs again. *)
Theorem resume_continues_after_the_gate
  (this : Sdk.Lobster) (input : SdkRuntime.Source)
  (pre suf : list SdkRuntime.Stage) (s : SdkRuntime.Stage)
  (varsP : SdkRuntime.Vars) (r : option StageResult) (approval : json)
  (w w1 w2 w3 : World) :
  Sdk.stages this = pre ++ s :: suf ->
  Z.of_nat (List.length (Sdk.stages this)) < 4294967296 ->
  SdkRuntime.for_stages (Sdk.sdk_ctx this) 0 pre
    (SdkRuntime.mkVars (SdkRuntime.toAsyncIterable input) false None) w
    = (Return varsP, w1) ->
  SdkRuntime.v_halted varsP = false ->
  SdkRuntime.call_stage (Z.of_nat (List.length pre)) s
    (SdkRuntime.v_stream varsP) (Sdk.sdk_ctx this) w1 = (Return r, w2) ->
  halt_of r = true ->
  output_or_empty r w2 = (Return [approval], w3) ->
  Sdk.is_approval_request approval = true ->
  (forall v, get (lit "prompt") approval = Some v -> json_ok v) ->
  (forall v, get (lit "items") approval = Some v -> json_ok v) ->
  exists token : jsstring,
    Sdk.run this input w
    = (Return (Sdk.mkLobsterResult true (lit "needs_approval") []
                 (Some (Sdk.mkApproval (get (lit "prompt") approval)
                          (get (lit "items") approval) token))
                 None), w3)
    /\ forall (wa wb : World) (result : SdkRuntime.PipelineResult),
         SdkRuntime.runPipelineInternal suf (Sdk.sdk_ctx this)
           (SdkRuntime.SrcValue
              (match get (lit "items") approval with
               | None | Some JNull => JArr []
               | Some v => v
               end)) wa
         = (Return result, wb) ->
         Sdk.approval_halt result = None ->
         Sdk.resume this token true wa
         = (Return (Sdk.mkLobsterResult true (lit "ok") (SdkRuntime.items result)
                      None None), wb).
Proof.
  intros Heq Hlen Hpre HP Hcall Hhalt Hout Hreq Hprompt Hitems.
  set (i := Z.of_nat (List.length pre)).
  exists (Token.encodeToken (Sdk.token_object i (i + 1) approval)).
  assert (Hbound : 0 <= i /\ i + 1 < 4294967296).
  { rewrite Heq, length_app in Hlen. cbn [List.length] in Hlen. lia. }
  split.
  - unfold Sdk.run. rewrite Heq.
    apply try_catch_Return.
    rewrite (bind_Return _ _ _ _ _
               (sdk_halt_result _ _ _ suf _ _ _ _ _ _ _ _ Hpre HP Hcall Hhalt Hout)).
    unfold Sdk.approval_halt.
    cbn [SdkRuntime.halted SdkRuntime.items SdkRuntime.haltedAt SdkRuntime.index].
    rewrite Hreq. reflexivity.
  - intros wa wb result Hrest Hnone.
    unfold Sdk.resume. cbn [negb].
    rewrite (bind_Return _ _ _ wa (Sdk.token_object i (i + 1) approval)).
    2:{ unfold lift. rewrite decode_encode; [reflexivity |].
        apply token_object_ok; [lia | lia | exact Hitems | exact Hprompt]. }
    assert (Hidx : get (lit "resumeAtIndex") (Sdk.token_object i (i + 1) approval)
                   = Some (JNum (i + 1))) by reflexivity.
    assert (Hit : get (lit "items") (Sdk.token_object i (i + 1) approval)
                  = get (lit "items") approval).
    { unfold Sdk.token_object.
      destruct (get (lit "items") approval) as [vi |];
        destruct (get (lit "prompt") approval) as [vp |]; reflexivity. }
    unfold bind at 1. unfold lift at 1. cbn [Sdk.member Sdk.token_object].
    fold (Sdk.token_object i (i + 1) approval). rewrite Hidx.
    unfold bind at 1. unfold lift at 1. cbn [Sdk.resume_index coalesce nullish].
    unfold bind at 1. unfold lift at 1. rewrite Hit.
    rewrite Heq. subst i. rewrite slice_after.
    assert (Hsame : match coalesce (get (lit "items") approval) (Some (JArr [])) with
                    | Some v => v
                    | None => JArr []
                    end
                    = match get (lit "items") approval with
                      | None | Some JNull => JArr []
                      | Some v => v
                      end).
    { destruct (get (lit "items") approval) as [[] |]; reflexivity. }
    rewrite Hsame.
    unfold try_catch. rewrite (bind_Return _ _ _ _ _ Hrest). rewrite Hnone. reflexivity.
Qed.

(** X1 on [short_workflow]: the token of its gate resumes at [pick_x], which
    yields the [x] of the approved item. *)
Lemma resume_runs_pick_x_after_the_gate :
  exists token : jsstring,
    Sdk.run short_workflow SdkRuntime.SrcUndefined Examples.w0
    = (Return (Sdk.mkLobsterResult true (lit "needs_approval") []
                 (Some (Sdk.mkApproval (Some (JStr (lit "first?")))
                          (Some (JArr [JObj [(lit "x", JNum 1)]])) token))
                 None), Examples.w0)
    /\ Sdk.resume short_workflow token true Examples.w0
       = (Return (Sdk.mkLobsterResult true (lit "ok") [JNum 1] None None), Examples.w0).
Proof.
  pose proof (resume_continues_after_the_gate short_workflow SdkRuntime.SrcUndefined
              [Examples.source] [Examples.pick_x] Examples.first_gate
              (SdkRuntime.mkVars (asStream [JObj [(lit "x", JNum 1)]]) false None)
              (Some (mkStageResult (Some (asStream [first_request])) true false))
              first_request
              Examples.w0 Examples.w0 Examples.w0 Examples.w0) as H.
  assert (H1 : Sdk.stages short_workflow = [Examples.source] ++ Examples.first_gate :: [Examples.pick_x]) by reflexivity.
  specialize (H H1).
  assert (H2 : Z.of_nat (Datatypes.length (Sdk.stages short_workflow)) < 4294967296) by (vm_compute; reflexivity).
  specialize (H H2).
  assert (H3 : SdkRuntime.for_stages (Sdk.sdk_ctx short_workflow) 0 [Examples.source]
         (SdkRuntime.mkVars (SdkRuntime.toAsyncIterable SdkRuntime.SrcUndefined) false None) Examples.w0 =
       (Return (SdkRuntime.mkVars (asStream [JObj [(lit "x", JNum 1)]]) false None), Examples.w0)) by reflexivity.
  specialize (H H3 eq_refl).
  assert (H4 : SdkRuntime.call_stage (Z.of_nat (Datatypes.length [Examples.source])) Examples.first_gate
         (SdkRuntime.v_stream (SdkRuntime.mkVars (asStream [JObj [(lit "x", JNum 1)]]) false None)) (Sdk.sdk_ctx short_workflow) Examples.w0 =
       (Return (Some (mkStageResult (Some (asStream [first_request])) true false)), Examples.w0)) by reflexivity.
  specialize (H H4 eq_refl eq_refl).
  assert (H5 : Sdk.is_approval_request first_request = true) by reflexivity.
  specialize (H H5).
  assert (H6 : forall v : json, get (lit "prompt") first_request = Some v -> json_ok v).
  { intros v Hv. vm_compute in Hv. inversion Hv; subst.
    cbv [json_ok units_ok]. repeat constructor; unfold unit_ok; lia. }
  assert (H7 : forall v : json, get (lit "items") first_request = Some v -> json_ok v).
  { intros v Hv. vm_compute in Hv. inversion Hv; subst.
    cbv [json_ok units_ok]. repeat split; repeat constructor; unfold unit_ok; lia. }
  destruct (H H6 H7) as (token & Hrun & Hresume).
  exists token. split; [exact Hrun |].
  apply (Hresume Examples.w0 Examples.w0
             (SdkRuntime.mkPipelineResult [JNum 1] false None)); reflexivity.
Defined.

(** X2.  [resume] with [approved = true] reads the token before its [try]: a
    token that does not decode makes [resume] throw [Error('Invalid token')],
    and one that decodes to [null] makes it throw the TypeError of the
    property read; no stage runs and no error result is returned. *)
Theorem resume_lets_decode_failures_escape (this : Sdk.Lobster) (token : jsstring)
  (w : World) :
  (forall e : exn,
      JSON_parse (utf8_decode (base64url_decode token)) = Throw e ->
      Sdk.resume this token true w = (Throw (newError (lit "Invalid token")), w))
  /\ (Token.decodeToken token = Return JNull ->
      Sdk.resume this token true w
      = (Throw (mkExn KTypeError
                  (lit "Cannot read properties of null (reading 'resumeAtIndex')")
                  None), w)).
Proof.
  split.
  - intros e He. unfold Sdk.resume. cbn [negb].
    apply bind_Throw. unfold lift, Token.decodeToken. rewrite He. reflexivity.
  - intros Hnull. unfold Sdk.resume. cbn [negb].
    unfold bind at 1. unfold lift at 1. rewrite Hnull.
    apply bind_Throw. reflexivity.
Qed.

(** X2 on a token whose text is no JSON and on the token of [null]. *)
Lemma resume_with_a_torn_token :
  Sdk.resume Examples.workflow (lit "e30x") true Examples.w0
  = (Throw (newError (lit "Invalid token")), Examples.w0)
  /\ Sdk.resume Examples.workflow (lit "bnVsbA") true Examples.w0
     = (Throw (mkExn KTypeError
                 (lit "Cannot read properties of null (reading 'resumeAtIndex')")
                 None), Examples.w0).
Proof.
  split.
  - apply (proj1 (resume_lets_decode_failures_escape Examples.workflow (lit "e30x")
                    Examples.w0)
             syntax_error).
    vm_compute. reflexivity.
  - apply (proj2 (resume_lets_decode_failures_escape Examples.workflow (lit "bnVsbA")
                    Examples.w0)).
    vm_compute. reflexivity.
Defined.

Lemma resolve_known (registry : Runtime.Registry) (pre : list Runtime.PipelineStage) :
  (forall p, In p pre -> exists c, registry (Runtime.name p) = Some c) ->
  forall rest, exists stages,
    SdkRuntime.resolve registry (pre ++ rest)
    = obind (SdkRuntime.resolve registry rest) (fun tail => Return (stages ++ tail))
    /\ List.length stages = List.length pre.
Proof.
  induction pre as [| p pre IH]; intros Hknown rest.
  - exists []. split; [| reflexivity]. cbn [List.app].
    destruct (SdkRuntime.resolve registry rest); reflexivity.
  - destruct (Hknown p (or_introl eq_refl)) as [c Hc].
    destruct (IH (fun q Hq => Hknown q (or_intror Hq)) rest) as (stages & Hres & Hlen).
    exists (SdkRuntime.StageObject (fun input ctx =>
              Runtime.run c input (Runtime.args p) ctx) :: stages).
    split; [| cbn [List.length]; rewrite Hlen; reflexivity].
    rewrite <- app_comm_cons. cbn [SdkRuntime.resolve]. rewrite Hc, Hres.
    destruct (SdkRuntime.resolve registry rest); reflexivity.
Qed.

(** X3.  Where the two runners look a command up.  The CLI runner looks the
    command of a stage up when the stage's turn has come: an unknown name
    at position [i] ends the run with [Unknown command: name] after the
    stages before it have been called.  The SDK's [runPipeline] looks all
    names up before it reads its input or calls a stage: the first unknown
    name ends it in the world it started in. *)
Theorem unknown_command_is_reported :
  (forall (registry : Runtime.Registry) (stdin : option Stdin) (env : option Env)
          (mode : option jsstring) (input : option Stream)
          (pre suf : list Runtime.PipelineStage) (s : Runtime.PipelineStage)
          (w : World),
      (forall p, In p pre -> exists c, registry (Runtime.name p) = Some c) ->
      registry (Runtime.name s) = None ->
      SdkRuntime.runPipeline (pre ++ s :: suf) registry stdin env mode input w
      = (Throw (newError (lit "Unknown command: " ++ Runtime.name s)), w))
  /\
  (forall (registry : Runtime.Registry) (stdin : option Stdin) (env : option Env)
          (mode : jsstring) (input : Stream)
          (pre suf : list Runtime.PipelineStage) (s : Runtime.PipelineStage)
          (varsP : Runtime.Vars) (w w1 : World),
      Runtime.for_stages registry (mkCtx stdin env mode None) 0 pre
        (Runtime.mkVars input false false None) w = (Return varsP, w1) ->
      Runtime.v_halted varsP = false ->
      registry (Runtime.name s) = None ->
      Runtime.runPipeline (pre ++ s :: suf) registry stdin env (Some mode)
        (Some input) w
      = (Throw (newError (lit "Unknown command: " ++ Runtime.name s)), w1)).
Proof.
  split.
  - intros registry stdin env mode input pre suf s w Hknown Hs.
    unfold SdkRuntime.runPipeline.
    destruct (resolve_known registry pre Hknown (s :: suf)) as (stages & Hres & _).
    apply bind_Throw. unfold lift. rewrite Hres.
    cbn [SdkRuntime.resolve]. rewrite Hs. reflexivity.
  - intros registry stdin env mode input pre suf s varsP w w1 Hpre HP Hs.
    unfold Runtime.runPipeline.
    unfold bind at 1.
    rewrite (CliFacts.cli_for_stages_app registry _ pre (s :: suf) _ _ _ _ _ Hpre eq_refl HP).
    cbn [Runtime.for_stages]. unfold Runtime.call_stage. rewrite Hs.
    reflexivity.
Qed.

(** X3 on a pipeline whose second command is unknown: the CLI runner has run
    the first command, the SDK runner has not. *)
Lemma unknown_command_after_one_that_ran :
  SdkRuntime.runPipeline [note_stage; typo_stage; note_stage] noting_registry
    None None (Some (lit "tool")) None Examples.w0
  = (Throw (newError (lit "Unknown command: nope")), Examples.w0)
  /\ Runtime.runPipeline [note_stage; typo_stage; note_stage] noting_registry
       None None (Some (lit "tool")) (Some emptyStream) Examples.w0
     = (Throw (newError (lit "Unknown command: nope")),
        Examples.record (JStr (lit "ran")) Examples.w0).
Proof.
  split.
  - apply (proj1 unknown_command_is_reported noting_registry None None
             (Some (lit "tool")) None [note_stage] [note_stage] typo_stage Examples.w0).
    + intros p [<- | []]. exists noting. reflexivity.
    + reflexivity.
  - apply (proj2 unknown_command_is_reported noting_registry None None
             (lit "tool") emptyStream [note_stage] [note_stage] typo_stage
             (Runtime.mkVars emptyStream false false None)
             Examples.w0 (Examples.record (JStr (lit "ran")) Examples.w0));
      reflexivity.
Defined.

(** X4.  The SDK's [approve] has no modes: whatever the context and the options,
    the stage drains its input and halts with one item,
    [{ type: 'approval_request', prompt, items, itemCount }], where
    [prompt] is [options.prompt ?? 'Approve?'], [itemCount] is the number
    of items drained, and [items] holds them unless [options.preview] is
    [false], in which case it is empty. *)
Theorem sdk_approve_always_halts (options : json) (idx : Z) (input : Stream)
  (ctx : Ctx) (items : list json) (w w' : World) :
  input w = (Return items, w') ->
  let prompt :=
    match get (lit "prompt") options with
    | None | Some JNull => JStr (lit "Approve?")
    | Some p => p
    end in
  let shown :=
    match get (lit "preview") options with
    | Some (JBool false) => []
    | _ => items
    end in
  exists out : Stream,
    SdkRuntime.call_stage idx (SdkApprove.approve options) input ctx w
    = (Return (Some (mkStageResult (Some out) true false)), w')
    /\ forall w2 : World,
         out w2
         = (Return [JObj [(lit "type", JStr (lit "approval_request"));
                          (lit "prompt", prompt);
                          (lit "items", JArr shown);
                          (lit "itemCount", JNum (Z.of_nat (List.length items)))]],
            w2).
Proof.
  intros Hin prompt shown.
  unfold SdkApprove.approve. cbn [SdkRuntime.call_stage].
  unfold SdkApprove.approve_run. rewrite (bind_Return _ _ _ _ _ Hin).
  eexists. split; [reflexivity |].
  intros w2. unfold asStream, ret. subst prompt shown.
  destruct (get (lit "prompt") options) as [[] |];
    destruct (get (lit "preview") options) as [[| [] | | | | | |] |]; reflexivity.
Qed.

(** X4 with [preview: false] on two items. *)
Lemma sdk_approve_without_preview :
  exists out : Stream,
    SdkRuntime.call_stage 3
      (SdkApprove.approve (JObj [(lit "preview", JBool false)]))
      (asStream [JNum 7; JNum 8]) Examples.tool_ctx Examples.w0
    = (Return (Some (mkStageResult (Some out) true false)), Examples.w0)
    /\ forall w2 : World,
         out w2
         = (Return [JObj [(lit "type", JStr (lit "approval_request"));
                          (lit "prompt", JStr (lit "Approve?"));
                          (lit "items", JArr []);
                          (lit "itemCount", JNum 2)]],
            w2).
Proof.
  apply (sdk_approve_always_halts (JObj [(lit "preview", JBool false)]) 3
           (asStream [JNum 7; JNum 8]) Examples.tool_ctx [JNum 7; JNum 8]
           Examples.w0 Examples.w0).
  reflexivity.
Defined.

(** X5.  On a terminal, outside tool mode and without [--emit], the approve
    command asks: it writes [`${prompt} [y/N] `] to stdout and reads one
    line from stdin.  When the trimmed line is [y] or [yes] in any case it
    passes the drained items on, in their order and without a halt; any
    other line makes it throw [Error('Not approved')]. *)
Theorem approve_asks_on_a_terminal (input : Stream) (args : json) (ctx : Ctx)
  (items : list json) (line : jsstring) (later : list jsstring) (w w1 : World) :
  truthy (get (lit "emit") args) = false ->
  str_eqb (ctx_mode ctx) (lit "tool") = false ->
  ctx_stdin ctx = Some (mkStdin true) ->
  input w = (Return items, w1) ->
  ApproveCommand.readLine_from [] (w_stdin w1) = Some (line, later) ->
  let prompt :=
    match get (lit "prompt") args with
    | None | Some JNull => JStr (lit "Approve?")
    | Some p => p
    end in
  let asked :=
    mkWorld (w_env w1) (w_stdout w1 ++ [to_String prompt ++ lit " [y/N] "])
      later (w_effects w1) in
  ApproveCommand.run input args ctx w
  = if ApproveCommand.is_yes (trim line)
    then (Return (Some (mkStageResult (Some (asStream items)) false false)), asked)
    else (Throw (newError (lit "Not approved")), asked).
Proof.
  intros Hemit Hmode Hstdin Hin Hline prompt asked.
  unfold ApproveCommand.run.
  rewrite (bind_Return _ _ _ _ _ Hin).
  rewrite Hemit, Hmode, Hstdin.
  cbn [ApproveCommand.isInteractive isTTY].
  unfold bind at 1. unfold bind at 1. unfold lift, ret. cbn [negb].
  unfold bind at 1. unfold ApproveCommand.stdout_write.
  unfold bind at 1. unfold ApproveCommand.readLine. cbn [w_stdin w_env w_stdout w_effects].
  rewrite Hline.
  assert (Hp : match coalesce (get (lit "prompt") args) (Some (JStr (lit "Approve?"))) with
               | Some p => p
               | None => JStr (lit "Approve?")
               end = prompt).
  { subst prompt. destruct (get (lit "prompt") args) as [[] |]; reflexivity. }
  rewrite Hp. fold asked.
  destruct (ApproveCommand.is_yes (trim line)); reflexivity.
Qed.

(** X5 on a terminal where the user types yes, and one where the user types
    no. *)
Lemma approve_with_yes_and_with_no :
  ApproveCommand.run (asStream [JNum 1; JNum 2])
    (JObj [(lit "prompt", JStr (lit "send?"))]) terminal_ctx
    (typing [lit " Ye"; lit "S " ++ LF ++ lit "more"])
  = (Return (Some (mkStageResult (Some (asStream [JNum 1; JNum 2])) false false)),
     mkWorld Examples.no_env [lit "send? [y/N] "] [] [])
  /\ ApproveCommand.run (asStream [JNum 1; JNum 2]) (JObj []) terminal_ctx
       (typing [lit "yep" ++ LF])
     = (Throw (newError (lit "Not approved")),
        mkWorld Examples.no_env [lit "Approve? [y/N] "] [] []).
Proof.
  split.
  - apply (approve_asks_on_a_terminal (asStream [JNum 1; JNum 2])
             (JObj [(lit "prompt", JStr (lit "send?"))]) terminal_ctx
             [JNum 1; JNum 2] (lit " YeS ") []
             (typing [lit " Ye"; lit "S " ++ LF ++ lit "more"])
             (typing [lit " Ye"; lit "S " ++ LF ++ lit "more"])); reflexivity.
  - apply (approve_asks_on_a_terminal (asStream [JNum 1; JNum 2])
             (JObj []) terminal_ctx
             [JNum 1; JNum 2] (lit "yep") []
             (typing [lit "yep" ++ LF]) (typing [lit "yep" ++ LF])); reflexivity.
Defined.

Module ReuseFacts.

Import LlmTaskInvoke.

Section Store.

Context {platform : Platform}.

(** With the environment in the context and the input already collected,
    what [configure] computes does not depend on the world, and leaves it
    as it was. *)
Lemma configure_collected (items : list json) (args : json) (ctx : Ctx) (e : Env)
  (w w' : World) :
  ctx_env ctx = Some e ->
  configure (asStream items) args ctx w'
  = (fst (configure (asStream items) args ctx w), w').
Proof.
  intros He. unfold configure. rewrite He. cbv beta zeta.
  repeat match goal with
         | |- context [match ?x with _ => _ end] =>
             match type of x with
             | jsstring => destruct x
             | Transport => destruct x
             end
         end; try reflexivity;
  unfold bind, lift, asStream, ret, throw;
  repeat match goal with
         | |- context [match ?o with Return _ => _ | _ => _ end] => destruct o
         | |- context [let (_, _) := ?o in _] => destruct o
         end; reflexivity.
Qed.

(** A loop that returns has delivered the result of its last attempt. *)
Lemma loop_returns_what_it_delivers (fuel : nat) (cfg : Config) (endpoint : URL)
  (token : jsstring) (validator : option (json -> option (list ErrorObject)))
  (payload : list (jsstring * json)) :
  forall (attempt : Z) (errs : list jsstring) (w w' : World) (r : option StageResult),
    invoke_loop fuel cfg endpoint token validator payload attempt errs w
    = (Return r, w') ->
    exists normalized wN, deliver cfg normalized wN = (Return r, w').
Proof.
  induction fuel as [| fuel IH]; intros attempt errs w w' r H.
  - discriminate H.
  - cbn [invoke_loop] in H.
    apply bind_inv_Return in H. destruct H as (normalized & wN & _ & H).
    destruct validator as [validate |]; [| eauto].
    destruct (validate (structured_data normalized)) as [errors |]; [| eauto].
    destruct (attempt + 1 >? maxValidationRetries cfg + 1); [discriminate H |].
    eapply IH. exact H.
Qed.

Lemma invoke_returns_what_it_delivers (args : json) (cfg : Config) (w w' : World)
  (r : option StageResult) :
  invoke args cfg w = (Return r, w') ->
  exists normalized wN, deliver cfg normalized wN = (Return r, w').
Proof.
  unfold invoke. intros H.
  destruct (negb (validatePayload _)); [discriminate H |].
  apply bind_inv_Return in H. destruct H as (endpoint & w1 & _ & H).
  apply bind_inv_Return in H. destruct H as (validator & w2 & _ & H).
  eapply loop_returns_what_it_delivers. exact H.
Qed.

End Store.

End ReuseFacts.

(** X6.  Idempotent invocation.  On a store that gives back what was written
    under a key, take a call with a state key, with the file cache
    disabled and without refresh, whose environment comes with the context
    and whose input is already collected.  If the store held nothing under
    the key and the call returned, then the same call made again returns
    one item for each item of the first, in their order: an object with
    [source: 'run_state'] and [cached: true] whose other properties are
    exactly those of the first call's item.  It leaves the world as it
    found it: nothing is fetched or written. *)
Theorem second_call_reads_what_the_first_stored (platform : LlmTaskInvoke.Platform)
  (items : list json) (args : json) (ctx : Ctx) (e : Env)
  (cfg : LlmTaskInvoke.Config) (key : jsstring)
  (w w1 w2 w' : World) (r : option StageResult) :
  (forall (v : json) (wa wb : World),
      LlmTaskInvoke.writeStateJson e key v wa = (Return tt, wb) ->
      LlmTaskInvoke.readStateJson e key wb = (Return v, wb)) ->
  ctx_env ctx = Some e ->
  LlmTaskInvoke.configure (asStream items) args ctx w = (Return cfg, w1) ->
  LlmTaskInvoke.stateKey cfg = Some key ->
  LlmTaskInvoke.disableCache cfg = true ->
  LlmTaskInvoke.forceRefresh cfg = false ->
  LlmTaskInvoke.readStateJson e key w1 = (Return JNull, w2) ->
  LlmTaskInvoke.run (asStream items) args ctx w = (Return r, w') ->
  exists normalized again : list json,
    r = Some (mkStageResult (Some (asStream normalized)) false false)
    /\ LlmTaskInvoke.run (asStream items) args ctx w'
       = (Return (Some (mkStageResult (Some (asStream again)) false false)), w')
    /\ Forall2 (read_back "run_state") normalized again.
Proof.
  intros Hstore Henv Hcfg Hkey Hnocache Hrefresh Hread Hrun.
  assert (Hcfg' : forall wx, LlmTaskInvoke.configure (asStream items) args ctx wx
                             = (Return cfg, wx)).
  { intros wx. rewrite (ReuseFacts.configure_collected items args ctx e w wx Henv).
    rewrite Hcfg. reflexivity. }
  assert (Hw1 : w1 = w).
  { rewrite (Hcfg' w) in Hcfg. inversion Hcfg. reflexivity. }
  subst w1.
  assert (Henv_cfg : LlmTaskInvoke.env cfg = e).
  { clear - Hcfg Henv. unfold LlmTaskInvoke.configure in Hcfg. rewrite Henv in Hcfg.
    cbv beta zeta in Hcfg.
    repeat ConfigureFacts.configure_step Hcfg;
      unfold ret in Hcfg; inversion Hcfg; reflexivity. }
  unfold LlmTaskInvoke.run in Hrun. rewrite (bind_Return _ _ _ _ _ (Hcfg' w)) in Hrun.
  unfold LlmTaskInvoke.lookup_and_invoke in Hrun.
  rewrite Hkey, Hrefresh, Henv_cfg in Hrun. cbn [negb] in Hrun.
  rewrite (bind_Return _ _ _ w2 JNull) in Hrun
    by (apply try_catch_Return; exact Hread).
  cbn [LlmTaskInvoke.pickReusableState] in Hrun.
  unfold LlmTaskInvoke.after_run_state in Hrun. rewrite Hnocache in Hrun.
  cbn [negb andb] in Hrun.
  destruct (ReuseFacts.invoke_returns_what_it_delivers _ _ _ _ _ Hrun)
    as (normalized & wN & Hdeliver).
  unfold LlmTaskInvoke.deliver in Hdeliver. rewrite Hnocache in Hdeliver.
  cbn [negb] in Hdeliver.
  apply bind_inv_Return in Hdeliver. destruct Hdeliver as ([] & wP & Hpersist & Hk).
  unfold bind, ret in Hk. inversion Hk; subst r wP. clear Hk.
  exists normalized, (map (LlmTaskInvoke.from_store "run_state") normalized).
  split; [reflexivity |].
  split; [| apply ReadBackFacts.map_from_store_read_back].
  unfold LlmTaskInvoke.persistOutputs in Hpersist. rewrite Hkey, Henv_cfg in Hpersist.
  apply bind_inv_Return in Hpersist. destruct Hpersist as (storedAt & wT & _ & Hwrite).
  apply Hstore in Hwrite.
  unfold LlmTaskInvoke.run. rewrite (bind_Return _ _ _ _ _ (Hcfg' w')).
  unfold LlmTaskInvoke.lookup_and_invoke.
  rewrite Hkey, Hrefresh, Henv_cfg. cbn [negb].
  rewrite (bind_Return _ _ _ _ _ (try_catch_Return _ _ _ _ _ Hwrite)).
  match goal with
  | |- context [LlmTaskInvoke.pickReusableState ?stored ?k] =>
      rewrite (LlmFacts.pickReusableState_match stored k normalized
                 eq_refl eq_refl eq_refl)
  end.
  reflexivity.
Qed.

Lemma store_gives_back_what_was_written (env : Env) (key : jsstring) (v : json)
  (wa wb : World) :
  @LlmTaskInvoke.writeStateJson (Examples.example_platform Examples.steady) env key v wa
  = (Return tt, wb) ->
  @LlmTaskInvoke.readStateJson (Examples.example_platform Examples.steady) env key wb
  = (Return v, wb).
Proof.
  cbn [LlmTaskInvoke.writeStateJson LlmTaskInvoke.readStateJson Examples.example_platform].
  intros H. inversion H; subst. clear H.
  unfold Examples.record. cbn [w_effects].
  assert (Hlast : forall log, Examples.last_effect "writeState" key
                                (log ++ [Examples.effect "writeState" key v]) = Some v).
  { induction log as [| x log IH]; cbn [List.app Examples.last_effect].
    - assert (Hop : get (lit "op") (Examples.effect "writeState" key v)
                    = Some (JStr (lit "writeState"))) by reflexivity.
      assert (Hkey : get (lit "key") (Examples.effect "writeState" key v)
                     = Some (JStr key)) by reflexivity.
      assert (Hval : get (lit "value") (Examples.effect "writeState" key v) = Some v)
        by reflexivity.
      rewrite Hop, Hkey, Hval, !str_eqb_refl. reflexivity.
    - rewrite IH. reflexivity. }
  rewrite Hlast. reflexivity.
Qed.

(** X6 on a call under the state key [run123] with the file cache disabled:
    one request is sent in all, and the second call returns the item of
    the first with [source: 'run_state'] and [cached: true]. *)
Lemma second_uncached_call_fetches_nothing :
  Examples.count_effects "fetch" (w_effects after_uncached_call) = 1%nat
  /\ exists again : list json,
       @LlmTaskInvoke.run Examples.steady_platform Examples.foo_bar uncached_args
         Examples.tool_ctx after_uncached_call
       = (Return (Some (mkStageResult (Some (asStream again)) false false)),
          after_uncached_call)
       /\ Forall2 (read_back "run_state") uncached_items again
       /\ exists item : json,
            again = [item]
            /\ get (lit "source") item = Some (JStr (lit "run_state"))
            /\ get (lit "cached") item = Some (JBool true)
            /\ get (lit "runId") item = Some (JStr (lit "state_run"))
            /\ get (lit "output") item
               = Some (JObj [(lit "format", JStr (lit "json")); (lit "text", JNull);
                             (lit "data", JObj [(lit "ok", JBool true)])]).
Proof.
  split; [reflexivity |].
  destruct (second_call_reads_what_the_first_stored Examples.steady_platform
              [JObj [(lit "foo", JStr (lit "bar"))]] uncached_args Examples.tool_ctx
              Examples.no_env uncached_cfg (lit "run123")
              Examples.w0 Examples.w0 Examples.w0 after_uncached_call
              (Some (mkStageResult (Some (asStream uncached_items)) false false)))
    as (normalized & again & Hr & Hagain & Hall).
  - apply store_gives_back_what_was_written.
  - reflexivity.
  - vm_compute; reflexivity.
  - reflexivity.
  - reflexivity.
  - reflexivity.
  - reflexivity.
  - vm_compute; reflexivity.
  - inversion Hr as [Hout].
    assert (Hn : normalized = uncached_items).
    { assert (Hv : asStream uncached_items Examples.w0 = asStream normalized Examples.w0)
        by (rewrite Hout; reflexivity).
      unfold asStream, ret in Hv. inversion Hv. reflexivity. }
    rewrite Hn in Hall.
    exists again. split; [exact Hagain |]. split; [exact Hall |].
    unfold uncached_items in Hall.
    inversion Hall as [| first item rest_f rest Hitem Hrest]; subst.
    inversion Hrest; subst.
    destruct Hitem as (_ & Hsource & Hcached & Hother).
    exists item. split; [reflexivity |].
    split; [exact Hsource |]. split; [exact Hcached |].
    repeat split;
      (apply Hother; [discriminate | discriminate | reflexivity]).
Defined.

(** X7.  The file cache.  Take a call that passes the checks of [run], with the
    cache enabled, without refresh, and with no state key.  Let [path] be
    [<cache dir>/llm_task.invoke/<cacheKey>.json].
    - If the file at [path] holds JSON text of an object with an [items]
      array, the call returns one item for each of those items, in their
      order: an object with [source: 'cache'] and [cached: true] whose
      other properties are exactly those of the item in the file; nothing
      is fetched or written.
    - If reading [path] fails with code [ENOENT], the call goes on to the
      remote as it would without a cache.
    - If the file holds text that is not JSON, the call fails with the
      parser's error: the remote is not asked. *)
Theorem file_cache_lookup (platform : LlmTaskInvoke.Platform)
  (input : Stream) (args : json) (ctx : Ctx) (cfg : LlmTaskInvoke.Config)
  (dir : jsstring) (w w1 w2 : World) :
  LlmTaskInvoke.configure input args ctx w = (Return cfg, w1) ->
  LlmTaskInvoke.stateKey cfg = None ->
  LlmTaskInvoke.disableCache cfg = false ->
  LlmTaskInvoke.forceRefresh cfg = false ->
  LlmTaskInvoke.getCacheDir (LlmTaskInvoke.env cfg) w1 = (Return dir, w1) ->
  let path :=
    LlmTaskInvoke.path_join
      [dir; lit "llm_task.invoke"; LlmTaskInvoke.cacheKey cfg ++ lit ".json"] in
  (forall (text : jsstring) (cache : json) (items : list json),
      LlmTaskInvoke.readFile path w1 = (Return text, w2) ->
      JSON_parse text = Return cache ->
      get (lit "items") cache = Some (JArr items) ->
      exists out : list json,
        LlmTaskInvoke.run input args ctx w
        = (Return (Some (mkStageResult (Some (asStream out)) false false)), w2)
        /\ Forall2 (read_back "cache") items out)
  /\ (forall err : exn,
        LlmTaskInvoke.readFile path w1 = (Throw err, w2) ->
        err_code err = Some (lit "ENOENT") ->
        LlmTaskInvoke.run input args ctx w = LlmTaskInvoke.invoke args cfg w2)
  /\ (forall (text : jsstring) (err : exn),
        LlmTaskInvoke.readFile path w1 = (Return text, w2) ->
        JSON_parse text = Throw err ->
        LlmTaskInvoke.run input args ctx w = (Throw err, w2)).
Proof.
  intros Hcfg Hkey Hcache Hrefresh Hdir path.
  assert (Hrun : LlmTaskInvoke.run input args ctx w
                 = (cache <- LlmTaskInvoke.readCacheEntry (LlmTaskInvoke.env cfg)
                               (LlmTaskInvoke.cacheKey cfg) ;;
                    if truthy (Some cache) then
                      items <- lift (LlmTaskInvoke.cache_items cache) ;;
                      ret (Some (mkStageResult
                                   (Some (asStream (map (LlmTaskInvoke.from_store "cache") items)))
                                   false false))
                    else LlmTaskInvoke.invoke args cfg) w1).
  { unfold LlmTaskInvoke.run. rewrite (bind_Return _ _ _ _ _ Hcfg).
    unfold LlmTaskInvoke.lookup_and_invoke, LlmTaskInvoke.after_run_state.
    rewrite Hkey, Hcache, Hrefresh. reflexivity. }
  assert (Hentry : LlmTaskInvoke.readCacheEntry (LlmTaskInvoke.env cfg)
                     (LlmTaskInvoke.cacheKey cfg) w1
                   = try_catch
                       (text <- LlmTaskInvoke.readFile path ;; lift (JSON_parse text))
                       (fun err => if LlmTaskInvoke.is_ENOENT err then ret JNull
                                   else throw err) w1).
  { unfold LlmTaskInvoke.readCacheEntry. rewrite (bind_Return _ _ _ _ _ Hdir).
    reflexivity. }
  split; [| split].
  - intros text cache items Hread Hparse Hitems.
    exists (map (LlmTaskInvoke.from_store "cache") items).
    split; [| apply ReadBackFacts.map_from_store_read_back].
    rewrite Hrun.
    rewrite (bind_Return _ _ _ w2 cache).
    + assert (Htruthy : truthy (Some cache) = true).
      { destruct cache; try discriminate Hitems; reflexivity. }
      rewrite Htruthy. unfold LlmTaskInvoke.cache_items. rewrite Hitems. reflexivity.
    + rewrite Hentry. apply try_catch_Return.
      rewrite (bind_Return _ _ _ _ _ Hread). unfold lift. rewrite Hparse. reflexivity.
  - intros err Hread Hcode.
    rewrite Hrun.
    rewrite (bind_Return _ _ _ w2 JNull); [reflexivity |].
    rewrite Hentry.
    rewrite (try_catch_Throw _ _ _ w2 err) by (apply bind_Throw; exact Hread).
    unfold LlmTaskInvoke.is_ENOENT. rewrite Hcode, str_eqb_refl. reflexivity.
  - intros text err Hread Hparse.
    rewrite Hrun. apply bind_Throw.
    rewrite Hentry.
    rewrite (try_catch_Throw _ _ _ w2 err).
    + assert (Hnone : LlmTaskInvoke.is_ENOENT err = false).
      { unfold JSON_parse in Hparse.
        destruct (parse_value _ _) as [[v rest] |];
          [destruct (skip_ws rest) |]; inversion Hparse; reflexivity. }
      rewrite Hnone. reflexivity.
    + rewrite (bind_Return _ _ _ _ _ Hread). unfold lift. rewrite Hparse. reflexivity.
Qed.

(** X7 on a second call after a first one has filled the cache, and on a
    cache file that was cut short. *)
Lemma cache_hit_and_torn_cache :
  Examples.count_effects "fetch" (w_effects after_plain_call) = 1%nat
  /\ (exists out : list json,
        @LlmTaskInvoke.run Examples.steady_platform Examples.foo_bar plain_args
          Examples.tool_ctx after_plain_call
        = (Return (Some (mkStageResult (Some (asStream out)) false false)),
           after_plain_call)
        /\ Forall2 (read_back "cache") cached_items out
        /\ exists item : json,
             out = [item]
             /\ get (lit "source") item = Some (JStr (lit "cache"))
             /\ get (lit "cached") item = Some (JBool true)
             /\ get (lit "runId") item = Some (JStr (lit "state_run"))
             /\ get (lit "output") item
                = Some (JObj [(lit "format", JStr (lit "json")); (lit "text", JNull);
                              (lit "data", JObj [(lit "ok", JBool true)])]))
  /\ @LlmTaskInvoke.run Examples.steady_platform Examples.foo_bar plain_args
       Examples.tool_ctx Examples.w0
     = @LlmTaskInvoke.invoke Examples.steady_platform plain_args plain_cfg Examples.w0
  /\ exists err : exn,
       err_kind err = KSyntaxError
       /\ @LlmTaskInvoke.run Examples.steady_platform Examples.foo_bar plain_args
            Examples.tool_ctx torn_cache
          = (Throw err, torn_cache).
Proof.
  split; [reflexivity |]. split; [| split].
  - destruct (proj1 (file_cache_lookup Examples.steady_platform Examples.foo_bar
                       plain_args Examples.tool_ctx plain_cfg (lit "/work/.lobster-cache")
                       after_plain_call after_plain_call after_plain_call
                       ltac:(vm_compute; reflexivity) eq_refl eq_refl eq_refl eq_refl)
                cache_text cache_file cached_items
                ltac:(vm_compute; reflexivity) ltac:(vm_compute; reflexivity)
                ltac:(vm_compute; reflexivity))
      as (out & Hrun & Hall).
    exists out. split; [exact Hrun |]. split; [exact Hall |].
    unfold cached_items in Hall.
    inversion Hall as [| first item rest_f rest Hitem Hrest]; subst.
    inversion Hrest; subst.
    destruct Hitem as (_ & Hsource & Hcached & Hother).
    exists item. split; [reflexivity |].
    split; [exact Hsource |]. split; [exact Hcached |].
    repeat split;
      (apply Hother; [discriminate | discriminate | reflexivity]).
  - apply (proj1 (proj2 (file_cache_lookup Examples.steady_platform Examples.foo_bar
                    plain_args Examples.tool_ctx plain_cfg (lit "/work/.lobster-cache")
                    Examples.w0 Examples.w0 Examples.w0
                    ltac:(vm_compute; reflexivity) eq_refl eq_refl eq_refl eq_refl))
             Examples.enoent);
      vm_compute; reflexivity.
  - eexists. split; [| apply (proj2 (proj2 (file_cache_lookup Examples.steady_platform
                    Examples.foo_bar
                    plain_args Examples.tool_ctx plain_cfg (lit "/work/.lobster-cache")
                    torn_cache torn_cache torn_cache
                    ltac:(vm_compute; reflexivity) eq_refl eq_refl eq_refl eq_refl))
             (lit "{ items: "));
      vm_compute; reflexivity].
    reflexivity.
Defined.

(** X8.  Only a rejected schema is retried.  In the direct transport, when the
    remote answers an attempt with a status that is not ok, or with an
    envelope whose [ok] is [false], the loop ends at that attempt with
    [llm_task.invoke request failed: <status> <statusText>: <text>] or
    [llm_task.invoke remote error: <message>], however many validation
    retries are allowed. *)
Theorem remote_failures_are_not_retried (platform : LlmTaskInvoke.Platform)
  (cfg : LlmTaskInvoke.Config) (endpoint : LlmTaskInvoke.URL) (token : jsstring)
  (validator : option (json -> option (list LlmTaskInvoke.ErrorObject)))
  (payload : list (jsstring * json)) (fuel : nat) (attempt : Z)
  (errs : list jsstring) (res : LlmTaskInvoke.Response) (w w' : World) :
  LlmTaskInvoke.transport cfg = LlmTaskInvoke.direct ->
  LlmTaskInvoke.fetch endpoint (LlmTaskInvoke.headers token)
    (JSON_stringify (JObj (LlmTaskInvoke.attempt_payload payload (attempt + 1) errs))) w
  = (Return res, w') ->
  (LlmTaskInvoke.res_ok res = false ->
   LlmTaskInvoke.invoke_loop (S fuel) cfg endpoint token validator payload attempt errs w
   = (Throw (newError (lit "llm_task.invoke request failed: "
                       ++ int_chars (LlmTaskInvoke.res_status res) ++ lit " "
                       ++ LlmTaskInvoke.res_statusText res ++ lit ": "
                       ++ firstn 400 (LlmTaskInvoke.res_text res))), w'))
  /\ (forall (envelope : json) (message : jsstring),
        LlmTaskInvoke.res_ok res = true ->
        LlmTaskInvoke.res_text res <> [] ->
        JSON_parse (LlmTaskInvoke.res_text res) = Return envelope ->
        LlmTaskInvoke.validateResponseEnvelope envelope = true ->
        get (lit "ok") envelope = Some (JBool false) ->
        oget (lit "message") (get (lit "error") envelope) = Some (JStr message) ->
        LlmTaskInvoke.invoke_loop (S fuel) cfg endpoint token validator payload attempt errs w
        = (Throw (newError (lit "llm_task.invoke remote error: " ++ message)), w')).
Proof.
  intros Hdirect Hfetch. split.
  - intros Hbad. cbn [LlmTaskInvoke.invoke_loop].
    apply bind_Throw. unfold LlmTaskInvoke.one_attempt. rewrite Hdirect.
    apply bind_Throw.
    erewrite try_catch_Throw.
    2:{ unfold LlmTaskInvoke.invokeRemoteDirect.
        rewrite (bind_Return _ _ _ _ _ Hfetch). rewrite Hbad. reflexivity. }
    reflexivity.
  - intros envelope message Hok Htext Hparse Hvalid Hfalse Hmsg.
    cbn [LlmTaskInvoke.invoke_loop].
    apply bind_Throw. unfold LlmTaskInvoke.one_attempt. rewrite Hdirect.
    rewrite (bind_Return _ _ _ w' envelope).
    + rewrite Hvalid, Hfalse. cbn [negb]. unfold LlmTaskInvoke.message_or.
      rewrite Hmsg. reflexivity.
    + apply try_catch_Return. unfold LlmTaskInvoke.invokeRemoteDirect.
      rewrite (bind_Return _ _ _ _ _ Hfetch). rewrite Hok. cbn [negb].
      destruct (LlmTaskInvoke.res_text res) as [| c t] eqn:Et; [congruence |].
      unfold lift. rewrite Hparse. reflexivity.
Qed.

(** X8 on a remote that answers 503 and on one that refuses with a message.
    *)
Lemma down_and_refusing_remotes :
  fst (@LlmTaskInvoke.invoke_loop (Examples.example_platform down) 3
         Examples.decide_cfg Examples.decide_endpoint []
         (Some (Examples.required_keys Examples.decision_schema))
         Examples.decide_payload 0 [] Examples.w0)
  = Throw (newError
             (lit "llm_task.invoke request failed: 503 Service Unavailable: try later"))
  /\ fst (@LlmTaskInvoke.invoke_loop (Examples.example_platform refusing) 3
            Examples.decide_cfg Examples.decide_endpoint []
            (Some (Examples.required_keys Examples.decision_schema))
            Examples.decide_payload 0 [] Examples.w0)
     = Throw (newError (lit "llm_task.invoke remote error: quota exceeded")).
Proof.
  split.
  - rewrite (proj1 (remote_failures_are_not_retried (Examples.example_platform down)
               Examples.decide_cfg Examples.decide_endpoint []
               (Some (Examples.required_keys Examples.decision_schema))
               Examples.decide_payload 2 0 [] (down 0) Examples.w0
               (snd (@LlmTaskInvoke.fetch (Examples.example_platform down)
                       Examples.decide_endpoint (LlmTaskInvoke.headers [])
                       (JSON_stringify (JObj (LlmTaskInvoke.attempt_payload
                                                Examples.decide_payload 1 [])))
                       Examples.w0))
               eq_refl eq_refl) eq_refl).
    reflexivity.
  - rewrite (proj2 (remote_failures_are_not_retried (Examples.example_platform refusing)
               Examples.decide_cfg Examples.decide_endpoint []
               (Some (Examples.required_keys Examples.decision_schema))
               Examples.decide_payload 2 0 [] (refusing 0) Examples.w0
               (snd (@LlmTaskInvoke.fetch (Examples.example_platform refusing)
                       Examples.decide_endpoint (LlmTaskInvoke.headers [])
                       (JSON_stringify (JObj (LlmTaskInvoke.attempt_payload
                                                Examples.decide_payload 1 [])))
                       Examples.w0))
               eq_refl eq_refl)
               (JObj [(lit "ok", JBool false);
                      (lit "error", JObj [(lit "message", JStr (lit "quota exceeded"))])])
               (lit "quota exceeded")).
    + reflexivity.
    + reflexivity.
    + vm_compute. discriminate.
    + vm_compute. reflexivity.
    + reflexivity.
    + reflexivity.
    + reflexivity.
Defined.

(** X9.  [normalizeArtifact] always gives an object, leaves an object as it is,
    and so changes nothing when applied again; what it makes of a value
    that is no object (a string, a number, a boolean, [null], an array)
    satisfies [artifactSchema]. *)
Theorem normalizeArtifact_gives_objects (raw : json) :
  (exists l, LlmTaskInvoke.normalizeArtifact raw = JObj l)
  /\ LlmTaskInvoke.normalizeArtifact (LlmTaskInvoke.normalizeArtifact raw)
     = LlmTaskInvoke.normalizeArtifact raw
  /\ (forall l, LlmTaskInvoke.normalizeArtifact (JObj l) = JObj l)
  /\ (LlmTaskInvoke.normalizeArtifact raw = raw
      \/ LlmTaskInvoke.conforms LlmTaskInvoke.artifactSchema
           (LlmTaskInvoke.normalizeArtifact raw) = true).
Proof.
  split; [| split; [| split]].
  - destruct raw; eexists; reflexivity.
  - destruct raw; reflexivity.
  - reflexivity.
  - destruct raw; try (right; reflexivity). left. reflexivity.
Qed.

(** X10.  The checks of [run] on its arguments come before anything else: with no
    URL at all, with no prompt, or in direct mode with no model, the call
    fails with the matching message in the world it started in -- the
    input has not been read and nothing was looked up or fetched. *)
Theorem llm_task_argument_errors (platform : LlmTaskInvoke.Platform)
  (input : Stream) (args : json) (ctx : Ctx) (w : World) :
  let env := match ctx_env ctx with Some e => e | None => w_env w end in
  let baseUrl :=
    LlmTaskInvoke.string_or_empty
      (coalesce (get (lit "url") args) (LlmTaskInvoke.env_get env "LLM_TASK_URL")) in
  let clawdUrl :=
    LlmTaskInvoke.string_or_empty (LlmTaskInvoke.env_get env "CLAWD_URL") in
  let model :=
    LlmTaskInvoke.string_or_empty
      (coalesce (get (lit "model") args) (LlmTaskInvoke.env_get env "LLM_TASK_MODEL")) in
  (baseUrl = [] -> clawdUrl = [] ->
   LlmTaskInvoke.run input args ctx w
   = (Throw (newError (lit "llm_task.invoke requires either LLM_TASK_URL/--url (direct) or CLAWD_URL (Clawdbot)")), w))
  /\ (baseUrl ++ clawdUrl <> [] ->
      LlmTaskInvoke.extractPrompt args = [] ->
      LlmTaskInvoke.run input args ctx w
      = (Throw (newError (lit "llm_task.invoke requires --prompt or positional text")), w))
  /\ (baseUrl <> [] ->
      LlmTaskInvoke.extractPrompt args <> [] ->
      model = [] ->
      LlmTaskInvoke.run input args ctx w
      = (Throw (newError (lit "llm_task.invoke requires --model (or LLM_TASK_MODEL) in direct mode")), w)).
Proof.
  intros env baseUrl clawdUrl model.
  unfold LlmTaskInvoke.run.
  split; [| split].
  - intros Hb Hc. apply bind_Throw. unfold LlmTaskInvoke.configure. cbv zeta.
    fold env. fold baseUrl. fold clawdUrl. rewrite Hb, Hc. reflexivity.
  - intros Hurl Hp. apply bind_Throw. unfold LlmTaskInvoke.configure. cbv zeta.
    fold env. fold baseUrl. fold clawdUrl. rewrite Hp.
    destruct baseUrl; destruct clawdUrl; try reflexivity. contradiction.
  - intros Hb Hp Hm. apply bind_Throw. unfold LlmTaskInvoke.configure. cbv zeta.
    fold env. fold baseUrl. fold clawdUrl. fold model. rewrite Hm.
    destruct baseUrl; [contradiction |].
    destruct (LlmTaskInvoke.extractPrompt args); [contradiction |].
    destruct clawdUrl; reflexivity.
Qed.

(** X10 on calls without a URL, without a prompt and without a model. *)
Lemma llm_task_calls_with_arguments_missing :
  @LlmTaskInvoke.run Examples.steady_platform Examples.foo_bar
    (JObj [(lit "prompt", JStr (lit "Do thing"))]) Examples.tool_ctx Examples.w0
  = (Throw (newError (lit "llm_task.invoke requires either LLM_TASK_URL/--url (direct) or CLAWD_URL (Clawdbot)")), Examples.w0)
  /\ @LlmTaskInvoke.run Examples.steady_platform Examples.foo_bar
       (JObj [(lit "_", JArr []); (lit "url", JStr (lit "http://llm"))])
       Examples.tool_ctx Examples.w0
     = (Throw (newError (lit "llm_task.invoke requires --prompt or positional text")),
        Examples.w0)
  /\ @LlmTaskInvoke.run Examples.steady_platform Examples.foo_bar
       (JObj [(lit "_", JArr [JStr (lit "Do"); JStr (lit "thing")]);
              (lit "url", JStr (lit "http://llm"))])
       Examples.tool_ctx Examples.w0
     = (Throw (newError (lit "llm_task.invoke requires --model (or LLM_TASK_MODEL) in direct mode")), Examples.w0).
Proof.
  split; [| split].
  - apply (proj1 (llm_task_argument_errors Examples.steady_platform Examples.foo_bar
                    (JObj [(lit "prompt", JStr (lit "Do thing"))])
                    Examples.tool_ctx Examples.w0)); reflexivity.
  - apply (proj1 (proj2 (llm_task_argument_errors Examples.steady_platform
                           Examples.foo_bar
                           (JObj [(lit "_", JArr []); (lit "url", JStr (lit "http://llm"))])
                           Examples.tool_ctx Examples.w0)));
      [vm_compute; discriminate | reflexivity].
  - apply (proj2 (proj2 (llm_task_argument_errors Examples.steady_platform
                           Examples.foo_bar
                           (JObj [(lit "_", JArr [JStr (lit "Do"); JStr (lit "thing")]);
                                  (lit "url", JStr (lit "http://llm"))])
                           Examples.tool_ctx Examples.w0)));
      [vm_compute; discriminate | vm_compute; discriminate | reflexivity].
Defined.

Module PayloadFacts.
Import LlmTaskInvoke PayloadVocabulary.

Lemma parseJsonObject_shape (raw : option json) (label : jsstring) (v : option json) :
  parseJsonObject raw label = Return v -> object_or_none v.
Proof.
  unfold parseJsonObject. destruct raw as [r |]; [| intros H; inversion H; exact I].
  destruct (truthy (Some r)); [| intros H; inversion H; exact I].
  unfold otry, obind. destruct (JSON_parse (to_String r)) as [parsed | | |];
    try discriminate.
  destruct parsed; try discriminate. intros H. inversion H. exact I.
Qed.

Lemma string_to_number_shape (s : jsstring) (v : option json) :
  string_to_number s = Return v -> number_or_none v.
Proof.
  unfold string_to_number. destruct (trim s) as [| c s'].
  - intros H. inversion H. exact I.
  - destruct (parse_number (c :: s')) as [[[] []] |];
      try (destruct (_ || _); [discriminate | intros H; inversion H; exact I]).
    + intros H; inversion H; exact I.
    + intros H; inversion H; exact I.
    + intros H; inversion H; exact I.
Qed.

Lemma parseOptionalNumber_shape (value v : option json) :
  parseOptionalNumber value = Return v -> number_or_none v.
Proof.
  unfold parseOptionalNumber. destruct (nullish value).
  - intros H. inversion H. exact I.
  - destruct value as [[] |]; cbn [to_Number];
      try (intros H; inversion H; exact I);
      try apply string_to_number_shape.
Qed.

Section WithPlatform.
Context {platform : Platform}.

(** What [configure] guarantees about the configuration it returns. *)
Lemma configure_shapes (input : Stream) (args : json) (ctx : Ctx) (cfg : Config)
  (w w' : World) :
  configure input args ctx w = (Return cfg, w') ->
  prompt cfg <> []
  /\ object_or_none (metadataObject cfg)
  /\ object_or_none (userOutputSchema cfg)
  /\ number_or_none (maxOutputTokens cfg)
  /\ number_or_none (temperature cfg).
Proof.
  intros H. unfold configure in H. cbv beta zeta in H.
  repeat ConfigureFacts.configure_step H;
    unfold ret in H; inversion H; subst; clear H;
    cbn [prompt metadataObject userOutputSchema maxOutputTokens temperature];
    repeat split;
    first [ congruence
          | eapply parseJsonObject_shape; eassumption
          | eapply parseOptionalNumber_shape; eassumption ].
Qed.

End WithPlatform.

Lemma conforms_SObject (properties : list (jsstring * Schema))
  (required : list jsstring) (additionalProperties : bool)
  (l : list (jsstring * json)) :
  conforms (SObject properties required additionalProperties) (JObj l)
  = forallb (fun k => has_key k l) required &&
    (fix members (props : list (jsstring * Schema)) : bool :=
       match props with
       | [] => true
       | (k, ps) :: props' =>
           match assoc k l with
           | Some x => conforms ps x
           | None => true
           end && members props'
       end) properties &&
    (additionalProperties ||
     forallb (fun kv =>
                match lookup_schema (fst kv) properties with
                | Some _ => true
                | None => false
                end) l).
Proof. reflexivity. Qed.

Lemma conforms_any_object (l : list (jsstring * json)) :
  conforms (SObject [] [] true) (JObj l) = true.
Proof. reflexivity. Qed.

Lemma conforms_string (s : jsstring) : conforms (SType TString 0) (JStr s) = true.
Proof. reflexivity. Qed.

Lemma conforms_number (v : json) :
  number_or_none (Some v) -> conforms (SType TNumber 0) v = true.
Proof. destruct v; cbn; intros H; try contradiction; reflexivity. Qed.

Lemma code_points_nonempty (c : Z) (s : jsstring) :
  (1 <= List.length (SdkRuntime.code_points (c :: s)))%nat.
Proof.
  cbn [SdkRuntime.code_points]. destruct s as [| d s]; [simpl; lia |].
  destruct (is_high c && is_low d); simpl; lia.
Qed.

End PayloadFacts.

(** X11.  The typed payload check.  For a call that passes the checks of [run] on
    its arguments, the payload built from the configuration satisfies
    [payloadSchema] whenever every normalized artifact satisfies
    [artifactSchema] and every artifact hash has ten characters or more.
    When the payload does not satisfy the schema, [run] goes no further
    than the check: it throws [llm_task.invoke payload invalid: ...] and
    asks no remote. *)
Theorem payload_check (platform : LlmTaskInvoke.Platform)
  (input : Stream) (args : json) (ctx : Ctx) (cfg : LlmTaskInvoke.Config)
  (w w1 : World) :
  LlmTaskInvoke.configure input args ctx w = (Return cfg, w1) ->
  (Forall (fun a => LlmTaskInvoke.conforms LlmTaskInvoke.artifactSchema a = true)
     (LlmTaskInvoke.normalizedArtifacts cfg) ->
   Forall (fun h => (10 <= LlmTaskInvoke.code_point_length h)%nat)
     (LlmTaskInvoke.artifactHashes cfg) ->
   LlmTaskInvoke.validatePayload (JObj (PayloadVocabulary.payload_of cfg)) = true)
  /\ (forall w2 : World,
        LlmTaskInvoke.validatePayload (JObj (PayloadVocabulary.payload_of cfg)) = false ->
        LlmTaskInvoke.invoke args cfg w2
        = (Throw (newError (lit "llm_task.invoke payload invalid: " ++
                            LlmTaskInvoke.payload_errorsText
                              (JObj (PayloadVocabulary.payload_of cfg)))), w2)).
Proof.
  intros Hcfg. split.
  - intros Hart Hhash.
    destruct (PayloadFacts.configure_shapes _ _ _ _ _ _ Hcfg)
      as (Hprompt & Hmeta & Hschema & Htokens & Htemp).
    assert (Ha : LlmTaskInvoke.conforms (LlmTaskInvoke.SArrayOf LlmTaskInvoke.artifactSchema)
                   (JArr (LlmTaskInvoke.normalizedArtifacts cfg)) = true).
    { cbn [LlmTaskInvoke.conforms]. apply forallb_forall.
      rewrite Forall_forall in Hart. exact Hart. }
    assert (Hh : LlmTaskInvoke.conforms
                   (LlmTaskInvoke.SArrayOf (LlmTaskInvoke.SType LlmTaskInvoke.TString 10))
                   (JArr (map JStr (LlmTaskInvoke.artifactHashes cfg))) = true).
    { cbn [LlmTaskInvoke.conforms]. apply forallb_forall. intros x Hx.
      apply in_map_iff in Hx. destruct Hx as (h & <- & Hin).
      rewrite Forall_forall in Hhash.
      cbn [LlmTaskInvoke.has_type andb]. apply Nat.leb_le. apply Hhash. exact Hin. }
    assert (Hp : LlmTaskInvoke.conforms (LlmTaskInvoke.SType LlmTaskInvoke.TString 1)
                   (JStr (LlmTaskInvoke.prompt cfg)) = true).
    { destruct (LlmTaskInvoke.prompt cfg) as [| c p]; [congruence |].
      cbn [LlmTaskInvoke.conforms LlmTaskInvoke.has_type andb].
      apply Nat.leb_le. apply PayloadFacts.code_points_nonempty. }
    assert (Hm : forall c m, LlmTaskInvoke.conforms
                               (LlmTaskInvoke.SType LlmTaskInvoke.TString 1)
                               (JStr (c :: m)) = true).
    { intros c m. cbn [LlmTaskInvoke.conforms LlmTaskInvoke.has_type andb].
      apply Nat.leb_le. apply PayloadFacts.code_points_nonempty. }
    unfold LlmTaskInvoke.validatePayload, PayloadVocabulary.payload_of,
      LlmTaskInvoke.payloadSchema.
    rewrite PayloadFacts.conforms_SObject.
    generalize dependent (LlmTaskInvoke.prompt cfg). intros prompt _ Hp.
    generalize dependent (LlmTaskInvoke.normalizedArtifacts cfg). intros arts _ Ha.
    generalize dependent (map JStr (LlmTaskInvoke.artifactHashes cfg)). intros hashes Hh.
    destruct (LlmTaskInvoke.model cfg) as [| cm m];
      [| specialize (Hm cm m)];
      destruct (LlmTaskInvoke.metadataObject cfg) as [[] |]; try contradiction;
      destruct (LlmTaskInvoke.userOutputSchema cfg) as [[] |]; try contradiction;
      destruct (LlmTaskInvoke.schemaVersion cfg) as [| cv v];
      destruct (LlmTaskInvoke.maxOutputTokens cfg) as [t |];
      destruct (LlmTaskInvoke.temperature cfg) as [d |];
      try (pose proof (PayloadFacts.conforms_number _ Htokens) as Ht);
      try (pose proof (PayloadFacts.conforms_number _ Htemp) as Hd);
      lazy -[LlmTaskInvoke.conforms LlmTaskInvoke.artifactSchema];
      rewrite ?Hp, ?Hm, ?Ha, ?Hh, ?Ht, ?Hd,
        ?PayloadFacts.conforms_any_object, ?PayloadFacts.conforms_string;
      reflexivity.
  - intros w2 Hbad. unfold LlmTaskInvoke.invoke.
    fold (PayloadVocabulary.payload_of cfg). rewrite Hbad. reflexivity.
Qed.

(** X11 on a call without artifacts, and on a call whose input item has a
    number for its [kind]. *)
Lemma payload_check_of_a_text_and_of_an_odd_artifact :
  LlmTaskInvoke.validatePayload
    (JObj (PayloadVocabulary.payload_of Examples.decide_cfg)) = true
  /\ @LlmTaskInvoke.invoke Examples.decision_platform (JObj Examples.decide_args)
       odd_cfg Examples.w0
     = (Throw (newError (lit "llm_task.invoke payload invalid: data is invalid")),
        Examples.w0).
Proof.
  split.
  - assert (Hcfg : @LlmTaskInvoke.configure Examples.decision_platform (asStream [])
                     (JObj Examples.decide_args) Examples.tool_ctx Examples.w0
                   = (Return Examples.decide_cfg, Examples.w0))
      by (vm_compute; reflexivity).
    destruct (payload_check Examples.decision_platform (asStream [])
                (JObj Examples.decide_args) Examples.tool_ctx Examples.decide_cfg
                Examples.w0 Examples.w0 Hcfg) as [Hvalid _].
    apply Hvalid.
    + vm_compute. repeat constructor.
    + vm_compute. repeat constructor.
  - assert (Hcfg : @LlmTaskInvoke.configure Examples.decision_platform
                     (asStream [odd_artifact]) (JObj Examples.decide_args)
                     Examples.tool_ctx Examples.w0
                   = (Return odd_cfg, Examples.w0))
      by (vm_compute; reflexivity).
    destruct (payload_check Examples.decision_platform (asStream [odd_artifact])
                (JObj Examples.decide_args) Examples.tool_ctx odd_cfg
                Examples.w0 Examples.w0 Hcfg) as [_ Hinvalid].
    apply (Hinvalid Examples.w0). vm_compute. reflexivity.
Defined.

Module EndpointFacts.
Import LlmTaskInvoke EndpointVocabulary.

Lemma collapse_slashes_start (s : jsstring) :
  starts_with_slash (collapse_slashes s) = starts_with_slash s.
Proof.
  induction s as [| c s IH]; [reflexivity |].
  cbn [collapse_slashes]. destruct (c =? 47) eqn:Ec; [| cbn; congruence].
  destruct s as [| d s]; [cbn; congruence |].
  destruct (d =? 47) eqn:Ed; [| cbn; congruence].
  rewrite IH. cbn [starts_with_slash]. congruence.
Qed.

Lemma collapse_slashes_single (s : jsstring) :
  double_slash (collapse_slashes s) = false.
Proof.
  induction s as [| c s IH]; [reflexivity |].
  cbn [collapse_slashes]. destruct (c =? 47) eqn:Ec.
  - destruct s as [| d s]; [cbn; rewrite Ec; reflexivity |].
    destruct (d =? 47) eqn:Ed; [exact IH |].
    cbn [double_slash]. rewrite collapse_slashes_start, IH.
    cbn [starts_with_slash]. rewrite Ed, andb_false_r. reflexivity.
  - cbn [double_slash]. rewrite Ec, IH. reflexivity.
Qed.

Lemma collapse_slashes_same (s : jsstring) :
  double_slash s = false -> collapse_slashes s = s.
Proof.
  induction s as [| c s IH]; [reflexivity |].
  cbn [double_slash]. intros H. apply orb_false_iff in H. destruct H as [Hc Hrest].
  cbn [collapse_slashes]. rewrite (IH Hrest).
  destruct (c =? 47); [| reflexivity].
  destruct s as [| d s]; [reflexivity |].
  cbn [andb starts_with_slash] in Hc. rewrite Hc. reflexivity.
Qed.

Lemma double_slash_app (a b : jsstring) :
  double_slash (a ++ b) = false -> double_slash a = false /\ double_slash b = false.
Proof.
  induction a as [| c a IH]; [intros H; split; [reflexivity | exact H] |].
  cbn [List.app double_slash]. intros H. apply orb_false_iff in H.
  destruct H as [Hc Hrest]. destruct (IH Hrest) as [Ha Hb].
  split; [| exact Hb]. rewrite Ha, orb_false_r.
  destruct (c =? 47); [| reflexivity]. cbn [andb] in *.
  destruct a as [| d a]; [reflexivity | exact Hc].
Qed.

Lemma starts_with_slash_app (x y : jsstring) :
  x <> [] -> starts_with_slash (x ++ y) = starts_with_slash x.
Proof. destruct x; [congruence | reflexivity]. Qed.

Lemma rev_cons_nonempty (d : Z) (a : jsstring) : List.rev (d :: a) <> [].
Proof.
  intros H. apply (f_equal (@List.length Z)) in H.
  rewrite length_rev in H. discriminate.
Qed.

Lemma double_slash_join (a b : jsstring) :
  double_slash a = false -> double_slash b = false ->
  starts_with_slash (List.rev a) = false \/ starts_with_slash b = false ->
  double_slash (a ++ b) = false.
Proof.
  induction a as [| c a IH]; intros Ha Hb Hjoin; [exact Hb |].
  cbn [double_slash] in Ha. apply orb_false_iff in Ha. destruct Ha as [Hc Ha].
  cbn [List.app double_slash]. destruct a as [| d a].
  - cbn [List.app]. rewrite Hb, orb_false_r.
    destruct Hjoin as [Hjoin | Hjoin]; [cbn in Hjoin | ]; rewrite Hjoin;
      [reflexivity | apply andb_false_r].
  - rewrite IH; [| exact Ha | exact Hb |].
    + rewrite orb_false_r. exact Hc.
    + destruct Hjoin as [Hjoin | Hjoin]; [left | right; exact Hjoin].
      change (List.rev (c :: d :: a)) with (List.rev (d :: a) ++ [c]) in Hjoin.
      rewrite (starts_with_slash_app _ _ (rev_cons_nonempty d a)) in Hjoin.
      exact Hjoin.
Qed.

(** Collapsing leaves a tail alone that starts with a slash and has no
    two in a row; the text before the tail keeps its start. *)
Lemma collapse_slashes_tail (a t : jsstring) :
  double_slash (47 :: t) = false ->
  exists front, collapse_slashes (a ++ 47 :: t) = front ++ 47 :: t.
Proof.
  intros Ht. induction a as [| c a (front & IH)].
  - exists []. apply (collapse_slashes_same (47 :: t) Ht).
  - cbn [List.app collapse_slashes]. destruct (c =? 47) eqn:Ec.
    + destruct (a ++ 47 :: t) as [| d r] eqn:E; [destruct a; discriminate |].
      destruct (d =? 47).
      * exists front. exact IH.
      * exists (c :: front). cbn [List.app]. rewrite IH. reflexivity.
    + exists (c :: front). cbn [List.app]. rewrite IH. reflexivity.
Qed.

Lemma collapse_slashes_skip (s : jsstring) :
  collapse_slashes (47 :: skip_slashes s) = collapse_slashes (47 :: s).
Proof.
  induction s as [| d s IH]; [reflexivity |].
  cbn [skip_slashes]. destruct (d =? 47) eqn:Ed; [| reflexivity].
  apply Z.eqb_eq in Ed. subst d. rewrite IH. reflexivity.
Qed.

(** Collapsing every run of slashes undoes nothing of collapsing the
    first. *)
Lemma collapse_slashes_first (s : jsstring) :
  collapse_slashes (collapse_first s) = collapse_slashes s.
Proof.
  induction s as [| c s IH]; [reflexivity |].
  cbn [collapse_first]. destruct (c =? 47) eqn:Ec.
  - apply Z.eqb_eq in Ec. subst c. apply collapse_slashes_skip.
  - cbn [collapse_slashes]. rewrite Ec, IH. reflexivity.
Qed.

End EndpointFacts.

Import EndpointVocabulary.

(** X12.  The endpoint of the direct transport.  When the base URL parses to
    a URL with an opaque path (as [mailto:] and [data:] URLs do), both
    assignments to its pathname do nothing and the endpoint is the base as
    it was parsed.  For any other base that parses, the endpoint has its
    origin, its search and its hash; its path ends in [/tool/invoke] and
    has no two slashes in a row, whatever the path of the base; and when
    the path of the base has no two slashes in a row, the endpoint's path
    is that path, without the slash at its end if it has one, followed by
    [/tool/invoke].  When the base URL does not parse, the TypeError of
    [new URL] comes out. *)
Theorem buildDirectEndpoint_path (platform : LlmTaskInvoke.Platform)
  (baseUrl : jsstring) :
  match LlmTaskInvoke.parse_URL baseUrl with
  | None =>
      LlmTaskInvoke.buildDirectEndpoint baseUrl = Throw LlmTaskInvoke.invalid_URL
  | Some base =>
      if LlmTaskInvoke.url_opaque base then
        LlmTaskInvoke.buildDirectEndpoint baseUrl = Return base
      else
        exists (endpoint : LlmTaskInvoke.URL) (front : jsstring),
          LlmTaskInvoke.buildDirectEndpoint baseUrl = Return endpoint
          /\ LlmTaskInvoke.url_origin endpoint = LlmTaskInvoke.url_origin base
          /\ LlmTaskInvoke.url_tail endpoint = LlmTaskInvoke.url_tail base
          /\ LlmTaskInvoke.url_opaque endpoint = false
          /\ LlmTaskInvoke.url_pathname endpoint = front ++ lit "/tool/invoke"
          /\ double_slash (LlmTaskInvoke.url_pathname endpoint) = false
          /\ (double_slash (LlmTaskInvoke.url_pathname base) = false ->
              front = match List.rev (LlmTaskInvoke.url_pathname base) with
                      | 47 :: r => List.rev r
                      | _ => LlmTaskInvoke.url_pathname base
                      end)
  end.
Proof.
  unfold LlmTaskInvoke.buildDirectEndpoint.
  destruct (LlmTaskInvoke.parse_URL baseUrl) as [base |]; [| reflexivity].
  unfold LlmTaskInvoke.set_pathname.
  destruct (LlmTaskInvoke.url_opaque base) eqn:Hopaque.
  { cbv zeta. rewrite Hopaque. reflexivity. }
  cbv zeta.
  cbn [LlmTaskInvoke.url_origin LlmTaskInvoke.url_tail LlmTaskInvoke.url_pathname
       LlmTaskInvoke.url_opaque].
  rewrite EndpointFacts.collapse_slashes_first.
  set (cleanBase := match List.rev (LlmTaskInvoke.url_pathname base) with
                    | c :: r => if c =? 47 then List.rev r
                                else LlmTaskInvoke.url_pathname base
                    | [] => LlmTaskInvoke.url_pathname base
                    end).
  assert (Htail : double_slash (47 :: lit "tool/invoke") = false) by reflexivity.
  destruct (EndpointFacts.collapse_slashes_tail cleanBase (lit "tool/invoke") Htail)
    as (front & Hfront).
  change (47 :: lit "tool/invoke") with (lit "/tool/invoke") in Hfront.
  eexists. exists front. split; [reflexivity |].
  cbn [LlmTaskInvoke.url_origin LlmTaskInvoke.url_tail LlmTaskInvoke.url_pathname
       LlmTaskInvoke.url_opaque].
  repeat split.
  - exact Hfront.
  - apply EndpointFacts.collapse_slashes_single.
  - intros Hbase.
    assert (Hclean : double_slash cleanBase = false).
    { unfold cleanBase.
      destruct (List.rev (LlmTaskInvoke.url_pathname base)) as [| c r] eqn:E;
        [exact Hbase |].
      destruct (c =? 47); [| exact Hbase].
      assert (Hpath : LlmTaskInvoke.url_pathname base = List.rev r ++ [c]).
      { rewrite <- (rev_involutive (LlmTaskInvoke.url_pathname base)), E. reflexivity. }
      rewrite Hpath in Hbase.
      exact (proj1 (EndpointFacts.double_slash_app _ _ Hbase)). }
    assert (Hend : starts_with_slash (List.rev cleanBase) = false).
    { unfold cleanBase.
      destruct (List.rev (LlmTaskInvoke.url_pathname base)) as [| c r] eqn:E;
        [rewrite E; reflexivity |].
      destruct (c =? 47) eqn:Ec; [| rewrite E; cbn; exact Ec].
      rewrite rev_involutive.
      assert (Hpath : LlmTaskInvoke.url_pathname base = List.rev r ++ [c]).
      { rewrite <- (rev_involutive (LlmTaskInvoke.url_pathname base)), E. reflexivity. }
      rewrite Hpath in Hbase. clear - Hbase Ec.
      destruct r as [| d r]; [reflexivity |]. cbn [starts_with_slash].
      destruct (d =? 47) eqn:Ed; [| reflexivity]. exfalso.
      cbn [List.rev] in Hbase. rewrite <- app_assoc in Hbase.
      apply EndpointFacts.double_slash_app in Hbase. destruct Hbase as [_ Hbase].
      cbn in Hbase. rewrite Ed, Ec in Hbase. discriminate. }
    assert (Hwhole : double_slash (cleanBase ++ lit "/tool/invoke") = false).
    { apply EndpointFacts.double_slash_join;
        [exact Hclean | reflexivity | left; exact Hend]. }
    rewrite (EndpointFacts.collapse_slashes_same _ Hwhole) in Hfront.
    apply app_inv_tail in Hfront. rewrite <- Hfront. unfold cleanBase.
    destruct (List.rev (LlmTaskInvoke.url_pathname base)) as [| c r] eqn:E;
      [reflexivity |].
    destruct (c =? 47) eqn:Ec.
    + apply Z.eqb_eq in Ec. subst c. reflexivity.
    + destruct c as [| p | p]; try reflexivity.
      repeat (destruct p as [p | p |]; try reflexivity).
      discriminate.
Qed.

(** X12 on a base whose path is [/v1/api/] and on [mailto:a@b], whose path
    [a@b] is opaque. *)
Lemma buildDirectEndpoint_on_a_versioned_base :
  @LlmTaskInvoke.buildDirectEndpoint pathful_platform (lit "http://llm/v1/api/?x=1")
  = Return (LlmTaskInvoke.mkURL (lit "http://llm") (lit "/v1/api/tool/invoke")
              (lit "?x=1") false)
  /\ @LlmTaskInvoke.buildDirectEndpoint pathful_platform (lit "mailto:a@b")
     = Return (LlmTaskInvoke.mkURL (lit "null") (lit "a@b") [] true).
Proof.
  split.
  - destruct (buildDirectEndpoint_path pathful_platform (lit "http://llm/v1/api/?x=1"))
      as (endpoint & front & Hrun & Horigin & Htail & Hopaque & Hpath & _ & Hfront).
    rewrite Hrun. destruct endpoint as [origin pathname tail opaque].
    cbn [LlmTaskInvoke.url_origin LlmTaskInvoke.url_tail LlmTaskInvoke.url_pathname
         LlmTaskInvoke.url_opaque] in *.
    rewrite Horigin, Htail, Hopaque, Hpath, (Hfront eq_refl). reflexivity.
  - exact (buildDirectEndpoint_path pathful_platform (lit "mailto:a@b")).
Defined.

Module ExecFacts.
Import Exec ExecVocabulary.

(** Decides [Forall] over a list that is given, element by element. *)
Ltac each_element :=
  vm_compute;
  repeat match goal with
         | |- Forall _ _ => constructor
         | |- _ /\ _ => split
         | |- _ \/ _ => first [left; reflexivity | right; reflexivity]
         | |- _ = _ -> False => first [discriminate | lia]
         end.

Lemma scan_plain (w : jsstring) :
  Forall plain w ->
  forall (current : jsstring) (tokens : list jsstring) (rest : jsstring),
    scan None current tokens (w ++ rest) = scan None (current ++ w) tokens rest.
Proof.
  induction 1 as [| c w (H34 & H39 & H32 & H9) _ IH]; intros current tokens rest.
  - rewrite app_nil_r. reflexivity.
  - cbn [List.app scan].
    rewrite (proj2 (Z.eqb_neq c 34) H34), (proj2 (Z.eqb_neq c 39) H39),
            (proj2 (Z.eqb_neq c 32) H32), (proj2 (Z.eqb_neq c 9) H9).
    cbn [orb]. rewrite IH. rewrite <- app_assoc. reflexivity.
Qed.

Lemma scan_words (words : list jsstring) :
  Forall (fun w => w <> [] /\ Forall plain w) words ->
  forall tokens : list jsstring,
    scan None [] tokens (spaced words) = tokens ++ words.
Proof.
  induction 1 as [| w words [Hne Hw] Hrest IH]; intros tokens.
  - cbn. rewrite app_nil_r. reflexivity.
  - destruct words as [| w' words].
    + cbn [spaced]. rewrite <- (app_nil_r w) at 1. rewrite (scan_plain w Hw).
      cbn [List.app scan]. destruct w; [congruence | reflexivity].
    + change (spaced (w :: w' :: words)) with (w ++ 32 :: spaced (w' :: words)).
      rewrite (scan_plain w Hw). cbn [List.app scan]. cbn [Z.eqb orb Pos.eqb].
      destruct w as [| c w]; [congruence |].
      rewrite IH. rewrite <- app_assoc. reflexivity.
Qed.

Lemma scan_quoted (q : Z) (text : jsstring) :
  q = 34 \/ q = 39 ->
  Forall (fun c => c <> q /\ c <> 92) text ->
  forall (current : jsstring) (tokens : list jsstring) (rest : jsstring),
    scan (Some q) current tokens (text ++ q :: rest)
    = scan None (current ++ text) tokens rest.
Proof.
  intros Hq. induction 1 as [| c text [Hc Hb] _ IH]; intros current tokens rest.
  - cbn [List.app scan]. rewrite Z.eqb_refl, app_nil_r.
    destruct Hq as [-> | ->]; reflexivity.
  - cbn [List.app scan].
    rewrite (proj2 (Z.eqb_neq c 92) Hb), (proj2 (Z.eqb_neq c q) Hc).
    rewrite IH, <- app_assoc. reflexivity.
Qed.

(** No token is empty, whatever the state of the loop. *)
Lemma scan_nonempty (n : nat) :
  forall (rest : jsstring) (quote : option Z) (current : jsstring)
         (tokens : list jsstring),
    (List.length rest <= n)%nat ->
    Forall (fun t => t <> []) tokens ->
    Forall (fun t => t <> []) (scan quote current tokens rest).
Proof.
  induction n as [| n IH]; intros rest quote current tokens Hlen Htok.
  - destruct rest; [| simpl in Hlen; lia].
    cbn [scan]. destruct current; [exact Htok |].
    apply Forall_app. split; [exact Htok | constructor; [discriminate | constructor]].
  - destruct rest as [| ch rest].
    + cbn [scan]. destruct current; [exact Htok |].
      apply Forall_app. split; [exact Htok | constructor; [discriminate | constructor]].
    + cbn [List.length] in Hlen. cbn [scan].
      destruct quote as [q |].
      * destruct (ch =? 92); [destruct rest as [| next rest] |].
        -- destruct (ch =? q); apply IH; simpl; try lia; exact Htok.
        -- apply IH; [simpl in Hlen |- *; lia | exact Htok].
        -- destruct (ch =? q); apply IH; try lia; exact Htok.
      * destruct ((ch =? 34) || (ch =? 39)); [apply IH; [lia | exact Htok] |].
        destruct ((ch =? 32) || (ch =? 9)); [| apply IH; [lia | exact Htok]].
        destruct current; apply IH; try lia; try exact Htok.
        apply Forall_app. split; [exact Htok | constructor; [discriminate | constructor]].
Qed.

Lemma scan_blank (s : jsstring) :
  Forall (fun c => c = 32 \/ c = 9) s ->
  forall tokens, scan None [] tokens s = tokens.
Proof.
  induction 1 as [| c s Hc _ IH]; intros tokens; [reflexivity |].
  cbn [scan]. destruct Hc as [-> | ->]; cbn [Z.eqb Pos.eqb orb]; apply IH.
Qed.

End ExecFacts.

(** X13.  [parseCommand] on plain words: a command line made of non-empty words
    that hold no quote, space or tab, joined by single spaces, is split
    back into exactly those words, the first being the command. *)
Theorem parseCommand_splits_plain_words (words : list jsstring) :
  Forall (fun w => w <> [] /\ Forall ExecVocabulary.plain w) words ->
  Exec.parseCommand (ExecVocabulary.spaced words)
  = match words with
    | [] => (None, [])
    | command :: args => (Some command, args)
    end.
Proof.
  intros H. unfold Exec.parseCommand.
  rewrite (ExecFacts.scan_words words H []). reflexivity.
Qed.

(** X13 on a command line of plain words. *)
Lemma parseCommand_on_gh_pr_view :
  Exec.parseCommand (lit "gh pr view 123 --json title,url")
  = (Some (lit "gh"), [lit "pr"; lit "view"; lit "123"; lit "--json"; lit "title,url"]).
Proof.
  apply (parseCommand_splits_plain_words
           [lit "gh"; lit "pr"; lit "view"; lit "123"; lit "--json"; lit "title,url"]).
  ExecFacts.each_element.
Defined.

(** X14.  [parseCommand] on a quoted argument: after a plain command word and a
    space, text between two quote characters of one kind, holding neither
    that quote nor a backslash, becomes one argument with its spaces and
    tabs kept -- unless it is empty, in which case there is no argument. *)
Theorem parseCommand_keeps_quoted_text (command text : jsstring) (q : Z) :
  q = 34 \/ q = 39 ->
  command <> [] ->
  Forall ExecVocabulary.plain command ->
  Forall (fun c => c <> q /\ c <> 92) text ->
  Exec.parseCommand (command ++ 32 :: q :: text ++ [q])
  = (Some command, match text with [] => [] | _ => [text] end).
Proof.
  intros Hq Hne Hcommand Htext. unfold Exec.parseCommand.
  rewrite (ExecFacts.scan_plain command Hcommand). cbn [List.app Exec.scan].
  cbn [Z.eqb Pos.eqb orb].
  destruct command as [| c command]; [congruence |].
  assert (Hopen : ((q =? 34) || (q =? 39)) = true).
  { destruct Hq as [-> | ->]; reflexivity. }
  cbn [Exec.scan]. rewrite Hopen.
  rewrite (ExecFacts.scan_quoted q text Hq Htext). cbn [List.app Exec.scan].
  destruct text; reflexivity.
Qed.

(** X14 on a command with one quoted argument. *)
Lemma parseCommand_on_sh_c :
  Exec.parseCommand (lit "sh 'echo  hi there'")
  = (Some (lit "sh"), [lit "echo  hi there"])
  /\ Exec.parseCommand (lit "sh ''") = (Some (lit "sh"), []).
Proof.
  split.
  - apply (parseCommand_keeps_quoted_text (lit "sh") (lit "echo  hi there") 39).
    + right. reflexivity.
    + discriminate.
    + ExecFacts.each_element.
    + ExecFacts.each_element.
  - apply (parseCommand_keeps_quoted_text (lit "sh") [] 39).
    + right. reflexivity.
    + discriminate.
    + ExecFacts.each_element.
    + constructor.
Defined.

(** X15.  No token that [parseCommand] returns is empty, for any command line;
    a command line of spaces and tabs only has no command at all. *)
Theorem parseCommand_has_no_empty_token (cmdString : jsstring) :
  (forall (command : jsstring) (args : list jsstring),
      Exec.parseCommand cmdString = (Some command, args) ->
      command <> [] /\ Forall (fun a => a <> []) args)
  /\ (Forall (fun c => c = 32 \/ c = 9) cmdString ->
      Exec.parseCommand cmdString = (None, [])).
Proof.
  split.
  - intros command args H. unfold Exec.parseCommand in H.
    pose proof (ExecFacts.scan_nonempty (List.length cmdString) cmdString None [] []
                  (Nat.le_refl _) (Forall_nil _)) as Hall.
    destruct (Exec.scan None [] [] cmdString) as [| c a]; [discriminate |].
    inversion H; subst. inversion Hall; subst. split; assumption.
  - intros Hblank. unfold Exec.parseCommand.
    rewrite (ExecFacts.scan_blank cmdString Hblank []). reflexivity.
Qed.

(** X15 on command lines with empty quotes and with blanks only. *)
Lemma parseCommand_on_odd_lines :
  Exec.parseCommand (lit "  a  '' b ") = (Some (lit "a"), [lit "b"])
  /\ Exec.parseCommand (lit "   ") = (None, []).
Proof.
  split.
  - reflexivity.
  - apply (proj2 (parseCommand_has_no_empty_token (lit "   "))).
    ExecFacts.each_element.
Defined.

(** X16.  What the exec stage makes of its child process.  The stage (with JSON
    parsing on and no shell) drains its input and drops it, splits the
    command line, and spawns the command.  Then:
    - exit code 0 and a blank stdout: no items;
    - exit code 0 and JSON on stdout: the elements of an array, or the one
      value that is no array;
    - exit code 0 and anything else on stdout: the error
      [exec output is not valid JSON: ] followed by the first 100
      characters of stdout;
    - another exit code: the error [<command> exited with code <code>: ]
      followed by the trimmed stderr, or the trimmed stdout when that is
      empty. *)
Theorem exec_reads_its_child (spawner : Exec.Spawner)
  (cmdString cwd command : jsstring) (args : list jsstring) (options : json)
  (idx : Z) (input : Stream) (ctx : Ctx) (dropped : list json)
  (code : Z) (stdout stderr : jsstring) (w w1 w2 : World) :
  get (lit "json") options <> Some (JBool false) ->
  get (lit "shell") options <> Some (JBool true) ->
  input w = (Return dropped, w1) ->
  Exec.parseCommand cmdString = (Some command, args) ->
  Exec.spawn command args
    (match ctx_env ctx with Some e => e | None => w_env w1 end) cwd w1
  = (Return (Exec.Closed code stdout stderr), w2) ->
  let run := SdkRuntime.call_stage idx (Exec.exec cmdString options cwd) input ctx w in
  let items_of (l : list json) :=
    (Return (Some (mkStageResult (Some (asStream l)) false false)), w2) in
  (code = 0 -> trim stdout = [] -> run = items_of [])
  /\ (forall v : json,
        code = 0 -> trim stdout <> [] -> JSON_parse (trim stdout) = Return v ->
        run = items_of (match v with JArr l => l | _ => [v] end))
  /\ (forall e : exn,
        code = 0 -> trim stdout <> [] -> JSON_parse (trim stdout) = Throw e ->
        run = (Throw (newError (lit "exec output is not valid JSON: " ++
                                firstn 100 stdout)), w2))
  /\ (code <> 0 ->
      run = (Throw (newError (command ++ lit " exited with code " ++ int_chars code ++
                              lit ": " ++
                              match trim stderr with
                              | [] => trim stdout
                              | e => e
                              end)), w2)).
Proof.
  intros Hjson Hshell Hin Hparse Hspawn run items_of.
  assert (Hrun : run
                 = (result <- Exec.runProcess (Some command) args
                                (match ctx_env ctx with Some e => e | None => w_env w1 end)
                                cwd ;;
                    output <- lift (otry (JSON_parse (match trim (fst result) with
                                                      | [] => lit "[]"
                                                      | t => t
                                                      end))
                                      (fun _ => Throw (newError
                                         (lit "exec output is not valid JSON: " ++
                                          firstn 100 (fst result))))) ;;
                    ret (Some (mkStageResult
                                 (Some (asStream (match output with
                                                  | JArr l => l
                                                  | _ => [output]
                                                  end))) false false))) w1).
  { subst run. unfold Exec.exec. cbn [SdkRuntime.call_stage].
    assert (Hj : match get (lit "json") options with
                 | Some (JBool false) => false
                 | _ => true
                 end = true).
    { destruct (get (lit "json") options) as [[| [] | | | | | |] |]; congruence. }
    assert (Hs : match get (lit "shell") options with
                 | Some (JBool true) => true
                 | _ => false
                 end = false).
    { destruct (get (lit "shell") options) as [[| [] | | | | | |] |]; congruence. }
    rewrite Hj, Hs. unfold Exec.exec_run.
    rewrite (bind_Return _ _ _ _ _ Hin).
    unfold bind at 1. rewrite Hparse. reflexivity. }
  rewrite Hrun. clear Hrun.
  unfold Exec.runProcess.
  split; [| split; [| split]].
  - intros -> Hblank. subst items_of.
    rewrite (bind_Return _ _ _ w2 (stdout, stderr)).
    + cbn [fst]. rewrite Hblank. reflexivity.
    + rewrite (bind_Return _ _ _ _ _ Hspawn). reflexivity.
  - intros v -> Hne Hv. subst items_of.
    rewrite (bind_Return _ _ _ w2 (stdout, stderr)).
    + cbn [fst]. destruct (trim stdout) as [| c t] eqn:Et; [congruence |].
      unfold bind, lift. rewrite Hv. reflexivity.
    + rewrite (bind_Return _ _ _ _ _ Hspawn). reflexivity.
  - intros e -> Hne He.
    rewrite (bind_Return _ _ _ w2 (stdout, stderr)).
    + cbn [fst]. destruct (trim stdout) as [| c t] eqn:Et; [congruence |].
      unfold bind, lift. rewrite He. reflexivity.
    + rewrite (bind_Return _ _ _ _ _ Hspawn). reflexivity.
  - intros Hcode. apply bind_Throw.
    rewrite (bind_Return _ _ _ _ _ Hspawn).
    rewrite (proj2 (Z.eqb_neq code 0) Hcode). reflexivity.
Qed.

(** X16 on a child that prints one JSON object, and on children that fail.
    *)
Lemma exec_on_gh_pr_view :
  SdkRuntime.call_stage 0
    (@Exec.exec (scripted_spawner (Exec.Closed 0 (JSON_stringify one_pr ++ [10]) []))
       (lit "gh pr view") (JObj []) (lit "/work"))
    (asStream [JNum 1]) Examples.tool_ctx Examples.w0
  = (Return (Some (mkStageResult (Some (asStream [one_pr])) false false)), spawned_gh)
  /\ SdkRuntime.call_stage 0
       (@Exec.exec (scripted_spawner (Exec.Closed 2 [] (lit " no such pr ")))
          (lit "gh pr view") (JObj []) (lit "/work"))
       (asStream [JNum 1]) Examples.tool_ctx Examples.w0
     = (Throw (newError (lit "gh exited with code 2: no such pr")), spawned_gh).
Proof.
  split.
  - apply (proj1 (proj2 (exec_reads_its_child
             (scripted_spawner (Exec.Closed 0 (JSON_stringify one_pr ++ [10]) []))
             (lit "gh pr view") (lit "/work") (lit "gh") [lit "pr"; lit "view"] (JObj [])
             0 (asStream [JNum 1]) Examples.tool_ctx [JNum 1]
             0 (JSON_stringify one_pr ++ [10]) [] Examples.w0 Examples.w0 spawned_gh
             ltac:(discriminate) ltac:(discriminate) eq_refl eq_refl eq_refl)) one_pr);
      [reflexivity | vm_compute; discriminate | vm_compute; reflexivity].
  - apply (proj2 (proj2 (proj2 (exec_reads_its_child
             (scripted_spawner (Exec.Closed 2 [] (lit " no such pr ")))
             (lit "gh pr view") (lit "/work") (lit "gh") [lit "pr"; lit "view"] (JObj [])
             0 (asStream [JNum 1]) Examples.tool_ctx [JNum 1]
             2 [] (lit " no such pr ") Examples.w0 Examples.w0 spawned_gh
             ltac:(discriminate) ltac:(discriminate) eq_refl eq_refl eq_refl)))).
    discriminate.
Defined.

Module GroupFacts.
Import GroupBy GroupVocabulary.

Lemma same_k_eq (a b : option jsstring) : same_k a b = true <-> a = b.
Proof.
  destruct a as [x |], b as [y |]; cbn [same_k]; split; intros H;
    try discriminate; try reflexivity.
  - apply str_eqb_eq in H. congruence.
  - inversion H. apply str_eqb_refl.
Qed.

Lemma same_k_refl (a : option jsstring) : same_k a a = true.
Proof. apply same_k_eq. reflexivity. Qed.

Lemma same_k_neq (a b : option jsstring) : same_k a b = false <-> a <> b.
Proof.
  split.
  - intros H E. apply same_k_eq in E. congruence.
  - intros H. destruct (same_k a b) eqn:E; [| reflexivity].
    apply same_k_eq in E. contradiction.
Qed.

Lemma has_keys (k : option jsstring) (groups : list Group) :
  has k groups = existsb (same_k k) (map g_k groups).
Proof.
  induction groups as [| g groups IH]; [reflexivity |].
  cbn [has map existsb]. rewrite IH. reflexivity.
Qed.

Lemma has_In (k : option jsstring) (groups : list Group) :
  has k groups = true <-> In k (map g_k groups).
Proof.
  rewrite has_keys, existsb_exists. split.
  - intros (x & Hx & E). apply same_k_eq in E. subst. exact Hx.
  - intros H. exists k. split; [exact H | apply same_k_refl].
Qed.

(** Pushing under a key no group has changes nothing. *)
Lemma push_item_absent (k : option jsstring) (item : json) (groups : list Group) :
  has k groups = false -> push_item k item groups = groups.
Proof.
  induction groups as [| g groups IH]; [reflexivity |].
  cbn [has push_item]. intros H. apply orb_false_iff in H. destruct H as [Hg Hrest].
  rewrite Hg, (IH Hrest). reflexivity.
Qed.

Lemma push_item_app (k : option jsstring) (item : json) (groups more : list Group) :
  has k groups = false ->
  push_item k item (groups ++ more) = groups ++ push_item k item more.
Proof.
  induction groups as [| g groups IH]; [reflexivity |].
  cbn [has push_item List.app]. intros H. apply orb_false_iff in H.
  destruct H as [Hg Hrest]. rewrite Hg, (IH Hrest). reflexivity.
Qed.

Lemma push_item_keys (k : option jsstring) (item : json) (groups : list Group) :
  map g_k (push_item k item groups) = map g_k groups.
Proof.
  induction groups as [| g groups IH]; [reflexivity |].
  cbn [push_item]. destruct (same_k k (g_k g)); cbn [map g_k]; [reflexivity |].
  rewrite IH. reflexivity.
Qed.

Lemma firsts_snoc (ks : list (option jsstring)) (k : option jsstring) :
  firsts (ks ++ [k]) = add_first (firsts ks) k.
Proof. unfold firsts. rewrite fold_left_app. reflexivity. Qed.

Lemma with_key_snoc (k : option jsstring) (keyed : list (json * option json))
  (p : json * option json) :
  with_key k (keyed ++ [p])
  = with_key k keyed ++
    (if same_k (option_map JSON_stringify (snd p)) k then [p] else []).
Proof. unfold with_key. rewrite filter_app. reflexivity. Qed.

Lemma add_first_In (seen : list (option jsstring)) (k x : option jsstring) :
  In x (add_first seen k) <-> In x seen \/ x = k.
Proof.
  unfold add_first. destruct (existsb (same_k k) seen) eqn:E.
  - split; [intros H; left; exact H |]. intros [H | ->]; [exact H |].
    apply existsb_exists in E. destruct E as (y & Hy & Hk).
    apply same_k_eq in Hk. subst. exact Hy.
  - rewrite in_app_iff. cbn [In]. split.
    + intros [H | [<- | []]]; [left; exact H | right; reflexivity].
    + intros [H | ->]; [left; exact H | right; left; reflexivity].
Qed.

Lemma firsts_complete (ks : list (option jsstring)) (k : option jsstring) :
  In k ks -> In k (firsts ks).
Proof.
  induction ks as [| x ks IH] using rev_ind; [intros [] |].
  rewrite firsts_snoc, add_first_In, in_app_iff. cbn [In].
  intros [H | [<- | []]]; [left; apply IH; exact H | right; reflexivity].
Qed.

Lemma holds_step (keyed : list (json * option json)) (groups : list Group)
  (item : json) (keyVal : option json) :
  holds keyed groups ->
  let k := option_map JSON_stringify keyVal in
  holds (keyed ++ [(item, keyVal)])
    (push_item k item
       (if negb (has k groups) then groups ++ [mkGroup k keyVal []] else groups)).
Proof.
  intros (Hkeys & Hnodup & Hall) k.
  destruct (has k groups) eqn:Hhas; cbn [negb].
  - (* a group has the key *)
    assert (Hin : In k (map g_k groups)) by (apply has_In; exact Hhas).
    split; [| split].
    + rewrite push_item_keys, map_app. cbn [map snd]. fold k.
      rewrite firsts_snoc, <- Hkeys. unfold add_first.
      rewrite <- has_keys, Hhas. reflexivity.
    + rewrite push_item_keys. exact Hnodup.
    + clear Hkeys Hhas Hin.
      induction groups as [| g groups IH]; [constructor |].
      inversion Hall as [| ? ? (Hi & Hk & Hne) Hrest]; subst.
      cbn [map] in Hnodup. inversion Hnodup as [| ? ? Hnotin Hnd]; subst.
      cbn [push_item]. destruct (same_k k (g_k g)) eqn:E.
      * apply same_k_eq in E.
        constructor.
        -- cbn [g_k g_items g_key]. rewrite with_key_snoc. cbn [snd]. fold k.
           rewrite E, same_k_refl. rewrite map_app. cbn [map fst].
           rewrite Hi. repeat split; try reflexivity.
           ++ rewrite Hk. destruct (with_key (g_k g) keyed); [congruence | reflexivity].
           ++ intros Habs. apply app_eq_nil in Habs. destruct Habs. discriminate.
        -- rewrite Forall_forall in *. intros g' Hg'.
           destruct (Hrest g' Hg') as (Hi' & Hk' & Hne').
           rewrite with_key_snoc. cbn [snd]. fold k.
           assert (Hdiff : same_k k (g_k g') = false).
           { apply same_k_neq. intros Heq. apply Hnotin. rewrite <- E, Heq.
             apply in_map. exact Hg'. }
           rewrite Hdiff, app_nil_r. repeat split; assumption.
      * constructor.
        -- rewrite with_key_snoc. cbn [snd]. fold k. rewrite E, app_nil_r.
           repeat split; assumption.
        -- apply IH; assumption.
  - (* a new group *)
    assert (Hnotin : ~ In k (map g_k groups)).
    { intros Hin. apply has_In in Hin. congruence. }
    rewrite (push_item_app k item groups _ Hhas).
    cbn [push_item g_k]. rewrite same_k_refl. cbn [g_key g_items List.app].
    split; [| split].
    + rewrite !map_app. cbn [map g_k snd]. fold k. rewrite firsts_snoc, <- Hkeys.
      unfold add_first. rewrite <- has_keys, Hhas. reflexivity.
    + rewrite map_app. cbn [map g_k].
      apply NoDup_app; [exact Hnodup | constructor; [intros [] | constructor] |].
      intros x Hx [<- | []]. contradiction.
    + apply Forall_app. split.
      * rewrite Forall_forall in *. intros g Hg.
        destruct (Hall g Hg) as (Hi & Hk & Hne).
        rewrite with_key_snoc. cbn [snd]. fold k.
        assert (Hdiff : same_k k (g_k g) = false).
        { apply same_k_neq. intros Heq. apply Hnotin. rewrite Heq.
          apply in_map. exact Hg. }
        rewrite Hdiff, app_nil_r. repeat split; assumption.
      * constructor; [| constructor]. cbn [g_k g_items g_key].
        rewrite with_key_snoc. cbn [snd]. fold k. rewrite same_k_refl.
        assert (Hempty : with_key k keyed = []).
        { destruct (with_key k keyed) as [| p rest] eqn:E; [reflexivity |].
          exfalso. apply Hnotin. rewrite Hkeys.
          assert (Hp : In p (with_key k keyed)) by (rewrite E; left; reflexivity).
          unfold with_key in Hp. apply filter_In in Hp. destruct Hp as [Hp Hk].
          apply same_k_eq in Hk. rewrite <- Hk.
          apply firsts_complete. apply in_map_iff. exists p. split; [reflexivity | exact Hp]. }
        rewrite Hempty. cbn [List.app map fst]. repeat split. discriminate.
Qed.

Lemma collect_holds (keyPath : jsstring) (items : list json) :
  forall (keyVals : list (option json)) (before : list (json * option json))
         (groups : list Group),
    Forall2 (fun item keyVal => getByPath item keyPath = Return keyVal) items keyVals ->
    holds before groups ->
    exists groups',
      collect keyPath items groups (map g_k groups) = Return (groups', map g_k groups')
      /\ holds (before ++ combine items keyVals) groups'.
Proof.
  induction items as [| item items IH]; intros keyVals before groups Hkeys Hholds.
  - inversion Hkeys; subst. exists groups. cbn [collect combine].
    rewrite app_nil_r. split; [reflexivity | exact Hholds].
  - inversion Hkeys as [| ? keyVal ? keyVals' Hget Hrest]; subst.
    cbn [collect]. rewrite Hget. cbn [obind].
    pose proof (holds_step before groups item keyVal Hholds) as Hstep.
    cbn zeta in Hstep.
    set (k := option_map JSON_stringify keyVal) in *.
    destruct (IH keyVals' (before ++ [(item, keyVal)]) _ Hrest Hstep)
      as (groups' & Hrun & Hend).
    exists groups'. split.
    + rewrite <- Hrun. rewrite push_item_keys.
      destruct (negb (has k groups)); [rewrite map_app |]; reflexivity.
    + cbn [combine]. rewrite <- app_assoc in Hend. exact Hend.
Qed.

Lemma lookup_own (groups : list Group) (g : Group) :
  NoDup (map g_k groups) -> In g groups -> lookup (g_k g) groups = Some g.
Proof.
  induction groups as [| h groups IH]; intros Hnd Hin; [destruct Hin |].
  cbn [map] in Hnd. inversion Hnd as [| ? ? Hnotin Hnd']; subst.
  cbn [lookup]. destruct Hin as [-> | Hin].
  - rewrite same_k_refl. reflexivity.
  - destruct (same_k (g_k g) (g_k h)) eqn:E.
    + apply same_k_eq in E. exfalso. apply Hnotin. rewrite <- E.
      apply in_map. exact Hin.
    + apply IH; assumption.
Qed.

Lemma emit_own (groups some : list Group) :
  NoDup (map g_k groups) -> incl some groups ->
  emit groups (map g_k some) = map group_item some.
Proof.
  intros Hnd. induction some as [| g some IH]; intros Hincl; [reflexivity |].
  cbn [map emit]. rewrite (lookup_own groups g Hnd (Hincl g (or_introl eq_refl))).
  rewrite IH; [reflexivity |]. intros x Hx. apply Hincl. right. exact Hx.
Qed.

Lemma with_key_cons (k : option jsstring) (p : json * option json)
  (keyed : list (json * option json)) :
  List.length (with_key k (p :: keyed))
  = ((if same_k (option_map JSON_stringify (snd p)) k then 1 else 0)
     + List.length (with_key k keyed))%nat.
Proof.
  unfold with_key. cbn [filter].
  destruct (same_k (option_map JSON_stringify (snd p)) k); reflexivity.
Qed.

Lemma list_sum_plus {A : Type} (f g : A -> nat) (l : list A) :
  list_sum (map (fun x => (f x + g x)%nat) l)
  = (list_sum (map f l) + list_sum (map g l))%nat.
Proof.
  induction l as [| x l IH]; [reflexivity |].
  unfold list_sum in *. cbn [map fold_right]. rewrite IH. lia.
Qed.

Lemma list_sum_cons (n : nat) (l : list nat) :
  list_sum (n :: l) = (n + list_sum l)%nat.
Proof. reflexivity. Qed.

Lemma one_match (k : option jsstring) (ks : list (option jsstring)) :
  NoDup ks -> In k ks ->
  list_sum (map (fun x => if same_k k x then 1 else 0)%nat ks) = 1%nat.
Proof.
  induction ks as [| x ks IH]; intros Hnd Hin; [destruct Hin |].
  inversion Hnd as [| ? ? Hnotin Hnd']; subst. cbn [map]. rewrite list_sum_cons.
  destruct (same_k k x) eqn:E.
  - apply same_k_eq in E. subst x.
    assert (Hzero : list_sum (map (fun x => if same_k k x then 1 else 0)%nat ks) = 0%nat).
    { clear IH Hnd Hnd' Hin. induction ks as [| y ks IH]; [reflexivity |].
      cbn [map]. rewrite list_sum_cons.
      assert (Hy : same_k k y = false).
      { apply same_k_neq. intros ->. apply Hnotin. left. reflexivity. }
      rewrite Hy, IH; [reflexivity |]. intros H. apply Hnotin. right. exact H. }
    rewrite Hzero. reflexivity.
  - destruct Hin as [-> | Hin]; [rewrite same_k_refl in E; discriminate |].
    rewrite (IH Hnd' Hin). reflexivity.
Qed.

(** Distinct keys that cover a keyed sequence split it: the sizes of the
    classes add up to its length. *)
Lemma classes_add_up (ks : list (option jsstring))
  (keyed : list (json * option json)) :
  NoDup ks ->
  (forall p, In p keyed -> In (option_map JSON_stringify (snd p)) ks) ->
  list_sum (map (fun k => List.length (with_key k keyed)) ks) = List.length keyed.
Proof.
  intros Hnd. induction keyed as [| p keyed IH]; intros Hcover.
  - unfold with_key. cbn [filter List.length]. clear.
    induction ks as [| k ks IHk]; [reflexivity |].
    cbn [map]. rewrite list_sum_cons, IHk. reflexivity.
  - rewrite (map_ext _ (fun k => ((if same_k (option_map JSON_stringify (snd p)) k
                                   then 1 else 0)
                                  + List.length (with_key k keyed))%nat)
               (fun k => with_key_cons k p keyed)).
    rewrite list_sum_plus.
    rewrite (one_match _ ks Hnd (Hcover p (or_introl eq_refl))).
    rewrite IH; [reflexivity |].
    intros q Hq. apply Hcover. right. exact Hq.
Qed.

Lemma split_dots_app (p q current : jsstring) :
  Forall (fun c => c <> 46) p ->
  split_dots current (p ++ 46 :: q) = (current ++ p) :: split_dots [] q.
Proof.
  revert current. induction p as [| c p IH]; intros current Hp.
  - cbn [List.app split_dots]. rewrite app_nil_r. reflexivity.
  - inversion Hp as [| ? ? Hc Hp']; subst. cbn [List.app split_dots].
    apply Z.eqb_neq in Hc. rewrite Hc, (IH _ Hp'), <- app_assoc. reflexivity.
Qed.

Lemma split_dots_two (p q current : jsstring) :
  split_dots current (p ++ 46 :: q)
  = split_dots current p ++ split_dots [] q.
Proof.
  revert current. induction p as [| c p IH]; intros current.
  - reflexivity.
  - cbn [List.app split_dots]. destruct (c =? 46).
    + rewrite IH. reflexivity.
    + apply IH.
Qed.

Lemma split_dots_plain (k : jsstring) :
  forall current : jsstring,
    Forall (fun c => c <> 46) k -> split_dots current k = [current ++ k].
Proof.
  induction k as [| c k IH]; intros current Hk.
  - rewrite app_nil_r. reflexivity.
  - inversion Hk as [| ? ? Hc Hrest]; subst. cbn [split_dots].
    apply Z.eqb_neq in Hc. rewrite Hc, (IH _ Hrest), <- app_assoc. reflexivity.
Qed.

Lemma count_of_group (keyed : list (json * option json)) (k : option jsstring) :
  count_of (group_of keyed k) = List.length (with_key k keyed).
Proof.
  assert (Hread : forall (front : list (jsstring * json)) (l : list json) (n : nat),
             front = [] \/ (exists v, front = [(lit "key", v)]) ->
             count_of (JObj (front ++ [(lit "items", JArr l);
                                       (lit "count", JNum (Z.of_nat n))])) = n).
  { intros front l n [-> | [v ->]]; unfold count_of;
      match goal with
      | |- match ?g with _ => _ end = _ =>
          change g with (Some (JNum (Z.of_nat n)))
      end; apply Nat2Z.id. }
  unfold group_of. cbv zeta.
  destruct (with_key k keyed) as [| [i [kv |]] more]; apply Hread; eauto.
Qed.

Lemma walk_app (parts more : list jsstring) :
  forall cur : option json,
    walk cur (parts ++ more) = obind (walk cur parts) (fun next => walk next more).
Proof.
  induction parts as [| p parts IH]; intros cur; [reflexivity |].
  cbn [List.app walk].
  assert (Hnone : walk None more = Return None) by (destruct more; reflexivity).
  destruct cur as [v |]; [| cbn [obind]; rewrite Hnone; reflexivity].
  destruct v; try (cbn [obind]; rewrite Hnone; reflexivity);
    (destruct (read _ p) as [next | | |]; cbn [obind]; [apply IH | reflexivity ..]).
Qed.

End GroupFacts.

Import GroupBy GroupVocabulary.

(** X17.  [groupBy] splits its input by the text of the key
    ([JSON.stringify] of the key value).  It yields one object
    [{ key, items, count }] for each distinct text, in the order in which
    the texts first appear: [items] holds exactly the input items with that
    text, in the order they came in, [key] is the key value of the first of
    them (left out when it is [undefined]) and [count] is the number of
    them.  The counts add up to the number of items read. *)
Theorem groupBy_partitions_its_input
  (input : Stream) (args : json) (ctx : Ctx) (w w1 : World)
  (items : list json) (keyVals : list (option json)) :
  let keyPath := LlmTaskInvoke.string_or_empty (get (lit "key") args) in
  keyPath <> [] ->
  input w = (Return items, w1) ->
  Forall2 (fun item keyVal => getByPath item keyPath = Return keyVal) items keyVals ->
  run input args ctx w
  = (Return (Some (mkStageResult
                     (Some (asStream (grouped (combine items keyVals))))
                     false false)), w1)
  /\ list_sum (map count_of (grouped (combine items keyVals))) = List.length items.
Proof.
  intros keyPath Hpath Hinput Hkeys.
  assert (Hstart : holds [] []).
  { split; [reflexivity | split; constructor]. }
  destruct (GroupFacts.collect_holds keyPath items keyVals [] [] Hkeys Hstart)
    as (groups & Hrun & Hmap & Hnd & Hall).
  cbn [List.app map] in Hrun, Hmap, Hall.
  assert (Hlen : List.length items = List.length keyVals).
  { clear - Hkeys. induction Hkeys; cbn [List.length]; congruence. }
  assert (Hout : map group_item groups = grouped (combine items keyVals)).
  { unfold grouped. rewrite <- Hmap, map_map.
    apply map_ext_in. intros g Hg. rewrite Forall_forall in Hall.
    destruct (Hall g Hg) as (Hi & Hk & Hne).
    unfold group_item, group_of. rewrite Hi, Hk, length_map.
    destruct (with_key (g_k g) (combine items keyVals)) as [| [i [kv |]] more];
      [congruence | reflexivity | reflexivity]. }
  split.
  - unfold run. fold keyPath. destruct keyPath as [| c rest]; [congruence |].
    rewrite (bind_Return _ _ _ _ _ Hinput).
    unfold bind, lift. rewrite Hrun.
    rewrite (GroupFacts.emit_own groups groups Hnd (fun x H => H)).
    rewrite Hout. reflexivity.
  - replace (List.length items) with (List.length (combine items keyVals))
      by (rewrite length_combine, <- Hlen, Nat.min_id; reflexivity).
    rewrite <- (GroupFacts.classes_add_up (map g_k groups) (combine items keyVals) Hnd).
    + unfold grouped. rewrite <- Hmap, !map_map. f_equal.
      apply map_ext. intros g. apply GroupFacts.count_of_group.
    + intros p Hp. rewrite Hmap. apply GroupFacts.firsts_complete.
      apply in_map_iff. exists p. split; [reflexivity | exact Hp].
Qed.

(** X17 on the three items of the repository's test, grouped by [from]. *)
Lemma groupBy_on_three_mails :
  run (asStream GroupExamples.mails) GroupExamples.by_from Examples.tool_ctx
      Examples.w0
  = (Return (Some (mkStageResult
       (Some (asStream
          [JObj [(lit "key", JStr (lit "a"));
                 (lit "items",
                  JArr [JObj [(lit "from", JStr (lit "a")); (lit "id", JNum 1)];
                        JObj [(lit "from", JStr (lit "a")); (lit "id", JNum 3)]]);
                 (lit "count", JNum 2)];
           JObj [(lit "key", JStr (lit "b"));
                 (lit "items",
                  JArr [JObj [(lit "from", JStr (lit "b")); (lit "id", JNum 2)]]);
                 (lit "count", JNum 1)]]))
       false false)), Examples.w0)
  /\ list_sum (map count_of
                 (grouped (combine GroupExamples.mails GroupExamples.senders)))
     = 3%nat.
Proof.
  destruct (groupBy_partitions_its_input (asStream GroupExamples.mails)
              GroupExamples.by_from Examples.tool_ctx Examples.w0 Examples.w0
              GroupExamples.mails GroupExamples.senders) as [Hrun Hcount].
  - vm_compute. discriminate.
  - reflexivity.
  - repeat constructor.
  - split; [| exact Hcount].
    rewrite Hrun. reflexivity.
Defined.

(** X18.  [getByPath] reads a dotted path piece by piece, empty pieces
    dropped.  The empty path gives the value itself.  A name gives the own
    property of an object that has one of that name, and [undefined] on an
    object that has none (the names of [Object.prototype] apart); an index
    gives the element of an array.  On [null] every name gives
    [undefined].  Reading [p.q] is reading [p] and then [q] in what was
    found, and is [undefined] when nothing ([undefined] or [null]) was
    found and [q] names something. *)
Theorem getByPath_follows_a_path_piece_by_piece :
  (forall obj : json, getByPath obj [] = Return (Some obj))
  /\ (forall (l : list (jsstring * json)) (k : jsstring) (v : json),
        plain_name k -> assoc k l = Some v ->
        getByPath (JObj l) k = Return (Some v))
  /\ (forall (l : list (jsstring * json)) (k : jsstring),
        plain_name k -> assoc k l = None ->
        existsb (fun name => str_eqb (lit name) k) inherited = false ->
        getByPath (JObj l) k = Return None)
  /\ (forall (xs : list json) (k : jsstring) (i : Z),
        plain_name k -> array_index k = Some i ->
        getByPath (JArr xs) k = Return (nth_error xs (Z.to_nat i)))
  /\ (forall k : jsstring, plain_name k -> getByPath JNull k = Return None)
  /\ (forall (obj : json) (p q : jsstring),
        getByPath obj (p ++ 46 :: q)
        = obind (getByPath obj p)
            (fun found =>
               match found with
               | Some JNull | None =>
                   if names_nothing q then Return found else Return None
               | Some v => getByPath v q
               end)).
Proof.
  assert (Hone : forall (obj : json) (k : jsstring),
             plain_name k -> getByPath obj k = walk (Some obj) [k]).
  { intros obj k Hk. unfold getByPath, parts_of.
    rewrite (GroupFacts.split_dots_plain k [] (proj2 Hk)).
    cbn [List.app filter]. destruct k; [destruct Hk; congruence | reflexivity]. }
  repeat split.
  - intros l k v Hk Hv. rewrite (Hone _ k Hk). cbn [walk read]. rewrite Hv. reflexivity.
  - intros l k Hk Hv Hin. rewrite (Hone _ k Hk). cbn [walk read]. rewrite Hv, Hin.
    reflexivity.
  - intros xs k i Hk Hi. rewrite (Hone _ k Hk). cbn [walk read]. rewrite Hi.
    cbn [obind]. reflexivity.
  - intros k Hk. rewrite (Hone _ k Hk). reflexivity.
  - intros obj p q. unfold getByPath, names_nothing.
    assert (Hparts : parts_of (p ++ 46 :: q) = parts_of p ++ parts_of q).
    { unfold parts_of. rewrite GroupFacts.split_dots_two, filter_app. reflexivity. }
    rewrite Hparts. cbv zeta. rewrite GroupFacts.walk_app.
    destruct (walk (Some obj) (parts_of p)) as [[v |] | | |]; cbn [obind];
      try reflexivity;
      destruct (parts_of q); try reflexivity;
      destruct v; reflexivity.
Qed.

(** X18 on [{ user: { id: 'u1' }, tags: ['x', 'y'], n: null }]. *)
Lemma getByPath_on_a_user_record :
  getByPath GroupExamples.user_record (lit "user") 
  = Return (Some (JObj [(lit "id", JStr (lit "u1"))]))
  /\ getByPath GroupExamples.user_record (lit "user.id") = Return (Some (JStr (lit "u1")))
  /\ getByPath GroupExamples.user_record (lit "user.name") = Return None
  /\ getByPath GroupExamples.user_record (lit "name.first") = Return None
  /\ getByPath GroupExamples.user_record (lit "n") = Return (Some JNull)
  /\ getByPath GroupExamples.user_record (lit "n.x") = Return None
  /\ getByPath GroupExamples.user_record (lit "tags.1") = Return (Some (JStr (lit "y")))
  /\ getByPath GroupExamples.user_record (lit "..user..id.") = Return (Some (JStr (lit "u1"))).
Proof.
  destruct getByPath_follows_a_path_piece_by_piece
    as (Hempty & Hown & Hmissing & Hindex & Hnull & Hstep).
  unfold GroupExamples.user_record.
  set (record := JObj [(lit "user", JObj [(lit "id", JStr (lit "u1"))]);
                       (lit "tags", JArr [JStr (lit "x"); JStr (lit "y")]);
                       (lit "n", JNull)]).
  assert (Huser : getByPath record (lit "user")
                  = Return (Some (JObj [(lit "id", JStr (lit "u1"))]))).
  { apply Hown; [split; [discriminate | repeat constructor; discriminate] | reflexivity]. }
  assert (Hn : getByPath record (lit "n") = Return (Some JNull)).
  { apply Hown; [split; [discriminate | repeat constructor; discriminate] | reflexivity]. }
  split; [exact Huser |].
  split.
  { change (lit "user.id") with (lit "user" ++ 46 :: lit "id").
    rewrite Hstep, Huser. cbn [obind].
    apply Hown; [split; [discriminate | repeat constructor; discriminate] | reflexivity]. }
  split.
  { change (lit "user.name") with (lit "user" ++ 46 :: lit "name").
    rewrite Hstep, Huser. cbn [obind].
    apply Hmissing;
      [split; [discriminate | repeat constructor; discriminate]
      | reflexivity | reflexivity]. }
  split.
  { change (lit "name.first") with (lit "name" ++ 46 :: lit "first").
    rewrite Hstep.
    unfold record. rewrite (Hmissing _ (lit "name"));
      [reflexivity
      | split; [discriminate | repeat constructor; discriminate]
      | reflexivity | reflexivity]. }
  split; [exact Hn |].
  split.
  { change (lit "n.x") with (lit "n" ++ 46 :: lit "x").
    rewrite Hstep, Hn. reflexivity. }
  split.
  { change (lit "tags.1") with (lit "tags" ++ 46 :: lit "1").
    rewrite Hstep.
    unfold record.
    rewrite (Hown _ (lit "tags") (JArr [JStr (lit "x"); JStr (lit "y")]));
      [| split; [discriminate | repeat constructor; discriminate] | reflexivity].
    cbn [obind].
    rewrite (Hindex _ (lit "1") 1);
      [reflexivity
      | split; [discriminate | repeat constructor; discriminate] | reflexivity]. }
  change (lit "..user..id.") with ([] ++ 46 :: ([] ++ 46 :: (lit "user" ++ 46 ::
            ([] ++ 46 :: (lit "id" ++ 46 :: []))))).
  rewrite Hstep, Hempty. cbn [obind].
  rewrite Hstep, Hempty. cbn [obind].
  rewrite Hstep, Huser. cbn [obind].
  rewrite Hstep, Hempty. cbn [obind].
  rewrite Hstep.
  rewrite (Hown _ (lit "id") (JStr (lit "u1")));
    [| split; [discriminate | repeat constructor; discriminate] | reflexivity].
  cbn [obind]. apply Hempty.
Defined.

Module StateFacts.
Import State StateVocabulary.

Ltac bools :=
  repeat match goal with
         | H : _ && _ = true |- _ => apply andb_true_iff in H; destruct H
         | H : _ || _ = true |- _ => apply orb_true_iff in H; destruct H
         | H : _ || _ = false |- _ => apply orb_false_iff in H; destruct H
         | H : (_ <=? _) = true |- _ => apply Z.leb_le in H
         | H : (_ <=? _) = false |- _ => apply Z.leb_gt in H
         | H : (_ <? _) = true |- _ => apply Z.ltb_lt in H
         | H : (_ =? _) = true |- _ => apply Z.eqb_eq in H
         | H : (_ =? _) = false |- _ => apply Z.eqb_neq in H
         | H : negb _ = true |- _ => apply negb_true_iff in H
         | H : negb _ = false |- _ => apply negb_false_iff in H
         end.

Lemma allowed_range (c : Z) : allowed c = true -> 0 <= c < 128.
Proof. unfold allowed. intros H. bools; lia. Qed.

Lemma allowed_lower (c : Z) : allowed c = true -> lower c = c.
Proof.
  unfold allowed, lower. intros H.
  destruct ((65 <=? c) && (c <=? 90)) eqn:E; [| reflexivity].
  bools; lia.
Qed.

Lemma underscore_allowed (c : Z) : underscore c = true -> allowed c = true.
Proof.
  unfold underscore, allowed. intros H. rewrite H.
  rewrite !orb_true_r. reflexivity.
Qed.

Lemma replace_runs_keeps (P : Z -> Prop) (in_class : Z -> bool) (s : jsstring) :
  P 95 ->
  Forall (fun c => in_class c = false -> P c) s ->
  forall inside, Forall P (replace_runs in_class inside s).
Proof.
  intros Hu Hs. induction Hs as [| c s Hc Hs IH]; intros inside; [constructor |].
  cbn [replace_runs]. destruct (in_class c) eqn:E.
  - destruct inside; [apply IH | constructor; [exact Hu | apply IH]].
  - constructor; [apply Hc; reflexivity | apply IH].
Qed.

Lemma replace_runs_same (in_class : Z -> bool) (s : jsstring) :
  Forall (fun c => in_class c = false) s ->
  forall inside, replace_runs in_class inside s = s.
Proof.
  intros Hs. induction Hs as [| c s Hc Hs IH]; intros inside; [reflexivity |].
  cbn [replace_runs]. rewrite Hc, IH. reflexivity.
Qed.

Lemma replace_runs_tidy (s : jsstring) :
  forall inside, tidy inside (replace_runs underscore inside s) = true.
Proof.
  induction s as [| c s IH]; intros inside; [reflexivity |].
  cbn [replace_runs]. destruct (underscore c) eqn:E.
  - destruct inside; [apply IH |].
    cbn [tidy]. change (underscore 95) with true. cbn [negb andb]. apply IH.
  - cbn [tidy]. rewrite E. apply IH.
Qed.

Lemma tidy_replace_runs (s : jsstring) :
  forall inside, tidy inside s = true -> replace_runs underscore inside s = s.
Proof.
  induction s as [| c s IH]; intros inside H; [reflexivity |].
  cbn [tidy] in H. cbn [replace_runs]. destruct (underscore c) eqn:E.
  - apply andb_true_iff in H. destruct H as [Hin H]. apply negb_true_iff in Hin.
    subst inside. unfold underscore in E. apply Z.eqb_eq in E. subst c.
    rewrite (IH true H). reflexivity.
  - rewrite (IH false H). reflexivity.
Qed.

Lemma tidy_weaken (s : jsstring) (after : bool) :
  tidy after s = true -> tidy false s = true.
Proof.
  destruct s as [| c s]; [reflexivity |]. cbn [tidy].
  destruct (underscore c); [| trivial].
  intros H. apply andb_true_iff in H. destruct H as [_ H]. exact H.
Qed.

Lemma tidy_tail (c : Z) (s : jsstring) (after : bool) :
  tidy after (c :: s) = true -> tidy false s = true.
Proof.
  cbn [tidy]. destruct (underscore c); intros H.
  - apply andb_true_iff in H. destruct H as [_ H]. exact (tidy_weaken _ _ H).
  - exact H.
Qed.

Lemma tidy_prefix (p q : jsstring) :
  forall after, tidy after (p ++ q) = true -> tidy after p = true.
Proof.
  induction p as [| c p IH]; intros after H; [reflexivity |].
  cbn [List.app tidy] in *. destruct (underscore c).
  - apply andb_true_iff in H. destruct H as [Ha H]. rewrite Ha, (IH _ H). reflexivity.
  - exact (IH _ H).
Qed.

(** [drop_underscores] cuts a run of underscores off the front. *)
Lemma drop_underscores_suffix (s : jsstring) :
  exists run, s = run ++ drop_underscores s
              /\ Forall (fun c => underscore c = true) run.
Proof.
  induction s as [| c s (run & Hs & Hrun)]; [exists []; split; [reflexivity | constructor] |].
  cbn [drop_underscores]. destruct (underscore c) eqn:E.
  - exists (c :: run). split; [cbn [List.app]; congruence | constructor; assumption].
  - exists []. split; [reflexivity | constructor].
Qed.

Lemma drop_underscores_start (s : jsstring) :
  starts_with_underscore (drop_underscores s) = false.
Proof.
  induction s as [| c s IH]; [reflexivity |].
  cbn [drop_underscores]. destruct (underscore c) eqn:E; [exact IH | exact E].
Qed.

Lemma drop_underscores_same (s : jsstring) :
  starts_with_underscore s = false -> drop_underscores s = s.
Proof.
  destruct s as [| c s]; [reflexivity |]. cbn. intros ->. reflexivity.
Qed.

Lemma drop_underscores_tidy (s : jsstring) :
  tidy false s = true -> tidy false (drop_underscores s) = true.
Proof.
  induction s as [| c s IH]; intros H; [reflexivity |].
  cbn [drop_underscores]. destruct (underscore c) eqn:E; [| exact H].
  apply IH. exact (tidy_tail _ _ _ H).
Qed.

Lemma drop_underscores_nil (s : jsstring) :
  drop_underscores s = [] <-> Forall (fun c => underscore c = true) s.
Proof.
  induction s as [| c s IH]; [split; [constructor | reflexivity] |].
  cbn [drop_underscores]. destruct (underscore c) eqn:E.
  - rewrite IH. split; [intros H; constructor; assumption | intros H; inversion H; assumption].
  - split; [discriminate | intros H; inversion H; congruence].
Qed.

(** What [strip_underscores] leaves is in the middle of what it got. *)
Lemma strip_underscores_middle (s : jsstring) :
  exists front back,
    s = front ++ strip_underscores s ++ back
    /\ Forall (fun c => underscore c = true) front
    /\ Forall (fun c => underscore c = true) back.
Proof.
  unfold strip_underscores.
  destruct (drop_underscores_suffix s) as (front & Hs & Hfront).
  destruct (drop_underscores_suffix (List.rev (drop_underscores s)))
    as (run & Hr & Hrun).
  exists front, (List.rev run). split; [| split].
  - rewrite Hs at 1. f_equal.
    rewrite <- rev_app_distr, <- Hr, rev_involutive. reflexivity.
  - exact Hfront.
  - apply Forall_rev. exact Hrun.
Qed.

Lemma strip_underscores_start (s : jsstring) :
  starts_with_underscore (strip_underscores s) = false.
Proof.
  pose proof (drop_underscores_start s) as Hstart.
  unfold strip_underscores.
  destruct (drop_underscores_suffix (List.rev (drop_underscores s)))
    as (run & Hr & _).
  assert (Ht : drop_underscores s
               = List.rev (drop_underscores (List.rev (drop_underscores s)))
                 ++ List.rev run).
  { rewrite <- rev_app_distr, <- Hr, rev_involutive. reflexivity. }
  destruct (List.rev (drop_underscores (List.rev (drop_underscores s))))
    as [| c t]; [reflexivity |].
  rewrite Ht in Hstart. exact Hstart.
Qed.

Lemma strip_underscores_end (s : jsstring) :
  starts_with_underscore (List.rev (strip_underscores s)) = false.
Proof.
  unfold strip_underscores. rewrite rev_involutive. apply drop_underscores_start.
Qed.

Lemma strip_underscores_tidy (s : jsstring) :
  tidy false s = true -> tidy false (strip_underscores s) = true.
Proof.
  intros H. apply drop_underscores_tidy in H.
  unfold strip_underscores.
  destruct (drop_underscores_suffix (List.rev (drop_underscores s)))
    as (run & Hr & _).
  assert (Ht : drop_underscores s
               = List.rev (drop_underscores (List.rev (drop_underscores s)))
                 ++ List.rev run).
  { rewrite <- rev_app_distr, <- Hr, rev_involutive. reflexivity. }
  rewrite Ht in H. exact (tidy_prefix _ _ _ H).
Qed.

Lemma strip_underscores_same (s : jsstring) :
  starts_with_underscore s = false ->
  starts_with_underscore (List.rev s) = false ->
  strip_underscores s = s.
Proof.
  intros Hs He. unfold strip_underscores.
  rewrite (drop_underscores_same s Hs), (drop_underscores_same _ He).
  apply rev_involutive.
Qed.

Lemma strip_underscores_nil (s : jsstring) :
  strip_underscores s = [] <-> Forall (fun c => underscore c = true) s.
Proof.
  split.
  - intros H. destruct (strip_underscores_middle s) as (front & back & Hs & Hf & Hb).
    rewrite H in Hs. rewrite Hs. apply Forall_app. split; assumption.
  - intros H. unfold strip_underscores.
    rewrite (proj2 (drop_underscores_nil s) H). reflexivity.
Qed.

Lemma replace_runs_underscores (in_class : Z -> bool) (s : jsstring) :
  forall inside,
    Forall (fun c => underscore c = true) (replace_runs in_class inside s)
    <-> Forall (fun c => in_class c = true \/ underscore c = true) s.
Proof.
  induction s as [| c s IH]; intros inside; [split; constructor |].
  cbn [replace_runs]. destruct (in_class c) eqn:E.
  - destruct inside.
    + rewrite IH. split; [intros H; constructor; [left; exact E | exact H]
                         | intros H; inversion H; assumption].
    + split.
      * intros H. inversion H; subst. constructor; [left; exact E |].
        apply (IH true). assumption.
      * intros H. inversion H; subst. constructor; [reflexivity |].
        apply (IH true). assumption.
  - split.
    + intros H. inversion H; subst. constructor; [right; assumption |].
      apply (IH false). assumption.
    + intros H. inversion H as [| ? ? [Hc | Hc] Hrest]; subst; [congruence |].
      constructor; [exact Hc | apply (IH false); exact Hrest].
Qed.

Lemma ascii_forallb (s : jsstring) :
  ascii_only s -> forallb (fun c => (0 <=? c) && (c <? 128)) s = true.
Proof.
  intros H. apply forallb_forall. intros c Hc.
  unfold ascii_only in H. rewrite Forall_forall in H. specialize (H c Hc).
  apply andb_true_iff. split; [apply Z.leb_le | apply Z.ltb_lt]; lia.
Qed.

Lemma safe_value (key : jsstring) :
  ascii_only key ->
  safe key = Return (strip_underscores
                       (replace_runs underscore false
                          (replace_runs (fun c => negb (allowed c)) false
                             (map lower key)))).
Proof. intros H. unfold safe. rewrite (ascii_forallb key H). reflexivity. Qed.

Lemma Forall_allowed_In (s t : jsstring) :
  (forall c, In c t -> In c s) ->
  Forall (fun c => allowed c = true) s -> Forall (fun c => allowed c = true) t.
Proof.
  intros Hin Hs. rewrite Forall_forall in *. intros c Hc. apply Hs, Hin, Hc.
Qed.

Lemma safe_clean (name : jsstring) : clean_name name -> safe name = Return name.
Proof.
  intros (Hall & Hs & He & Ht).
  assert (Hascii : ascii_only name).
  { unfold ascii_only. rewrite Forall_forall in *. intros c Hc.
    apply allowed_range, Hall, Hc. }
  rewrite (safe_value name Hascii).
  assert (Hlow : map lower name = name).
  { clear - Hall. induction Hall as [| c s Hc Hs IH]; [reflexivity |].
    cbn [map]. rewrite (allowed_lower c Hc), IH. reflexivity. }
  rewrite Hlow.
  rewrite (replace_runs_same (fun c => negb (allowed c)) name).
  - rewrite (tidy_replace_runs name false Ht).
    rewrite (strip_underscores_same name Hs He). reflexivity.
  - rewrite Forall_forall in *. intros c Hc. rewrite (Hall c Hc). reflexivity.
Qed.

End StateFacts.

Module StateRunFacts.
Import State.
Section Files.
Context {files : Files}.

Lemma getStateDir_reads (ctx : Ctx) (w w' : World) (dir : jsstring) :
  getStateDir ctx w = (Return dir, w') -> w' = w.
Proof.
  unfold getStateDir. intros H.
  repeat match type of H with
         | context [match ?x with _ => _ end] => destruct x
         end; inversion H; reflexivity.
Qed.

Lemma getStateDir_same_home (ctx : Ctx) (w v : World) :
  homedir v = homedir w ->
  fst (getStateDir ctx v) = fst (getStateDir ctx w).
Proof.
  unfold getStateDir. intros ->.
  repeat match goal with
         | |- context [match ?x with _ => _ end] => destruct x
         end; reflexivity.
Qed.

Lemma getStateDir_later (ctx : Ctx) (w v : World) (dir : jsstring) :
  getStateDir ctx w = (Return dir, w) ->
  homedir v = homedir w ->
  getStateDir ctx v = (Return dir, v).
Proof.
  intros H Hhome. pose proof (getStateDir_same_home ctx w v Hhome) as Hfst.
  rewrite H in Hfst. cbn [fst] in Hfst.
  destruct (getStateDir ctx v) as [o v'] eqn:E. cbn [fst] in Hfst. subst o.
  rewrite (getStateDir_reads ctx v v' dir E). reflexivity.
Qed.

End Files.
End StateRunFacts.

Import State StateVocabulary.

(** X19.  [keyToPath] makes a clean file name of a key: the name has the
    letters a-z, digits, dots, hyphens and underscores only (so no
    separator of a path), no underscore at either end and no two in a
    row; and a clean name is its own file name. *)
Theorem safe_gives_a_clean_name (key : jsstring) :
  ascii_only key ->
  exists name,
    safe key = Return name /\ clean_name name /\ safe name = Return name.
Proof.
  intros Hascii. eexists. split; [apply (StateFacts.safe_value key Hascii) |].
  set (first := replace_runs (fun c => negb (allowed c)) false (map lower key)).
  set (second := replace_runs underscore false first).
  assert (Hfirst : Forall (fun c => allowed c = true) first).
  { apply StateFacts.replace_runs_keeps; [reflexivity |].
    apply Forall_forall. intros c _ H. apply negb_false_iff in H. exact H. }
  assert (Hsecond : Forall (fun c => allowed c = true) second).
  { apply StateFacts.replace_runs_keeps; [reflexivity |].
    eapply Forall_impl; [| exact Hfirst]. intros c H _. exact H. }
  assert (Hclean : clean_name (strip_underscores second)).
  { split; [| split; [| split]].
    - destruct (StateFacts.strip_underscores_middle second)
        as (front & back & Hs & _ & _).
      apply (StateFacts.Forall_allowed_In second); [| exact Hsecond].
      intros c Hc. rewrite Hs. apply in_or_app. right.
      apply in_or_app. left. exact Hc.
    - apply StateFacts.strip_underscores_start.
    - apply StateFacts.strip_underscores_end.
    - apply StateFacts.strip_underscores_tidy.
      apply (StateFacts.replace_runs_tidy first false). }
  split; [exact Hclean | apply StateFacts.safe_clean; exact Hclean].
Qed.

(** X19 on a key with capitals, spaces, a slash, brackets and underscores at
    its end. *)
Lemma safe_on_a_spaced_key :
  exists name,
    safe (lit "  My Key/v2 (draft)__") = Return name /\ clean_name name
    /\ safe name = Return name.
Proof.
  apply (safe_gives_a_clean_name (lit "  My Key/v2 (draft)__")).
  unfold ascii_only. vm_compute. repeat constructor; discriminate.
Defined.

(** X20.  [keyToPath] refuses exactly the keys without a letter, a digit, a dot
    or a hyphen; every other key gets a file of the state directory. *)
Theorem keyToPath_refuses_keys_without_a_name
  {files : Files} (stateDir key : jsstring) :
  ascii_only key ->
  if existsb name_character key
  then exists name,
         name <> [] /\ safe key = Return name
         /\ keyToPath stateDir key = Return (path_join [stateDir; name ++ lit ".json"])
  else keyToPath stateDir key = Throw (newError (lit "state key is empty/invalid")).
Proof.
  intros Hascii.
  assert (Hempty : strip_underscores
                     (replace_runs underscore false
                        (replace_runs (fun c => negb (allowed c)) false (map lower key)))
                   = []
                   <-> existsb name_character key = false).
  { rewrite StateFacts.strip_underscores_nil, StateFacts.replace_runs_underscores,
      Forall_forall.
    assert (Hinner : (forall c,
                        In c (replace_runs (fun c => negb (allowed c)) false (map lower key)) ->
                        underscore c = true \/ underscore c = true)
                     <-> Forall (fun c => underscore c = true)
                           (replace_runs (fun c => negb (allowed c)) false (map lower key))).
    { rewrite Forall_forall. split; intros H c Hc; [destruct (H c Hc); assumption |].
      left. exact (H c Hc). }
    rewrite Hinner, StateFacts.replace_runs_underscores, Forall_forall.
    split.
    - intros H. destruct (existsb name_character key) eqn:E; [| reflexivity].
      apply existsb_exists in E. destruct E as (c & Hc & Hname).
      unfold name_character in Hname. apply andb_true_iff in Hname.
      destruct Hname as [Hal Hus]. apply negb_true_iff in Hus.
      destruct (H (lower c) (in_map lower key c Hc)) as [Hbad | Hu].
      + rewrite Hal in Hbad. discriminate.
      + exfalso. unfold underscore, lower in *.
        destruct ((65 <=? c) && (c <=? 90)) eqn:Ec; StateFacts.bools; lia.
    - intros H c Hc. apply in_map_iff in Hc. destruct Hc as (d & <- & Hd).
      assert (Hname : name_character d = false).
      { destruct (name_character d) eqn:E; [| reflexivity].
        assert (Hex : existsb name_character key = true)
          by (apply existsb_exists; exists d; split; assumption).
        congruence. }
      unfold name_character in Hname. apply andb_false_iff in Hname.
      destruct Hname as [Hal | Hus]; [left; rewrite Hal; reflexivity |].
      right. apply negb_false_iff in Hus. unfold underscore, lower in *.
      apply Z.eqb_eq in Hus. subst d. reflexivity. }
  unfold keyToPath. rewrite (StateFacts.safe_value key Hascii). cbn [obind].
  destruct (existsb name_character key).
  - destruct (strip_underscores _) as [| c name] eqn:E.
    + destruct Hempty as [Hempty _]. specialize (Hempty eq_refl). discriminate.
    + exists (c :: name). repeat split. discriminate.
  - rewrite (proj2 Hempty eq_refl). reflexivity.
Qed.

(** X20 on a key that has letters and digits and on one that has none. *)
Lemma keyToPath_on_two_keys :
  (exists name,
      name <> [] /\ safe (lit "PR #12") = Return name
      /\ @keyToPath StateExamples.example_files (lit "/tmp/state") (lit "PR #12")
         = Return (@path_join StateExamples.example_files
                     [lit "/tmp/state"; name ++ lit ".json"]))
  /\ @keyToPath StateExamples.example_files (lit "/tmp/state") (lit "?? __ !")
     = Throw (newError (lit "state key is empty/invalid")).
Proof.
  split.
  - assert (Hascii : ascii_only (lit "PR #12"))
      by (unfold ascii_only; vm_compute; repeat constructor; discriminate).
    pose proof (@keyToPath_refuses_keys_without_a_name StateExamples.example_files
                  (lit "/tmp/state") (lit "PR #12") Hascii) as H.
    change (existsb name_character (lit "PR #12")) with true in H.
    exact H.
  - assert (Hascii : ascii_only (lit "?? __ !"))
      by (unfold ascii_only; vm_compute; repeat constructor; discriminate).
    pose proof (@keyToPath_refuses_keys_without_a_name StateExamples.example_files
                  (lit "/tmp/state") (lit "?? __ !") Hascii) as H.
    change (existsb name_character (lit "?? __ !")) with false in H.
    exact H.
Defined.

(** X21.  What [state.set] stores under a key, state.get and readState of the
    same key give back: the one input item, or the array of the input
    items when there was not exactly one. *)
Theorem state_set_then_get
  {files : Files} (key : jsstring) (ctx : Ctx) (input : Stream)
  (items : list json) (dir path : jsstring) (w w1 w2 w3 : World) :
  let value := one_or_all items in
  let text := JSON_stringify_pretty value ++ [10] in
  input w = (Return items, w1) ->
  getStateDir ctx w1 = (Return dir, w1) ->
  keyToPath dir key = Return path ->
  mkdir dir w1 = (Return tt, w2) ->
  writeFile path text w2 = (Return tt, w3) ->
  homedir w3 = homedir w1 ->
  readFile path w3 = (Return text, w3) ->
  JSON_parse text = Return value ->
  stateSet_run key input ctx w
  = (Return (Some (mkStageResult (Some (asStream [value])) false false)), w3)
  /\ stateGet_run key (asStream []) ctx w3
     = (Return (Some (mkStageResult (Some (asStream [value])) false false)), w3)
  /\ readState key ctx w3 = (Return value, w3).
Proof.
  intros value text Hinput Hdir Hpath Hmkdir Hwrite Hhome Hread Hparse.
  pose proof (StateRunFacts.getStateDir_later ctx w1 w3 dir Hdir Hhome) as Hdir3.
  split; [| split].
  - unfold stateSet_run.
    rewrite (bind_Return _ _ _ _ _ Hinput).
    rewrite (bind_Return _ _ _ _ _ Hdir).
    unfold lift at 1. rewrite Hpath.
    unfold bind at 1. unfold store_value.
    fold value. fold text.
    unfold bind. rewrite Hmkdir, Hwrite. reflexivity.
  - unfold stateGet_run.
    unfold bind at 1. unfold asStream, ret at 1.
    rewrite (bind_Return _ _ _ _ _ Hdir3).
    unfold lift at 1. rewrite Hpath. unfold bind at 1.
    assert (Hvalue : read_value path w3 = (Return value, w3)).
    { unfold read_value. apply try_catch_Return.
      rewrite (bind_Return _ _ _ _ _ Hread). unfold lift. rewrite Hparse. reflexivity. }
    rewrite (bind_Return _ _ _ _ _ Hvalue). reflexivity.
  - unfold readState.
    rewrite (bind_Return _ _ _ _ _ Hdir3).
    unfold lift at 1. rewrite Hpath. unfold bind at 1.
    apply try_catch_Return.
    rewrite (bind_Return _ _ _ _ _ Hread). unfold lift. rewrite Hparse. reflexivity.
Qed.

(** X21 on one item stored under [Demo Key] in a directory that the
    environment names. *)
Lemma state_set_then_get_of_one_item :
  @stateSet_run StateExamples.example_files (lit "Demo Key")
    (asStream StateExamples.one_item) StateExamples.state_ctx Examples.w0
  = (Return (Some (mkStageResult (Some (asStream StateExamples.one_item)) false false)),
     StateExamples.after_set)
  /\ @stateGet_run StateExamples.example_files (lit "Demo Key") (asStream [])
       StateExamples.state_ctx StateExamples.after_set
     = (Return (Some (mkStageResult (Some (asStream StateExamples.one_item)) false false)),
        StateExamples.after_set)
  /\ @readState StateExamples.example_files (lit "Demo Key") StateExamples.state_ctx
       StateExamples.after_set
     = (Return (JObj [(lit "a", JNum 1)]), StateExamples.after_set).
Proof.
  apply (@state_set_then_get StateExamples.example_files (lit "Demo Key")
           StateExamples.state_ctx (asStream StateExamples.one_item)
           StateExamples.one_item (lit "/tmp/state") (lit "/tmp/state/demo_key.json")
           Examples.w0 Examples.w0
           (Examples.record (Examples.effect "mkdir" (lit "/tmp/state") JNull) Examples.w0)
           StateExamples.after_set).
  - reflexivity.
  - vm_compute. reflexivity.
  - vm_compute. reflexivity.
  - reflexivity.
  - vm_compute. reflexivity.
  - reflexivity.
  - vm_compute. reflexivity.
  - vm_compute. reflexivity.
Defined.

(** X22.  [state.get] of a key that has no file yields the one item [null];
    any other failure of the read, and a file that is no JSON text, make
    it throw what the read or the parser threw. *)
Theorem state_get_without_a_readable_file
  {files : Files} (key : jsstring) (ctx : Ctx) (input : Stream)
  (items : list json) (dir path : jsstring) (w w1 w2 : World) :
  input w = (Return items, w1) ->
  getStateDir ctx w1 = (Return dir, w1) ->
  keyToPath dir key = Return path ->
  (forall err,
      readFile path w1 = (Throw err, w2) ->
      stateGet_run key input ctx w
      = if LlmTaskInvoke.is_ENOENT err
        then (Return (Some (mkStageResult (Some (asStream [JNull])) false false)), w2)
        else (Throw err, w2))
  /\ (forall text err,
         readFile path w1 = (Return text, w2) ->
         JSON_parse text = Throw err ->
         LlmTaskInvoke.is_ENOENT err = false ->
         stateGet_run key input ctx w = (Throw err, w2)).
Proof.
  intros Hinput Hdir Hpath.
  assert (Hhead : stateGet_run key input ctx w
                  = bind (read_value path)
                      (fun value => ret (Some (mkStageResult (Some (asStream [value]))
                                                             false false))) w1).
  { unfold stateGet_run. rewrite (bind_Return _ _ _ _ _ Hinput).
    rewrite (bind_Return _ _ _ _ _ Hdir).
    unfold lift at 1. rewrite Hpath. reflexivity. }
  split.
  - intros err Hread. rewrite Hhead. unfold bind at 1, read_value.
    rewrite (try_catch_Throw _ _ w1 w2 err).
    + destruct (LlmTaskInvoke.is_ENOENT err); reflexivity.
    + apply bind_Throw. exact Hread.
  - intros text err Hread Hparse Hcode. rewrite Hhead. unfold bind at 1, read_value.
    rewrite (try_catch_Throw _ _ w1 w2 err).
    + rewrite Hcode. reflexivity.
    + rewrite (bind_Return _ _ _ _ _ Hread). unfold lift. rewrite Hparse. reflexivity.
Qed.

(** X22 on a key without a file and on a file with half a JSON text. *)
Lemma state_get_of_a_missing_and_of_a_torn_file :
  @stateGet_run StateExamples.example_files (lit "missing") (asStream [])
    StateExamples.state_ctx Examples.w0
  = (Return (Some (mkStageResult (Some (asStream [JNull])) false false)), Examples.w0)
  /\ exists err,
       err_kind err = KSyntaxError
       /\ @stateGet_run StateExamples.example_files (lit "torn") (asStream [])
            StateExamples.state_ctx StateExamples.torn_world
          = (Throw err, StateExamples.torn_world).
Proof.
  split.
  - assert (Hdir : @getStateDir StateExamples.example_files StateExamples.state_ctx
                     Examples.w0 = (Return (lit "/tmp/state"), Examples.w0))
      by (vm_compute; reflexivity).
    assert (Hpath : @keyToPath StateExamples.example_files (lit "/tmp/state")
                      (lit "missing") = Return (lit "/tmp/state/missing.json"))
      by (vm_compute; reflexivity).
    destruct (@state_get_without_a_readable_file StateExamples.example_files
                (lit "missing") StateExamples.state_ctx (asStream []) []
                (lit "/tmp/state") (lit "/tmp/state/missing.json")
                Examples.w0 Examples.w0 Examples.w0 eq_refl Hdir Hpath)
      as [Hmissing _].
    exact (Hmissing Examples.enoent eq_refl).
  - assert (Hdir : @getStateDir StateExamples.example_files StateExamples.state_ctx
                     StateExamples.torn_world
                   = (Return (lit "/tmp/state"), StateExamples.torn_world))
      by (vm_compute; reflexivity).
    assert (Hpath : @keyToPath StateExamples.example_files (lit "/tmp/state")
                      (lit "torn") = Return (lit "/tmp/state/torn.json"))
      by (vm_compute; reflexivity).
    destruct (@state_get_without_a_readable_file StateExamples.example_files
                (lit "torn") StateExamples.state_ctx (asStream []) []
                (lit "/tmp/state") (lit "/tmp/state/torn.json")
                StateExamples.torn_world StateExamples.torn_world
                StateExamples.torn_world eq_refl Hdir Hpath)
      as [_ Htorn].
    destruct (JSON_parse (lit "{")) as [v | err | |] eqn:Hparse;
      try (vm_compute in Hparse; discriminate).
    exists err. split.
    + vm_compute in Hparse. inversion Hparse. reflexivity.
    + apply (Htorn (lit "{") err).
      * vm_compute. reflexivity.
      * exact Hparse.
      * vm_compute in Hparse. inversion Hparse. reflexivity.
Defined.

Module DiffFacts.
Import State Diff.

Lemma str_leb_total (a : jsstring) :
  forall b, str_leb a b = false -> str_leb b a = true.
Proof.
  induction a as [| x a IH]; intros [| y b] H; cbn [str_leb] in *;
    try discriminate; try reflexivity.
  destruct (x <? y) eqn:Exy; [discriminate |].
  destruct (y <? x) eqn:Eyx; [reflexivity |]. apply IH. exact H.
Qed.

Lemma str_leb_antisym (a : jsstring) :
  forall b, str_leb a b = true -> str_leb b a = true -> a = b.
Proof.
  induction a as [| x a IH]; intros [| y b] H1 H2; cbn [str_leb] in *;
    try discriminate; try reflexivity.
  destruct (x <? y) eqn:Exy; destruct (y <? x) eqn:Eyx; try discriminate.
  - apply Z.ltb_lt in Exy, Eyx. lia.
  - apply Z.ltb_ge in Exy, Eyx. f_equal; [lia | apply IH; assumption].
Qed.

Lemma str_leb_trans (a : jsstring) :
  forall b c, str_leb a b = true -> str_leb b c = true -> str_leb a c = true.
Proof.
  induction a as [| x a IH]; intros [| y b] [| z c] H1 H2; cbn [str_leb] in *;
    try discriminate; try reflexivity.
  destruct (x <? y) eqn:Exy; destruct (y <? z) eqn:Eyz;
    destruct (x <? z) eqn:Exz; try reflexivity;
    try (apply Z.ltb_lt in Exy); try (apply Z.ltb_ge in Exy);
    try (apply Z.ltb_lt in Eyz); try (apply Z.ltb_ge in Eyz);
    try (apply Z.ltb_lt in Exz); try (apply Z.ltb_ge in Exz); try lia.
  - destruct (z <? y) eqn:Ezy; [discriminate |]. apply Z.ltb_ge in Ezy. lia.
  - destruct (y <? x) eqn:Eyx; [discriminate |]. apply Z.ltb_ge in Eyx. lia.
  - destruct (y <? x) eqn:Eyx; [discriminate |].
    destruct (z <? y) eqn:Ezy; [discriminate |].
    apply Z.ltb_ge in Eyx, Ezy.
    assert (Hzx : (z <? x) = false) by (apply Z.ltb_ge; lia).
    rewrite Hzx. exact (IH b c H1 H2).
Qed.

Lemma insert_key_swap (a b : jsstring) (l : list jsstring) :
  insert_key a (insert_key b l) = insert_key b (insert_key a l).
Proof.
  induction l as [| x l IH]; cbn [insert_key].
  - destruct (str_leb a b) eqn:Eab; destruct (str_leb b a) eqn:Eba; try reflexivity.
    + rewrite (str_leb_antisym a b Eab Eba). reflexivity.
    + apply str_leb_total in Eab. congruence.
  - destruct (str_leb b x) eqn:Ebx; destruct (str_leb a x) eqn:Eax;
      cbn [insert_key]; rewrite ?Ebx, ?Eax.
    + destruct (str_leb a b) eqn:Eab; destruct (str_leb b a) eqn:Eba; try reflexivity.
      * rewrite (str_leb_antisym a b Eab Eba). reflexivity.
      * apply str_leb_total in Eab. congruence.
    + destruct (str_leb a b) eqn:Eab.
      * rewrite (str_leb_trans a b x Eab Ebx) in Eax. discriminate.
      * reflexivity.
    + destruct (str_leb b a) eqn:Eba.
      * rewrite (str_leb_trans b a x Eba Eax) in Ebx. discriminate.
      * reflexivity.
    + rewrite IH. reflexivity.
Qed.

(** Sorting does not see the order the keys came in. *)
Lemma sort_Permutation (l l' : list jsstring) :
  Permutation l l' -> sort l = sort l'.
Proof.
  intros H. induction H as [| x l l' H IH | x y l | l l' l'' H1 IH1 H2 IH2].
  - reflexivity.
  - unfold sort in *. cbn [fold_right]. rewrite IH. reflexivity.
  - unfold sort. cbn [fold_right]. apply insert_key_swap.
  - congruence.
Qed.

Lemma assoc_In (k : jsstring) (v : json) (l : list (jsstring * json)) :
  NoDup (map fst l) -> In (k, v) l -> assoc k l = Some v.
Proof.
  induction l as [| [k' v'] l IH]; intros Hnd Hin; [destruct Hin |].
  cbn [map fst] in Hnd. inversion Hnd as [| ? ? Hnotin Hnd']; subst.
  cbn [assoc]. destruct Hin as [Heq | Hin].
  - inversion Heq; subst. rewrite str_eqb_refl. reflexivity.
  - destruct (str_eqb k k') eqn:E.
    + apply str_eqb_eq in E. subst k'. exfalso. apply Hnotin.
      apply (in_map fst) in Hin. exact Hin.
    + apply IH; assumption.
Qed.

Lemma assoc_None (k : jsstring) (l : list (jsstring * json)) :
  ~ In k (map fst l) -> assoc k l = None.
Proof.
  induction l as [| [k' v'] l IH]; intros Hnotin; [reflexivity |].
  cbn [assoc]. destruct (str_eqb k k') eqn:E.
  - apply str_eqb_eq in E. subst k'. exfalso. apply Hnotin. left. reflexivity.
  - apply IH. intros H. apply Hnotin. right. exact H.
Qed.

Lemma assoc_Some_In (k : jsstring) (v : json) (l : list (jsstring * json)) :
  assoc k l = Some v -> In (k, v) l.
Proof.
  induction l as [| [k' v'] l IH]; cbn [assoc]; [discriminate |].
  destruct (str_eqb k k') eqn:E.
  - intros H. inversion H; subst. apply str_eqb_eq in E. subst. left. reflexivity.
  - intros H. right. apply IH. exact H.
Qed.

Lemma assoc_Permutation (k : jsstring) (l l' : list (jsstring * json)) :
  NoDup (map fst l) -> Permutation l l' -> assoc k l = assoc k l'.
Proof.
  intros Hnd Hperm.
  assert (Hnd' : NoDup (map fst l')).
  { apply (Permutation_NoDup (l := map fst l)); [apply Permutation_map; exact Hperm | exact Hnd]. }
  destruct (assoc k l) as [v |] eqn:E.
  - symmetry. apply assoc_In; [exact Hnd' |].
    apply (Permutation_in _ Hperm). apply assoc_Some_In. exact E.
  - destruct (assoc k l') as [v |] eqn:E'; [| reflexivity].
    apply assoc_Some_In in E'. apply (Permutation_in _ (Permutation_sym Hperm)) in E'.
    rewrite (assoc_In k v l Hnd E') in E. discriminate.
Qed.

Lemma sort_object_Permutation (l l' : list (jsstring * json)) :
  NoDup (map fst l) -> Permutation l l' -> sort_object l = sort_object l'.
Proof.
  intros Hnd Hperm. unfold sort_object.
  rewrite (sort_Permutation (map fst l) (map fst l') (Permutation_map fst Hperm)).
  f_equal. apply flat_map_ext. intros k.
  rewrite (assoc_Permutation k l l' Hnd Hperm). reflexivity.
Qed.

(** The text of a value other than [null] is not the text of [null]. *)
Lemma uint_chars_head (d : Decimal.uint) :
  match uint_chars d with
  | c :: _ => 48 <= c <= 57
  | [] => True
  end.
Proof. destruct d; cbn [uint_chars]; try exact I; lia. Qed.

Lemma null_text : lit "null" = [110; 117; 108; 108].
Proof. reflexivity. Qed.

Lemma stringify_null (v : json) :
  JSON_stringify v = lit "null" ->
  match v with JNull | JInf _ => True | _ => False end.
Proof.
  rewrite null_text.
  destruct v as [| [|] | n | m e | neg | s | l | l]; try (intros _; exact I).
  - change (JSON_stringify (JBool true)) with [116; 114; 117; 101]. discriminate.
  - change (JSON_stringify (JBool false)) with [102; 97; 108; 115; 101]. discriminate.
  - change (JSON_stringify (JNum n)) with (int_chars n).
    intros H. exfalso. unfold int_chars, nat_chars in H.
    destruct n as [| p | p]; [discriminate | | inversion H].
    pose proof (uint_chars_head (N.to_uint (N.pos p))) as Hh.
    rewrite H in Hh. lia.
  - change (JSON_stringify (JDec m e)) with (dec_chars m e).
    intros H. exfalso.
    destruct (NumberFacts.dec_chars_head m e) as (c & r & Hc & Hd).
    rewrite Hc in H. inversion H. subst c. destruct Hd as [Hd | Hd]; [| lia].
    discriminate Hd.
  - change (JSON_stringify (JStr s)) with (QuoteJSONString s).
    intros H. unfold QuoteJSONString in H. inversion H.
  - intros H. apply (f_equal (@hd Z 0)) in H. exfalso. revert H.
    change (hd 0 (JSON_stringify (JArr l))) with 91. cbn [hd]. discriminate.
  - intros H. apply (f_equal (@hd Z 0)) in H. exfalso. revert H.
    change (hd 0 (JSON_stringify (JObj l))) with 123. cbn [hd]. discriminate.
Qed.

Lemma replaced_null (v : json) :
  match replaced v with JNull | JInf _ => True | _ => False end ->
  match v with JNull | JInf _ => True | _ => False end.
Proof. destruct v; cbn [replaced]; intros H; exact H. Qed.

(** [null] and the infinities are written alike, and nothing else is
    written as they are. *)
Lemma stableStringify_null (v : json) :
  str_eqb (stableStringify JNull) (stableStringify v)
  = match v with JNull | JInf _ => true | _ => false end.
Proof.
  destruct (str_eqb (stableStringify JNull) (stableStringify v)) eqn:E.
  - apply str_eqb_eq in E. unfold stableStringify in E. cbn [replaced] in E.
    symmetry in E. apply stringify_null, replaced_null in E.
    destruct v; try contradiction; reflexivity.
  - destruct v; try reflexivity; rewrite str_eqb_refl in E; discriminate.
Qed.

Lemma stableStringify_Permutation (l l' : list (jsstring * json)) :
  NoDup (map fst l) ->
  Permutation (map (fun kv => (fst kv, replaced (snd kv))) l)
              (map (fun kv => (fst kv, replaced (snd kv))) l') ->
  stableStringify (JObj l) = stableStringify (JObj l').
Proof.
  intros Hnd Hperm. unfold stableStringify. cbn [replaced]. do 2 f_equal.
  apply sort_object_Permutation; [| exact Hperm].
  rewrite map_map. cbn [fst]. exact Hnd.
Qed.

End DiffFacts.

Import State Diff DiffVocabulary.

(** X23.  [stableStringify] does not see the order of the keys: two objects
    with the same entries in any order, the values compared as they are
    written, have the same text. *)
Theorem stableStringify_ignores_key_order (l l' : list (jsstring * json)) :
  NoDup (map fst l) ->
  Permutation (written l) (written l') ->
  stableStringify (JObj l) = stableStringify (JObj l').
Proof.
  intros Hnd Hperm. apply DiffFacts.stableStringify_Permutation; assumption.
Qed.

(** X23 on an object and the same object with its keys reordered at both
    levels. *)
Lemma stableStringify_of_a_reordered_pr :
  stableStringify (JObj DiffExamples.stored_pr)
  = stableStringify (JObj DiffExamples.fresh_pr).
Proof.
  apply stableStringify_ignores_key_order.
  - vm_compute. repeat constructor; cbn [In]; intros H;
      repeat (destruct H as [H | H]; [discriminate H |]); exact H.
  - vm_compute. apply perm_swap.
Defined.

(** X24.  [diff.last] reports no change when the value it gets has the entries
    of the stored one in another order; it yields the suppressed marker
    with changesOnly and the full result without, and it writes the file
    again in both cases. *)
Theorem diffLast_of_a_reordered_value
  {files : Files} (key : jsstring) (changesOnly : bool) (ctx : Ctx)
  (input : Stream) (stored fresh : list (jsstring * json))
  (dir path text : jsstring) (w w1 w2 w3 w4 : World) :
  input w = (Return [JObj fresh], w1) ->
  getStateDir ctx w1 = (Return dir, w1) ->
  keyToPath dir key = Return path ->
  readFile path w1 = (Return text, w2) ->
  JSON_parse text = Return (JObj stored) ->
  NoDup (map fst stored) ->
  Permutation (written stored) (written fresh) ->
  mkdir dir w2 = (Return tt, w3) ->
  writeFile path (JSON_stringify_pretty (JObj fresh) ++ [10]) w3 = (Return tt, w4) ->
  diffLast_run key changesOnly input ctx w
  = (Return (Some (mkStageResult
                     (Some (asStream
                              [if changesOnly then suppressed key
                               else diff_result key false (JObj stored) (JObj fresh)]))
                     false false)), w4).
Proof.
  intros Hinput Hdir Hpath Hread Hparse Hnd Hperm Hmkdir Hwrite.
  unfold diffLast_run.
  rewrite (bind_Return _ _ _ _ _ Hinput). cbn [one_or_all].
  rewrite (bind_Return _ _ _ _ _ Hdir).
  unfold lift at 1. rewrite Hpath. unfold bind at 1.
  assert (Hbefore : read_value path w1 = (Return (JObj stored), w2)).
  { unfold read_value. apply try_catch_Return.
    rewrite (bind_Return _ _ _ _ _ Hread). unfold lift. rewrite Hparse. reflexivity. }
  rewrite (bind_Return _ _ _ _ _ Hbefore).
  rewrite (DiffFacts.stableStringify_Permutation stored fresh Hnd Hperm).
  rewrite str_eqb_refl. cbn [negb].
  assert (Hstore : store_value dir path (JObj fresh) w2 = (Return tt, w4)).
  { unfold store_value. rewrite (bind_Return _ _ _ _ _ Hmkdir). exact Hwrite. }
  rewrite (bind_Return _ _ _ _ _ Hstore).
  destruct changesOnly; reflexivity.
Qed.

(** X24 with changesOnly on a value stored before with its keys in another
    order. *)
Lemma diffLast_of_a_reordered_pr :
  @diffLast_run StateExamples.example_files (lit "pr") true
    (asStream [JObj DiffExamples.fresh_pr]) StateExamples.state_ctx
    DiffExamples.pr_world
  = (Return (Some (mkStageResult (Some (asStream [suppressed (lit "pr")]))
                                 false false)), DiffExamples.after_diff).
Proof.
  apply (@diffLast_of_a_reordered_value StateExamples.example_files (lit "pr") true
           StateExamples.state_ctx (asStream [JObj DiffExamples.fresh_pr])
           DiffExamples.stored_pr DiffExamples.fresh_pr
           (lit "/tmp/state") (lit "/tmp/state/pr.json")
           (JSON_stringify (JObj DiffExamples.stored_pr) ++ [10])
           DiffExamples.pr_world DiffExamples.pr_world DiffExamples.pr_world
           (Examples.record (Examples.effect "mkdir" (lit "/tmp/state") JNull)
              DiffExamples.pr_world)
           DiffExamples.after_diff).
  - reflexivity.
  - vm_compute. reflexivity.
  - vm_compute. reflexivity.
  - vm_compute. reflexivity.
  - vm_compute. reflexivity.
  - vm_compute. repeat constructor; cbn [In]; intros H;
      repeat (destruct H as [H | H]; [discriminate H |]); exact H.
  - vm_compute. apply perm_swap.
  - reflexivity.
  - vm_compute. reflexivity.
Defined.

(** X25.  The first [diff.last] under a key, when no file is there yet, has
    [null] for before and reports a change for every value but [null] and
    the infinities, which [JSON.stringify] writes as [null] too; it stores
    the value. *)
Theorem diffLast_without_a_stored_value
  {files : Files} (key : jsstring) (changesOnly : bool) (ctx : Ctx)
  (input : Stream) (items : list json) (err : exn)
  (dir path : jsstring) (w w1 w2 w3 w4 : World) :
  let value := one_or_all items in
  let changed := match value with JNull | JInf _ => false | _ => true end in
  input w = (Return items, w1) ->
  getStateDir ctx w1 = (Return dir, w1) ->
  keyToPath dir key = Return path ->
  readFile path w1 = (Throw err, w2) ->
  LlmTaskInvoke.is_ENOENT err = true ->
  mkdir dir w2 = (Return tt, w3) ->
  writeFile path (JSON_stringify_pretty value ++ [10]) w3 = (Return tt, w4) ->
  diffLast_run key changesOnly input ctx w
  = (Return (Some (mkStageResult
                     (Some (asStream
                              [if changesOnly && negb changed then suppressed key
                               else diff_result key changed JNull value]))
                     false false)), w4).
Proof.
  intros value changed Hinput Hdir Hpath Hread Hcode Hmkdir Hwrite.
  unfold diffLast_run.
  rewrite (bind_Return _ _ _ _ _ Hinput). fold value.
  rewrite (bind_Return _ _ _ _ _ Hdir).
  unfold lift at 1. rewrite Hpath. unfold bind at 1.
  assert (Hbefore : read_value path w1 = (Return JNull, w2)).
  { unfold read_value. rewrite (try_catch_Throw _ _ w1 w2 err).
    - rewrite Hcode. reflexivity.
    - apply bind_Throw. exact Hread. }
  rewrite (bind_Return _ _ _ _ _ Hbefore).
  rewrite DiffFacts.stableStringify_null.
  assert (Hstore : store_value dir path value w2 = (Return tt, w4)).
  { unfold store_value. rewrite (bind_Return _ _ _ _ _ Hmkdir). exact Hwrite. }
  rewrite (bind_Return _ _ _ _ _ Hstore).
  assert (Hchanged : negb (match value with JNull | JInf _ => true | _ => false end)
                     = changed).
  { unfold changed. destruct value; reflexivity. }
  rewrite Hchanged.
  destruct (changesOnly && negb changed); reflexivity.
Qed.

(** X25 with changesOnly on a first value: the full result comes out. *)
Lemma diffLast_of_a_first_pr :
  @diffLast_run StateExamples.example_files (lit "pr") true
    (asStream [JObj DiffExamples.fresh_pr]) StateExamples.state_ctx Examples.w0
  = (Return (Some (mkStageResult
                     (Some (asStream [diff_result (lit "pr") true JNull
                                        (JObj DiffExamples.fresh_pr)]))
                     false false)), DiffExamples.after_first_diff).
Proof.
  apply (@diffLast_without_a_stored_value StateExamples.example_files (lit "pr") true
           StateExamples.state_ctx (asStream [JObj DiffExamples.fresh_pr])
           [JObj DiffExamples.fresh_pr] Examples.enoent
           (lit "/tmp/state") (lit "/tmp/state/pr.json")
           Examples.w0 Examples.w0 Examples.w0
           (Examples.record (Examples.effect "mkdir" (lit "/tmp/state") JNull)
              Examples.w0)
           DiffExamples.after_first_diff).
  - reflexivity.
  - vm_compute. reflexivity.
  - vm_compute. reflexivity.
  - vm_compute. reflexivity.
  - reflexivity.
  - reflexivity.
  - vm_compute. reflexivity.
Defined.
